(** * Electronic voting core: a shallow embedding and its verified properties

    The development follows the Python sources of the repository:

    - [app/utils/shamir_crypto.py]   Shamir secret sharing and the hybrid cipher;
    - [app/models/*.py]              the document models stored in MongoDB;
    - [app/services/*.py]            token issuance, ballot casting and tally;
    - [app/models/audit_log.py]      the hash-chained audit log.

    Python integers are [Z]; byte strings are [list byte]; text is [string];
    floats are IEEE-754 binary64 values ([spec_float]); a raised exception is
    the [Raise] branch of [result].  The MongoDB collections are lists of
    records inside a [World], which also carries the tick that indexes the
    readings of the clock and of the random generator. *)

From Stdlib Require Import ZArith List String Ascii Bool Lia.
From Stdlib Require Import Sorted Permutation DecimalString.
From Stdlib Require Import Strings.Byte.
From Stdlib Require Import Floats.SpecFloat.
Import ListNotations.

Local Open Scope string_scope.
Local Open Scope Z_scope.

(** * Part I: the model *)

(** ** Exceptions and results *)

Inductive exn : Type :=
| ValueError (msg : string)
| OverflowError (msg : string)
| KeyError (key : string)
| TypeError (msg : string)
| ZeroDivisionError (msg : string).

Inductive result (A : Type) : Type :=
| Ok (a : A)
| Raise (e : exn).

Arguments Ok {A} a.
Arguments Raise {A} e.

Definition bind {A B : Type} (r : result A) (k : A -> result B) : result B :=
  match r with
  | Ok a => k a
  | Raise e => Raise e
  end.

Notation "x <- r ;; k" := (bind r (fun x => k))
  (at level 61, r at next level, right associativity).

Fixpoint mapM {A B : Type} (f : A -> result B) (l : list A) : result (list B) :=
  match l with
  | [] => Ok []
  | a :: l' => b <- f a ;; bs <- mapM f l' ;; Ok (b :: bs)
  end.

(** [enumerate l] is Python's [enumerate(l)]. *)
Definition enumerate {A : Type} (l : list A) : list (nat * A) :=
  combine (seq 0 (List.length l)) l.

(** ** Python built-ins used by the Shamir engine *)

Module Py.

(** [int.from_bytes(b, byteorder='big')]. *)
Definition byte_val (b : byte) : Z := Z.of_N (Byte.to_N b).

Definition int_from_bytes (bs : list byte) : Z :=
  fold_left (fun acc b => acc * 256 + byte_val b) bs 0.

Definition byte_of_Z (z : Z) : byte :=
  match Byte.of_N (Z.to_N z) with
  | Some b => b
  | None => x00
  end.

(** The [len] low-order base-256 digits of [n], most significant first. *)
Fixpoint be_digits (len : nat) (n : Z) : list byte :=
  match len with
  | O => []
  | S k => be_digits k (n / 256) ++ [byte_of_Z (n mod 256)]
  end.

(** [n.to_bytes(length, byteorder='big')]: [OverflowError] when [n] is
    negative or does not fit in [length] bytes. *)
Definition int_to_bytes (n : Z) (length : nat) : result (list byte) :=
  if n <? 0 then Raise (OverflowError "can't convert negative int to unsigned")
  else if 256 ^ Z.of_nat length <=? n then Raise (OverflowError "int too big to convert")
  else Ok (be_digits length n).

Definition hex_digit (d : Z) : ascii :=
  if d <? 10 then ascii_of_nat (48 + Z.to_nat d)
  else ascii_of_nat (87 + Z.to_nat d).

Fixpoint hex_aux (fuel : nat) (n : Z) (acc : string) : string :=
  match fuel with
  | O => acc
  | S f => if n =? 0 then acc
           else hex_aux f (n / 16) (String (hex_digit (n mod 16)) acc)
  end.

(** [format(n, 'x')] for a non-negative [n]: lower-case digits, no prefix. *)
Definition format_x (n : Z) : string :=
  if n =? 0 then "0" else hex_aux (S (Z.to_nat (Z.log2 n))) n "".

Fixpoint repeat_zero (k : nat) (s : string) : string :=
  match k with
  | O => s
  | S k' => String "0" (repeat_zero k' s)
  end.

(** [s.zfill(width)] on an unsigned numeral. *)
Definition zfill (s : string) (width : nat) : string :=
  repeat_zero (width - String.length s) s.

Definition hex_value (c : ascii) : option Z :=
  let n := Z.of_nat (nat_of_ascii c) in
  if (48 <=? n) && (n <=? 57) then Some (n - 48)
  else if (97 <=? n) && (n <=? 102) then Some (n - 87)
  else if (65 <=? n) && (n <=? 70) then Some (n - 55)
  else None.

Fixpoint int16_from (acc : Z) (s : string) : option Z :=
  match s with
  | EmptyString => Some acc
  | String c s' =>
      match hex_value c with
      | Some d => int16_from (acc * 16 + d) s'
      | None => None
      end
  end.

(** [int(s, 16)] on a non-empty string of hexadecimal digits; every other
    string is reported as [ValueError] (Python additionally accepts a sign,
    a [0x] prefix, surrounding blanks and single underscores, none of which
    the share encoder produces). *)
Definition int16 (s : string) : result Z :=
  let invalid :=
    ValueError ("invalid literal for int() with base 16: '" ++ s ++ "'") in
  match s with
  | EmptyString => Raise invalid
  | _ => match int16_from 0 s with
         | Some n => Ok n
         | None => Raise invalid
         end
  end.

(** [str(n)] for an integer: its decimal numeral. *)
Definition str_int (n : Z) : string := NilZero.string_of_int (Z.to_int n).

End Py.

(** ** Shamir secret sharing ([app/utils/shamir_crypto.py]) *)

Definition PRIME : Z := 2 ^ 521 - 1.

Module ShamirSecretSharing.

Record t : Type := {
  threshold : Z;
  total_shares : Z;
  prime : Z
}.

(** [__init__]. *)
Definition init (threshold total_shares : Z) : result t :=
  if total_shares <? threshold then
    Raise (ValueError "Threshold cannot be greater than total shares")
  else if threshold <? 2 then
    Raise (ValueError "Threshold must be at least 2")
  else Ok {| threshold := threshold; total_shares := total_shares; prime := PRIME |}.

(** CPython's bound on nested calls ([sys.getrecursionlimit()], 1000
    unless the program changes it, which this one does not).  The frames
    of the callers count within it, so [extended_gcd] has fewer left. *)
Definition recursion_limit : nat := 1000.

(** The nested [extended_gcd].  Every call is a frame: [frames] is the
    number of calls that may still be nested, and [None] stands for the
    [RecursionError] raised when none is left. *)
Fixpoint extended_gcd (frames : nat) (a b : Z) : option (Z * Z * Z) :=
  match frames with
  | O => None
  | S f =>
      if a =? 0 then Some (b, 0, 1)
      else
        match extended_gcd f (b mod a) a with
        | Some (gcd, x1, y1) =>
            let x := y1 - (b / a) * x1 in
            let y := x1 in
            Some (gcd, x, y)
        | None => None
        end
  end.

(** [_mod_inverse]; [None] is the [RecursionError] of [extended_gcd]. *)
Definition _mod_inverse (a m : Z) : option Z :=
  match extended_gcd recursion_limit (a mod m) m with
  | Some (_, x, _) => Some ((x mod m + m) mod m)
  | None => None
  end.

(** [_generate_coefficients]; [randbelow k] is the value returned by the
    [k]-th call of [secrets.randbelow(self.prime - 1)]. *)
Definition _generate_coefficients (self : t) (randbelow : nat -> Z) (secret : Z)
  : list Z :=
  secret :: map (fun k => randbelow k + 1) (seq 0 (Z.to_nat (threshold self - 1))).

(** [_evaluate_polynomial]. *)
Definition _evaluate_polynomial (self : t) (coefficients : list Z) (x : Z) : Z :=
  fold_left
    (fun result '(i, coef) =>
       (result + coef * ((x ^ Z.of_nat i) mod prime self)) mod prime self)
    (enumerate coefficients) 0.

Definition range1 (n : Z) : list Z :=
  map Z.of_nat (seq 1 (Z.to_nat n)).

(** [split_secret]. *)
Definition split_secret (self : t) (randbelow : nat -> Z) (secret_bytes : list byte)
  : result (list (Z * string)) :=
  let secret_int := Py.int_from_bytes secret_bytes in
  if prime self <=? secret_int then
    Raise (ValueError "Secret too large for the prime field")
  else
    let coefficients := _generate_coefficients self randbelow secret_int in
    Ok (map
          (fun i =>
             let y := _evaluate_polynomial self coefficients i in
             let share_hex :=
               Py.zfill (Py.format_x y) (String.length (Py.format_x (prime self))) in
             (i, share_hex))
          (range1 (total_shares self))).

(** The inner loop over [j] of [reconstruct_secret] for the point at
    position [i]: the pair [(numerator, denominator)]. *)
Definition lagrange_terms (self : t) (points : list (Z * Z)) (i : nat) (xi : Z)
  : Z * Z :=
  fold_left
    (fun '(numerator, denominator) '(j, (xj, _)) =>
       if Nat.eqb i j then (numerator, denominator)
       else ((numerator * (- xj)) mod prime self,
             (denominator * (xi - xj)) mod prime self))
    (enumerate points) (1, 1).

(** The outer loop: the accumulated [secret_int]. *)
Definition interpolate (self : t) (points : list (Z * Z)) : option Z :=
  fold_left
    (fun acc '(i, (xi, yi)) =>
       match acc with
       | None => None
       | Some secret_int =>
           let '(numerator, denominator) := lagrange_terms self points i xi in
           match _mod_inverse denominator (prime self) with
           | None => None
           | Some inv =>
               let lagrange_coef := (numerator * inv) mod prime self in
               Some ((secret_int + yi * lagrange_coef) mod prime self)
           end
       end)
    (enumerate points) (Some 0).

(** [reconstruct_secret]; the outer [option] is [None] when
    [_mod_inverse] ends in [RecursionError], which at the modulus of the
    scheme it never does (the recursion nests fewer than 760 calls).  The
    slice [shares[:self.threshold]] is [firstn]: [__init__] admits no
    threshold below 2. *)
Definition reconstruct_secret (self : t) (shares : list (Z * string))
           (secret_length : nat) : option (result (list byte)) :=
  if Z.of_nat (List.length shares) <? threshold self then
    Some (Raise (ValueError ("Need at least " ++ Py.str_int (threshold self)
                             ++ " shares, got "
                             ++ Py.str_int (Z.of_nat (List.length shares)))))
  else
    let shares := firstn (Z.to_nat (threshold self)) shares in
    match mapM (fun '(x, y_hex) => y <- Py.int16 y_hex ;; Ok (x, y)) shares with
    | Raise e => Some (Raise e)
    | Ok points =>
        match interpolate self points with
        | None => None
        | Some secret_int => Some (Py.int_to_bytes secret_int secret_length)
        end
    end.

End ShamirSecretSharing.

(** Scenario 1 of the specification: [t = 3], [n = 5], a secret of 32 bytes
    [0x01], reconstruction from shares 2, 4 and 5. *)
Module ShamirExample.
Import ShamirSecretSharing.

Definition sss : t := {| threshold := 3; total_shares := 5; prime := PRIME |}.
Definition secret : list byte := repeat x01 32.
Definition rnd (k : nat) : Z := 1234567 * Z.of_nat (S k) + 89.

Definition pick (l : list (Z * string)) (ks : list nat) : list (Z * string) :=
  flat_map (fun k => match nth_error l k with Some s => [s] | None => [] end) ks.

End ShamirExample.

(** ** Fibonacci numbers, which bound the depth of the Euclidean recursion *)
Module Fibonacci.

Fixpoint fib_pair (n : nat) : Z * Z :=
  match n with
  | O => (0, 1)
  | S k => let '(x, y) := fib_pair k in (y, x + y)
  end.

Definition fib (n : nat) : Z := fst (fib_pair n).

End Fibonacci.

(** ** Polynomials over the integers, for the interpolation argument *)
Module Poly.

(** Horner evaluation of a coefficient list, lowest degree first. *)
Fixpoint eval (c : list Z) (x : Z) : Z :=
  match c with
  | [] => 0
  | a :: c' => a + x * eval c' x
  end.

(** Quotient of [c] by [X - a] (synthetic division). *)
Fixpoint pdiv (a : Z) (c : list Z) : list Z :=
  match c with
  | [] => []
  | _ :: c' =>
      match c' with
      | [] => []
      | _ :: _ => eval c' a :: pdiv a c'
      end
  end.

Fixpoint padd (c d : list Z) : list Z :=
  match c, d with
  | [], _ => d
  | _, [] => c
  | a :: c', b :: d' => (a + b) :: padd c' d'
  end.

Definition pscale (k : Z) (c : list Z) : list Z := map (Z.mul k) c.

(** Coefficients of [(X - a) * c]. *)
Definition pmul_linear (a : Z) (c : list Z) : list Z :=
  padd (0 :: c) (pscale (- a) c).

Definition zprod (l : list Z) : Z := fold_right Z.mul 1 l.
Definition zsum (l : list Z) : Z := fold_right Z.add 0 l.

(** The entries of [l] at every position other than [i], positions being
    counted from [k]. *)
Fixpoint others_from {A : Type} (k i : nat) (l : list A) : list A :=
  match l with
  | [] => []
  | x :: l' => if Nat.eqb i k then others_from (S k) i l'
               else x :: others_from (S k) i l'
  end.

(** A function that is a polynomial with at most [n] coefficients. *)
Definition is_poly (n : nat) (g : Z -> Z) : Prop :=
  exists c, (List.length c <= n)%nat /\ forall x, g x = eval c x.

(** Pairwise differences are units modulo [p]. *)
Fixpoint pairwise_units (p : Z) (xs : list Z) : Prop :=
  match xs with
  | [] => True
  | a :: xs' => (forall x, In x xs' -> Z.gcd (x - a) p = 1) /\ pairwise_units p xs'
  end.

(** [enumerate] counting from [k]. *)
Definition enum_from {A : Type} (k : nat) (l : list A) : list (nat * A) :=
  combine (seq k (List.length l)) l.

(** The Lagrange basis polynomial of the point at position [i], with
    [inv i] standing for the inverse of its denominator. *)
Definition basis (xs : list Z) (inv : nat -> Z) (i : nat) (x : Z) : Z :=
  inv i * zprod (map (fun xj => x - xj) (others_from 0 i xs)).

End Poly.

(** ** What the Shamir engine computes, in terms of polynomials *)
Module ShamirSpec.
Import ShamirSecretSharing Poly.

(** The numerator and the denominator accumulated for position [i]. *)
Definition numer (xs : list Z) (i : nat) : Z :=
  zprod (map Z.opp (others_from 0 i xs)).
Definition denom (xs : list Z) (i : nat) (xi : Z) : Z :=
  zprod (map (fun xj => xi - xj) (others_from 0 i xs)).

(** The inverse the code computes for the point at position [i]. *)
Definition inv_at (p : Z) (xs : list Z) (i : nat) : Z :=
  match nth_error xs i with
  | Some xi =>
      match _mod_inverse (denom xs i xi mod p) p with
      | Some v => v
      | None => 0
      end
  | None => 0
  end.

(** The share [split_secret] emits for index [i] under coefficients [c]. *)
Definition encode_share (self : t) (c : list Z) (i : Z) : Z * string :=
  (i, Py.zfill (Py.format_x (_evaluate_polynomial self c i))
               (String.length (Py.format_x (prime self)))).

End ShamirSpec.

(** ** Python [float]: IEEE-754 binary64 *)
Module PyFloat.

Definition prec : Z := 53.
Definition emax : Z := 1024.

Definition float : Type := spec_float.

Definition zero : float := S754_zero false.

(** [float(n)] for an integer [n]: round to nearest, ties to even. *)
Definition of_int (n : Z) : result float :=
  match binary_normalize prec emax n 0 false with
  | S754_infinity _ => Raise (OverflowError "int too large to convert to float")
  | x => Ok x
  end.

(** [a / b] on two integers: the correctly rounded quotient. *)
Definition int_truediv (a b : Z) : result float :=
  if b =? 0 then Raise (ZeroDivisionError "division by zero")
  else if a =? 0 then Ok (S754_zero (b <? 0))
  else
    let '(q, e, l) := SFdiv_core_binary prec emax (Z.abs a) 0 (Z.abs b) 0 in
    match binary_round_aux prec emax (xorb (a <? 0) (b <? 0)) q e l with
    | S754_infinity _ =>
        Raise (OverflowError "integer division result too large for a float")
    | x => Ok x
    end.

Definition is_zero (x : float) : bool :=
  match x with
  | S754_zero _ => true
  | _ => false
  end.

(** [n / y] for an integer [n] and a float [y]. *)
Definition int_div_float (n : Z) (y : float) : result float :=
  x <- of_int n ;;
  if is_zero y then Raise (ZeroDivisionError "float division by zero")
  else Ok (SFdiv prec emax x y).

(** [x - n] for a float [x] and an integer [n]. *)
Definition sub_int (x : float) (n : Z) : result float :=
  y <- of_int n ;; Ok (SFsub prec emax x y).

(** [int(x)]: truncation towards zero. *)
Definition to_int (x : float) : result Z :=
  match x with
  | S754_zero _ => Ok 0
  | S754_finite s m e =>
      let a := if 0 <=? e then Z.pos m * 2 ^ e else Z.pos m / 2 ^ (- e) in
      Ok (if s then - a else a)
  | S754_infinity _ => Raise (OverflowError "cannot convert float infinity to integer")
  | S754_nan => Raise (ValueError "cannot convert float NaN to integer")
  end.

Definition ltb (x y : float) : bool := SFltb x y.

End PyFloat.

(** ** Notions used to state the rounding of a quotient *)
Module FloatSpec.

(** [l] locates the fraction [a / b] between [m] and [m + 1]. *)
Definition located (a b m : Z) (l : location) : Prop :=
  match l with
  | loc_Exact => a = m * b
  | loc_Inexact Lt => m * b < a /\ 2 * a < (2 * m + 1) * b
  | loc_Inexact Eq => 2 * a = (2 * m + 1) * b
  | loc_Inexact Gt => (2 * m + 1) * b < 2 * a /\ a < (m + 1) * b
  end.

(** The shift that gives the quotient of [m1] by [m2] its 53 or 54 bits. *)
Definition div_shift (m1 m2 : positive) : Z :=
  53 - Z.pos (digits2_pos m1) + Z.pos (digits2_pos m2).

End FloatSpec.

(** ** PR seat allocation ([VoteService._allocate_pr_seats]) *)
Module Tally.

(** A [dict] keyed by party id, in insertion order. *)
Definition dict (A : Type) : Type := list (string * A).

(** [sum(d.values())]. *)
Definition sum_values (d : dict Z) : Z :=
  fold_left (fun acc kv => acc + snd kv) d 0.

(** [d[k] += 1]. *)
Fixpoint increment (k : string) (d : dict Z) : dict Z :=
  match d with
  | [] => []
  | (k', v) :: d' =>
      if String.eqb k' k then (k', v + 1) :: d'
      else (k', v) :: increment k d'
  end.

(** Insertion of an item into a list sorted by descending key, after the
    items whose key is not smaller. *)
Fixpoint insert_desc (x : string * PyFloat.float) (l : dict PyFloat.float)
  : dict PyFloat.float :=
  match l with
  | [] => [x]
  | y :: l' => if PyFloat.ltb (snd y) (snd x) then x :: y :: l'
               else y :: insert_desc x l'
  end.

(** [sorted(d.items(), key=lambda x: x[1], reverse=True)]: descending,
    items with equal keys keep their original order. *)
Definition sorted_desc (d : dict PyFloat.float) : dict PyFloat.float :=
  fold_left (fun acc x => insert_desc x acc) d [].

(** [l[:n]] for an integer [n] of either sign. *)
Definition slice_to {A : Type} (n : Z) (l : list A) : list A :=
  if n <? 0 then firstn (List.length l - Z.to_nat (- n)) l
  else firstn (Z.to_nat n) l.

(** The body of the first loop for one party: [allocation[party_id]] and
    [remainders[party_id]]. *)
Definition party_entry (quota : PyFloat.float) (votes : Z) : result (Z * PyFloat.float) :=
  if PyFloat.ltb PyFloat.zero quota then
    x <- PyFloat.int_div_float votes quota ;;
    seats <- PyFloat.to_int x ;;
    x' <- PyFloat.int_div_float votes quota ;;
    r <- PyFloat.sub_int x' seats ;;
    Ok (seats, r)
  else Ok (0, PyFloat.zero).

(** The first loop of [_allocate_pr_seats]: [allocation] and [remainders]. *)
Fixpoint first_allocation (quota : PyFloat.float) (party_votes : dict Z)
  : result (dict Z * dict PyFloat.float) :=
  match party_votes with
  | [] => Ok ([], [])
  | (party_id, votes) :: rest =>
      entry <- party_entry quota votes ;;
      tl <- first_allocation quota rest ;;
      Ok ((party_id, fst entry) :: fst tl, (party_id, snd entry) :: snd tl)
  end.

(** [_allocate_pr_seats]. *)
Definition _allocate_pr_seats (party_votes : dict Z) (total_seats : Z)
  : result (dict Z) :=
  match party_votes with
  | [] => Ok []
  | _ =>
      let total_votes := sum_values party_votes in
      if total_votes =? 0 then Ok (map (fun kv => (fst kv, 0)) party_votes)
      else
        quota <- PyFloat.int_truediv total_votes total_seats ;;
        ar <- first_allocation quota party_votes ;;
        let '(allocation, remainders) := ar in
        let allocated_seats := sum_values allocation in
        let remaining_seats := total_seats - allocated_seats in
        let sorted_remainders := sorted_desc remainders in
        Ok (fold_left (fun alloc kv => increment (fst kv) alloc)
              (slice_to remaining_seats sorted_remainders) allocation)
  end.

End Tally.

(** ** Hybrid decryption ([ElectionCrypto] in [app/utils/shamir_crypto.py]) *)
Module ElectionCrypto.

(** The library primitives the class calls: [base64], [json],
    PyCryptodome's RSA-OAEP and AES-GCM, and [kyber_py]'s ML-KEM-768.
    Each returns [Raise] where the library raises. *)
Record Primitives : Type := {
  RsaKey : Type;
  b64decode : string -> result (list byte);
  json_loads : list byte -> result (list (string * string));
  PKCS1_OAEP_decrypt : RsaKey -> list byte -> result (list byte);
  ML_KEM_768_decaps : list byte -> list byte -> result (list byte);
  AES_GCM_decrypt_and_verify :
    list byte -> list byte -> list byte -> list byte -> result (list byte)
}.

Definition AES_KEY_SIZE : nat := 32.

(** An [encrypted_package]: the parsed JSON object. *)
Definition package : Type := list (string * string).

(** [key in package]. *)
Definition contains (pkg : package) (key : string) : bool :=
  existsb (fun kv => String.eqb (fst kv) key) pkg.

(** [package[key]]. *)
Definition getitem (pkg : package) (key : string) : result string :=
  match find (fun kv => String.eqb (fst kv) key) pkg with
  | Some kv => Ok (snd kv)
  | None => Raise (KeyError key)
  end.

(** [bytes(a ^ b for a, b in zip(x, y))]. *)
Definition xor_bytes (x y : list byte) : list byte :=
  map (fun ab => Py.byte_of_Z (Z.lxor (Py.byte_val (fst ab)) (Py.byte_val (snd ab))))
      (combine x y).

Definition bytes_eqb (x y : list byte) : bool :=
  if list_eq_dec Byte.byte_eq_dec x y then true else false.

Definition HybridMismatch : exn :=
  ValueError "Hybrid decryption failed: RSA and Kyber keys do not match".

(** [_decrypt_vote_hybrid]. *)
Definition _decrypt_vote_hybrid (P : Primitives) (encrypted_package : package)
           (rsa_private_key : RsaKey P) (kyber_private_key : list byte)
  : result (list (string * string)) :=
  encrypted_aes_key_rsa <-
    (s <- getitem encrypted_package "encrypted_key_rsa" ;; b64decode P s) ;;
  kyber_ciphertext <-
    (s <- getitem encrypted_package "kyber_ciphertext" ;; b64decode P s) ;;
  kyber_protected_key <-
    (s <- getitem encrypted_package "kyber_protected_key" ;; b64decode P s) ;;
  nonce <- (s <- getitem encrypted_package "nonce" ;; b64decode P s) ;;
  tag <- (s <- getitem encrypted_package "tag" ;; b64decode P s) ;;
  ciphertext <- (s <- getitem encrypted_package "ciphertext" ;; b64decode P s) ;;
  aes_key_from_rsa <- PKCS1_OAEP_decrypt P rsa_private_key encrypted_aes_key_rsa ;;
  kyber_shared_secret <- ML_KEM_768_decaps P kyber_private_key kyber_ciphertext ;;
  let aes_key_from_kyber :=
    xor_bytes kyber_protected_key (firstn AES_KEY_SIZE kyber_shared_secret) in
  if negb (bytes_eqb aes_key_from_rsa aes_key_from_kyber) then Raise HybridMismatch
  else
    vote_json <- AES_GCM_decrypt_and_verify P aes_key_from_rsa nonce ciphertext tag ;;
    json_loads P vote_json.

(** [_decrypt_vote_legacy]. *)
Definition _decrypt_vote_legacy (P : Primitives) (encrypted_package : package)
           (private_key : RsaKey P) : result (list (string * string)) :=
  encrypted_aes_key <-
    (s <- (match find (fun kv => String.eqb (fst kv) "encrypted_key") encrypted_package with
           | Some kv => Ok (snd kv)
           | None =>
               match find (fun kv => String.eqb (fst kv) "encrypted_key_rsa")
                       encrypted_package with
               | Some kv => Ok (snd kv)
               | None => Raise (TypeError "argument should be a bytes-like object")
               end
           end) ;; b64decode P s) ;;
  nonce <- (s <- getitem encrypted_package "nonce" ;; b64decode P s) ;;
  tag <- (s <- getitem encrypted_package "tag" ;; b64decode P s) ;;
  ciphertext <- (s <- getitem encrypted_package "ciphertext" ;; b64decode P s) ;;
  aes_key <- PKCS1_OAEP_decrypt P private_key encrypted_aes_key ;;
  vote_json <- AES_GCM_decrypt_and_verify P aes_key nonce ciphertext tag ;;
  json_loads P vote_json.

(** [decrypt_vote]. *)
Definition decrypt_vote (P : Primitives) (encrypted_vote : string)
           (private_key : RsaKey P) (kyber_private_key : option (list byte))
  : result (list (string * string)) :=
  encrypted_package <- (b <- b64decode P encrypted_vote ;; json_loads P b) ;;
  match kyber_private_key with
  | Some kyber_sk =>
      if contains encrypted_package "kyber_ciphertext" then
        _decrypt_vote_hybrid P encrypted_package private_key kyber_sk
      else _decrypt_vote_legacy P encrypted_package private_key
  | None => _decrypt_vote_legacy P encrypted_package private_key
  end.

(** The two AES keys the hybrid path recovers: [(aes_key_from_rsa,
    aes_key_from_kyber)], or the exception raised before both exist. *)
Definition recovered_keys (P : Primitives) (encrypted_package : package)
           (rsa_private_key : RsaKey P) (kyber_private_key : list byte)
  : result (list byte * list byte) :=
  encrypted_aes_key_rsa <-
    (s <- getitem encrypted_package "encrypted_key_rsa" ;; b64decode P s) ;;
  kyber_ciphertext <-
    (s <- getitem encrypted_package "kyber_ciphertext" ;; b64decode P s) ;;
  kyber_protected_key <-
    (s <- getitem encrypted_package "kyber_protected_key" ;; b64decode P s) ;;
  _ <- (s <- getitem encrypted_package "nonce" ;; b64decode P s) ;;
  _ <- (s <- getitem encrypted_package "tag" ;; b64decode P s) ;;
  _ <- (s <- getitem encrypted_package "ciphertext" ;; b64decode P s) ;;
  aes_key_from_rsa <- PKCS1_OAEP_decrypt P rsa_private_key encrypted_aes_key_rsa ;;
  kyber_shared_secret <- ML_KEM_768_decaps P kyber_private_key kyber_ciphertext ;;
  Ok (aes_key_from_rsa,
      xor_bytes kyber_protected_key (firstn AES_KEY_SIZE kyber_shared_secret)).

End ElectionCrypto.

(** ** Stored documents ([app/models/*.py])

    A [datetime] is the integer number of microseconds since the epoch, and
    the store keeps it as it is (the truncation of BSON dates to
    milliseconds is not modelled); [None] for an optional attribute is
    [None].  An [ObjectId] is the number of the insertion that created it. *)

Definition in_list (s : string) (l : list string) : bool :=
  existsb (String.eqb s) l.

Module CandidateData.
Record t : Type := {
  candidate_id : string;
  name : string;
  party : string;
  constituency : option string
}.
End CandidateData.

Module PartyData.
Record t : Type := {
  party_id : string;
  name : string;
  symbol : option string
}.
End PartyData.

Module ElectionData.
Record t : Type := {
  _id : option nat;
  election_id : string;
  name : string;
  description : string;
  candidates : list CandidateData.t;
  parties : list PartyData.t;
  total_pr_seats : Z;
  start_date : Z;
  end_date : Z;
  is_active : bool;
  public_key : option string;
  encrypted_key_bundle : option string;
  created_at : Z
}.
End ElectionData.

Module VoterData.
Record t : Type := {
  _id : option nat;
  voter_id : string;
  citizenship_number_hash : string;
  password_hash : string;
  full_name : string;
  constituency : string;
  registered_at : Z;
  elections_voted : list string;
  token_issued_for : list string
}.
End VoterData.

Module VotingTokenData.
Record t : Type := {
  _id : option nat;
  token_id : string;
  election_id : string;
  constituency : string;
  ballots_allowed : list string;
  ballots_used : list string;
  is_fully_used : bool;
  created_at : Z;
  used_at : option Z
}.
End VotingTokenData.

Module VoteData.
(** The stored vote document: the keys written by [Vote.to_dict] and the
    three keys added by the [update_many] of [Vote.verify_receipt]. *)
Record t : Type := {
  _id : option nat;
  election_id : string;
  ballot_type : string;
  encrypted_vote : option string;
  constituency : option string;
  timestamp : Z;
  token_id : string;
  receipt_id : option string;
  receipt_hash : option string;
  timestamp_str : option string;
  verification_history : list (Z * string);
  last_verified_at : option Z;
  verification_count : option Z
}.
End VoteData.

(** JSON-like values held in [details] and produced by [to_dict]. *)
#[warnings="-register-all"]
Inductive value : Type :=
| VNone
| VStr (s : string)
| VInt (z : Z)
| VBool (b : bool)
| VTime (z : Z)
| VList (l : list value)
| VDict (d : list (string * value)).

Definition document : Type := list (string * value).

Definition VOpt {A : Type} (f : A -> value) (o : option A) : value :=
  match o with
  | Some a => f a
  | None => VNone
  end.

Definition with_id (_id : option nat) (data : document) : document :=
  match _id with
  | Some k => (data ++ [("_id", VInt (Z.of_nat k))])%list
  | None => data
  end.

(** An audit entry, as the Python object and as the stored document.  A
    stored document may lack the key [entry_hash] (an entry written before
    the chain existed): its [entry_hash] is [None], whereas [Some None] is a
    stored [null].  The object built by [__init__] always has the
    attribute. *)
Module AuditLogData.
Record t : Type := {
  _id : option nat;
  category : option string;
  event_type : option string;
  message : option string;
  user_id : option string;
  user_type : option string;
  ip_address : option string;
  user_agent : option string;
  details : value;
  timestamp : Z;
  entry_hash : option (option string);
  previous_hash : option string
}.
End AuditLogData.

(** The five collections; documents are kept in insertion order, which is
    the order in which an unsorted [find] returns them. *)
Record DB : Type := {
  elections : list ElectionData.t;
  voters : list VoterData.t;
  voting_tokens : list VotingTokenData.t;
  votes : list VoteData.t;
  audit_logs : list AuditLogData.t;
  next_id : nat
}.

(** The environment of the services: the wall clock, the CSPRNG, the
    hybrid cipher and the library functions the models call. Successive
    calls are distinguished by the tick at which they happen. *)
Record Env : Type := {
  utcnow : nat -> Z;
  token_hex : nat -> nat -> string;
  encrypt_vote : nat -> document -> string -> result string;
  sha256_hexdigest : string -> string;
  json_dumps : value -> string;
  strftime : string -> Z -> string;
  upper : string -> string;
  object_id_str : nat -> string;
  retries : nat
}.

Record World : Type := {
  db : DB;
  tick : nat
}.

Definition set_db (w : World) (d : DB) : World := {| db := d; tick := tick w |}.
Definition bump (w : World) : World := {| db := db w; tick := S (tick w) |}.

(** [update_one]: apply [upd] to the first document matching [flt]. *)
Fixpoint update_one {A : Type} (flt : A -> bool) (upd : A -> A) (l : list A)
  : list A * bool :=
  match l with
  | [] => ([], false)
  | a :: l' =>
      if flt a then (upd a :: l', true)
      else let '(l'', m) := update_one flt upd l' in (a :: l'', m)
  end.

Definition update_many {A : Type} (flt : A -> bool) (upd : A -> A) (l : list A) : list A :=
  map (fun a => if flt a then upd a else a) l.

Definition opt_nat_eqb (a b : option nat) : bool :=
  match a, b with
  | Some x, Some y => Nat.eqb x y
  | None, None => true
  | _, _ => false
  end.

Definition opt_string_eqb (a b : option string) : bool :=
  match a, b with
  | Some x, Some y => String.eqb x y
  | None, None => true
  | _, _ => false
  end.

(** Truthiness of an optional string: [None] and [""] are falsy. *)
Definition truthy (o : option string) : bool :=
  match o with
  | Some s => negb (String.eqb s "")
  | None => false
  end.

Module Election.
Import ElectionData.

Definition VALID_CONSTITUENCIES : list string := ["Kathmandu"; "Lalitpur"; "Bhaktapur"].

Definition is_ongoing (E : Env) (self : t) (w : World) : bool * World :=
  let now := utcnow E (tick w) in
  (is_active self && (start_date self <=? now) && (now <=? end_date self), bump w).

Definition has_ended (E : Env) (self : t) (w : World) : bool * World :=
  (end_date self <? utcnow E (tick w), bump w).

Definition has_started (E : Env) (self : t) (w : World) : bool * World :=
  (start_date self <=? utcnow E (tick w), bump w).

Definition get_candidate (self : t) (candidate_id : string) : option CandidateData.t :=
  find (fun c => String.eqb (CandidateData.candidate_id c) candidate_id) (candidates self).

Definition get_party (self : t) (party_id : string) : option PartyData.t :=
  find (fun p => String.eqb (PartyData.party_id p) party_id) (parties self).

Definition find_by_election_id (w : World) (election_id : string) : option t :=
  find (fun e => String.eqb (ElectionData.election_id e) election_id) (elections (db w)).

Definition with_is_active (b : bool) (e : t) : t :=
  {| _id := _id e; election_id := election_id e; name := name e;
     description := description e; candidates := candidates e; parties := parties e;
     total_pr_seats := total_pr_seats e; start_date := start_date e;
     end_date := end_date e; is_active := b; public_key := public_key e;
     encrypted_key_bundle := encrypted_key_bundle e; created_at := created_at e |}.

Definition deactivate (w : World) (election_id : string) : World :=
  let d := db w in
  set_db w {| elections :=
                fst (update_one
                       (fun e => String.eqb (ElectionData.election_id e) election_id)
                       (with_is_active false) (elections d));
              voters := voters d; voting_tokens := voting_tokens d;
              votes := votes d; audit_logs := audit_logs d; next_id := next_id d |}.
End Election.

Definition set_voters (d : DB) (l : list VoterData.t) : DB :=
  {| elections := elections d; voters := l; voting_tokens := voting_tokens d;
     votes := votes d; audit_logs := audit_logs d; next_id := next_id d |}.

Definition set_voting_tokens (d : DB) (l : list VotingTokenData.t) (n : nat) : DB :=
  {| elections := elections d; voters := voters d; voting_tokens := l;
     votes := votes d; audit_logs := audit_logs d; next_id := n |}.

Definition set_votes (d : DB) (l : list VoteData.t) (n : nat) : DB :=
  {| elections := elections d; voters := voters d; voting_tokens := voting_tokens d;
     votes := l; audit_logs := audit_logs d; next_id := n |}.

Definition set_audit_logs (d : DB) (l : list AuditLogData.t) (n : nat) : DB :=
  {| elections := elections d; voters := voters d; voting_tokens := voting_tokens d;
     votes := votes d; audit_logs := l; next_id := n |}.

Module Voter.
Import VoterData.

Definition to_dict (self : t) : document :=
  with_id (_id self)
    [("voter_id", VStr (voter_id self));
     ("citizenship_number_hash", VStr (citizenship_number_hash self));
     ("password_hash", VStr (password_hash self));
     ("full_name", VStr (full_name self));
     ("constituency", VStr (constituency self));
     ("registered_at", VTime (registered_at self));
     ("elections_voted", VList (map VStr (elections_voted self)));
     ("token_issued_for", VList (map VStr (token_issued_for self)))].

Definition has_voted_in (self : t) (election_id : string) : bool :=
  in_list election_id (elections_voted self).

Definition has_token_for (self : t) (election_id : string) : bool :=
  in_list election_id (token_issued_for self).

(** [elections_voted.append(e)], also the effect of [$push]. *)
Definition push_elections_voted (e : string) (v : t) : t :=
  {| _id := _id v; voter_id := voter_id v;
     citizenship_number_hash := citizenship_number_hash v;
     password_hash := password_hash v; full_name := full_name v;
     constituency := constituency v; registered_at := registered_at v;
     elections_voted := (elections_voted v ++ [e])%list;
     token_issued_for := token_issued_for v |}.

Definition push_token_issued_for (e : string) (v : t) : t :=
  {| _id := _id v; voter_id := voter_id v;
     citizenship_number_hash := citizenship_number_hash v;
     password_hash := password_hash v; full_name := full_name v;
     constituency := constituency v; registered_at := registered_at v;
     elections_voted := elections_voted v;
     token_issued_for := (token_issued_for v ++ [e])%list |}.

(** The effect of [$addToSet] on the stored array. *)
Definition add_to_set_token_issued_for (e : string) (v : t) : t :=
  if in_list e (token_issued_for v) then v else push_token_issued_for e v.

Definition same_id (self : t) (d : t) : bool := opt_nat_eqb (_id d) (_id self).

(** [mark_voted]: the in-memory voter and the world after the call. *)
Definition mark_voted (self : t) (election_id : string) (w : World) : t * World :=
  if in_list election_id (elections_voted self) then (self, w)
  else
    (push_elections_voted election_id self,
     set_db w (set_voters (db w)
                 (fst (update_one (same_id self) (push_elections_voted election_id)
                         (voters (db w)))))).

Definition mark_token_issued (self : t) (election_id : string) (w : World) : t * World :=
  if in_list election_id (token_issued_for self) then (self, w)
  else
    (push_token_issued_for election_id self,
     set_db w (set_voters (db w)
                 (fst (update_one (same_id self) (add_to_set_token_issued_for election_id)
                         (voters (db w)))))).

Definition find_by_id (w : World) (user_id : nat) : option t :=
  find (fun d => opt_nat_eqb (_id d) (Some user_id)) (voters (db w)).

Definition find_by_voter_id (w : World) (voter_id : string) : option t :=
  find (fun d => String.eqb (VoterData.voter_id d) voter_id) (voters (db w)).
End Voter.

Module VotingToken.
Import VotingTokenData.

Definition BALLOT_TYPES : list string := ["fptp"; "pr"].

Definition to_dict (self : t) : document :=
  with_id (_id self)
    [("token_id", VStr (token_id self));
     ("election_id", VStr (election_id self));
     ("constituency", VStr (constituency self));
     ("ballots_allowed", VList (map VStr (ballots_allowed self)));
     ("ballots_used", VList (map VStr (ballots_used self)));
     ("is_fully_used", VBool (is_fully_used self));
     ("created_at", VTime (created_at self));
     ("used_at", VOpt VTime (used_at self))].

Definition is_valid_for_ballot (self : t) (ballot_type : string) : bool :=
  if is_fully_used self then false
  else if negb (in_list ballot_type (ballots_allowed self)) then false
  else if in_list ballot_type (ballots_used self) then false
  else true.

(** [$push] on [ballots_used], with the optional [$set]. *)
Definition apply_use (ballot_type : string) (full : option Z) (d : t) : t :=
  {| _id := _id d; token_id := token_id d; election_id := election_id d;
     constituency := constituency d; ballots_allowed := ballots_allowed d;
     ballots_used := (ballots_used d ++ [ballot_type])%list;
     is_fully_used := match full with Some _ => true | None => is_fully_used d end;
     created_at := created_at d;
     used_at := match full with Some ts => Some ts | None => used_at d end |}.

(** [mark_ballot_used]: success flag, in-memory token and world. *)
Definition mark_ballot_used (E : Env) (self : t) (ballot_type : string) (w : World)
  : bool * t * World :=
  if negb (in_list ballot_type BALLOT_TYPES) then (false, self, w)
  else
    let will_be_fully_used :=
      (List.length (ballots_allowed self) <=? List.length (ballots_used self) + 1)%nat in
    let '(full, w1) :=
      if will_be_fully_used then (Some (utcnow E (tick w)), bump w) else (None, w) in
    let flt := fun d : t =>
      String.eqb (token_id d) (token_id self)
      && negb (in_list ballot_type (ballots_used d))
      && negb (is_fully_used d) in
    let '(tokens, modified) :=
      update_one flt (apply_use ballot_type full) (voting_tokens (db w1)) in
    let w2 := set_db w1 (set_voting_tokens (db w1) tokens (next_id (db w1))) in
    if modified then
      if will_be_fully_used then
        (true, apply_use ballot_type (Some (utcnow E (tick w2))) self, bump w2)
      else (true, apply_use ballot_type None self, w2)
    else (false, self, w2).

Definition find_by_token_id (w : World) (token_id : string) : option t :=
  find (fun d => String.eqb (VotingTokenData.token_id d) token_id) (voting_tokens (db w)).

(** [generate_vote_token] of [app/utils/security.py]. *)
Definition generate_vote_token (E : Env) (w : World) : string * World :=
  (token_hex E 32 (tick w), bump w).

(** The loop [while cls.find_by_token_id(token_id): token_id = ...];
    [None] when [fuel] further draws all collide. *)
Fixpoint unique_token_id (E : Env) (fuel : nat) (token_id : string) (w : World)
  : option (string * World) :=
  match find_by_token_id w token_id with
  | None => Some (token_id, w)
  | Some _ =>
      match fuel with
      | O => None
      | S f => let '(token_id', w') := generate_vote_token E w in
               unique_token_id E f token_id' w'
      end
  end.

(** [create]: the token is built without any voter reference and inserted. *)
Definition create (E : Env) (election_id constituency : string) (w : World)
  : option (t * World) :=
  let '(token_id0, w0) := generate_vote_token E w in
  match unique_token_id E (retries E) token_id0 w0 with
  | None => None
  | Some (token_id, w1) =>
      let created := utcnow E (tick w1) in
      let w2 := bump w1 in
      let token :=
        {| _id := Some (next_id (db w2)); token_id := token_id;
           election_id := election_id; constituency := constituency;
           ballots_allowed := ["fptp"; "pr"]; ballots_used := [];
           is_fully_used := false; created_at := created; used_at := None |} in
      Some (token,
            set_db w2 (set_voting_tokens (db w2)
                         (voting_tokens (db w2) ++ [token])%list (S (next_id (db w2)))))
  end.
End VotingToken.

Module Vote.
Import VoteData.

Definition BALLOT_TYPES : list string := ["fptp"; "pr"].

Definition verification_entry (e : Z * string) : value :=
  VDict [("verified_at", VTime (fst e)); ("verified_at_formatted", VStr (snd e))].

(** [to_dict]: the nine keys written at insertion (and [_id]). *)
Definition to_dict (self : t) : document :=
  with_id (_id self)
    [("election_id", VStr (election_id self));
     ("ballot_type", VStr (ballot_type self));
     ("encrypted_vote", VOpt VStr (encrypted_vote self));
     ("constituency", VOpt VStr (constituency self));
     ("timestamp", VTime (timestamp self));
     ("token_id", VStr (token_id self));
     ("receipt_id", VOpt VStr (receipt_id self));
     ("receipt_hash", VOpt VStr (receipt_hash self));
     ("timestamp_str", VOpt VStr (timestamp_str self))].

(** The document as stored, once [verify_receipt] has touched it. *)
Definition stored (self : t) : document :=
  (to_dict self
   ++ match verification_count self with
      | Some n =>
          [("verification_history", VList (map verification_entry (verification_history self)));
           ("last_verified_at", VOpt VTime (last_verified_at self));
           ("verification_count", VInt n)]
      | None => []
      end)%list.

(** [generate_receipt]. *)
Definition generate_receipt (E : Env) (election_id : string) (timestamp : Z) (w : World)
  : (string * string * string) * World :=
  let receipt_id := "RCP-" ++ upper E (token_hex E 6 (tick w)) in
  let timestamp_str := strftime E "%Y-%m-%d %H:%M:%S" timestamp in
  let hash_input := receipt_id ++ ":" ++ election_id ++ ":" ++ timestamp_str in
  let receipt_hash := sha256_hexdigest E hash_input in
  ((receipt_id, receipt_hash, timestamp_str), bump w).

(** [Vote(...).save()] for a fresh vote: the constructor defaults
    ([timestamp or utcnow()], [token_id or generate_vote_token()]) and
    [insert_one]. *)
Definition save_new (E : Env) (election_id ballot_type : string)
           (encrypted_vote constituency : option string) (token_id : option string)
           (timestamp : Z) (receipt_id receipt_hash timestamp_str : option string)
           (w : World) : t * World :=
  let '(token_id', w1) :=
    if truthy token_id then
      (match token_id with Some s => s | None => "" end, w)
    else VotingToken.generate_vote_token E w in
  let vote :=
    {| _id := Some (next_id (db w1)); election_id := election_id;
       ballot_type := ballot_type; encrypted_vote := encrypted_vote;
       constituency := constituency; timestamp := timestamp; token_id := token_id';
       receipt_id := receipt_id; receipt_hash := receipt_hash;
       timestamp_str := timestamp_str; verification_history := [];
       last_verified_at := None; verification_count := None |} in
  (vote, set_db w1 (set_votes (db w1) (votes (db w1) ++ [vote])%list (S (next_id (db w1))))).

(** The receipt arguments of [cast_fptp_vote] / [cast_pr_vote]: a missing
    [timestamp] is read from the clock and a missing [receipt_id] makes
    the ballot mint a receipt of its own. *)
Definition receipt_or_new (E : Env) (election_id : string) (timestamp : option Z)
           (receipt_id receipt_hash timestamp_str : option string) (w : World)
  : (Z * option string * option string * option string) * World :=
  let '(ts, w1) :=
    match timestamp with
    | Some ts => (ts, w)
    | None => (utcnow E (tick w), bump w)
    end in
  if truthy receipt_id then ((ts, receipt_id, receipt_hash, timestamp_str), w1)
  else
    let '((rid, rhash, tstr), w2) := generate_receipt E election_id ts w1 in
    ((ts, Some rid, Some rhash, Some tstr), w2).

(** [cast_fptp_vote]; [Raise] when [encrypt_vote] raises. *)
Definition cast_fptp_vote (E : Env) (election_id candidate_id constituency : string)
           (public_key : string) (token_id : option string)
           (receipt_id receipt_hash : option string) (timestamp : option Z)
           (timestamp_str : option string) (w : World) : result t * World :=
  let vote_data :=
    [("ballot_type", VStr "fptp"); ("candidate_id", VStr candidate_id);
     ("constituency", VStr constituency)] in
  match encrypt_vote E (tick w) vote_data public_key with
  | Raise e => (Raise e, bump w)
  | Ok encrypted_vote =>
      let '((ts, rid, rhash, tstr), w1) :=
        receipt_or_new E election_id timestamp receipt_id receipt_hash timestamp_str
          (bump w) in
      let '(vote, w2) :=
        save_new E election_id "fptp" (Some encrypted_vote) (Some constituency)
          token_id ts rid rhash tstr w1 in
      (Ok vote, w2)
  end.

(** [cast_pr_vote]. *)
Definition cast_pr_vote (E : Env) (election_id party_id : string)
           (public_key : string) (token_id : option string)
           (receipt_id receipt_hash : option string) (timestamp : option Z)
           (timestamp_str : option string) (w : World) : result t * World :=
  let vote_data := [("ballot_type", VStr "pr"); ("party_id", VStr party_id)] in
  match encrypt_vote E (tick w) vote_data public_key with
  | Raise e => (Raise e, bump w)
  | Ok encrypted_vote =>
      let '((ts, rid, rhash, tstr), w1) :=
        receipt_or_new E election_id timestamp receipt_id receipt_hash timestamp_str
          (bump w) in
      let '(vote, w2) :=
        save_new E election_id "pr" (Some encrypted_vote) None
          token_id ts rid rhash tstr w1 in
      (Ok vote, w2)
  end.

(** [find_by_receipt_id]: every vote with this receipt, in stored order. *)
Definition find_by_receipt_id (w : World) (receipt_id : string) : list t :=
  filter (fun v => opt_string_eqb (VoteData.receipt_id v) (Some receipt_id)) (votes (db w)).

(** The dictionary returned by [verify_receipt]: its verdict, message,
    election, ballot flags, ballot count and verification count.  The
    display fields ([election_name], the formatted times and the last five
    entries of the history) are read-only renderings and are left out. *)
Record verification : Type := {
  valid : bool;
  message : string;
  v_election_id : option string;
  ballots_fptp : bool;
  ballots_pr : bool;
  ballot_count : nat;
  v_verification_count : option Z
}.

Definition rejected (msg : string) : verification :=
  {| valid := false; message := msg; v_election_id := None; ballots_fptp := false;
     ballots_pr := false; ballot_count := O; v_verification_count := None |}.

Definition str_or_none (o : option string) : string :=
  match o with Some s => s | None => "None" end.

(** The string hashed for the first matching vote. *)
Definition hash_input (E : Env) (primary_vote : t) : string :=
  if truthy (timestamp_str primary_vote) then
    str_or_none (VoteData.receipt_id primary_vote) ++ ":" ++ election_id primary_vote
    ++ ":" ++ str_or_none (timestamp_str primary_vote)
  else
    str_or_none (VoteData.receipt_id primary_vote) ++ ":" ++ election_id primary_vote
    ++ ":" ++ strftime E "%Y-%m-%d %H:%M:%S" (timestamp primary_vote).

Definition log_verified (E : Env) (verification_time : Z) (v : t) : t :=
  {| _id := _id v; election_id := election_id v; ballot_type := ballot_type v;
     encrypted_vote := encrypted_vote v; constituency := constituency v;
     timestamp := timestamp v; token_id := token_id v; receipt_id := VoteData.receipt_id v;
     receipt_hash := receipt_hash v; timestamp_str := timestamp_str v;
     verification_history :=
       (verification_history v
        ++ [(verification_time, strftime E "%B %d, %Y at %I:%M %p" verification_time)])%list;
     last_verified_at := Some verification_time;
     verification_count :=
       Some (match verification_count v with Some n => n + 1 | None => 1 end) |}.

(** [verify_receipt]. *)
Definition verify_receipt (E : Env) (receipt_id : string) (log_verification : bool)
           (w : World) : verification * World :=
  match find_by_receipt_id w receipt_id with
  | [] => (rejected "Receipt not found. Please check your receipt ID.", w)
  | primary_vote :: rest =>
      let votes_found := primary_vote :: rest in
      let expected_hash := sha256_hexdigest E (hash_input E primary_vote) in
      if negb (opt_string_eqb (Some expected_hash) (receipt_hash primary_vote)) then
        (rejected "Receipt integrity check failed.", w)
      else
        let ballot_types := map (fun v => upper E (ballot_type v)) votes_found in
        let verification_time := utcnow E (tick w) in
        let w1 := bump w in
        let w2 :=
          if log_verification then
            set_db w1 (set_votes (db w1)
                         (update_many
                            (fun v => opt_string_eqb (VoteData.receipt_id v) (Some receipt_id))
                            (log_verified E verification_time) (votes (db w1)))
                         (next_id (db w1)))
          else w1 in
        let updated_vote :=
          find (fun v => opt_string_eqb (VoteData.receipt_id v) (Some receipt_id))
               (votes (db w2)) in
        ({| valid := true;
            message := "Your votes were successfully recorded.";
            v_election_id := Some (election_id primary_vote);
            ballots_fptp := in_list "FPTP" ballot_types;
            ballots_pr := in_list "PR" ballot_types;
            ballot_count := List.length votes_found;
            v_verification_count :=
              match updated_vote with
              | Some u => Some (match verification_count u with Some n => n | None => 1 end)
              | None => None
              end |}, w2)
  end.
End Vote.

(** [str(e)] for a raised exception. *)
Definition exn_str (e : exn) : string :=
  match e with
  | ValueError msg => msg
  | OverflowError msg => msg
  | KeyError key => "'" ++ key ++ "'"
  | TypeError msg => msg
  | ZeroDivisionError msg => msg
  end.

Module TokenService.
Import VotingTokenData.

(** [issue_token]: [(success, message, token_id)], the in-memory voter and
    the world; [None] only when the uniqueness loop of
    [VotingToken.create] exhausts its retries. *)
Definition issue_token (E : Env) (voter : VoterData.t) (election_id : string) (w : World)
  : option ((bool * string * option string) * VoterData.t * World) :=
  match Election.find_by_election_id w election_id with
  | None => Some ((false, "Election not found", None), voter, w)
  | Some election =>
      let '(ongoing, w1) := Election.is_ongoing E election w in
      if negb ongoing then
        let '(ended, w2) := Election.has_ended E election w1 in
        if ended then Some ((false, "This election has ended", None), voter, w2)
        else Some ((false, "This election has not started yet", None), voter, w2)
      else if Voter.has_voted_in voter election_id then
        Some ((false, "You have already voted in this election", None), voter, w1)
      else if Voter.has_token_for voter election_id then
        Some ((false, "A voting token has already been issued for this election", None),
              voter, w1)
      else
        match VotingToken.create E election_id (VoterData.constituency voter) w1 with
        | None => None
        | Some (token, w2) =>
            let '(voter', w3) := Voter.mark_token_issued voter election_id w2 in
            Some ((true, "Voting token issued successfully", Some (token_id token)),
                  voter', w3)
        end
  end.

(** [validate_token]. *)
Definition validate_token (E : Env) (token_id : option string) (election_id : string)
           (ballot_type : option string) (w : World) : bool * string * option t :=
  if negb (truthy token_id) then (false, "Token is required", None)
  else
    match VotingToken.find_by_token_id w (match token_id with Some s => s | None => "" end) with
    | None => (false, "Invalid voting token", None)
    | Some token =>
        if negb (String.eqb (VotingTokenData.election_id token) election_id) then
          (false, "Token is not valid for this election", None)
        else if is_fully_used token then
          (false, "This voting token has already been used", None)
        else
          match ballot_type with
          | Some bt =>
              if truthy ballot_type && negb (VotingToken.is_valid_for_ballot token bt) then
                (false, "Token has already been used for " ++ upper E bt ++ " ballot", None)
              else (true, "Token is valid", Some token)
          | None => (true, "Token is valid", Some token)
          end
    end.

(** [use_token_for_ballot]. *)
Definition use_token_for_ballot (E : Env) (token_id : string) (ballot_type : string)
           (w : World) : (bool * string) * World :=
  if negb (in_list ballot_type VotingToken.BALLOT_TYPES) then
    ((false, "Invalid ballot type: " ++ ballot_type), w)
  else
    match VotingToken.find_by_token_id w token_id with
    | None => ((false, "Invalid voting token"), w)
    | Some token =>
        if is_fully_used token then
          ((false, "This voting token has already been fully used"), w)
        else if negb (VotingToken.is_valid_for_ballot token ballot_type) then
          ((false, "Token has already been used for " ++ upper E ballot_type ++ " ballot"), w)
        else
          let '(success, _, w1) := VotingToken.mark_ballot_used E token ballot_type w in
          if negb success then
            ((false, "Failed to use token - it may have already been used"), w1)
          else ((true, "Token used for " ++ upper E ballot_type ++ " ballot"), w1)
    end.

(** [validate_token_constituency]. *)
Definition validate_token_constituency (token_id : string) (constituency : string)
           (w : World) : bool * string :=
  match VotingToken.find_by_token_id w token_id with
  | None => (false, "Invalid voting token")
  | Some token =>
      if negb (String.eqb (VotingTokenData.constituency token) constituency) then
        (false, "Token constituency does not match")
      else (true, "Token constituency is valid")
  end.
End TokenService.

Module VoteService.

(** The receipt dictionary returned on success. *)
Record receipt_info : Type := {
  receipt_id : string;
  timestamp : string
}.

(** [cast_dual_ballot]: the token-less path. *)
Definition cast_dual_ballot (E : Env) (voter : VoterData.t) (election_id : string)
           (candidate_id party_id : string) (w : World)
  : (bool * string) * VoterData.t * World :=
  match Election.find_by_election_id w election_id with
  | None => ((false, "Election not found"), voter, w)
  | Some election =>
      let '(ongoing, w1) := Election.is_ongoing E election w in
      if negb ongoing then
        let '(ended, w2) := Election.has_ended E election w1 in
        if ended then ((false, "This election has ended"), voter, w2)
        else ((false, "This election has not started yet"), voter, w2)
      else if Voter.has_voted_in voter election_id then
        ((false, "You have already voted in this election"), voter, w1)
      else
        match Election.get_candidate election candidate_id with
        | None => ((false, "Invalid candidate selection"), voter, w1)
        | Some candidate =>
            if negb (opt_string_eqb (CandidateData.constituency candidate)
                       (Some (VoterData.constituency voter))) then
              ((false, "You can only vote for candidates in your constituency"), voter, w1)
            else
              match Election.get_party election party_id with
              | None => ((false, "Invalid party selection"), voter, w1)
              | Some _ =>
                  if negb (truthy (ElectionData.public_key election)) then
                    ((false, "Election encryption not configured"), voter, w1)
                  else
                    let public_key :=
                      match ElectionData.public_key election with
                      | Some k => k | None => "" end in
                    match Vote.cast_fptp_vote E election_id candidate_id
                            (VoterData.constituency voter) public_key
                            None None None None None w1 with
                    | (Raise e, w2) =>
                        ((false, "Failed to cast vote: " ++ exn_str e), voter, w2)
                    | (Ok _, w2) =>
                        match Vote.cast_pr_vote E election_id party_id public_key
                                None None None None None w2 with
                        | (Raise e, w3) =>
                            ((false, "Failed to cast vote: " ++ exn_str e), voter, w3)
                        | (Ok _, w3) =>
                            let '(voter', w4) := Voter.mark_voted voter election_id w3 in
                            ((true, "Your dual ballot has been cast successfully!"),
                             voter', w4)
                        end
                    end
              end
        end
  end.

(** [cast_dual_ballot_with_token]. *)
Definition cast_dual_ballot_with_token (E : Env) (voter : VoterData.t)
           (election_id candidate_id party_id : string) (token_id : option string)
           (w : World)
  : (bool * string * option receipt_info) * VoterData.t * World :=
  match Election.find_by_election_id w election_id with
  | None => ((false, "Election not found", None), voter, w)
  | Some election =>
      let '(ongoing, w1) := Election.is_ongoing E election w in
      if negb ongoing then
        let '(ended, w2) := Election.has_ended E election w1 in
        if ended then ((false, "This election has ended", None), voter, w2)
        else ((false, "This election has not started yet", None), voter, w2)
      else if Voter.has_voted_in voter election_id then
        ((false, "You have already voted in this election", None), voter, w1)
      else
        let '(valid, msg, _) := TokenService.validate_token E token_id election_id None w1 in
        if negb valid then ((false, msg, None), voter, w1)
        else
          let token_id_s := match token_id with Some s => s | None => "" end in
          let '(valid, msg) :=
            TokenService.validate_token_constituency token_id_s
              (VoterData.constituency voter) w1 in
          if negb valid then ((false, msg, None), voter, w1)
          else
            match Election.get_candidate election candidate_id with
            | None => ((false, "Invalid candidate selection", None), voter, w1)
            | Some candidate =>
                if negb (opt_string_eqb (CandidateData.constituency candidate)
                           (Some (VoterData.constituency voter))) then
                  ((false, "You can only vote for candidates in your constituency", None),
                   voter, w1)
                else
                  match Election.get_party election party_id with
                  | None => ((false, "Invalid party selection", None), voter, w1)
                  | Some _ =>
                      if negb (truthy (ElectionData.public_key election)) then
                        ((false, "Election encryption not configured", None), voter, w1)
                      else
                        let public_key :=
                          match ElectionData.public_key election with
                          | Some k => k | None => "" end in
                        let timestamp := utcnow E (tick w1) in
                        let '((receipt_id, receipt_hash, timestamp_str), w2) :=
                          Vote.generate_receipt E election_id timestamp (bump w1) in
                        let '((success, msg), w3) :=
                          TokenService.use_token_for_ballot E token_id_s "fptp" w2 in
                        if negb success then
                          ((false, "FPTP ballot failed: " ++ msg, None), voter, w3)
                        else
                          match Vote.cast_fptp_vote E election_id candidate_id
                                  (VoterData.constituency voter) public_key
                                  token_id (Some receipt_id) (Some receipt_hash)
                                  (Some timestamp) (Some timestamp_str) w3 with
                          | (Raise e, w4) =>
                              ((false, "Failed to cast vote: " ++ exn_str e, None), voter, w4)
                          | (Ok _, w4) =>
                              let '((success, msg), w5) :=
                                TokenService.use_token_for_ballot E token_id_s "pr" w4 in
                              if negb success then
                                ((false, "PR ballot failed: " ++ msg, None), voter, w5)
                              else
                                match Vote.cast_pr_vote E election_id party_id public_key
                                        token_id (Some receipt_id) (Some receipt_hash)
                                        (Some timestamp) (Some timestamp_str) w5 with
                                | (Raise e, w6) =>
                                    ((false, "Failed to cast vote: " ++ exn_str e, None),
                                     voter, w6)
                                | (Ok _, w6) =>
                                    let '(voter', w7) :=
                                      Voter.mark_voted voter election_id w6 in
                                    ((true, "Your dual ballot has been cast successfully!",
                                      Some {| receipt_id := receipt_id;
                                              timestamp :=
                                                strftime E "%B %d, %Y at %I:%M %p" timestamp |}),
                                     voter', w7)
                                end
                          end
                  end
            end
  end.
End VoteService.

Module AuditLog.
Import AuditLogData.

Definition CATEGORY_VOTE : string := "voting".
Definition EVENT_VOTE_CAST : string := "vote_cast".
Definition EVENT_TOKEN_ISSUED : string := "token_issued".

(** Genesis hash for the first entry in the chain. *)
Definition GENESIS_HASH : string := "GENESIS".

(** Python truthiness of a JSON-like value. *)
Definition value_truthy (v : value) : bool :=
  match v with
  | VNone => false
  | VStr s => negb (String.eqb s "")
  | VInt z => negb (z =? 0)
  | VBool b => b
  | VTime _ => true
  | VList l => match l with [] => false | _ => true end
  | VDict d => match d with [] => false | _ => true end
  end.

(** [self.entry_hash] of an object, [data.get('entry_hash')] of a stored
    document. *)
Definition get_entry_hash (data : t) : option string :=
  match entry_hash data with
  | Some h => h
  | None => None
  end.

(** [__init__] with an explicit timestamp: [details or {}]. *)
Definition init (category event_type message user_id user_type ip_address user_agent
                 : option string) (details : value) (timestamp : Z)
           (entry_hash previous_hash : option string) (_id : option nat) : t :=
  {| _id := _id; category := category; event_type := event_type; message := message;
     user_id := user_id; user_type := user_type; ip_address := ip_address;
     user_agent := user_agent;
     details := if value_truthy details then details else VDict [];
     timestamp := timestamp; entry_hash := Some entry_hash;
     previous_hash := previous_hash |}.

(** [to_dict]; for a stored document without the key [entry_hash], the
    dictionary without it. *)
Definition to_dict (self : t) : document :=
  with_id (_id self)
    ([("category", VOpt VStr (category self));
      ("event_type", VOpt VStr (event_type self));
      ("message", VOpt VStr (message self));
      ("user_id", VOpt VStr (user_id self));
      ("user_type", VOpt VStr (user_type self));
      ("ip_address", VOpt VStr (ip_address self));
      ("user_agent", VOpt VStr (user_agent self));
      ("details", details self);
      ("timestamp", VTime (timestamp self))]
     ++ match entry_hash self with
        | Some h => [("entry_hash", VOpt VStr h)]
        | None => []
        end
     ++ [("previous_hash", VOpt VStr (previous_hash self))])%list.

(** [from_dict] on a stored document. *)
Definition from_dict (data : t) : t :=
  init (category data) (event_type data) (message data) (user_id data) (user_type data)
       (ip_address data) (user_agent data) (details data) (timestamp data)
       (get_entry_hash data) (previous_hash data) (_id data).

(** The dictionary that [_compute_hash] serialises. *)
Definition hashed_data (E : Env) (self : t) : value :=
  let normalized_ts := strftime E "%Y-%m-%dT%H:%M:%S" (timestamp self) in
  VDict
    [("category", VOpt VStr (category self));
     ("event_type", VOpt VStr (event_type self));
     ("message", VOpt VStr (message self));
     ("user_id", VOpt VStr (user_id self));
     ("user_type", VOpt VStr (user_type self));
     ("ip_address", VOpt VStr (ip_address self));
     ("user_agent", VOpt VStr (user_agent self));
     ("details", details self);
     ("timestamp", VStr normalized_ts);
     ("previous_hash", VOpt VStr (previous_hash self))].

(** What [json.dumps] accepts: dictionaries with string keys, lists,
    strings, integers, booleans and [None], but no [datetime]. *)
Fixpoint serialisable (v : value) : bool :=
  match v with
  | VTime _ => false
  | VList l => forallb serialisable l
  | VDict d => forallb (fun kv => serialisable (snd kv)) d
  | _ => true
  end.

(** [json.dumps(data, sort_keys=True)]: [TypeError] on a value it cannot
    serialise, otherwise the text given by the environment. *)
Definition dumps_sorted (E : Env) (data : value) : result string :=
  if serialisable data then Ok (json_dumps E data)
  else Raise (TypeError "Object of type datetime is not JSON serializable").

(** [_compute_hash]. *)
Definition _compute_hash (E : Env) (self : t) : result string :=
  data_str <- dumps_sorted E (hashed_data E self) ;;
  Ok (sha256_hexdigest E data_str).

(** The query [{'entry_hash': {'$exists': True}}]: the stored document has
    the key, whatever its value. *)
Definition has_entry_hash (d : t) : bool :=
  in_list "entry_hash" (map fst (to_dict d)).

(** Stable insertion into a list sorted by ascending timestamp. *)
Fixpoint insert_asc (d : t) (l : list t) : list t :=
  match l with
  | [] => [d]
  | x :: l' => if timestamp d <? timestamp x then d :: x :: l'
               else x :: insert_asc d l'
  end.

(** [.sort('timestamp', 1)]. *)
Definition sort_asc (l : list t) : list t :=
  fold_left (fun acc d => insert_asc d acc) l [].

Fixpoint insert_desc (d : t) (l : list t) : list t :=
  match l with
  | [] => [d]
  | x :: l' => if timestamp x <? timestamp d then d :: x :: l'
               else x :: insert_desc d l'
  end.

(** [sort=[('timestamp', -1)]]. *)
Definition sort_desc (l : list t) : list t :=
  fold_left (fun acc d => insert_desc d acc) l [].

(** [_get_latest_hash]. *)
Definition _get_latest_hash (w : World) : string :=
  match sort_desc (filter has_entry_hash (audit_logs (db w))) with
  | latest :: _ =>
      if truthy (get_entry_hash latest)
      then match get_entry_hash latest with Some h => h | None => GENESIS_HASH end
      else GENESIS_HASH
  | [] => GENESIS_HASH
  end.

(** The object with its [_id], [entry_hash] and [previous_hash] set. *)
Definition with_hashes (self : t) (_id : option nat) (entry_hash previous_hash : option string)
  : t :=
  {| _id := _id; category := category self; event_type := event_type self;
     message := message self; user_id := user_id self; user_type := user_type self;
     ip_address := ip_address self; user_agent := user_agent self;
     details := details self; timestamp := timestamp self;
     entry_hash := Some entry_hash; previous_hash := previous_hash |}.

(** [save], for an entry that has no [_id] yet ([insert_one] gives it
    one).  When [_compute_hash] raises, nothing is stored. *)
Definition save (E : Env) (self : t) (w : World) : result t * World :=
  let previous_hash :=
    match previous_hash self with
    | None => Some (_get_latest_hash w)
    | Some h => Some h
    end in
  let self1 := with_hashes self (_id self) (get_entry_hash self) previous_hash in
  match _compute_hash E self1 with
  | Raise e => (Raise e, w)
  | Ok h =>
      let self2 := with_hashes self1 (_id self1) (Some h) previous_hash in
      let stored :=
        with_hashes self2 (Some (next_id (db w))) (get_entry_hash self2) previous_hash in
      (Ok stored,
       set_db w (set_audit_logs (db w) (audit_logs (db w) ++ [stored])%list
                   (S (next_id (db w)))))
  end.

(** [log]. *)
Definition log (E : Env) (category event_type message : string)
           (user_id user_type ip_address user_agent : option string) (details : value)
           (w : World) : result t * World :=
  let entry :=
    init (Some category) (Some event_type) (Some message) user_id user_type
         ip_address user_agent details (utcnow E (tick w)) None None None in
  save E entry (bump w).

(** The dictionary returned by [verify_chain]. *)
Record chain_report : Type := {
  valid : bool;
  entries_checked : nat;
  first_invalid_id : option nat;
  error : option string
}.

(** [str(entry.get('_id'))] inside an f-string. *)
Definition id_str (E : Env) (i : option nat) : string :=
  match i with
  | Some k => object_id_str E k
  | None => "None"
  end.

(** The loop of [verify_chain]; it raises when [_compute_hash] does. *)
Fixpoint check_entries (E : Env) (entries : list t) (entries_checked : nat)
         (expected_previous_hash : option string) : result chain_report :=
  match entries with
  | [] => Ok {| valid := true; entries_checked := entries_checked;
                first_invalid_id := None; error := None |}
  | entry :: rest =>
      let entries_checked := S entries_checked in
      if negb (opt_string_eqb (previous_hash entry) expected_previous_hash) then
        Ok {| valid := false; entries_checked := entries_checked;
              first_invalid_id := _id entry;
              error := Some ("Chain break: previous_hash mismatch at entry "
                             ++ id_str E (_id entry)) |}
      else
        let log_entry := from_dict entry in
        computed_hash <- _compute_hash E log_entry ;;
        if negb (opt_string_eqb (Some computed_hash) (get_entry_hash entry)) then
          Ok {| valid := false; entries_checked := entries_checked;
                first_invalid_id := _id entry;
                error := Some ("Hash mismatch: entry " ++ id_str E (_id entry)
                               ++ " was tampered with") |}
        else check_entries E rest entries_checked (get_entry_hash entry)
  end.

(** [verify_chain]; [limit] is [None] or a number of entries ([0] is falsy). *)
Definition verify_chain (E : Env) (limit : option nat) (w : World) : result chain_report :=
  let cursor := sort_asc (filter has_entry_hash (audit_logs (db w))) in
  let entries :=
    match limit with
    | Some (S n) => firstn (S n) cursor
    | _ => cursor
    end in
  check_entries E entries 0 (Some GENESIS_HASH).
End AuditLog.

Module AuditService.

(** [log_vote_cast]: what [AuditLog.log] returns, or [None] when logging
    is disabled; [enabled] is [AUDIT_LOG_ENABLED], and [ip_address],
    [user_agent] are the request context. *)
Definition log_vote_cast (E : Env) (enabled : bool) (ip_address user_agent : string)
           (voter_id election_id ballot_type : string) (w : World)
  : result (option AuditLogData.t) * World :=
  if negb enabled then (Ok None, w)
  else
    let '(r, w1) :=
      AuditLog.log E AuditLog.CATEGORY_VOTE AuditLog.EVENT_VOTE_CAST
        (upper E ballot_type ++ " ballot cast in election")
        (Some voter_id) (Some "voter") (Some ip_address) (Some user_agent)
        (VDict [("election_id", VStr election_id); ("ballot_type", VStr ballot_type)])
        w in
    (entry <- r ;; Ok (Some entry), w1).

(** [log_token_issued]. *)
Definition log_token_issued (E : Env) (enabled : bool) (ip_address user_agent : string)
           (voter_id election_id : string) (w : World)
  : result (option AuditLogData.t) * World :=
  if negb enabled then (Ok None, w)
  else
    let '(r, w1) :=
      AuditLog.log E AuditLog.CATEGORY_VOTE AuditLog.EVENT_TOKEN_ISSUED
        "Voting token issued"
        (Some voter_id) (Some "voter") (Some ip_address) (Some user_agent)
        (VDict [("election_id", VStr election_id)])
        w in
    (entry <- r ;; Ok (Some entry), w1).
End AuditService.

(** ** A deterministic environment for running scenarios

    The clock advances one second per reading, the CSPRNG returns the tick
    in hexadecimal, an object id prints as its number, and the digest, the
    serialiser and the cipher are injective stand-ins for SHA-256,
    [json.dumps] and the hybrid cipher. *)
Module Scenario.

Definition dec (z : Z) : string := Py.str_int z.

Definition upper_ascii (c : ascii) : ascii :=
  let n := nat_of_ascii c in
  if ((97 <=? n) && (n <=? 122))%nat then ascii_of_nat (n - 32) else c.

Fixpoint str_upper (s : string) : string :=
  match s with
  | EmptyString => EmptyString
  | String c s' => String (upper_ascii c) (str_upper s')
  end.

(** The double-quote character. *)
Definition dquote : string := String (ascii_of_nat 34) EmptyString.

Definition quoted (s : string) : string := dquote ++ s ++ dquote.

Fixpoint dumps (fuel : nat) (v : value) : string :=
  match fuel with
  | O => "..."
  | S f =>
      match v with
      | VNone => "null"
      | VStr s => quoted s
      | VInt z => dec z
      | VBool b => if b then "true" else "false"
      | VTime z => dec z
      | VList l => "[" ++ String.concat ", " (map (dumps f) l) ++ "]"
      | VDict d =>
          "{" ++ String.concat ", "
                   (map (fun kv => quoted (fst kv) ++ ": " ++ dumps f (snd kv)) d) ++ "}"
      end
  end.

Definition env : Env :=
  {| utcnow := fun k => 1700000000000000 + Z.of_nat k * 1000000;
     token_hex := fun n k => Py.zfill (Py.format_x (Z.of_nat k)) (2 * n);
     encrypt_vote := fun k _ _ => Ok ("blob-" ++ dec (Z.of_nat k));
     sha256_hexdigest := fun s => "sha256(" ++ s ++ ")";
     json_dumps := dumps 8;
     strftime := fun fmt ts => fmt ++ "@" ++ dec (ts / 1000000);
     upper := str_upper;
     object_id_str := fun k => dec (Z.of_nat k);
     retries := 8 |}.

End Scenario.

Module ScenarioRun.
Import Scenario.

Definition kathmandu_candidate : CandidateData.t :=
  {| CandidateData.candidate_id := "CND-AAAAAA"; CandidateData.name := "Asha";
     CandidateData.party := "Independent"; CandidateData.constituency := Some "Kathmandu" |}.

Definition party_one : PartyData.t :=
  {| PartyData.party_id := "PTY-111111"; PartyData.name := "Unity"; PartyData.symbol := None |}.

Definition election : ElectionData.t :=
  {| ElectionData._id := Some 0%nat; ElectionData.election_id := "ELC-20240101-AB12";
     ElectionData.name := "General"; ElectionData.description := "";
     ElectionData.candidates := [kathmandu_candidate];
     ElectionData.parties := [party_one];
     ElectionData.total_pr_seats := 110;
     ElectionData.start_date := 0; ElectionData.end_date := 1800000000000000;
     ElectionData.is_active := true; ElectionData.public_key := Some "{pk}";
     ElectionData.encrypted_key_bundle := Some "{bundle}";
     ElectionData.created_at := 0 |}.

Definition voter : VoterData.t :=
  {| VoterData._id := Some 1%nat; VoterData.voter_id := "VTR-0000BEEF";
     VoterData.citizenship_number_hash := "c"; VoterData.password_hash := "p";
     VoterData.full_name := "V One"; VoterData.constituency := "Kathmandu";
     VoterData.registered_at := 0; VoterData.elections_voted := [];
     VoterData.token_issued_for := [] |}.

Definition world0 : World :=
  {| db := {| elections := [election]; voters := [voter]; voting_tokens := [];
              votes := []; audit_logs := []; next_id := 2 |};
     tick := 0 |}.

Definition issued := TokenService.issue_token env voter "ELC-20240101-AB12" world0.

Definition cast :=
  match issued with
  | Some ((_, _, tok), v1, w1) =>
      Some (VoteService.cast_dual_ballot_with_token env v1 "ELC-20240101-AB12"
              "CND-AAAAAA" "PTY-111111" tok w1)
  | None => None
  end.
End ScenarioRun.

(** ** The stored documents and the anonymity predicate *)

Module Schema.

(** The candidate and party dictionaries embedded in an election. *)
Definition candidate_dict (c : CandidateData.t) : value :=
  VDict [("candidate_id", VStr (CandidateData.candidate_id c));
         ("name", VStr (CandidateData.name c));
         ("party", VStr (CandidateData.party c));
         ("constituency", VOpt VStr (CandidateData.constituency c))].

Definition party_dict (p : PartyData.t) : value :=
  VDict ([("party_id", VStr (PartyData.party_id p)); ("name", VStr (PartyData.name p))]
         ++ match PartyData.symbol p with
            | Some s => [("symbol", VStr s)]
            | None => []
            end)%list.

(** [Election.to_dict]. *)
Definition election_to_dict (self : ElectionData.t) : document :=
  with_id (ElectionData._id self)
    [("election_id", VStr (ElectionData.election_id self));
     ("name", VStr (ElectionData.name self));
     ("description", VStr (ElectionData.description self));
     ("candidates", VList (map candidate_dict (ElectionData.candidates self)));
     ("parties", VList (map party_dict (ElectionData.parties self)));
     ("total_pr_seats", VInt (ElectionData.total_pr_seats self));
     ("start_date", VTime (ElectionData.start_date self));
     ("end_date", VTime (ElectionData.end_date self));
     ("is_active", VBool (ElectionData.is_active self));
     ("public_key", VOpt VStr (ElectionData.public_key self));
     ("encrypted_key_bundle", VOpt VStr (ElectionData.encrypted_key_bundle self));
     ("created_at", VTime (ElectionData.created_at self))].

(** Every key of a value, at any depth. *)
Fixpoint value_keys (v : value) : list string :=
  match v with
  | VList l => flat_map value_keys l
  | VDict d => flat_map (fun kv => fst kv :: value_keys (snd kv)) d
  | _ => []
  end.

Definition document_keys (d : document) : list string :=
  flat_map (fun kv => fst kv :: value_keys (snd kv)) d.

(** The document names an elector: [voter_id], or the [user_id] under
    which the audit log records the acting voter. *)
Definition mentions_elector (d : document) : Prop :=
  In "voter_id" (document_keys d) \/ In "user_id" (document_keys d).

(** The document names a token or holds a ballot ciphertext. *)
Definition mentions_ballot (d : document) : Prop :=
  In "token_id" (document_keys d) \/ In "encrypted_vote" (document_keys d).

Definition anonymous (d : document) : Prop :=
  ~ (mentions_elector d /\ mentions_ballot d).

(** All documents of the five collections. *)
Definition stored_documents (d : DB) : list document :=
  (map election_to_dict (elections d)
   ++ map Voter.to_dict (voters d)
   ++ map VotingToken.to_dict (voting_tokens d)
   ++ map Vote.stored (votes d)
   ++ map AuditLog.to_dict (audit_logs d))%list.

(** States reached from [w0] by the public operations: token issuance,
    token consumption, ballot casting on either path, receipt
    verification, and the audit entries the routes write for them. *)
Inductive reachable (E : Env) (w0 : World) : World -> Prop :=
| reach_init : reachable E w0 w0
| reach_issue_token w voter eid r voter' w' :
    reachable E w0 w ->
    TokenService.issue_token E voter eid w = Some (r, voter', w') ->
    reachable E w0 w'
| reach_use_token w tid bt r w' :
    reachable E w0 w ->
    TokenService.use_token_for_ballot E tid bt w = (r, w') ->
    reachable E w0 w'
| reach_cast_dual_ballot w voter eid cid pid r voter' w' :
    reachable E w0 w ->
    VoteService.cast_dual_ballot E voter eid cid pid w = (r, voter', w') ->
    reachable E w0 w'
| reach_cast_with_token w voter eid cid pid tok r voter' w' :
    reachable E w0 w ->
    VoteService.cast_dual_ballot_with_token E voter eid cid pid tok w = (r, voter', w') ->
    reachable E w0 w'
| reach_verify_receipt w rid log r w' :
    reachable E w0 w ->
    Vote.verify_receipt E rid log w = (r, w') ->
    reachable E w0 w'
| reach_log_token_issued w enabled ip ua voter_id eid r w' :
    reachable E w0 w ->
    AuditService.log_token_issued E enabled ip ua voter_id eid w = (r, w') ->
    reachable E w0 w'
| reach_log_vote_cast w enabled ip ua voter_id eid bt r w' :
    reachable E w0 w ->
    AuditService.log_vote_cast E enabled ip ua voter_id eid bt w = (r, w') ->
    reachable E w0 w'.

(** The key added by [with_id]. *)
Definition id_keys (i : option nat) : list string :=
  match i with Some _ => ["_id"] | None => [] end.

(** Every key a stored vote can have, at any depth. *)
Definition vote_schema : list string :=
  ["election_id"; "ballot_type"; "encrypted_vote"; "constituency"; "timestamp";
   "token_id"; "receipt_id"; "receipt_hash"; "timestamp_str"; "_id";
   "verification_history"; "verified_at"; "verified_at_formatted";
   "last_verified_at"; "verification_count"].

(** Every key a stored election can have, at any depth. *)
Definition election_schema : list string :=
  ["election_id"; "name"; "description"; "candidates"; "candidate_id"; "party";
   "constituency"; "parties"; "party_id"; "symbol"; "total_pr_seats"; "start_date";
   "end_date"; "is_active"; "public_key"; "encrypted_key_bundle"; "created_at"; "_id"].

(** The [details] of an audit entry name neither a token nor a ciphertext. *)
Definition details_clean (a : AuditLogData.t) : Prop :=
  ~ In "token_id" (value_keys (AuditLogData.details a)) /\
  ~ In "encrypted_vote" (value_keys (AuditLogData.details a)).

End Schema.

(** ** Appending to and tampering with the audit chain *)

Module AuditChain.
Import AuditLogData.

(** Entries appended one after the other with [AuditLog.save], as far as
    none of the calls raises. *)
Fixpoint save_all (E : Env) (entries : list t) (w : World) : result World :=
  match entries with
  | [] => Ok w
  | e :: rest =>
      match AuditLog.save E e w with
      | (Ok _, w1) => save_all E rest w1
      | (Raise x, _) => Raise x
      end
  end.

(** An object as [__init__] builds it: [details or {}] has been applied. *)
Definition constructed (e : t) : Prop :=
  details e = if AuditLog.value_truthy (details e) then details e else VDict [].

(** Timestamps strictly increase along the list. *)
Definition chronological (l : list t) : Prop :=
  StronglySorted (fun a b => timestamp a < timestamp b) l.

(** The eleven keys of a stored entry that [verify_chain] reads: the ten
    hashed ones, then [entry_hash]. *)
Definition field_names : list string :=
  ["category"; "event_type"; "message"; "user_id"; "user_type"; "ip_address";
   "user_agent"; "details"; "timestamp"; "previous_hash"; "entry_hash"].

(** The value a stored entry holds under a key; [None] when it has no
    such key. *)
Definition stored_field (e : t) (key : string) : option value :=
  match find (fun kv => String.eqb (fst kv) key) (AuditLog.to_dict e) with
  | Some kv => Some (snd kv)
  | None => None
  end.

(** [e'] is [e] with what it holds under key number [k] changed, and what
    it holds under the ten other keys kept. *)
Definition differs_only_in (k : nat) (e e' : t) : Prop :=
  forall j, (j < 11)%nat ->
            (stored_field e' (nth j field_names "") = stored_field e (nth j field_names "")
             <-> j <> k).

(** The change of key number [k] is one that [verify_chain] reads.  The
    entry still has the key [entry_hash]: the query leaves out an entry
    without it.  Changed [details] can be serialised and are not a falsy
    value put for another: [from_dict] reads [details or {}].  A changed
    timestamp differs in its text to the second, which is what is
    hashed. *)
Definition visible (E : Env) (k : nat) (e e' : t) : Prop :=
  AuditLog.has_entry_hash e' = true /\
  (k = 7%nat ->
   AuditLog.serialisable (details e') = true /\
   (AuditLog.value_truthy (details e) = true \/
    AuditLog.value_truthy (details e') = true)) /\
  (k = 8%nat ->
   strftime E "%Y-%m-%dT%H:%M:%S" (timestamp e')
   <> strftime E "%Y-%m-%dT%H:%M:%S" (timestamp e)).

(** The entries of [l] link up from [prev] and carry their own hash. *)
Fixpoint chain_ok (E : Env) (prev : option string) (l : list t) : Prop :=
  match l with
  | [] => True
  | e :: l' =>
      previous_hash e = prev /\
      (exists h, entry_hash e = Some (Some h) /\
                 AuditLog._compute_hash E (AuditLog.from_dict e) = Ok h) /\
      chain_ok E (AuditLog.get_entry_hash e) l'
  end.

Definition last_hash (prev : option string) (l : list t) : option string :=
  fold_left (fun _ e => AuditLog.get_entry_hash e) l prev.

Definition digest_nonempty (E : Env) : Prop := forall s, sha256_hexdigest E s <> "".

End AuditChain.

(** ** Properties of voters, receipts and elections used in the statements *)

Module VotingProps.

(** The message reported for an election that is not ongoing. *)
Definition not_ongoing_message (E : Env) (election : ElectionData.t) (w : World) : string :=
  if ElectionData.end_date election <? utcnow E (S (tick w))
  then "This election has ended" else "This election has not started yet".

(** [elections_voted] is included in [token_issued_for]. *)
Definition voted_subset_issued (v : VoterData.t) : Prop :=
  forall e, In e (VoterData.elections_voted v) -> In e (VoterData.token_issued_for v).

Definition db_inv (d : DB) : Prop := Forall voted_subset_issued (voters d).

(** Every stored document of this voter records a token for [eid]. *)
Definition token_recorded (w : World) (voter : VoterData.t) (eid : string) : Prop :=
  forall d, In d (voters (db w)) -> Voter.same_id voter d = true ->
            In eid (VoterData.token_issued_for d).

(** The stored hash is the digest of the vote's own receipt fields. *)
Definition receipt_consistent (E : Env) (v : VoteData.t) : Prop :=
  VoteData.receipt_hash v = Some (sha256_hexdigest E (Vote.hash_input E v)).

(** A vote carrying the receipt minted by [generate_receipt] for [rid]. *)
Definition carries_receipt (E : Env) (eid rid : string) (v : VoteData.t) : Prop :=
  VoteData.election_id v = eid /\
  VoteData.receipt_id v = Some rid /\
  VoteData.timestamp_str v = Some (strftime E "%Y-%m-%d %H:%M:%S" (VoteData.timestamp v)) /\
  VoteData.receipt_hash v
  = Some (sha256_hexdigest E
            (rid ++ ":" ++ eid ++ ":"
             ++ strftime E "%Y-%m-%d %H:%M:%S" (VoteData.timestamp v))).

(** [v'] is [v] with exactly one of the three hashed receipt fields
    changed. *)
Definition one_field_mutated (v v' : VoteData.t) : Prop :=
  (VoteData.receipt_id v' <> VoteData.receipt_id v /\
   VoteData.election_id v' = VoteData.election_id v /\
   VoteData.timestamp_str v' = VoteData.timestamp_str v)
  \/ (VoteData.receipt_id v' = VoteData.receipt_id v /\
      VoteData.election_id v' <> VoteData.election_id v /\
      VoteData.timestamp_str v' = VoteData.timestamp_str v)
  \/ (VoteData.receipt_id v' = VoteData.receipt_id v /\
      VoteData.election_id v' = VoteData.election_id v /\
      VoteData.timestamp_str v' <> VoteData.timestamp_str v).

(** [v'] is [v] with its [timestamp_str] emptied or deleted, and with the
    other fields that [verify_receipt] reads kept. *)
Definition timestamp_str_blanked (v v' : VoteData.t) : Prop :=
  truthy (VoteData.timestamp_str v') = false /\
  VoteData.receipt_id v' = VoteData.receipt_id v /\
  VoteData.election_id v' = VoteData.election_id v /\
  VoteData.timestamp v' = VoteData.timestamp v /\
  VoteData.receipt_hash v' = VoteData.receipt_hash v.

End VotingProps.

(** ** Concrete inputs for the Shamir engine, the tally and the cipher *)

Module ShamirRuns.
Import ShamirSecretSharing ShamirExample.

(** The five shares of Scenario 1. *)
Definition scenario_shares : list (Z * string) :=
  match split_secret sss rnd secret with
  | Ok shares => shares
  | Raise _ => []
  end.

(** Shares 2, 4, 5 and 1, in that order. *)
Definition four_shares : list (Z * string) := pick scenario_shares [1; 3; 4; 0]%nat.

(** A one-byte secret under the polynomial [5 + x + 2 x^2]. *)
Definition small_secret : list byte := [x05].
Definition small_rnd (k : nat) : Z := Z.of_nat k.

Definition small_shares : list (Z * string) :=
  match split_secret sss small_rnd small_secret with
  | Ok shares => shares
  | Raise _ => []
  end.

(** Share 1 twice, then shares 2 and 3. *)
Definition repeated_shares : list (Z * string) := pick small_shares [0; 0; 1; 2]%nat.

End ShamirRuns.

Module TallyRuns.
Import Tally.

(** Scenario 6 of the specification. *)
Definition scenario_votes : dict Z := [("A", 42); ("B", 31); ("C", 15); ("D", 12)].

Definition two_parties : dict Z := [("A", 10); ("B", 21)].
Definition many_seats : Z := 8463394636855703.

End TallyRuns.

Module CryptoRuns.
Import ElectionCrypto.

Definition toy_package : package :=
  [("encrypted_key_rsa", "k"); ("kyber_ciphertext", "c"); ("kyber_protected_key", "p");
   ("nonce", "n"); ("tag", "t"); ("ciphertext", "x")].

(** Stand-ins for the libraries: decoding is the identity on text, both
    key-recovery primitives return their input, and the only JSON text is
    the one of [toy_package]. *)
Definition toy : Primitives :=
  {| RsaKey := unit;
     b64decode := fun s => Ok (list_byte_of_string s);
     json_loads := fun b =>
       if bytes_eqb b (list_byte_of_string "package") then Ok toy_package
       else Ok [("vote", string_of_list_byte b)];
     PKCS1_OAEP_decrypt := fun _ c => Ok c;
     ML_KEM_768_decaps := fun _ c => Ok c;
     AES_GCM_decrypt_and_verify := fun _ _ c _ => Ok c |}.

End CryptoRuns.

(** ** Concrete runs used as test points *)
Module Runs.
Import Scenario ScenarioRun.

Definition eid : string := "ELC-20240101-AB12".
Definition cid : string := "CND-AAAAAA".
Definition pid : string := "PTY-111111".

(** The token, the voter object and the world after [issue_token]. *)
Definition after_issue : option string * VoterData.t * World :=
  match issued with
  | Some ((_, _, tok), v1, w1) => (tok, v1, w1)
  | None => (None, voter, world0)
  end.
Definition token1 : option string := fst (fst after_issue).
Definition voter1 : VoterData.t := snd (fst after_issue).
Definition world1 : World := snd after_issue.

(** A complete dual ballot. *)
Definition cast_result :=
  VoteService.cast_dual_ballot_with_token env voter1 eid cid pid token1 world1.
Definition voter2 : VoterData.t := snd (fst cast_result).
Definition world2 : World := snd cast_result.

(** The PR half of the token is consumed before the dual ballot is cast. *)
Definition token1_id : string := match token1 with Some s => s | None => "" end.
Definition world1_pr : World :=
  snd (TokenService.use_token_for_ballot env token1_id "pr" world1).
Definition partial_result :=
  VoteService.cast_dual_ballot_with_token env voter1 eid cid pid token1 world1_pr.

(** The token-less path, for a voter who was never issued a token. *)
Definition legacy_result := VoteService.cast_dual_ballot env voter eid cid pid world0.

(** The same election, deactivated inside its date window. *)
Definition election_off : ElectionData.t :=
  {| ElectionData._id := Some 0%nat; ElectionData.election_id := eid;
     ElectionData.name := "General"; ElectionData.description := "";
     ElectionData.candidates := [kathmandu_candidate];
     ElectionData.parties := [party_one];
     ElectionData.total_pr_seats := 110;
     ElectionData.start_date := 0; ElectionData.end_date := 1800000000000000;
     ElectionData.is_active := false; ElectionData.public_key := Some "{pk}";
     ElectionData.encrypted_key_bundle := Some "{bundle}";
     ElectionData.created_at := 0 |}.

Definition world_off : World :=
  {| db := {| elections := [election_off]; voters := [voter]; voting_tokens := [];
              votes := []; audit_logs := []; next_id := 2 |};
     tick := 0 |}.

(** A stored vote with another [election_id]. *)
Definition with_election_id (v : VoteData.t) (e : string) : VoteData.t :=
  {| VoteData._id := VoteData._id v; VoteData.election_id := e;
     VoteData.ballot_type := VoteData.ballot_type v;
     VoteData.encrypted_vote := VoteData.encrypted_vote v;
     VoteData.constituency := VoteData.constituency v;
     VoteData.timestamp := VoteData.timestamp v; VoteData.token_id := VoteData.token_id v;
     VoteData.receipt_id := VoteData.receipt_id v;
     VoteData.receipt_hash := VoteData.receipt_hash v;
     VoteData.timestamp_str := VoteData.timestamp_str v;
     VoteData.verification_history := VoteData.verification_history v;
     VoteData.last_verified_at := VoteData.last_verified_at v;
     VoteData.verification_count := VoteData.verification_count v |}.

Definition with_votes (w : World) (l : list VoteData.t) : World :=
  set_db w (set_votes (db w) l (next_id (db w))).

(** [world2] with the [election_id] of its [k]-th vote record overwritten. *)
Definition tamper_vote (k : nat) (w : World) : World :=
  with_votes w
    (map (fun iv => if Nat.eqb (fst iv) k then with_election_id (snd iv) "ELC-OTHER"
                    else snd iv)
         (enumerate (votes (db w)))).

(** A stored vote without its [timestamp_str]. *)
Definition without_timestamp_str (v : VoteData.t) : VoteData.t :=
  {| VoteData._id := VoteData._id v; VoteData.election_id := VoteData.election_id v;
     VoteData.ballot_type := VoteData.ballot_type v;
     VoteData.encrypted_vote := VoteData.encrypted_vote v;
     VoteData.constituency := VoteData.constituency v;
     VoteData.timestamp := VoteData.timestamp v; VoteData.token_id := VoteData.token_id v;
     VoteData.receipt_id := VoteData.receipt_id v;
     VoteData.receipt_hash := VoteData.receipt_hash v;
     VoteData.timestamp_str := None;
     VoteData.verification_history := VoteData.verification_history v;
     VoteData.last_verified_at := VoteData.last_verified_at v;
     VoteData.verification_count := VoteData.verification_count v |}.

(** [world2] with the [timestamp_str] of its [k]-th vote record deleted. *)
Definition blank_vote_time (k : nat) (w : World) : World :=
  with_votes w
    (map (fun iv => if Nat.eqb (fst iv) k then without_timestamp_str (snd iv)
                    else snd iv)
         (enumerate (votes (db w)))).

(** Two audit entries, one second apart. *)
Definition entry (user : string) (ts : Z) : AuditLogData.t :=
  AuditLog.init (Some "voting") (Some "token_issued") (Some "Voting token issued")
                (Some user) (Some "voter") (Some "127.0.0.1") (Some "pytest")
                (VDict [("election_id", VStr eid)]) ts None None None.

Definition entries : list AuditLogData.t :=
  [entry "VTR-0000BEEF" 1700000000000000; entry "VTR-0000CAFE" 1700000001000000].

Definition logged : World :=
  match AuditChain.save_all env entries world0 with
  | Ok w => w
  | Raise _ => world0
  end.

Definition with_audit_logs (w : World) (l : list AuditLogData.t) : World :=
  set_db w (set_audit_logs (db w) l (next_id (db w))).

Definition with_user_id (e : AuditLogData.t) (u : option string) : AuditLogData.t :=
  {| AuditLogData._id := AuditLogData._id e; AuditLogData.category := AuditLogData.category e;
     AuditLogData.event_type := AuditLogData.event_type e;
     AuditLogData.message := AuditLogData.message e; AuditLogData.user_id := u;
     AuditLogData.user_type := AuditLogData.user_type e;
     AuditLogData.ip_address := AuditLogData.ip_address e;
     AuditLogData.user_agent := AuditLogData.user_agent e;
     AuditLogData.details := AuditLogData.details e;
     AuditLogData.timestamp := AuditLogData.timestamp e;
     AuditLogData.entry_hash := AuditLogData.entry_hash e;
     AuditLogData.previous_hash := AuditLogData.previous_hash e |}.

Definition with_timestamp (e : AuditLogData.t) (ts : Z) : AuditLogData.t :=
  {| AuditLogData._id := AuditLogData._id e; AuditLogData.category := AuditLogData.category e;
     AuditLogData.event_type := AuditLogData.event_type e;
     AuditLogData.message := AuditLogData.message e;
     AuditLogData.user_id := AuditLogData.user_id e;
     AuditLogData.user_type := AuditLogData.user_type e;
     AuditLogData.ip_address := AuditLogData.ip_address e;
     AuditLogData.user_agent := AuditLogData.user_agent e;
     AuditLogData.details := AuditLogData.details e;
     AuditLogData.timestamp := ts;
     AuditLogData.entry_hash := AuditLogData.entry_hash e;
     AuditLogData.previous_hash := AuditLogData.previous_hash e |}.

(** The first stored entry with another [user_id]. *)
Definition logged_user_changed : World :=
  with_audit_logs logged
    (map (fun ie => if Nat.eqb (fst ie) 0 then with_user_id (snd ie) (Some "VTR-TAMPERED")
                    else snd ie)
         (enumerate (audit_logs (db logged)))).

(** The first stored entry with its timestamp moved by 250 milliseconds. *)
Definition logged_time_changed : World :=
  with_audit_logs logged
    (map (fun ie => if Nat.eqb (fst ie) 0
                    then with_timestamp (snd ie) (AuditLogData.timestamp (snd ie) + 250000)
                    else snd ie)
         (enumerate (audit_logs (db logged)))).

(** The first stored entry with its timestamp moved by five seconds. *)
Definition logged_time_moved : World :=
  with_audit_logs logged
    (map (fun ie => if Nat.eqb (fst ie) 0
                    then with_timestamp (snd ie) (AuditLogData.timestamp (snd ie) + 5000000)
                    else snd ie)
         (enumerate (audit_logs (db logged)))).

Definition with_details (e : AuditLogData.t) (d : value) : AuditLogData.t :=
  {| AuditLogData._id := AuditLogData._id e; AuditLogData.category := AuditLogData.category e;
     AuditLogData.event_type := AuditLogData.event_type e;
     AuditLogData.message := AuditLogData.message e;
     AuditLogData.user_id := AuditLogData.user_id e;
     AuditLogData.user_type := AuditLogData.user_type e;
     AuditLogData.ip_address := AuditLogData.ip_address e;
     AuditLogData.user_agent := AuditLogData.user_agent e;
     AuditLogData.details := d;
     AuditLogData.timestamp := AuditLogData.timestamp e;
     AuditLogData.entry_hash := AuditLogData.entry_hash e;
     AuditLogData.previous_hash := AuditLogData.previous_hash e |}.

Definition without_entry_hash (e : AuditLogData.t) : AuditLogData.t :=
  {| AuditLogData._id := AuditLogData._id e; AuditLogData.category := AuditLogData.category e;
     AuditLogData.event_type := AuditLogData.event_type e;
     AuditLogData.message := AuditLogData.message e;
     AuditLogData.user_id := AuditLogData.user_id e;
     AuditLogData.user_type := AuditLogData.user_type e;
     AuditLogData.ip_address := AuditLogData.ip_address e;
     AuditLogData.user_agent := AuditLogData.user_agent e;
     AuditLogData.details := AuditLogData.details e;
     AuditLogData.timestamp := AuditLogData.timestamp e;
     AuditLogData.entry_hash := None;
     AuditLogData.previous_hash := AuditLogData.previous_hash e |}.

(** The first stored entry with a [datetime] as its [details]. *)
Definition logged_details_dated : World :=
  with_audit_logs logged
    (map (fun ie => if Nat.eqb (fst ie) 0 then with_details (snd ie) (VTime 0)
                    else snd ie)
         (enumerate (audit_logs (db logged)))).

(** The last stored entry without its key [entry_hash]. *)
Definition logged_hash_dropped : World :=
  with_audit_logs logged
    (map (fun ie => if Nat.eqb (fst ie) 1 then without_entry_hash (snd ie)
                    else snd ie)
         (enumerate (audit_logs (db logged)))).

(** Two entries logged without details, and the first of them with its
    stored [{}] replaced by [null]. *)
Definition bare_entry (user : string) (ts : Z) : AuditLogData.t :=
  AuditLog.init (Some "authentication") (Some "logout") (Some "Voter logged out")
                (Some user) (Some "voter") (Some "127.0.0.1") (Some "pytest")
                VNone ts None None None.

Definition bare_entries : list AuditLogData.t :=
  [bare_entry "VTR-0000BEEF" 1700000000000000; bare_entry "VTR-0000CAFE" 1700000001000000].

Definition logged_bare : World :=
  match AuditChain.save_all env bare_entries world0 with
  | Ok w => w
  | Raise _ => world0
  end.

Definition logged_details_nulled : World :=
  with_audit_logs logged_bare
    (map (fun ie => if Nat.eqb (fst ie) 0 then with_details (snd ie) VNone
                    else snd ie)
         (enumerate (audit_logs (db logged_bare)))).

Definition stored_first : AuditLogData.t := hd (entry "" 0) (audit_logs (db logged)).
Definition stored_rest : list AuditLogData.t := tl (audit_logs (db logged)).

Definition blank_vote : VoteData.t :=
  {| VoteData._id := None; VoteData.election_id := ""; VoteData.ballot_type := "";
     VoteData.encrypted_vote := None; VoteData.constituency := None;
     VoteData.timestamp := 0; VoteData.token_id := ""; VoteData.receipt_id := None;
     VoteData.receipt_hash := None; VoteData.timestamp_str := None;
     VoteData.verification_history := []; VoteData.last_verified_at := None;
     VoteData.verification_count := None |}.

(** The two vote records of [world2]. *)
Definition fptp_vote : VoteData.t := nth 0 (votes (db world2)) blank_vote.
Definition pr_vote : VoteData.t := nth 1 (votes (db world2)) blank_vote.

End Runs.

(** ** The text of a share *)

Module ShareText.

(** One of [0-9a-f]. *)
Definition is_lower_hex (c : ascii) : bool :=
  let n := nat_of_ascii c in
  ((48 <=? n) && (n <=? 57) || (97 <=? n) && (n <=? 102))%nat.

Fixpoint all_chars (f : ascii -> bool) (s : string) : bool :=
  match s with
  | EmptyString => true
  | String c s' => f c && all_chars f s'
  end.

(** The width of a share: [len(format(PRIME, 'x'))]. *)
Definition share_width : nat := String.length (Py.format_x PRIME).

(** [l] with the element at position [length pre] replaced. *)
Definition replaced {A : Type} (pre : list A) (x : A) (post : list A) : list A :=
  (pre ++ x :: post)%list.

End ShareText.

(** ** Building the FPTP results ([VoteService._build_fptp_results]) *)

Module FptpResults.

(** One entry of [candidates_results]. *)
Record candidate_result : Type := {
  candidate_id : string;
  name : string;
  party : string;
  votes : Z
}.

(** The value stored under one constituency. *)
Record constituency_result : Type := {
  candidates : list candidate_result;
  winner : option candidate_result;
  total_votes : Z
}.

Record fptp_results : Type := {
  constituencies : list (string * constituency_result);
  election : ElectionData.t
}.

(** Decrypted counts: [{constituency: {candidate_id: count}}]; a key is
    [None] when the decrypted ballot lacks the field. *)
Definition counts : Type := list (option string * list (option string * Z)).

(** [d.get(key, default)] on an insertion-ordered dictionary. *)
Definition get {A : Type} (d : list (option string * A)) (key : option string) (default : A)
  : A :=
  match find (fun kv => opt_string_eqb (fst kv) key) d with
  | Some kv => snd kv
  | None => default
  end.

(** [Election.get_candidates_by_constituency]. *)
Definition get_candidates_by_constituency (self : ElectionData.t) (constituency : string)
  : list CandidateData.t :=
  filter (fun c => opt_string_eqb (CandidateData.constituency c) (Some constituency))
         (ElectionData.candidates self).

(** Insertion after the entries whose votes are not smaller. *)
Fixpoint insert_desc (x : candidate_result) (l : list candidate_result)
  : list candidate_result :=
  match l with
  | [] => [x]
  | y :: l' => if votes y <? votes x then x :: y :: l'
               else y :: insert_desc x l'
  end.

(** [l.sort(key=lambda x: x['votes'], reverse=True)]: descending, entries
    with equal votes keep their order. *)
Definition sort_by_votes (l : list candidate_result) : list candidate_result :=
  fold_left (fun acc x => insert_desc x acc) l [].

(** The entries of one constituency, in ballot order, before sorting. *)
Definition entries (election : ElectionData.t) (vote_counts : counts)
           (constituency : string) : list candidate_result :=
  let constituency_votes := get vote_counts (Some constituency) [] in
  map (fun candidate =>
         {| candidate_id := CandidateData.candidate_id candidate;
            name := CandidateData.name candidate;
            party := CandidateData.party candidate;
            votes := get constituency_votes
                         (Some (CandidateData.candidate_id candidate)) 0 |})
      (get_candidates_by_constituency election constituency).

(** [_build_fptp_results]. *)
Definition _build_fptp_results (election : ElectionData.t) (vote_counts : counts)
  : fptp_results :=
  {| constituencies :=
       map (fun constituency =>
              let candidates_results :=
                sort_by_votes (entries election vote_counts constituency) in
              (constituency,
               {| candidates := candidates_results;
                  winner := hd_error candidates_results;
                  total_votes :=
                    fold_left (fun acc c => acc + votes c) candidates_results 0 |}))
           Election.VALID_CONSTITUENCIES;
     election := election |}.

End FptpResults.

(** ** Ending an election ([Election.terminate], [ElectionService]) *)

Module ElectionAdmin.
Import ElectionData.

Definition with_end_date (ts : Z) (e : t) : t :=
  {| _id := _id e; election_id := election_id e; name := name e;
     description := description e; candidates := candidates e; parties := parties e;
     total_pr_seats := total_pr_seats e; start_date := start_date e;
     end_date := ts; is_active := is_active e; public_key := public_key e;
     encrypted_key_bundle := encrypted_key_bundle e; created_at := created_at e |}.

Definition set_elections (d : DB) (l : list t) : DB :=
  {| elections := l; voters := voters d; voting_tokens := voting_tokens d;
     votes := votes d; audit_logs := audit_logs d; next_id := next_id d |}.

(** [Election.terminate]: [$set] of [end_date] to the clock reading, on
    the first election with this id. *)
Definition terminate (E : Env) (election_id : string) (w : World) : World :=
  let now := utcnow E (tick w) in
  let w1 := bump w in
  set_db w1 (set_elections (db w1)
               (fst (update_one
                       (fun e => String.eqb (ElectionData.election_id e) election_id)
                       (with_end_date now) (elections (db w1))))).

(** [ElectionService.terminate_election]. *)
Definition terminate_election (E : Env) (election_id : string) (w : World)
  : (bool * string) * World :=
  match Election.find_by_election_id w election_id with
  | None => ((false, "Election not found"), w)
  | Some election =>
      let '(started, w1) := Election.has_started E election w in
      if negb started then
        ((false, "Cannot terminate an election that hasn't started yet"), w1)
      else
        let '(ended, w2) := Election.has_ended E election w1 in
        if ended then ((false, "Election has already ended"), w2)
        else
          ((true, "Election terminated successfully. Results can now be viewed."),
           terminate E election_id w2)
  end.

(** [ElectionService.deactivate_election]. *)
Definition deactivate_election (election_id : string) (w : World)
  : (bool * string) * World :=
  match Election.find_by_election_id w election_id with
  | None => ((false, "Election not found"), w)
  | Some _ => ((true, "Election deactivated successfully"),
               Election.deactivate w election_id)
  end.

End ElectionAdmin.

(** ** Counting stored votes ([Vote.count_by_*]) *)

Module VoteQueries.

(** [d.get(key)] on a stored document. *)
Definition lookup (d : document) (key : string) : option value :=
  match find (fun kv => String.eqb (fst kv) key) d with
  | Some kv => Some (snd kv)
  | None => None
  end.

(** One clause [{key: s}] of a query whose value is a string: the
    document holds this string under the key, or an array containing it. *)
Definition clause_holds (d : document) (clause : string * string) : bool :=
  match lookup d (fst clause) with
  | Some (VStr s) => String.eqb s (snd clause)
  | Some (VList l) =>
      existsb (fun v => match v with VStr s => String.eqb s (snd clause) | _ => false end) l
  | _ => false
  end.

(** [count_documents(query)] over the votes collection. *)
Definition count_documents (query : list (string * string)) (w : World) : nat :=
  List.length (filter (fun d => forallb (clause_holds d) query)
                      (map Vote.stored (votes (db w)))).

(** [Vote.count_by_election]. *)
Definition count_by_election (election_id : string) (ballot_type : option string)
           (w : World) : nat :=
  count_documents
    ([("election_id", election_id)]
     ++ (if truthy ballot_type
         then [("ballot_type", match ballot_type with Some b => b | None => "" end)]
         else []))%list w.

(** [Vote.count_by_candidate]. *)
Definition count_by_candidate (election_id candidate_id : string) (w : World) : nat :=
  count_documents
    [("election_id", election_id); ("ballot_type", "fptp"); ("candidate_id", candidate_id)] w.

(** [Vote.count_by_party]. *)
Definition count_by_party (election_id party_id : string) (w : World) : nat :=
  count_documents
    [("election_id", election_id); ("ballot_type", "pr"); ("party_id", party_id)] w.

End VoteQueries.

(** ** The status of the audit chain ([AuditLog.get_chain_status]) *)

Module AuditStatus.
Import AuditLogData.

(** The dictionary returned by [get_chain_status]. *)
Record chain_status : Type := {
  total_entries : nat;
  chain_entries : nat;
  legacy_entries : Z;
  latest_hash : string;
  chain_intact : bool;
  verification_details : AuditLog.chain_report
}.

(** [get_chain_status]; it raises when [verify_chain] does. *)
Definition get_chain_status (E : Env) (w : World) : result chain_status :=
  let total_entries := List.length (audit_logs (db w)) in
  let chain_entries := List.length (filter AuditLog.has_entry_hash (audit_logs (db w))) in
  let legacy_entries := Z.of_nat total_entries - Z.of_nat chain_entries in
  let latest_hash := AuditLog._get_latest_hash w in
  verification <- AuditLog.verify_chain E (Some 1000%nat) w ;;
  Ok {| total_entries := total_entries;
        chain_entries := chain_entries;
        legacy_entries := legacy_entries;
        latest_hash := latest_hash;
        chain_intact := AuditLog.valid verification;
        verification_details := verification |}.

End AuditStatus.

(** ** Notions used to state the use of tokens *)

Module TokenProps.
Import VotingTokenData.

(** The token has served for the FPTP ballot, or is marked fully used. *)
Definition spent (t : VotingTokenData.t) : Prop :=
  is_fully_used t = true \/ In "fptp" (ballots_used t).

(** [t'] is the token [t] after zero or more further uses. *)
Definition used_more (t t' : VotingTokenData.t) : Prop :=
  (is_fully_used t = true -> is_fully_used t' = true) /\
  incl (ballots_used t) (ballots_used t').

(** Every token found in [w] under an id is found in [w'] under the same
    id, used at least as much. *)
Definition tokens_grow (w w' : World) : Prop :=
  forall tid t, VotingToken.find_by_token_id w tid = Some t ->
                exists t', VotingToken.find_by_token_id w' tid = Some t' /\ used_more t t'.

End TokenProps.

(** ** Further test points *)

Module MoreRuns.
Import ShamirSecretSharing ShamirExample ShamirRuns Scenario ScenarioRun Runs.

(** Shares 2, 4 and 5 of Scenario 1. *)
Definition three_shares : list (Z * string) := pick scenario_shares [1; 3; 4]%nat.

(** The three first shares of the one-byte secret, the second one apart. *)
Definition small_first : list (Z * string) := pick small_shares [0]%nat.
Definition small_second : Z * string := nth 1 small_shares (0, "").
Definition small_third : list (Z * string) := pick small_shares [2]%nat.

(** The outcome of the complete dual ballot of [Runs]. *)
Definition cast_message : string := snd (fst (fst (fst cast_result))).
Definition cast_receipt : option VoteService.receipt_info := snd (fst (fst cast_result)).
Definition cast_receipt_id : string :=
  match cast_receipt with
  | Some r => VoteService.receipt_id r
  | None => ""
  end.

(** The outcome of the token issuance of [Runs]. *)
Definition issue_message : string :=
  match issued with
  | Some ((_, m, _), _, _) => m
  | None => ""
  end.

(** The two-entry audit log, read at a later tick. *)
Definition logged_later : World := {| db := db logged; tick := 5 |}.

End MoreRuns.

(** ** Key generation and encryption ([ElectionCrypto], continued) *)

Module ElectionKeys.
Import ElectionCrypto ShamirSecretSharing.

(** The library calls of the key-generation and encryption side:
    [Crypto.Random], [secrets.randbelow] (drawn by [split_secret]),
    PyCryptodome's [RSA], [PKCS1_OAEP] and AES-GCM, [kyber_py]'s
    ML-KEM-768, [base64], [json] and the UTF-8 codec.  A call that draws
    randomness takes the tick at which it happens; a call that can raise
    returns a [result].  An RSA key object is an [RsaKey], whether it
    holds the private part or not; [RSA.import_key] is given bytes or
    text.  [AES_GCM_encrypt_and_digest] returns the nonce of the cipher
    object, the ciphertext and the tag. *)
Record Library (P : Primitives) : Type := {
  get_random_bytes : nat -> nat -> list byte;
  randbelow : nat -> nat -> Z;
  RSA_generate : nat -> Z -> RsaKey P;
  publickey : RsaKey P -> RsaKey P;
  export_key : RsaKey P -> list byte;
  RSA_import_key : list byte -> result (RsaKey P);
  RSA_import_key_str : string -> result (RsaKey P);
  PKCS1_OAEP_encrypt : nat -> RsaKey P -> list byte -> result (list byte);
  ML_KEM_768_keygen : nat -> list byte * list byte;
  ML_KEM_768_encaps : nat -> list byte -> result (list byte * list byte);
  AES_GCM_encrypt_and_digest :
    nat -> list byte -> list byte -> result (list byte * list byte * list byte);
  b64encode : list byte -> string;
  json_dumps : package -> string;
  json_loads_str : string -> result package;
  encode : string -> list byte;
  decode : list byte -> result string
}.

Arguments get_random_bytes {P} _ _ _.
Arguments randbelow {P} _ _ _.
Arguments RSA_generate {P} _ _ _.
Arguments publickey {P} _ _.
Arguments export_key {P} _ _.
Arguments RSA_import_key {P} _ _.
Arguments RSA_import_key_str {P} _ _.
Arguments PKCS1_OAEP_encrypt {P} _ _ _ _.
Arguments ML_KEM_768_keygen {P} _ _.
Arguments ML_KEM_768_encaps {P} _ _ _.
Arguments AES_GCM_encrypt_and_digest {P} _ _ _ _.
Arguments b64encode {P} _ _.
Arguments json_dumps {P} _ _.
Arguments json_loads_str {P} _ _.
Arguments encode {P} _ _.
Arguments decode {P} _ _.

Definition RSA_KEY_SIZE : Z := 2048.
Definition ALGORITHM : string := "hybrid-rsa2048-kyber768".

(** An [ElectionCrypto] object. *)
Record t : Type := {
  shamir : ShamirSecretSharing.t;
  threshold : Z;
  total_shares : Z
}.

(** [__init__]. *)
Definition init (threshold total_shares : Z) : result t :=
  s <- ShamirSecretSharing.init threshold total_shares ;;
  Ok {| shamir := s; threshold := threshold; total_shares := total_shares |}.

(** [range(0, n, 8)]. *)
Definition range_step8 (n : nat) : list nat :=
  map (fun k => (8 * k)%nat) (seq 0 ((n + 7) / 8)).

(** ['-'.join([value[i:i+8] for i in range(0, len(value), 8)])]. *)
Definition format_value (value : string) : string :=
  String.concat "-"
    (map (fun i => substring i 8 value) (range_step8 (String.length value))).

(** [value.replace('-', '')]. *)
Fixpoint remove_dashes (value : string) : string :=
  match value with
  | EmptyString => EmptyString
  | String c value' =>
      if Ascii.eqb c "-" then remove_dashes value'
      else String c (remove_dashes value')
  end.

(** One entry of the list of shares shown to the key holders. *)
Record share : Type := {
  index : Z;
  value : string;
  display : string
}.

(** The body of the loop over [raw_shares]. *)
Definition format_share (raw : Z * string) : share :=
  let formatted_value := format_value (snd raw) in
  {| index := fst raw;
     value := formatted_value;
     display := "Share " ++ Py.str_int (fst raw) ++ ": "
                ++ substring 0 32 formatted_value ++ "..." |}.

(** [generate_election_keys]: [(public_keys_json, shares, key_bundle_json)]. *)
Definition generate_election_keys {P : Primitives} (L : Library P) (self : t) (tick : nat)
  : result (string * list share * string) :=
  let rsa_key := RSA_generate L tick RSA_KEY_SIZE in
  rsa_public_key_pem <- decode L (export_key L (publickey L rsa_key)) ;;
  let rsa_private_key_bytes := export_key L rsa_key in
  let '(kyber_public_key, kyber_private_key) := ML_KEM_768_keygen L tick in
  let public_keys :=
    [("rsa", rsa_public_key_pem);
     ("kyber", b64encode L kyber_public_key);
     ("algorithm", ALGORITHM)] in
  let public_keys_json := json_dumps L public_keys in
  let private_keys_bundle :=
    [("rsa", b64encode L rsa_private_key_bytes);
     ("kyber", b64encode L kyber_private_key)] in
  let private_keys_json := encode L (json_dumps L private_keys_bundle) in
  let aes_key := get_random_bytes L tick AES_KEY_SIZE in
  sealed <- AES_GCM_encrypt_and_digest L tick aes_key private_keys_json ;;
  let '(nonce, encrypted_private_keys, tag) := sealed in
  let key_bundle :=
    [("nonce", b64encode L nonce);
     ("tag", b64encode L tag);
     ("ciphertext", b64encode L encrypted_private_keys);
     ("algorithm", ALGORITHM)] in
  let key_bundle_json := json_dumps L key_bundle in
  raw_shares <- split_secret (shamir self) (randbelow L tick) aes_key ;;
  Ok (public_keys_json, map format_share raw_shares, key_bundle_json).

(** [encrypt_vote]. *)
Definition encrypt_vote {P : Primitives} (L : Library P) (tick : nat)
           (vote_data : package) (public_keys_json : string) : result string :=
  public_keys <- json_loads_str L public_keys_json ;;
  rsa_public_key_pem <- getitem public_keys "rsa" ;;
  kyber_public_key <- (s <- getitem public_keys "kyber" ;; b64decode P s) ;;
  let aes_key := get_random_bytes L tick AES_KEY_SIZE in
  rsa_public_key <- RSA_import_key_str L rsa_public_key_pem ;;
  encrypted_aes_key_rsa <- PKCS1_OAEP_encrypt L tick rsa_public_key aes_key ;;
  encapsulated <- ML_KEM_768_encaps L tick kyber_public_key ;;
  let '(kyber_shared_secret, kyber_ciphertext) := encapsulated in
  let kyber_protected_key :=
    xor_bytes aes_key (firstn AES_KEY_SIZE kyber_shared_secret) in
  let vote_json := encode L (json_dumps L vote_data) in
  sealed <- AES_GCM_encrypt_and_digest L tick aes_key vote_json ;;
  let '(nonce, encrypted_vote, tag) := sealed in
  let encrypted_package :=
    [("encrypted_key_rsa", b64encode L encrypted_aes_key_rsa);
     ("kyber_ciphertext", b64encode L kyber_ciphertext);
     ("kyber_protected_key", b64encode L kyber_protected_key);
     ("nonce", b64encode L nonce);
     ("tag", b64encode L tag);
     ("ciphertext", b64encode L encrypted_vote);
     ("algorithm", ALGORITHM)] in
  Ok (b64encode L (encode L (json_dumps L encrypted_package))).

(** [reconstruct_private_keys]; the outer [option] is the one of
    [reconstruct_secret]. *)
Definition reconstruct_private_keys {P : Primitives} (L : Library P) (self : t)
           (shares : list (Z * string)) (key_bundle_json : string)
  : option (result (RsaKey P * list byte)) :=
  let parsed_shares := map (fun s => (fst s, remove_dashes (snd s))) shares in
  match reconstruct_secret (shamir self) parsed_shares AES_KEY_SIZE with
  | None => None
  | Some r =>
      Some (aes_key <- r ;;
            key_bundle <- json_loads_str L key_bundle_json ;;
            nonce <- (s <- getitem key_bundle "nonce" ;; b64decode P s) ;;
            tag <- (s <- getitem key_bundle "tag" ;; b64decode P s) ;;
            ciphertext <- (s <- getitem key_bundle "ciphertext" ;; b64decode P s) ;;
            private_keys_json <- AES_GCM_decrypt_and_verify P aes_key nonce ciphertext tag ;;
            private_keys <- json_loads P private_keys_json ;;
            rsa_private_key_bytes <- (s <- getitem private_keys "rsa" ;; b64decode P s) ;;
            kyber_private_key <- (s <- getitem private_keys "kyber" ;; b64decode P s) ;;
            rsa_private_key <- RSA_import_key L rsa_private_key_bytes ;;
            Ok (rsa_private_key, kyber_private_key))
  end.

(** [reconstruct_private_key]. *)
Definition reconstruct_private_key {P : Primitives} (L : Library P) (self : t)
           (shares : list (Z * string)) (key_bundle_json : string)
  : option (result (RsaKey P)) :=
  match reconstruct_private_keys L self shares key_bundle_json with
  | None => None
  | Some r => Some (keys <- r ;; Ok (fst keys))
  end.

(** *** What the proofs ask of the libraries *)

(** Decoding undoes encoding: Base64, and JSON on a [dict] of strings
    (whose keys are distinct), read from text or from its UTF-8 bytes. *)
Definition codecs_invert {P : Primitives} (L : Library P) : Prop :=
  (forall b, b64decode P (b64encode L b) = Ok b) /\
  (forall d, NoDup (map fst d) -> json_loads_str L (json_dumps L d) = Ok d) /\
  (forall d, NoDup (map fst d) -> json_loads P (encode L (json_dumps L d)) = Ok d).

(** AES-GCM opens what it sealed under the same key. *)
Definition aes_gcm_opens {P : Primitives} (L : Library P) : Prop :=
  forall tick key plaintext nonce ciphertext tag,
    AES_GCM_encrypt_and_digest L tick key plaintext = Ok (nonce, ciphertext, tag) ->
    AES_GCM_decrypt_and_verify P key nonce ciphertext tag = Ok plaintext.

(** [sk] is a private key of the RSA public key [pk]. *)
Definition rsa_key_pair {P : Primitives} (L : Library P) (pk sk : RsaKey P) : Prop :=
  forall tick m c,
    PKCS1_OAEP_encrypt L tick pk m = Ok c -> PKCS1_OAEP_decrypt P sk c = Ok m.

(** [sk] is the decapsulation key of the ML-KEM-768 key [pk], whose shared
    secrets have at least [AES_KEY_SIZE] bytes (they have 32). *)
Definition kyber_key_pair {P : Primitives} (L : Library P) (pk sk : list byte) : Prop :=
  forall tick secret c,
    ML_KEM_768_encaps L tick pk = Ok (secret, c) ->
    ML_KEM_768_decaps P sk c = Ok secret /\ (AES_KEY_SIZE <= List.length secret)%nat.

(** The keys [encrypt_vote] reads from [public_keys_json]. *)
Definition rsa_public_key {P : Primitives} (L : Library P) (public_keys_json : string)
  : result (RsaKey P) :=
  public_keys <- json_loads_str L public_keys_json ;;
  pem <- getitem public_keys "rsa" ;;
  RSA_import_key_str L pem.

Definition kyber_public_key {P : Primitives} (L : Library P) (public_keys_json : string)
  : result (list byte) :=
  public_keys <- json_loads_str L public_keys_json ;;
  s <- getitem public_keys "kyber" ;;
  b64decode P s.

End ElectionKeys.

(** ** More Python arithmetic: [round(x, 2)] and the product of a float and an integer *)

Module PyMore.
Import PyFloat.

(** The integer nearest to [m * 2^e * 100], ties to the even one. *)
Definition scaled_nearest (m : positive) (e : Z) : Z :=
  let n := Z.pos m * 100 in
  if 0 <=? e then n * 2 ^ e
  else
    let d := 2 ^ (- e) in
    let q := n / d in
    let r := n mod d in
    if 2 * r <? d then q
    else if d <? 2 * r then q + 1
    else if Z.even q then q else q + 1.

(** [round(x, 2)] on a float: the exact value of [x] is rounded to two
    decimals, ties to the even digit, and the decimal obtained is
    converted back to the nearest float; zeros, infinities and NaN are
    returned as they are. *)
Definition round2 (x : float) : result float :=
  match x with
  | S754_finite s m e =>
      let n := scaled_nearest m e in
      if n =? 0 then Ok (S754_zero s)
      else
        match int_truediv (if s then - n else n) 100 with
        | Ok y => Ok y
        | Raise _ =>
            Raise (OverflowError "rounded value too large to represent in a float")
        end
  | _ => Ok x
  end.

(** [x * n] for a float [x] and an integer [n]. *)
Definition mul_int (x : float) (n : Z) : result float :=
  y <- of_int n ;; Ok (SFmul prec emax x y).

End PyMore.

(** ** Building the PR results ([VoteService._build_pr_results]) *)

Module PrResults.
Import FptpResults.

(** Decrypted counts: [{party_id: count}]; the key is [None] when the
    decrypted ballot lacks the field. *)
Definition pr_counts : Type := list (option string * Z).

(** [sum(d.values())]. *)
Definition sum_values (d : pr_counts) : Z :=
  fold_left (fun acc kv => acc + snd kv) d 0.

(** [d[k] += 1]. *)
Fixpoint increment (k : option string) (d : pr_counts) : pr_counts :=
  match d with
  | [] => []
  | (k', v) :: d' =>
      if opt_string_eqb k' k then (k', v + 1) :: d'
      else (k', v) :: increment k d'
  end.

Fixpoint insert_desc (x : option string * PyFloat.float)
         (l : list (option string * PyFloat.float))
  : list (option string * PyFloat.float) :=
  match l with
  | [] => [x]
  | y :: l' => if PyFloat.ltb (snd y) (snd x) then x :: y :: l'
               else y :: insert_desc x l'
  end.

(** [sorted(d.items(), key=lambda x: x[1], reverse=True)]. *)
Definition sorted_desc (d : list (option string * PyFloat.float))
  : list (option string * PyFloat.float) :=
  fold_left (fun acc x => insert_desc x acc) d [].

(** The first loop of [_allocate_pr_seats]. *)
Fixpoint first_allocation (quota : PyFloat.float) (party_votes : pr_counts)
  : result (pr_counts * list (option string * PyFloat.float)) :=
  match party_votes with
  | [] => Ok ([], [])
  | (party_id, votes) :: rest =>
      entry <- Tally.party_entry quota votes ;;
      tl <- first_allocation quota rest ;;
      Ok ((party_id, fst entry) :: fst tl, (party_id, snd entry) :: snd tl)
  end.

(** [_allocate_pr_seats] on the decrypted counts, whose keys may be
    [None]: the function of [Tally], with which it agrees on counts kept
    under party ids. *)
Definition _allocate_pr_seats (party_votes : pr_counts) (total_seats : Z)
  : result pr_counts :=
  match party_votes with
  | [] => Ok []
  | _ =>
      let total_votes := sum_values party_votes in
      if total_votes =? 0 then Ok (map (fun kv => (fst kv, 0)) party_votes)
      else
        quota <- PyFloat.int_truediv total_votes total_seats ;;
        ar <- first_allocation quota party_votes ;;
        let '(allocation, remainders) := ar in
        let allocated_seats := sum_values allocation in
        let remaining_seats := total_seats - allocated_seats in
        let sorted_remainders := sorted_desc remainders in
        Ok (fold_left (fun alloc kv => increment (fst kv) alloc)
              (Tally.slice_to remaining_seats sorted_remainders) allocation)
  end.

(** An entry kept under a party id. *)
Definition named {A : Type} (kv : string * A) : option string * A :=
  (Some (fst kv), snd kv).

(** A percentage: the integer [0] or a float. *)
Inductive number : Type :=
| Int (z : Z)
| Float (x : PyFloat.float).

(** One entry of [parties_results]; [symbol] is [None] when the key is
    absent. *)
Record party_result : Type := {
  party_id : string;
  name : string;
  votes : Z;
  percentage : number;
  seats : Z;
  symbol : option string
}.

Record pr_results : Type := {
  parties : list party_result;
  total_votes : Z;
  total_seats : Z;
  election : ElectionData.t
}.

(** [round(percentage, 2)] for
    [percentage = (votes / total_votes * 100) if total_votes > 0 else 0]. *)
Definition rounded_percentage (votes total_votes : Z) : result number :=
  if 0 <? total_votes then
    x <- PyFloat.int_truediv votes total_votes ;;
    y <- PyMore.mul_int x 100 ;;
    r <- PyMore.round2 y ;;
    Ok (Float r)
  else Ok (Int 0).

(** The body of the loop over [election.parties]. *)
Definition result_entry (vote_counts seat_allocation : pr_counts) (total_votes : Z)
           (party : PartyData.t) : result party_result :=
  let party_id := PartyData.party_id party in
  let votes := get vote_counts (Some party_id) 0 in
  percentage <- rounded_percentage votes total_votes ;;
  let seats := get seat_allocation (Some party_id) 0 in
  Ok {| party_id := party_id;
        name := PartyData.name party;
        votes := votes;
        percentage := percentage;
        seats := seats;
        symbol := match PartyData.symbol party with
                  | Some (String c s) => Some (String c s)
                  | _ => None
                  end |}.

(** [(seats, votes)] of [y] is below that of [x]. *)
Definition key_ltb (y x : party_result) : bool :=
  (seats y <? seats x) || ((seats y =? seats x) && (votes y <? votes x)).

Fixpoint insert_by_key (x : party_result) (l : list party_result) : list party_result :=
  match l with
  | [] => [x]
  | y :: l' => if key_ltb y x then x :: y :: l'
               else y :: insert_by_key x l'
  end.

(** [l.sort(key=lambda x: (x['seats'], x['votes']), reverse=True)]. *)
Definition sort_by_key (l : list party_result) : list party_result :=
  fold_left (fun acc x => insert_by_key x acc) l [].

(** [_build_pr_results]. *)
Definition _build_pr_results (election : ElectionData.t) (vote_counts : pr_counts)
  : result pr_results :=
  let total_votes := sum_values vote_counts in
  let total_seats := ElectionData.total_pr_seats election in
  seat_allocation <- _allocate_pr_seats vote_counts total_seats ;;
  parties_results <-
    mapM (result_entry vote_counts seat_allocation total_votes)
         (ElectionData.parties election) ;;
  Ok {| parties := sort_by_key parties_results;
        total_votes := total_votes;
        total_seats := total_seats;
        election := election |}.

End PrResults.

(** ** The tally ([VoteService.decrypt_and_get_results]) *)

Module Results.
Import ElectionCrypto ElectionKeys.

Record results : Type := {
  fptp : FptpResults.fptp_results;
  pr : PrResults.pr_results;
  election : ElectionData.t
}.

(** [d.get(key)] on a decrypted ballot, the JSON object of strings that
    [json_loads] returns. *)
Definition field (d : package) (key : string) : option string :=
  match find (fun kv => String.eqb (fst kv) key) d with
  | Some kv => Some (snd kv)
  | None => None
  end.

(** [key in d]. *)
Definition has_key {A : Type} (d : list (option string * A)) (key : option string) : bool :=
  existsb (fun kv => opt_string_eqb (fst kv) key) d.

(** [d[key] = v]. *)
Fixpoint setitem {A : Type} (d : list (option string * A)) (key : option string) (v : A)
  : list (option string * A) :=
  match d with
  | [] => [(key, v)]
  | (k', v') :: d' =>
      if opt_string_eqb k' key then (k', v) :: d'
      else (k', v') :: setitem d' key v
  end.

(** The counting of one decrypted ballot: the body of the loop after
    [decrypt_vote].  The inner dictionary of a constituency is updated in
    place, which the write-back under the same key expresses. *)
Definition count_ballot (decrypted : package) (acc : FptpResults.counts * PrResults.pr_counts)
  : FptpResults.counts * PrResults.pr_counts :=
  let '(fptp_counts, pr_counts) := acc in
  let ballot_type := field decrypted "ballot_type" in
  if opt_string_eqb ballot_type (Some "fptp") then
    let constituency := field decrypted "constituency" in
    let candidate_id := field decrypted "candidate_id" in
    let fptp_counts :=
      if has_key fptp_counts constituency then fptp_counts
      else setitem fptp_counts constituency [] in
    let inner := FptpResults.get fptp_counts constituency [] in
    let inner :=
      if has_key inner candidate_id then inner else setitem inner candidate_id 0 in
    let inner := setitem inner candidate_id (FptpResults.get inner candidate_id 0 + 1) in
    (setitem fptp_counts constituency inner, pr_counts)
  else if opt_string_eqb ballot_type (Some "pr") then
    let party_id := field decrypted "party_id" in
    let pr_counts :=
      if has_key pr_counts party_id then pr_counts else setitem pr_counts party_id 0 in
    (fptp_counts, setitem pr_counts party_id (FptpResults.get pr_counts party_id 0 + 1))
  else acc.

(** The loop over [encrypted_votes]: a record without [encrypted_vote] is
    skipped, a ballot that fails to decrypt raises. *)
Fixpoint count_votes (P : Primitives) (rsa_private_key : RsaKey P)
         (kyber_private_key : list byte) (encrypted_votes : list VoteData.t)
         (acc : FptpResults.counts * PrResults.pr_counts) : result (FptpResults.counts * PrResults.pr_counts) :=
  match encrypted_votes with
  | [] => Ok acc
  | enc_vote :: rest =>
      match VoteData.encrypted_vote enc_vote with
      | Some (String c s) =>
          decrypted <- decrypt_vote P (String c s) rsa_private_key
                                    (Some kyber_private_key) ;;
          count_votes P rsa_private_key kyber_private_key rest
                      (count_ballot decrypted acc)
      | _ => count_votes P rsa_private_key kyber_private_key rest acc
      end
  end.

(** The body of the [try] statement; [ElectionCrypto()] has the default
    threshold 3 and 5 shares.  [None] is the [RecursionError] of
    [_mod_inverse], which cannot occur at the modulus of the scheme. *)
Definition decrypt_results {P : Primitives} (L : Library P) (election_id : string)
           (election : ElectionData.t) (key_bundle_json : string)
           (shares : list (Z * string)) (w : World)
  : option (result results) :=
  match ElectionKeys.init 3 5 with
  | Raise e => Some (Raise e)
  | Ok crypto =>
      match reconstruct_private_keys L crypto shares key_bundle_json with
      | None => None
      | Some (Raise e) => Some (Raise e)
      | Some (Ok (rsa_private_key, kyber_private_key)) =>
          let encrypted_votes :=
            filter (fun v => String.eqb (VoteData.election_id v) election_id)
                   (votes (db w)) in
          Some (cs <- count_votes P rsa_private_key kyber_private_key
                                  encrypted_votes ([], []) ;;
                let fptp_results := FptpResults._build_fptp_results election (fst cs) in
                pr_results <- PrResults._build_pr_results election (snd cs) ;;
                Ok {| fptp := fptp_results; pr := pr_results; election := election |})
      end
  end.

(** [decrypt_and_get_results]: [(success, message, results)] and the
    world after the call ([None] as in [decrypt_results]; the [except]
    clause would report it as a failure with the interpreter's message). *)
Definition decrypt_and_get_results {P : Primitives} (E : Env) (L : Library P)
           (election_id : string) (shares : list (Z * string)) (w : World)
  : option ((bool * string * option results) * World) :=
  match Election.find_by_election_id w election_id with
  | None => Some ((false, "Election not found", None), w)
  | Some election =>
      let '(ended, w1) := Election.has_ended E election w in
      if negb ended then
        Some ((false, "Results are only available after the election has ended", None), w1)
      else
        match ElectionData.encrypted_key_bundle election with
        | Some (String c s) =>
            match decrypt_results L election_id election (String c s) shares w1 with
            | None => None
            | Some (Ok r) => Some ((true, "Results decrypted successfully", Some r), w1)
            | Some (Raise e) =>
                Some ((false, "Failed to decrypt results: " ++ exn_str e, None), w1)
            end
        | _ => Some ((false, "Election encryption data not found", None), w1)
        end
  end.

End Results.

(** ** Notions used to state the tally *)

Module TallySpec.
Import ElectionCrypto Results.

(** The non-empty [encrypted_vote] texts of a list of stored votes. *)
Definition texts (l : list VoteData.t) : list string :=
  flat_map (fun v => match VoteData.encrypted_vote v with
                     | Some (String c s) => [String c s]
                     | _ => []
                     end) l.

(** The ballots the tally reads: those of the stored votes of the
    election, in insertion order. *)
Definition ballots (election_id : string) (w : World) : list string :=
  texts (filter (fun v => String.eqb (VoteData.election_id v) election_id)
                (votes (db w))).

(** A decrypted FPTP ballot for this constituency and candidate. *)
Definition is_fptp_for (constituency candidate_id : option string) (d : package) : bool :=
  opt_string_eqb (field d "ballot_type") (Some "fptp")
  && opt_string_eqb (field d "constituency") constituency
  && opt_string_eqb (field d "candidate_id") candidate_id.

(** A decrypted PR ballot. *)
Definition is_pr (d : package) : bool :=
  opt_string_eqb (field d "ballot_type") (Some "pr").

(** A decrypted PR ballot for this party. *)
Definition is_pr_for (party_id : option string) (d : package) : bool :=
  is_pr d && opt_string_eqb (field d "party_id") party_id.

(** The number of elements of [l] that satisfy [f]. *)
Definition count {A : Type} (f : A -> bool) (l : list A) : Z :=
  Z.of_nat (List.length (filter f l)).

(** The counts after the decrypted ballots [ds], starting from [acc]. *)
Definition counted (ds : list package) (acc : FptpResults.counts * PrResults.pr_counts)
  : FptpResults.counts * PrResults.pr_counts :=
  fold_left (fun a d => count_ballot d a) ds acc.

(** [ElectionCrypto()]: threshold 3, 5 shares. *)
Definition default_crypto : ElectionKeys.t :=
  {| ElectionKeys.shamir :=
       {| ShamirSecretSharing.threshold := 3;
          ShamirSecretSharing.total_shares := 5;
          ShamirSecretSharing.prime := PRIME |};
     ElectionKeys.threshold := 3;
     ElectionKeys.total_shares := 5 |}.

End TallySpec.

(** ** Casting under the hybrid cipher *)

Module CastTally.
Import ElectionCrypto.

(** The vote data handed to the cipher, as the dictionary of strings it
    is. *)
Definition str_items (d : document) : package :=
  map (fun kv => (fst kv, match snd kv with VStr s => s | _ => EmptyString end)) d.

(** The cipher of the environment is [ElectionCrypto.encrypt_vote] over
    the library [L]. *)
Definition hybrid_cipher {P : Primitives} (E : Env) (L : ElectionKeys.Library P) : Prop :=
  forall tick vote_data public_key,
    encrypt_vote E tick vote_data public_key
    = ElectionKeys.encrypt_vote L tick (str_items vote_data) public_key.

(** A sealed ballot is never the empty text. *)
Definition sealed_nonempty {P : Primitives} (L : ElectionKeys.Library P) : Prop :=
  forall d,
    ElectionKeys.b64encode L (ElectionKeys.encode L (ElectionKeys.json_dumps L d))
    <> EmptyString.

(** The [vote_data] of [Vote.cast_fptp_vote] and [Vote.cast_pr_vote]. *)
Definition fptp_ballot (candidate_id constituency : string) : package :=
  [("ballot_type", "fptp"); ("candidate_id", candidate_id); ("constituency", constituency)].

Definition pr_ballot (party_id : string) : package :=
  [("ballot_type", "pr"); ("party_id", party_id)].

End CastTally.

(** ** A transparent cipher suite used as test point

    JSON is replaced by a text format that is read back exactly; Base64 and
    UTF-8 are the identity on bytes; RSA-OAEP and ML-KEM-768 prefix the
    message with the key and strip it under the same key; AES-GCM keeps the
    plaintext and uses the key as tag. *)
Module CipherRuns.
Import ElectionCrypto ElectionKeys Results TallySpec Scenario ScenarioRun Runs.

Fixpoint write_str (s : string) : string :=
  match s with
  | EmptyString => "."
  | String c s' => String "+" (String c (write_str s'))
  end.

Fixpoint write_pairs (d : package) : string :=
  match d with
  | [] => ")"
  | (k, v) :: d' => String "(" (write_str k ++ write_str v ++ write_pairs d')
  end.

Fixpoint read_str (s : string) : option (string * string) :=
  match s with
  | String "." rest => Some (EmptyString, rest)
  | String "+" (String c rest) =>
      match read_str rest with
      | Some (t, rest') => Some (String c t, rest')
      | None => None
      end
  | _ => None
  end.

Fixpoint read_pairs (fuel : nat) (s : string) : result package :=
  match fuel with
  | O => Raise (ValueError "Expecting value")
  | S f =>
      match s with
      | String ")" _ => Ok []
      | String "(" rest =>
          match read_str rest with
          | Some (k, rest1) =>
              match read_str rest1 with
              | Some (v, rest2) => d <- read_pairs f rest2 ;; Ok ((k, v) :: d)
              | None => Raise (ValueError "Expecting value")
              end
          | None => Raise (ValueError "Expecting value")
          end
      | _ => Raise (ValueError "Expecting value")
      end
  end.

Definition loads (s : string) : result package := read_pairs (String.length s) s.

(** [c] without its prefix [key]. *)
Definition strip (key c : list byte) : result (list byte) :=
  if bytes_eqb (firstn (List.length key) c) key then Ok (skipn (List.length key) c)
  else Raise (ValueError "Incorrect decryption.").

Definition plain : Primitives :=
  {| RsaKey := list byte;
     b64decode := fun s => Ok (list_byte_of_string s);
     json_loads := fun b => loads (string_of_list_byte b);
     PKCS1_OAEP_decrypt := strip;
     ML_KEM_768_decaps := strip;
     AES_GCM_decrypt_and_verify :=
       fun key _ c tag =>
         if bytes_eqb tag key then Ok c else Raise (ValueError "MAC check failed") |}.

Definition plain_library : Library plain :=
  Build_Library plain
    (* get_random_bytes *) (fun tick n => repeat (Py.byte_of_Z (Z.of_nat tick)) n)
    (* randbelow *) (fun tick k => Z.of_nat (tick + k))
    (* RSA_generate *) (fun tick _ => [x52; Py.byte_of_Z (Z.of_nat tick)])
    (* publickey *) (fun k => k)
    (* export_key *) (fun k => k)
    (* RSA_import_key *) (fun b => Ok b)
    (* RSA_import_key_str *) (fun s => Ok (list_byte_of_string s))
    (* PKCS1_OAEP_encrypt *) (fun _ pk m => Ok (pk ++ m)%list)
    (* ML_KEM_768_keygen *)
    (fun tick => ([x4b; Py.byte_of_Z (Z.of_nat tick)], [x4b; Py.byte_of_Z (Z.of_nat tick)]))
    (* ML_KEM_768_encaps *) (fun _ pk => Ok (repeat x2a 32, (pk ++ repeat x2a 32)%list))
    (* AES_GCM_encrypt_and_digest *) (fun _ key m => Ok ([x00], m, key))
    (* b64encode *) string_of_list_byte
    (* json_dumps *) write_pairs
    (* json_loads_str *) loads
    (* encode *) list_byte_of_string
    (* decode *) (fun b => Ok (string_of_list_byte b)).

(** The keys of an election, generated at tick 7. *)
Definition generated : string * list share * string :=
  match generate_election_keys plain_library default_crypto 7 with
  | Ok r => r
  | Raise _ => ("", [], "")
  end.
Definition keys_json : string := fst (fst generated).
Definition key_shares : list share := snd (fst generated).
Definition key_bundle : string := snd generated.

Definition rsa_key : list byte := RSA_generate plain_library 7 RSA_KEY_SIZE.
Definition kyber_keys : list byte * list byte := ML_KEM_768_keygen plain_library 7.

(** Shares 2, 4 and 5 as the key holders type them. *)
Definition typed_shares : list share :=
  flat_map (fun k => match nth_error key_shares k with Some s => [s] | None => [] end)
           [1; 3; 4]%nat.
Definition typed_pairs : list (Z * string) :=
  map (fun s => (index s, value s)) typed_shares.

Definition fptp_choice : package :=
  [("ballot_type", "fptp"); ("candidate_id", "CND-AAAAAA"); ("constituency", "Kathmandu")].
Definition pr_choice : package :=
  [("ballot_type", "pr"); ("party_id", "PTY-111111")].

Definition sealed (tick : nat) (choice : package) : string :=
  match encrypt_vote plain_library tick choice keys_json with
  | Ok ev => ev
  | Raise _ => ""
  end.

Definition stored (ballot_type : string) (election_id : string) (ev : option string)
  : VoteData.t :=
  {| VoteData._id := None; VoteData.election_id := election_id;
     VoteData.ballot_type := ballot_type;
     VoteData.encrypted_vote := ev; VoteData.constituency := None;
     VoteData.timestamp := 0; VoteData.token_id := ""; VoteData.receipt_id := None;
     VoteData.receipt_hash := None; VoteData.timestamp_str := None;
     VoteData.verification_history := []; VoteData.last_verified_at := None;
     VoteData.verification_count := None |}.

(** The election of the scenario, ended, with the generated keys. *)
Definition ended_election : ElectionData.t :=
  {| ElectionData._id := Some 0%nat; ElectionData.election_id := eid;
     ElectionData.name := "General"; ElectionData.description := "";
     ElectionData.candidates := [kathmandu_candidate];
     ElectionData.parties := [party_one];
     ElectionData.total_pr_seats := 110;
     ElectionData.start_date := 0; ElectionData.end_date := 1600000000000000;
     ElectionData.is_active := true; ElectionData.public_key := Some keys_json;
     ElectionData.encrypted_key_bundle := Some key_bundle;
     ElectionData.created_at := 0 |}.

(** Two FPTP ballots and one PR ballot of the election, a record without
    ballot and a ballot of another election. *)
Definition tally_world : World :=
  {| db := {| elections := [ended_election]; voters := []; voting_tokens := [];
              votes := [stored "fptp" eid (Some (sealed 1 fptp_choice));
                        stored "pr" eid (Some (sealed 2 pr_choice));
                        stored "fptp" eid None;
                        stored "fptp" "ELC-OTHER" (Some (sealed 3 fptp_choice));
                        stored "fptp" eid (Some (sealed 4 fptp_choice))];
              audit_logs := []; next_id := 6 |};
     tick := 0 |}.

(** The scenario environment with the transparent suite as its cipher. *)
Definition cipher_env : Env :=
  match env with
  | Build_Env now hex _ digest dumps format up oid n =>
      Build_Env now hex
        (fun tick vote_data public_key =>
           ElectionKeys.encrypt_vote plain_library tick
             (CastTally.str_items vote_data) public_key)
        digest dumps format up oid n
  end.

(** The election of the scenario, open, with the generated public keys. *)
Definition open_election : ElectionData.t :=
  {| ElectionData._id := Some 0%nat; ElectionData.election_id := eid;
     ElectionData.name := "General"; ElectionData.description := "";
     ElectionData.candidates := [kathmandu_candidate];
     ElectionData.parties := [party_one];
     ElectionData.total_pr_seats := 110;
     ElectionData.start_date := 0; ElectionData.end_date := 1800000000000000;
     ElectionData.is_active := true; ElectionData.public_key := Some keys_json;
     ElectionData.encrypted_key_bundle := Some key_bundle;
     ElectionData.created_at := 0 |}.

Definition open_world : World :=
  {| db := {| elections := [open_election]; voters := [voter]; voting_tokens := [];
              votes := []; audit_logs := []; next_id := 2 |};
     tick := 0 |}.

(** A token is issued, then the dual ballot is cast with it. *)
Definition open_issue : option string * VoterData.t * World :=
  match TokenService.issue_token cipher_env voter eid open_world with
  | Some ((_, _, tok), v1, w1) => (tok, v1, w1)
  | None => (None, voter, open_world)
  end.
Definition open_token : string :=
  match fst (fst open_issue) with Some s => s | None => "" end.
Definition open_cast :=
  VoteService.cast_dual_ballot_with_token cipher_env (snd (fst open_issue)) eid cid pid
    (Some open_token) (snd open_issue).
Definition open_cast_message : string := snd (fst (fst (fst open_cast))).
Definition open_cast_receipt : option VoteService.receipt_info :=
  snd (fst (fst open_cast)).

End CipherRuns.

(** * Part II: properties *)

Module PyFacts.
Import Py.

Lemma byte_val_range b : 0 <= byte_val b < 256.
Proof.
  unfold byte_val. pose proof (Byte.to_N_bounded b). lia.
Qed.

Lemma byte_of_Z_val b : byte_of_Z (byte_val b) = b.
Proof.
  unfold byte_of_Z, byte_val. rewrite N2Z.id, Byte.of_to_N. reflexivity.
Qed.

Lemma int_from_bytes_snoc l b :
  int_from_bytes (l ++ [b]) = int_from_bytes l * 256 + byte_val b.
Proof. unfold int_from_bytes. rewrite fold_left_app. reflexivity. Qed.

Lemma int_from_bytes_range l :
  0 <= int_from_bytes l < 256 ^ Z.of_nat (List.length l).
Proof.
  induction l as [|b l IH] using rev_ind.
  - cbn. lia.
  - rewrite int_from_bytes_snoc, length_app. cbn [List.length].
    replace (Z.of_nat (List.length l + 1)) with (Z.succ (Z.of_nat (List.length l))) by lia.
    rewrite Z.pow_succ_r by lia.
    pose proof (byte_val_range b). lia.
Qed.

Lemma be_digits_from_bytes l :
  be_digits (List.length l) (int_from_bytes l) = l.
Proof.
  induction l as [|b l IH] using rev_ind.
  - reflexivity.
  - rewrite int_from_bytes_snoc, length_app. cbn [List.length].
    rewrite Nat.add_1_r. cbn [be_digits].
    pose proof (byte_val_range b).
    rewrite Z.div_add_l by lia. rewrite Z.div_small by lia.
    rewrite Z.add_0_r, IH.
    rewrite Z.add_comm, Z.mod_add by lia. rewrite Z.mod_small by lia.
    rewrite byte_of_Z_val. reflexivity.
Qed.

Lemma int_to_from_bytes l :
  int_to_bytes (int_from_bytes l) (List.length l) = Ok l.
Proof.
  unfold int_to_bytes. pose proof (int_from_bytes_range l).
  destruct (Z.ltb_spec (int_from_bytes l) 0); [lia|].
  destruct (Z.leb_spec (256 ^ Z.of_nat (List.length l)) (int_from_bytes l)); [lia|].
  rewrite be_digits_from_bytes. reflexivity.
Qed.

Lemma hex_value_digit d : 0 <= d < 16 -> hex_value (hex_digit d) = Some d.
Proof.
  intros H.
  assert (Hc : d = 0 \/ d = 1 \/ d = 2 \/ d = 3 \/ d = 4 \/ d = 5 \/ d = 6 \/ d = 7 \/
               d = 8 \/ d = 9 \/ d = 10 \/ d = 11 \/ d = 12 \/ d = 13 \/ d = 14 \/ d = 15) by lia.
  repeat (destruct Hc as [-> | Hc]; [reflexivity|]). subst. reflexivity.
Qed.

Lemma int16_from_hex_aux fuel : forall n acc,
  0 <= n < 16 ^ Z.of_nat fuel ->
  int16_from 0 (hex_aux fuel n acc) = int16_from n acc.
Proof.
  induction fuel as [|f IH]; intros n acc Hn.
  - cbn in *. replace n with 0 by lia. reflexivity.
  - cbn [hex_aux]. destruct (Z.eqb_spec n 0) as [->|Hne]; [reflexivity|].
    rewrite Nat2Z.inj_succ, Z.pow_succ_r in Hn by lia.
    rewrite IH.
    + cbn [int16_from]. rewrite hex_value_digit by (apply Z.mod_pos_bound; lia).
      f_equal. pose proof (Z.div_mod n 16). lia.
    + split; [apply Z.div_pos; lia|]. apply Z.div_lt_upper_bound; lia.
Qed.

Lemma int16_from_format_x n : 0 <= n -> int16_from 0 (format_x n) = Some n.
Proof.
  intros Hn. unfold format_x. destruct (Z.eqb_spec n 0) as [->|Hne]; [reflexivity|].
  rewrite int16_from_hex_aux; [reflexivity|].
  split; [lia|]. rewrite Nat2Z.inj_succ, Z2Nat.id by apply Z.log2_nonneg.
  pose proof (Z.log2_spec n ltac:(lia)) as [_ Hlt].
  eapply Z.lt_le_trans; [exact Hlt|].
  apply Z.pow_le_mono_l. lia.
Qed.

Lemma int16_from_repeat_zero k s : int16_from 0 (repeat_zero k s) = int16_from 0 s.
Proof. induction k as [|k IH]; [reflexivity|]. cbn. exact IH. Qed.

Lemma hex_aux_nonempty fuel : forall n acc, acc <> "" -> hex_aux fuel n acc <> "".
Proof.
  induction fuel as [|f IH]; intros n acc Hacc; cbn; [exact Hacc|].
  destruct (n =? 0); [exact Hacc|]. apply IH. discriminate.
Qed.

Lemma format_x_nonempty n : format_x n <> "".
Proof.
  unfold format_x. destruct (Z.eqb_spec n 0); [discriminate|].
  cbn [hex_aux]. destruct (Z.eqb_spec n 0); [contradiction|].
  apply hex_aux_nonempty. discriminate.
Qed.

Lemma repeat_zero_nonempty k s : s <> "" -> repeat_zero k s <> "".
Proof. destruct k; cbn; [auto|discriminate]. Qed.

Lemma int16_zfill_format_x n w : 0 <= n -> int16 (zfill (format_x n) w) = Ok n.
Proof.
  intros Hn. unfold int16, zfill.
  pose proof (repeat_zero_nonempty (w - String.length (format_x n)) _ (format_x_nonempty n)) as Hne.
  rewrite int16_from_repeat_zero, (int16_from_format_x n Hn).
  destruct (repeat_zero _ _); [contradiction|reflexivity].
Qed.

End PyFacts.

Module GcdFacts.
Import ShamirSecretSharing Fibonacci.

Lemma fib_step n : fib (S (S n)) = fib n + fib (S n).
Proof.
  unfold fib. cbn [fib_pair]. destruct (fib_pair n) as [x y]. reflexivity.
Qed.

Lemma fib_nonneg n : 0 <= fib n /\ 0 <= fib (S n).
Proof.
  induction n as [|n IH]; [unfold fib; cbn; lia|].
  rewrite fib_step. lia.
Qed.

Lemma fib_le_succ n : fib n <= fib (S n).
Proof.
  destruct n as [|n]; [unfold fib; cbn; lia|].
  rewrite fib_step. pose proof (fib_nonneg n). lia.
Qed.

Lemma fib_mono n k : (n <= k)%nat -> fib n <= fib k.
Proof.
  intros H. induction H as [|k _ IH]; [apply Z.le_refl|].
  pose proof (fib_le_succ k). lia.
Qed.

(** Lamé's bound: a pair on which the recursion needs more than [frames]
    calls is at least as large as two consecutive Fibonacci numbers. *)
Lemma extended_gcd_depth frames : forall a b,
  0 <= a < b -> extended_gcd frames a b = None ->
  fib frames <= a /\ fib (S frames) <= b.
Proof.
  induction frames as [|f IH]; intros a b Hab H.
  - unfold fib. cbn. lia.
  - cbn [extended_gcd] in H. destruct (Z.eqb_spec a 0) as [->|Hne]; [discriminate|].
    destruct (extended_gcd f (b mod a) a) as [[[g x1] y1]|] eqn:He; [discriminate|].
    pose proof (Z.mod_pos_bound b a ltac:(lia)) as Hr.
    destruct (IH (b mod a) a ltac:(lia) He) as (H1 & H2).
    split; [exact H2|]. rewrite fib_step.
    pose proof (Z.div_mod b a Hne) as Hd.
    assert (1 <= b / a) by (apply Z.div_le_lower_bound; lia).
    nia.
Qed.

Lemma extended_gcd_spec frames : forall a b g x y,
  0 <= a -> 0 < b -> extended_gcd frames a b = Some (g, x, y) ->
  a * x + b * y = g /\ g = Z.gcd a b.
Proof.
  induction frames as [|f IH]; intros a b g x y Ha Hb H; [discriminate|].
  cbn [extended_gcd] in H. destruct (Z.eqb_spec a 0) as [->|Hne].
  - inversion H; subst. split; [lia|]. rewrite Z.gcd_0_l, Z.abs_eq; lia.
  - destruct (extended_gcd f (b mod a) a) as [[[g' x1] y1]|] eqn:He; [|discriminate].
    injection H as Hg Hx Hy. subst g' x y.
    pose proof (Z.mod_pos_bound b a ltac:(lia)) as Hr.
    destruct (IH (b mod a) a g x1 y1 ltac:(lia) ltac:(lia) He) as (Hbez & Hg').
    split.
    + pose proof (Z.div_mod b a Hne). nia.
    + rewrite Hg'. apply Z.gcd_mod. exact Hne.
Qed.

Lemma fib_753 : 2 ^ 521 < fib 753.
Proof. vm_compute. reflexivity. Qed.

(** Below [2 ^ 521] the recursion nests at most 752 calls. *)
Lemma extended_gcd_returns frames a b :
  0 <= a < b -> b <= 2 ^ 521 -> (752 <= frames)%nat ->
  exists g x y, extended_gcd frames a b = Some (g, x, y) /\
                a * x + b * y = g /\ g = Z.gcd a b.
Proof.
  intros Hab Hb Hf.
  destruct (extended_gcd frames a b) as [[[g x] y]|] eqn:He.
  - exists g, x, y. split; [reflexivity|].
    apply (extended_gcd_spec frames); [lia|lia|exact He].
  - exfalso. destruct (extended_gcd_depth frames a b Hab He) as (_ & H).
    pose proof (fib_mono 753 (S frames) ltac:(lia)). pose proof fib_753. lia.
Qed.

Lemma limit_suffices : (752 <= recursion_limit)%nat.
Proof. apply Nat.leb_le. reflexivity. Qed.

Lemma mod_inverse_spec a m :
  1 < m -> m <= 2 ^ 521 -> Z.gcd (a mod m) m = 1 ->
  exists inv, _mod_inverse a m = Some inv /\ 0 <= inv < m /\ (a * inv) mod m = 1.
Proof.
  intros Hm Hle Hg. unfold _mod_inverse.
  pose proof (Z.mod_pos_bound a m ltac:(lia)) as Hr.
  destruct (extended_gcd_returns recursion_limit (a mod m) m ltac:(lia) Hle limit_suffices)
    as (g & x & y & He & Hbez & Hgg).
  rewrite He. eexists. split; [reflexivity|]. split.
  - apply Z.mod_pos_bound. lia.
  - rewrite Z.mul_mod_idemp_r by lia.
    rewrite Z.mul_add_distr_l, Z.mod_add by lia.
    rewrite Z.mul_mod_idemp_r by lia.
    rewrite <- Z.mul_mod_idemp_l by lia.
    replace ((a mod m) * x) with (1 + (- y) * m) by lia.
    rewrite Z.mod_add by lia. apply Z.mod_small. lia.
Qed.

Lemma mod_inverse_total a m :
  1 < m -> m <= 2 ^ 521 -> exists inv, _mod_inverse a m = Some inv /\ 0 <= inv < m.
Proof.
  intros Hm Hle. unfold _mod_inverse.
  pose proof (Z.mod_pos_bound a m ltac:(lia)) as Hr.
  destruct (extended_gcd_returns recursion_limit (a mod m) m ltac:(lia) Hle limit_suffices)
    as (g & x & y & He & _).
  rewrite He. eexists. split; [reflexivity|]. apply Z.mod_pos_bound. lia.
Qed.
End GcdFacts.

Module PolyFacts.
Import Poly.

Lemma pdiv_length a c : List.length (pdiv a c) = pred (List.length c).
Proof.
  induction c as [|c0 c IH]; [reflexivity|].
  cbn [pdiv]. destruct c as [|c1 c]; [reflexivity|].
  cbn [List.length] in *. rewrite IH. reflexivity.
Qed.

Lemma pdiv_spec a c x : eval c x = (x - a) * eval (pdiv a c) x + eval c a.
Proof.
  induction c as [|c0 c IH]; [cbn; lia|].
  cbn [pdiv]. destruct c as [|c1 c]; [cbn; lia|].
  remember (c1 :: c) as c' eqn:Ec. cbn [eval]. rewrite IH. ring.
Qed.

Lemma eval_padd c : forall d x, eval (padd c d) x = eval c x + eval d x.
Proof.
  induction c as [|a c IH]; intros [|b d] x; cbn [padd eval]; try lia.
  rewrite IH. lia.
Qed.

Lemma length_padd c : forall d, List.length (padd c d) = Nat.max (List.length c) (List.length d).
Proof.
  induction c as [|a c IH]; intros [|b d]; cbn [padd List.length]; try lia.
  rewrite IH. lia.
Qed.

Lemma eval_pscale k c x : eval (pscale k c) x = k * eval c x.
Proof.
  unfold pscale. induction c as [|a c IH]; cbn [map eval]; [lia|]. rewrite IH. ring.
Qed.

Lemma eval_pmul_linear a c x : eval (pmul_linear a c) x = (x - a) * eval c x.
Proof. unfold pmul_linear. rewrite eval_padd, eval_pscale. cbn [eval]. lia. Qed.

Lemma length_pmul_linear a c : List.length (pmul_linear a c) = S (List.length c).
Proof.
  unfold pmul_linear, pscale. rewrite length_padd, length_map. cbn [List.length]. lia.
Qed.

Lemma is_poly_eval c : is_poly (List.length c) (eval c).
Proof. exists c. split; [lia|reflexivity]. Qed.

Lemma is_poly_weaken n m g : (n <= m)%nat -> is_poly n g -> is_poly m g.
Proof. intros H (c & Hc & He). exists c. split; [lia|exact He]. Qed.

Lemma is_poly_zero n : is_poly n (fun _ => 0).
Proof. exists []. split; [cbn; lia|reflexivity]. Qed.

Lemma is_poly_one n : is_poly (S n) (fun _ => 1).
Proof. exists [1]. split; [cbn; lia|intros; cbn [eval]; ring]. Qed.

Lemma is_poly_add n f g : is_poly n f -> is_poly n g -> is_poly n (fun x => f x + g x).
Proof.
  intros (c & Hc & Hf) (d & Hd & Hg). exists (padd c d). split.
  - rewrite length_padd. lia.
  - intros x. rewrite eval_padd, Hf, Hg. reflexivity.
Qed.

Lemma is_poly_scale n k f : is_poly n f -> is_poly n (fun x => k * f x).
Proof.
  intros (c & Hc & Hf). exists (pscale k c). split.
  - unfold pscale. rewrite length_map. exact Hc.
  - intros x. rewrite eval_pscale, Hf. reflexivity.
Qed.

Lemma is_poly_opp n f : is_poly n f -> is_poly n (fun x => - f x).
Proof.
  intros (c & Hc & Hf). exists (pscale (-1) c). split.
  - unfold pscale. rewrite length_map. exact Hc.
  - intros x. rewrite eval_pscale, Hf. lia.
Qed.

Lemma is_poly_mul_linear n a f : is_poly n f -> is_poly (S n) (fun x => (x - a) * f x).
Proof.
  intros (c & Hc & Hf). exists (pmul_linear a c). split.
  - rewrite length_pmul_linear. lia.
  - intros x. rewrite eval_pmul_linear, Hf. reflexivity.
Qed.

Lemma is_poly_prod l : is_poly (S (List.length l)) (fun x => zprod (map (fun xj => x - xj) l)).
Proof.
  induction l as [|a l IH]; cbn [map zprod fold_right List.length].
  - apply is_poly_one.
  - apply (is_poly_mul_linear _ a _ IH).
Qed.

Lemma is_poly_sum {A : Type} n (h : A -> Z -> Z) (l : list A) :
  (forall i, In i l -> is_poly n (h i)) ->
  is_poly n (fun x => zsum (map (fun i => h i x) l)).
Proof.
  induction l as [|i l IH]; intros H; cbn [map zsum fold_right].
  - apply is_poly_zero.
  - apply is_poly_add; [apply H; left; reflexivity|].
    apply IH. intros j Hj. apply H. right. exact Hj.
Qed.

(** A polynomial with at most [n] coefficients that vanishes modulo [p] at
    [n] points whose pairwise differences are units vanishes everywhere. *)
Lemma poly_roots_zero p xs : forall g,
  is_poly (List.length xs) g -> pairwise_units p xs ->
  (forall x, In x xs -> (p | g x)) ->
  forall x, (p | g x).
Proof.
  induction xs as [|a xs IH]; intros g (c & Hc & Hg) Hu Hroots x.
  - destruct c; [|cbn in Hc; lia]. rewrite Hg. cbn. apply Z.divide_0_r.
  - destruct Hu as [Hu Hus].
    assert (Ha : (p | g a)) by (apply Hroots; left; reflexivity).
    assert (Hq : forall z, (p | eval (pdiv a c) z)).
    { apply IH; [| exact Hus |].
      - exists (pdiv a c). split; [|reflexivity].
        rewrite pdiv_length. cbn [List.length] in Hc. lia.
      - intros z Hz.
        assert (Hgz : (p | g z)) by (apply Hroots; right; exact Hz).
        rewrite Hg, (pdiv_spec a c z), <- Hg in Hgz.
        assert (Hm : (p | (z - a) * eval (pdiv a c) z)).
        { replace ((z - a) * eval (pdiv a c) z)
            with (((z - a) * eval (pdiv a c) z + g a) - g a) by lia.
          apply Z.divide_sub_r; assumption. }
        apply Z.gauss with (m := z - a); [exact Hm|].
        rewrite Z.gcd_comm. apply Hu. exact Hz. }
    rewrite Hg, (pdiv_spec a c x), <- Hg.
    apply Z.divide_add_r; [|exact Ha].
    apply Z.divide_mul_r. apply Hq.
Qed.

End PolyFacts.

Module EnumFacts.
Import Poly.

Lemma enum_from_cons {A : Type} k (x : A) l :
  enum_from k (x :: l) = (k, x) :: enum_from (S k) l.
Proof. reflexivity. Qed.

Lemma enumerate_enum_from {A : Type} (l : list A) : enumerate l = enum_from 0 l.
Proof. reflexivity. Qed.

Lemma in_enum_from {A : Type} (l : list A) : forall k i e,
  In (i, e) (enum_from k l) <-> (k <= i)%nat /\ nth_error l (i - k) = Some e.
Proof.
  induction l as [|x l IH]; intros k i e.
  - cbn. split; [tauto|]. intros [_ H]. destruct (i - k)%nat; discriminate.
  - rewrite enum_from_cons. cbn [In]. rewrite IH. split.
    + intros [H|[Hle H]].
      * inversion H; subst. split; [lia|]. rewrite Nat.sub_diag. reflexivity.
      * split; [lia|]. replace (i - k)%nat with (S (i - S k)) by lia. exact H.
    + intros [Hle H]. destruct (Nat.eq_dec i k) as [->|Hne].
      * rewrite Nat.sub_diag in H. cbn in H. left. congruence.
      * right. split; [lia|]. replace (i - k)%nat with (S (i - S k)) in H by lia. exact H.
Qed.

Lemma in_enumerate {A : Type} (l : list A) i e :
  In (i, e) (enumerate l) <-> nth_error l i = Some e.
Proof.
  rewrite enumerate_enum_from, in_enum_from, Nat.sub_0_r. split; [tauto|]. split; [lia|assumption].
Qed.

Lemma others_from_length {A : Type} (l : list A) : forall k i,
  (k <= i < k + List.length l)%nat ->
  S (List.length (others_from k i l)) = List.length l.
Proof.
  induction l as [|x l IH]; intros k i H; cbn [List.length others_from] in *; [lia|].
  destruct (Nat.eqb_spec i k) as [->|Hne].
  - clear IH H. f_equal. revert k. induction l as [|y l IH]; intros k; cbn [others_from List.length]; [reflexivity|].
    destruct (Nat.eqb_spec k (S (S k))); [lia|].
    destruct (Nat.eqb_spec k (S k)); [lia|]. cbn [List.length]. f_equal.
    specialize (IH (S k)).
    assert (Hgen : forall (m : list A) a b, (a < b)%nat -> List.length (others_from b a m) = List.length m).
    { clear. induction m as [|z m IHm]; intros a b Hab; cbn [others_from List.length]; [reflexivity|].
      destruct (Nat.eqb_spec a b); [lia|]. cbn [List.length]. f_equal. apply IHm. lia. }
    apply Hgen. lia.
  - cbn [List.length]. f_equal. apply IH. lia.
Qed.

Lemma others_from_in {A : Type} (l : list A) : forall k i j x,
  nth_error l j = Some x -> i <> (k + j)%nat -> In x (others_from k i l).
Proof.
  induction l as [|y l IH]; intros k i j x Hn Hne; [destruct j; discriminate|].
  cbn [others_from]. destruct j as [|j].
  - cbn in Hn. inversion Hn; subst. destruct (Nat.eqb_spec i k); [lia|]. left. reflexivity.
  - cbn in Hn. assert (In x (others_from (S k) i l)) by (apply (IH (S k) i j); [assumption|lia]).
    destruct (Nat.eqb i k); [assumption|right; assumption].
Qed.

Lemma in_others_from {A : Type} (l : list A) : forall k i x,
  In x (others_from k i l) -> exists j, nth_error l j = Some x /\ i <> (k + j)%nat.
Proof.
  induction l as [|y l IH]; intros k i x Hin; cbn [others_from] in Hin; [contradiction|].
  destruct (Nat.eqb_spec i k) as [->|Hne].
  - destruct (IH _ _ _ Hin) as (j & Hj & Hne). exists (S j). split; [exact Hj|lia].
  - destruct Hin as [->|Hin].
    + exists O. split; [reflexivity|lia].
    + destruct (IH _ _ _ Hin) as (j & Hj & Hne'). exists (S j). split; [exact Hj|lia].
Qed.

Lemma zsum_map_zero {A : Type} (h : A -> Z) l :
  (forall z, In z l -> h z = 0) -> zsum (map h l) = 0.
Proof.
  induction l as [|a l IH]; intros H; cbn [map zsum fold_right]; [reflexivity|].
  fold (zsum (map h l)). rewrite IH, H; [reflexivity|left; reflexivity|].
  intros z Hz. apply H. right. exact Hz.
Qed.

(** A sum over an enumeration in which only position [k] contributes. *)
Lemma zsum_enum_single {A : Type} (h : nat * A -> Z) (l : list A) k0 k e :
  In (k, e) (enum_from k0 l) ->
  (forall i e', In (i, e') (enum_from k0 l) -> i <> k -> h (i, e') = 0) ->
  zsum (map h (enum_from k0 l)) = h (k, e).
Proof.
  revert k0. induction l as [|x l IH]; intros k0 Hin Hz; [contradiction|].
  rewrite enum_from_cons in *. cbn [map zsum fold_right]. fold (zsum (map h (enum_from (S k0) l))).
  destruct Hin as [Heq|Hin].
  - inversion Heq; subst. rewrite zsum_map_zero; [lia|].
    intros [i e'] Hi. apply Hz; [right; exact Hi|].
    apply in_enum_from in Hi. lia.
  - rewrite (IH (S k0) Hin).
    + rewrite (Hz k0 x); [lia|left; reflexivity|]. apply in_enum_from in Hin. lia.
    + intros i e' Hi Hne. apply Hz; [right; exact Hi|exact Hne].
Qed.

Lemma zprod_zero l : In 0 l -> zprod l = 0.
Proof.
  induction l as [|a l IH]; intros H; [contradiction|].
  cbn [zprod fold_right]. fold (zprod l). destruct H as [->|H]; [lia|]. rewrite IH by assumption. lia.
Qed.

Lemma zprod_coprime p l : (forall a, In a l -> Z.gcd a p = 1) -> Z.gcd (zprod l) p = 1.
Proof.
  induction l as [|a l IH]; intros H; cbn [zprod fold_right].
  - apply Z.gcd_1_l.
  - fold (zprod l). apply Z.coprime_mul_l.
    + apply H. left. reflexivity.
    + apply IH. intros b Hb. apply H. right. exact Hb.
Qed.

End EnumFacts.

Module LagrangeFacts.
Import Poly PolyFacts EnumFacts.

Section Interpolation.
Variable p : Z.
Hypothesis p_gt_1 : 1 < p.

(** [inv i xi] is an inverse of the denominator of the point at position [i]. *)
Variable xs : list Z.
Variable inv : nat -> Z.
Hypothesis units : pairwise_units p xs.
Hypothesis inv_ok : forall i xi, nth_error xs i = Some xi ->
  (zprod (map (fun xj => xi - xj) (others_from 0 i xs)) * inv i) mod p = 1.

Local Abbreviation basis := (Poly.basis xs inv).

Lemma basis_is_poly i : (i < List.length xs)%nat -> is_poly (List.length xs) (basis i).
Proof.
  intros Hi. unfold basis. apply is_poly_scale.
  pose proof (others_from_length xs 0 i ltac:(lia)) as Hl.
  rewrite <- Hl. apply is_poly_prod.
Qed.

Lemma basis_other i k xk :
  nth_error xs k = Some xk -> i <> k -> basis i xk = 0.
Proof.
  intros Hk Hne. unfold basis. rewrite zprod_zero; [lia|].
  apply in_map_iff. exists xk. split; [lia|].
  apply (others_from_in xs 0 i k); [exact Hk|lia].
Qed.

Lemma basis_self k xk : nth_error xs k = Some xk -> (basis k xk) mod p = 1.
Proof.
  intros Hk. unfold basis. rewrite Z.mul_comm. apply inv_ok. exact Hk.
Qed.

(** Lagrange interpolation at 0, modulo [p]: values [ys] that agree
    modulo [p] with a polynomial of at most [length xs] coefficients
    determine its constant term. *)
Lemma lagrange_at_zero (c : list Z) (ys : list Z) :
  (List.length c <= List.length xs)%nat ->
  List.length ys = List.length xs ->
  (forall k xk yk, nth_error xs k = Some xk -> nth_error ys k = Some yk ->
                   yk mod p = (eval c xk) mod p) ->
  (zsum (map (fun '(i, yi) => yi * basis i 0) (enumerate ys))) mod p = (eval c 0) mod p.
Proof.
  intros Hc Hlen Hys.
  set (G := fun x => eval c x + - zsum (map (fun '(i, yi) => yi * basis i x) (enumerate ys))).
  assert (HG : forall x, (p | G x)).
  { apply (poly_roots_zero p xs); [ | exact units | ].
    - unfold G. apply is_poly_add.
      + apply (is_poly_weaken (List.length c)); [exact Hc|apply is_poly_eval].
      + apply is_poly_opp.
        apply (is_poly_sum (List.length xs)
                 (fun (z : nat * Z) x => let '(i, yi) := z in yi * basis i x)).
        intros [i yi] Hin. apply is_poly_scale, basis_is_poly.
        apply in_enumerate in Hin.
        rewrite <- Hlen. apply nth_error_Some. congruence.
    - intros xk Hxk. destruct (In_nth_error _ _ Hxk) as [k Hk].
      destruct (nth_error ys k) as [yk|] eqn:Hyk.
      2:{ apply nth_error_None in Hyk.
          assert (k < List.length xs)%nat by (apply nth_error_Some; congruence). lia. }
      unfold G. rewrite enumerate_enum_from.
      rewrite (zsum_enum_single
                 (fun z : nat * Z => let '(i, yi) := z in yi * basis i xk) ys 0 k yk).
      + apply Z.mod_divide; [lia|].
        rewrite <- Z.add_mod_idemp_r, <- Z.add_mod_idemp_l by lia.
        rewrite <- (Hys k xk yk Hk Hyk).
        rewrite Z.add_mod_idemp_l, Z.add_mod_idemp_r by lia.
        replace (yk + - (yk * basis k xk)) with (yk * (1 - basis k xk)) by ring.
        rewrite <- Z.mul_mod_idemp_r by lia.
        rewrite Zminus_mod, (basis_self k xk Hk).
        rewrite (Z.mod_small 1) by lia. rewrite Z.sub_diag, Z.mod_0_l by lia.
        rewrite Z.mul_0_r. apply Z.mod_0_l. lia.
      + apply in_enum_from. rewrite Nat.sub_0_r. split; [lia|exact Hyk].
      + intros i e' _ Hne. rewrite (basis_other i k xk Hk Hne). lia. }
  specialize (HG 0). unfold G in HG.
  destruct HG as [q Hq].
  replace (eval c 0)
    with (zsum (map (fun '(i, yi) => yi * basis i 0) (enumerate ys)) + q * p) by lia.
  rewrite Z.mod_add by lia. reflexivity.
Qed.
End Interpolation.
End LagrangeFacts.

Module ShamirFacts.
Import ShamirSecretSharing Poly ShamirSpec PolyFacts EnumFacts LagrangeFacts GcdFacts PyFacts.

Lemma evaluate_polynomial_fold p x (Hp : 0 < p) : forall c k acc,
  fold_left
    (fun result '(i, coef) => (result + coef * ((x ^ Z.of_nat i) mod p)) mod p)
    (enum_from k c) (acc mod p)
  = (acc + x ^ Z.of_nat k * eval c x) mod p.
Proof.
  induction c as [|a c IH]; intros k acc.
  - cbn [enum_from combine seq List.length fold_left eval]. f_equal. ring.
  - rewrite enum_from_cons. cbn [fold_left eval].
    rewrite Z.add_mod_idemp_l by lia.
    rewrite <- Z.add_mod_idemp_r, Z.mul_mod_idemp_r, Z.add_mod_idemp_r by lia.
    rewrite IH. f_equal. rewrite Nat2Z.inj_succ, Z.pow_succ_r by lia. ring.
Qed.

Lemma evaluate_polynomial_eval self c x :
  0 < prime self -> _evaluate_polynomial self c x = (eval c x) mod prime self.
Proof.
  intros Hp. unfold _evaluate_polynomial. rewrite enumerate_enum_from.
  rewrite <- (Z.mod_0_l (prime self)) at 1 by lia.
  rewrite (evaluate_polynomial_fold (prime self) x Hp c 0 0).
  f_equal. cbn [Z.of_nat]. ring.
Qed.

Lemma lagrange_terms_fold p i xi (Hp : 0 < p) : forall (pts : list (Z * Z)) k num den,
  fold_left
    (fun '(numerator, denominator) '(j, (xj, _)) =>
       if Nat.eqb i j then (numerator, denominator)
       else ((numerator * (- xj)) mod p, (denominator * (xi - xj)) mod p))
    (enum_from k pts) (num mod p, den mod p)
  = ((num * zprod (map Z.opp (others_from k i (map fst pts)))) mod p,
     (den * zprod (map (fun xj => xi - xj) (others_from k i (map fst pts)))) mod p).
Proof.
  induction pts as [|[xj yj] pts IH]; intros k num den.
  - cbn. rewrite !Z.mul_1_r. reflexivity.
  - rewrite enum_from_cons. cbn [fold_left map fst others_from].
    destruct (Nat.eqb i k).
    + apply IH.
    + rewrite !Z.mul_mod_idemp_l by lia. rewrite IH.
      unfold zprod. cbn [map fold_right]. f_equal; f_equal; ring.
Qed.

Lemma lagrange_terms_spec self pts i xi :
  1 < prime self ->
  lagrange_terms self pts i xi
  = (numer (map fst pts) i mod prime self, denom (map fst pts) i xi mod prime self).
Proof.
  intros Hp. unfold lagrange_terms, numer, denom. rewrite enumerate_enum_from.
  rewrite <- (Z.mod_small 1 (prime self)) at 1 2 by lia.
  rewrite (lagrange_terms_fold (prime self) i xi ltac:(lia) pts 0 1 1).
  rewrite !Z.mul_1_l. reflexivity.
Qed.

Lemma interpolate_fold self (pts : list (Z * Z)) (Hp : 1 < prime self)
      (Hq : prime self <= 2 ^ 521) :
  forall l k s0,
    (forall i xi yi, In (i, (xi, yi)) (enum_from k l) -> nth_error (map fst pts) i = Some xi) ->
    fold_left
      (fun acc '(i, (xi, yi)) =>
         match acc with
         | None => None
         | Some secret_int =>
             let '(numerator, denominator) := lagrange_terms self pts i xi in
             match _mod_inverse denominator (prime self) with
             | None => None
             | Some inv =>
                 let lagrange_coef := (numerator * inv) mod prime self in
                 Some ((secret_int + yi * lagrange_coef) mod prime self)
             end
         end)
      (enum_from k l) (Some (s0 mod prime self))
    = Some ((s0 + zsum (map (fun '(i, (xi, yi)) =>
                               yi * (numer (map fst pts) i * inv_at (prime self) (map fst pts) i))
                          (enum_from k l))) mod prime self).
Proof.
  induction l as [|[xi yi] l IH]; intros k s0 Hin.
  - cbn. rewrite Z.add_0_r. reflexivity.
  - rewrite enum_from_cons. cbn [fold_left map].
    rewrite lagrange_terms_spec by exact Hp.
    assert (Hx : nth_error (map fst pts) k = Some xi) by (apply (Hin k xi yi); left; reflexivity).
    unfold inv_at at 1. rewrite Hx.
    destruct (mod_inverse_total (denom (map fst pts) k xi mod prime self) (prime self) Hp Hq)
      as (v & Hv & _).
    rewrite Hv.
    rewrite Z.mul_mod_idemp_l, Z.add_mod_idemp_l by lia.
    rewrite <- Z.add_mod_idemp_r, Z.mul_mod_idemp_r, Z.add_mod_idemp_r by lia.
    rewrite IH.
    + f_equal. f_equal. unfold zsum. cbn [fold_right]. ring.
    + intros i x y Hi. apply (Hin i x y). right. exact Hi.
Qed.

Lemma interpolate_spec self pts :
  1 < prime self -> prime self <= 2 ^ 521 ->
  interpolate self pts
  = Some ((zsum (map (fun '(i, (xi, yi)) =>
                        yi * (numer (map fst pts) i * inv_at (prime self) (map fst pts) i))
                   (enumerate pts))) mod prime self).
Proof.
  intros Hp Hq. unfold interpolate. rewrite enumerate_enum_from.
  assert (Hin : forall i xi yi, In (i, (xi, yi)) (enum_from 0 pts) ->
                                nth_error (map fst pts) i = Some xi).
  { intros i xi yi Hi. apply in_enum_from in Hi. destruct Hi as [_ Hi].
    rewrite Nat.sub_0_r in Hi. rewrite nth_error_map, Hi. reflexivity. }
  pose proof (interpolate_fold self pts Hp Hq pts 0%nat 0 Hin) as E.
  rewrite Z.mod_0_l, Z.add_0_l in E by lia. exact E.
Qed.

End ShamirFacts.

Module ShamirFacts2.
Import ShamirSecretSharing Poly ShamirSpec PolyFacts EnumFacts LagrangeFacts GcdFacts PyFacts ShamirFacts.

Lemma PRIME_gt_1 : 1 < PRIME.
Proof. reflexivity. Qed.

Lemma PRIME_le : PRIME <= 2 ^ 521.
Proof. unfold PRIME. lia. Qed.

Lemma small_unit d : 1 <= d <= 19 -> Z.gcd d PRIME = 1.
Proof.
  intros H.
  assert (Hc : d = 1 \/ d = 2 \/ d = 3 \/ d = 4 \/ d = 5 \/ d = 6 \/ d = 7 \/ d = 8 \/
               d = 9 \/ d = 10 \/ d = 11 \/ d = 12 \/ d = 13 \/ d = 14 \/ d = 15 \/
               d = 16 \/ d = 17 \/ d = 18 \/ d = 19) by lia.
  repeat (destruct Hc as [-> | Hc]; [vm_compute; reflexivity|]).
  subst. vm_compute. reflexivity.
Qed.

Lemma small_diff_unit a b :
  1 <= a <= 20 -> 1 <= b <= 20 -> a <> b -> Z.gcd (a - b) PRIME = 1.
Proof.
  intros Ha Hb Hne. destruct (Z.lt_ge_cases b a).
  - apply small_unit. lia.
  - replace (a - b) with (- (b - a)) by ring. rewrite Z.gcd_opp_l. apply small_unit. lia.
Qed.

Lemma pairwise_units_small xs :
  NoDup xs -> (forall x, In x xs -> 1 <= x <= 20) -> pairwise_units PRIME xs.
Proof.
  induction 1 as [|a xs Hnin Hnd IH]; intros Hr; cbn [pairwise_units]; [exact I|].
  split.
  - intros x Hx. apply small_diff_unit.
    + apply Hr. right. exact Hx.
    + apply Hr. left. reflexivity.
    + intros ->. contradiction.
  - apply IH. intros x Hx. apply Hr. right. exact Hx.
Qed.

Lemma denom_unit xs i xi :
  NoDup xs -> (forall x, In x xs -> 1 <= x <= 20) ->
  nth_error xs i = Some xi -> Z.gcd (denom xs i xi) PRIME = 1.
Proof.
  intros Hnd Hr Hi. unfold denom. apply zprod_coprime.
  intros a Ha. apply in_map_iff in Ha. destruct Ha as (xj & <- & Hj).
  apply in_others_from in Hj. destruct Hj as (j & Hj & Hne). cbn in Hne.
  apply small_diff_unit.
  - apply Hr. eapply nth_error_In. exact Hi.
  - apply Hr. eapply nth_error_In. exact Hj.
  - intros ->. apply Hne.
    apply (proj1 (NoDup_nth_error xs) Hnd i j).
    + apply nth_error_Some. congruence.
    + congruence.
Qed.

Lemma inv_at_ok xs i xi :
  NoDup xs -> (forall x, In x xs -> 1 <= x <= 20) ->
  nth_error xs i = Some xi ->
  (denom xs i xi * inv_at PRIME xs i) mod PRIME = 1.
Proof.
  intros Hnd Hr Hi. unfold inv_at. rewrite Hi.
  destruct (mod_inverse_spec (denom xs i xi mod PRIME) PRIME PRIME_gt_1 PRIME_le)
    as (v & Hv & _ & Hinv).
  - rewrite Z.mod_mod by (pose proof PRIME_gt_1; lia).
    apply Z.coprime_mod_l_iff. apply denom_unit; assumption.
  - rewrite Hv. rewrite Z.mul_mod_idemp_l in Hinv by (pose proof PRIME_gt_1; lia).
    exact Hinv.
Qed.

Lemma zsum_enum_points (f : nat -> Z -> Z) (pts : list (Z * Z)) : forall k,
  zsum (map (fun '(i, (xi, yi)) => f i yi) (enum_from k pts))
  = zsum (map (fun '(i, yi) => f i yi) (enum_from k (map snd pts))).
Proof.
  induction pts as [|[x y] pts IH]; intros k; [reflexivity|].
  cbn [map snd]. rewrite !enum_from_cons. cbn [map]. unfold zsum in *. cbn [fold_right].
  rewrite IH. reflexivity.
Qed.

Lemma numer_basis xs inv i : numer xs i * inv i = basis xs inv i 0.
Proof.
  unfold numer, basis. rewrite Z.mul_comm. f_equal.
Qed.

(** Interpolating [t] points with distinct small abscissae that lie on a
    polynomial with at most [t] coefficients yields its constant term. *)
Lemma interpolate_polynomial self (c : list Z) (pts : list (Z * Z)) :
  prime self = PRIME ->
  NoDup (map fst pts) ->
  (forall x y, In (x, y) pts -> 1 <= x <= 20 /\ y = _evaluate_polynomial self c x) ->
  (List.length c <= List.length pts)%nat ->
  interpolate self pts = Some ((eval c 0) mod PRIME).
Proof.
  intros Hprime Hnd Hpts Hlen.
  pose proof PRIME_gt_1 as Hp.
  rewrite interpolate_spec by (rewrite Hprime; first [exact Hp|exact PRIME_le]).
  rewrite Hprime. f_equal.
  set (xs := map fst pts).
  assert (Hr : forall x, In x xs -> 1 <= x <= 20).
  { intros x Hx. apply in_map_iff in Hx. destruct Hx as ([x' y] & <- & Hin).
    apply (Hpts x' y Hin). }
  rewrite enumerate_enum_from.
  rewrite (zsum_enum_points (fun i yi => yi * (numer xs i * inv_at PRIME xs i)) pts 0).
  rewrite <- enumerate_enum_from.
  rewrite (map_ext (fun z : nat * Z => let '(i, yi) := z in
                                       yi * (numer xs i * inv_at PRIME xs i))
                   (fun z : nat * Z => let '(i, yi) := z in
                                       yi * basis xs (inv_at PRIME xs) i 0)).
  2:{ intros [i yi]. rewrite (numer_basis xs (inv_at PRIME xs) i). reflexivity. }
  apply (lagrange_at_zero PRIME Hp xs (inv_at PRIME xs)).
  - apply pairwise_units_small; assumption.
  - intros i xi Hi. apply inv_at_ok; assumption.
  - unfold xs. rewrite length_map. exact Hlen.
  - unfold xs. rewrite !length_map. reflexivity.
  - intros k xk yk Hxk Hyk. unfold xs in Hxk.
    rewrite nth_error_map in Hxk, Hyk.
    destruct (nth_error pts k) as [[x y]|] eqn:Hk; [|discriminate].
    cbn in Hxk, Hyk. inversion Hxk; inversion Hyk; subst.
    destruct (Hpts xk yk (nth_error_In _ _ Hk)) as [_ ->].
    rewrite evaluate_polynomial_eval by (rewrite Hprime; lia).
    rewrite Hprime. apply Z.mod_mod. lia.
Qed.

End ShamirFacts2.

Module ShamirTheorems.
Import ShamirSecretSharing Poly ShamirSpec PolyFacts EnumFacts LagrangeFacts GcdFacts PyFacts ShamirFacts ShamirFacts2.

Lemma init_ok t n self :
  init t n = Ok self ->
  threshold self = t /\ total_shares self = n /\ prime self = PRIME /\ 2 <= t <= n.
Proof.
  unfold init. destruct (Z.ltb_spec n t); [discriminate|].
  destruct (Z.ltb_spec t 2); [discriminate|].
  intros Hok. inversion Hok; subst; cbn. repeat split; lia.
Qed.

Lemma split_secret_ok self randbelow s :
  Py.int_from_bytes s < prime self ->
  split_secret self randbelow s
  = Ok (map (encode_share self (_generate_coefficients self randbelow (Py.int_from_bytes s)))
            (range1 (total_shares self))).
Proof.
  intros Hs. unfold split_secret.
  destruct (Z.leb_spec (prime self) (Py.int_from_bytes s)); [lia|]. reflexivity.
Qed.

Lemma in_range1 n x : In x (range1 n) -> 1 <= x <= n.
Proof.
  unfold range1. intros H. apply in_map_iff in H. destruct H as (k & <- & Hk).
  apply in_seq in Hk. lia.
Qed.

Lemma evaluate_polynomial_nonneg self c x :
  0 < prime self -> 0 <= _evaluate_polynomial self c x.
Proof.
  intros Hp. rewrite evaluate_polynomial_eval by exact Hp.
  apply Z.mod_pos_bound. exact Hp.
Qed.

Lemma decode_shares self c (l : list (Z * string)) :
  0 < prime self ->
  (forall sh, In sh l -> exists i, sh = encode_share self c i) ->
  mapM (fun '(x, y_hex) => y <- Py.int16 y_hex ;; Ok (x, y)) l
  = Ok (map (fun sh => (fst sh, _evaluate_polynomial self c (fst sh))) l).
Proof.
  intros Hp. induction l as [|sh l IH]; intros Hl; [reflexivity|].
  cbn [mapM map]. destruct (Hl sh (or_introl eq_refl)) as [i ->].
  unfold encode_share at 1. cbn [fst].
  rewrite int16_zfill_format_x by (apply evaluate_polynomial_nonneg; exact Hp).
  cbn [bind]. rewrite IH by (intros sh' H'; apply Hl; right; exact H').
  reflexivity.
Qed.

Lemma generate_coefficients_length self randbelow secret :
  2 <= threshold self ->
  List.length (_generate_coefficients self randbelow secret) = Z.to_nat (threshold self).
Proof.
  intros Ht. unfold _generate_coefficients. cbn [List.length].
  rewrite length_map, length_seq. lia.
Qed.

(** Reconstruction from [t] distinct shares of a split, in any order. *)
Lemma reconstruct_distinct_shares t n self randbelow s (l : list (Z * string)) :
  init t n = Ok self -> n <= 20 ->
  Py.int_from_bytes s < PRIME ->
  NoDup l ->
  (forall sh, In sh l ->
     In sh (map (encode_share self (_generate_coefficients self randbelow (Py.int_from_bytes s)))
                (range1 (total_shares self)))) ->
  List.length l = Z.to_nat t ->
  reconstruct_secret self l (List.length s) = Some (Ok s).
Proof.
  intros Hinit Hn Hs Hnd Hin Hlen.
  destruct (init_ok _ _ _ Hinit) as (Ht & Htot & Hprime & Hrange).
  pose proof PRIME_gt_1 as Hp.
  set (c := _generate_coefficients self randbelow (Py.int_from_bytes s)) in *.
  assert (Hsh : forall sh, In sh l -> exists i, 1 <= i <= n /\ sh = encode_share self c i).
  { intros sh H. apply Hin in H. apply in_map_iff in H. destruct H as (i & <- & Hi).
    exists i. split; [|reflexivity]. apply in_range1 in Hi. lia. }
  unfold reconstruct_secret.
  destruct (Z.ltb_spec (Z.of_nat (List.length l)) (threshold self)); [lia|].
  rewrite firstn_all2 by lia.
  rewrite (decode_shares self c l).
  2:{ rewrite Hprime. lia. }
  2:{ intros sh H0. destruct (Hsh sh H0) as (i & _ & ->). exists i. reflexivity. }
  rewrite (interpolate_polynomial self c).
  - unfold c at 1. unfold _generate_coefficients. cbn [eval].
    rewrite Z.mul_0_l, Z.add_0_r.
    pose proof (int_from_bytes_range s).
    rewrite Z.mod_small by lia. f_equal. apply int_to_from_bytes.
  - exact Hprime.
  - rewrite map_map. cbn [fst].
    apply NoDup_map_NoDup_ForallPairs; [|exact Hnd].
    intros a b Ha Hb Hab.
    destruct (Hsh a Ha) as (i & _ & ->). destruct (Hsh b Hb) as (j & _ & ->).
    cbn in Hab. subst. reflexivity.
  - intros x y Hxy. apply in_map_iff in Hxy. destruct Hxy as (sh & Heq & Hsh').
    inversion Heq; subst. destruct (Hsh sh Hsh') as (i & Hi & ->). cbn [fst encode_share].
    split; [lia|reflexivity].
  - rewrite length_map. unfold c. rewrite generate_coefficients_length by lia. lia.
Qed.

(** C1: for a secret [s] with [int(s) < PRIME] and [2 <= t <= n <= 20],
    [split_secret] returns [n] shares, and [reconstruct_secret] applied to
    any [t] distinct shares among them, in any order, with the length of
    [s], returns exactly [s]. *)
Theorem shamir_round_trip :
  forall (t n : Z) (self : ShamirSecretSharing.t) (randbelow : nat -> Z) (s : list byte),
    2 <= t <= n -> n <= 20 ->
    init t n = Ok self ->
    Py.int_from_bytes s < PRIME ->
    exists shares,
      split_secret self randbelow s = Ok shares /\
      List.length shares = Z.to_nat n /\
      forall subset,
        NoDup subset -> incl subset shares -> List.length subset = Z.to_nat t ->
        reconstruct_secret self subset (List.length s) = Some (Ok s).
Proof.
  intros t n self randbelow s Ht Hn Hinit Hs.
  destruct (init_ok _ _ _ Hinit) as (Hth & Htot & Hprime & _).
  eexists. split; [apply split_secret_ok; rewrite Hprime; exact Hs|]. split.
  - rewrite length_map. unfold range1. rewrite length_map, length_seq. rewrite Htot. reflexivity.
  - intros subset Hnd Hincl Hlen.
    apply (reconstruct_distinct_shares t n self randbelow s subset); auto.
Qed.

End ShamirTheorems.

Module ShamirPrefix.
Import ShamirSecretSharing ShamirTheorems.

Lemma reconstruct_secret_firstn self l len :
  0 <= threshold self ->
  threshold self <= Z.of_nat (List.length l) ->
  reconstruct_secret self l len
  = reconstruct_secret self (firstn (Z.to_nat (threshold self)) l) len.
Proof.
  intros H0 Hlen. unfold reconstruct_secret.
  rewrite length_firstn, firstn_firstn, Nat.min_id.
  destruct (Z.ltb_spec (Z.of_nat (List.length l)) (threshold self)); [lia|].
  destruct (Z.ltb_spec (Z.of_nat (Nat.min (Z.to_nat (threshold self)) (List.length l)))
              (threshold self)); [lia|reflexivity].
Qed.

(** C8 (amended): [reconstruct_secret] interpolates the first [t] entries
    of its input exactly as given, without removing repeated indices; it
    returns the secret when those first [t] entries are pairwise distinct
    shares of the split. *)
Theorem reconstruct_uses_first_shares :
  forall (t n : Z) (self : ShamirSecretSharing.t) (randbelow : nat -> Z) (s : list byte)
         (shares l : list (Z * string)),
    2 <= t <= n -> n <= 20 ->
    init t n = Ok self ->
    Py.int_from_bytes s < PRIME ->
    split_secret self randbelow s = Ok shares ->
    (Z.to_nat t <= List.length l)%nat ->
    reconstruct_secret self l (List.length s)
    = reconstruct_secret self (firstn (Z.to_nat t) l) (List.length s) /\
    (NoDup (firstn (Z.to_nat t) l) -> incl (firstn (Z.to_nat t) l) shares ->
     reconstruct_secret self l (List.length s) = Some (Ok s)).
Proof.
  intros t n self randbelow s shares l Ht Hn Hinit Hs Hsplit Hlen.
  destruct (init_ok _ _ _ Hinit) as (Hth & Htot & Hprime & _).
  assert (Hpre : reconstruct_secret self l (List.length s)
                 = reconstruct_secret self (firstn (Z.to_nat t) l) (List.length s))
    by (rewrite <- Hth; apply reconstruct_secret_firstn; lia).
  split; [exact Hpre|]. intros Hnd Hincl. rewrite Hpre.
  rewrite split_secret_ok in Hsplit by (rewrite Hprime; exact Hs).
  injection Hsplit as <-.
  apply (reconstruct_distinct_shares t n self randbelow s); auto.
  rewrite length_firstn. lia.
Qed.

End ShamirPrefix.

Module ElectionCryptoFacts.
Import ElectionCrypto.

Lemma bytes_eqb_eq x y : bytes_eqb x y = true <-> x = y.
Proof.
  unfold bytes_eqb. destruct (list_eq_dec Byte.byte_eq_dec x y); split; congruence.
Qed.

Ltac case_bind :=
  match goal with
  | |- context [bind ?r _] =>
      lazymatch r with
      | context [@bind] => fail
      | _ => destruct r; cbn [bind]; try (intro; discriminate); try discriminate
      end
  end.

Lemma hybrid_mismatch P pkg sk_rsa sk_kyber k1 k2 :
    recovered_keys P pkg sk_rsa sk_kyber = Ok (k1, k2) ->
    k1 <> k2 ->
    _decrypt_vote_hybrid P pkg sk_rsa sk_kyber = Raise HybridMismatch.
Proof.
  unfold recovered_keys, _decrypt_vote_hybrid.
  repeat case_bind.
  all: intros Hk Hne; injection Hk as <- <-.
  all: destruct (bytes_eqb _ _) eqn:Heq; [|reflexivity].
  all: apply bytes_eqb_eq in Heq; contradiction.
Qed.

Lemma hybrid_success P pkg sk_rsa sk_kyber pt :
    _decrypt_vote_hybrid P pkg sk_rsa sk_kyber = Ok pt ->
    exists k, recovered_keys P pkg sk_rsa sk_kyber = Ok (k, k).
Proof.
  unfold recovered_keys, _decrypt_vote_hybrid.
  repeat case_bind.
  all: destruct (bytes_eqb _ _) eqn:Heq; cbn [negb]; [|discriminate].
  all: intros _; apply bytes_eqb_eq in Heq; eexists; rewrite <- Heq; reflexivity.
Qed.
End ElectionCryptoFacts.

Module HybridThm.
Import ElectionCrypto ElectionCryptoFacts.

Lemma decrypt_vote_hybrid_path P ev pkg sk_rsa sk_kyber :
  (b <- b64decode P ev ;; json_loads P b) = Ok pkg ->
  contains pkg "kyber_ciphertext" = true ->
  decrypt_vote P ev sk_rsa (Some sk_kyber) = _decrypt_vote_hybrid P pkg sk_rsa sk_kyber.
Proof. intros Hp Hc. unfold decrypt_vote. rewrite Hp. cbn [bind]. rewrite Hc. reflexivity. Qed.

(** C2: on the hybrid path (a package with [kyber_ciphertext] and a Kyber
    private key), [decrypt_vote] runs [_decrypt_vote_hybrid]; whenever the
    AES key recovered through RSA-OAEP differs from the one recovered by
    XORing [kyber_protected_key] with the ML-KEM-768 shared secret the call
    raises the mismatch error, and a plaintext is returned only when the
    two recovered keys are equal. *)
Theorem hybrid_requires_both_keys P ev pkg sk_rsa sk_kyber :
  (b <- b64decode P ev ;; json_loads P b) = Ok pkg ->
  contains pkg "kyber_ciphertext" = true ->
  (forall k1 k2,
      recovered_keys P pkg sk_rsa sk_kyber = Ok (k1, k2) -> k1 <> k2 ->
      decrypt_vote P ev sk_rsa (Some sk_kyber) = Raise HybridMismatch) /\
  (forall pt,
      decrypt_vote P ev sk_rsa (Some sk_kyber) = Ok pt ->
      exists k, recovered_keys P pkg sk_rsa sk_kyber = Ok (k, k)).
Proof.
  intros Hp Hc. rewrite (decrypt_vote_hybrid_path P ev pkg sk_rsa sk_kyber Hp Hc). split.
  - intros k1 k2. apply hybrid_mismatch.
  - intros pt. apply hybrid_success.
Qed.

End HybridThm.

Module RoundFacts.
Import PyFloat FloatSpec.

Lemma digits2_pos_size m : digits2_pos m = Pos.size m.
Proof. induction m; cbn; congruence. Qed.

Lemma digits_bounds (m : positive) :
  2 ^ (Z.pos (digits2_pos m) - 1) <= Z.pos m < 2 ^ Z.pos (digits2_pos m).
Proof.
  rewrite digits2_pos_size. split.
  - pose proof (Pos.size_le m) as H.
    assert (H2 : (2 ^ Z.pos (Pos.size m) <= Z.pos m~0)).
    { rewrite <- Pos2Z.inj_pow. apply Pos2Z.pos_le_pos. exact H. }
    replace (Z.pos (Pos.size m)) with (Z.succ (Z.pos (Pos.size m) - 1)) in H2 by lia.
    rewrite Z.pow_succ_r in H2 by lia. lia.
  - rewrite <- Pos2Z.inj_pow. apply Pos2Z.pos_lt_pos. apply Pos.size_gt.
Qed.

Lemma new_location_located (a b : Z) :
  0 <= a -> 0 < b ->
  located a b (a / b) (new_location b (a mod b)).
Proof.
  intros Ha Hb. pose proof (Z.div_mod a b ltac:(lia)) as Hdm.
  pose proof (Z.mod_pos_bound a b Hb) as Hr.
  set (q := a / b) in *. set (r := a mod b) in *.
  unfold new_location, new_location_even, new_location_odd.
  destruct (Z.even b) eqn:Hev.
  - destruct (Z.eqb_spec r 0) as [Hz|Hnz]; [cbn [located]; nia|].
    destruct (Z.compare_spec (2 * r) b); cbn [located]; nia.
  - destruct (Z.eqb_spec r 0) as [Hz|Hnz]; [cbn [located]; nia|].
    assert (Hodd : Z.odd b = true) by (rewrite <- Z.negb_even, Hev; reflexivity).
    apply Z.odd_spec in Hodd. destruct Hodd as [c Hc].
    destruct (Z.compare_spec (2 * r + 1) b); cbn [located]; nia.
Qed.

Lemma round_nearest_even_located a b m l :
  0 < b -> located a b m l ->
  2 * Z.abs (round_nearest_even m l * b - a) <= b.
Proof.
  intros Hb H. destruct l as [|[| |]]; cbn [located round_nearest_even] in *.
  - subst. rewrite Z.sub_diag. rewrite Z.abs_0. lia.
  - destruct (Z.even m); nia.
  - nia.
  - nia.
Qed.

End RoundFacts.

Module RoundFacts2.
Import PyFloat FloatSpec RoundFacts.

Lemma digits_unique (m : positive) d :
  2 ^ (d - 1) <= Z.pos m < 2 ^ d -> Z.pos (digits2_pos m) = d.
Proof.
  intros [Hlo Hhi]. pose proof (digits_bounds m) as [Dlo Dhi].
  set (k := Z.pos (digits2_pos m)) in *.
  assert (Hk : 0 < k) by (unfold k; lia).
  destruct (Z.lt_trichotomy k d) as [Hlt|[Heq|Hgt]]; [|exact Heq|].
  - exfalso. assert (2 ^ k <= 2 ^ (d - 1)) by (apply Z.pow_le_mono_r; lia). lia.
  - exfalso. assert (d <= 0 \/ 0 < d) as [Hd|Hd] by lia.
    + assert (2 ^ d <= 1).
      { destruct (Z.eq_dec d 0) as [->|]; [cbn; lia|]. rewrite Z.pow_neg_r by lia. lia. }
      lia.
    + assert (2 ^ d <= 2 ^ (k - 1)) by (apply Z.pow_le_mono_r; lia). lia.
Qed.

Lemma fexp_normal z : - 1021 <= z -> fexp prec emax z = z - 53.
Proof. intros H. unfold fexp, emin, prec, emax. lia. Qed.

Lemma shr_1_located a b m l :
  0 < b -> 0 <= m -> located a b m l ->
  let mrs := shr_1 (shr_record_of_loc m l) in
  shr_m mrs = m / 2 /\ located a (2 * b) (m / 2) (loc_of_shr_record mrs).
Proof.
  intros Hb Hm H.
  destruct m as [|p|p]; [| |lia].
  - change (0 / 2) with 0.
    destruct l as [|[| |]]; cbn [located shr_record_of_loc shr_1 shr_m loc_of_shr_record orb] in *;
      (split; [reflexivity|]); nia.
  - destruct p as [p|p|].
    + assert (Hd : Z.pos p~1 / 2 = Z.pos p).
      { rewrite Pos2Z.inj_xI. symmetry. apply (Z.div_unique _ 2 _ 1); lia. }
      rewrite Hd. rewrite Pos2Z.inj_xI in H.
      destruct l as [|[| |]]; cbn [located shr_record_of_loc shr_1 shr_m loc_of_shr_record orb] in *;
        (split; [reflexivity|]); nia.
    + assert (Hd : Z.pos p~0 / 2 = Z.pos p).
      { rewrite Pos2Z.inj_xO. symmetry. apply (Z.div_unique _ 2 _ 0); lia. }
      rewrite Hd. rewrite Pos2Z.inj_xO in H.
      destruct l as [|[| |]]; cbn [located shr_record_of_loc shr_1 shr_m loc_of_shr_record orb] in *;
        (split; [reflexivity|]); nia.
    + change (1 / 2) with 0.
      destruct l as [|[| |]]; cbn [located shr_record_of_loc shr_1 shr_m loc_of_shr_record orb] in *;
        (split; [reflexivity|]); nia.
Qed.

Lemma loc_of_shr_record_of_loc m l : loc_of_shr_record (shr_record_of_loc m l) = l.
Proof. destruct l as [|[| |]]; reflexivity. Qed.

Lemma shr_m_of_loc m l : shr_m (shr_record_of_loc m l) = m.
Proof. destruct l as [|[| |]]; reflexivity. Qed.

(** The second normalisation of [binary_round_aux], on a rounded mantissa
    of 53 bits or on [2 ^ 53]. *)
Lemma renormalise (M : Z) (e : Z) :
  2 ^ 52 <= M <= 2 ^ 53 -> - 1074 <= e <= 969 ->
  let '(mrs, e2) := shr_fexp prec emax M e loc_Exact in
  exists m k, shr_m mrs = Z.pos m /\ e2 = e + k /\ 0 <= k <= 1 /\
              Z.pos m * 2 ^ k = M /\ 2 ^ 52 <= Z.pos m < 2 ^ 53 /\
              (e2 <=? emax - prec) = true.
Proof.
  intros HM He. unfold shr_fexp.
  destruct (Z.eq_dec M (2 ^ 53)) as [->|Hne].
  - change (Zdigits2 (2 ^ 53)) with 54.
    rewrite fexp_normal by lia.
    replace (54 + e - 53 - e) with 1 by lia.
    cbn [shr shr_record_of_loc iter_pos]. unfold shr_1.
    change (2 ^ 53) with (Z.pos (2 ^ 53)%positive).
    cbn [Pos.pow Pos.iter Pos.mul]. cbn [shr_m].
    eexists _, 1. split; [reflexivity|]. split; [reflexivity|]. split; [lia|].
    split; [reflexivity|]. split; [cbn; lia|].
    unfold emax, prec. apply Z.leb_le. lia.
  - destruct M as [|m|m]; [cbn in HM; lia| |lia].
    assert (Hd : Z.pos (digits2_pos m) = 53) by (apply digits_unique; lia).
    cbn [Zdigits2]. rewrite Hd, fexp_normal by lia.
    replace (53 + e - 53 - e) with 0 by lia.
    cbn [shr shr_record_of_loc shr_m].
    exists m, 0. split; [reflexivity|]. split; [lia|]. split; [lia|].
    split; [lia|]. split; [lia|]. unfold emax, prec. apply Z.leb_le. lia.
Qed.

(** Rounding the quotient [a / b], whose integer part has 53 or 54 bits,
    at exponent [e]: the result is within half a unit in the last place. *)
Lemma binary_round_aux_quotient (a b e : Z) :
  0 < b -> 2 ^ 52 * b <= a -> a < 2 ^ 54 * b -> - 1074 <= e <= 960 ->
  exists m k,
    binary_round_aux prec emax false (a / b) e (new_location b (a mod b))
    = S754_finite false m (e + k) /\
    0 <= k <= 2 /\ 2 ^ 52 <= Z.pos m < 2 ^ 53 /\
    2 * Z.abs (Z.pos m * 2 ^ k * b - a) <= 2 ^ k * b.
Proof.
  intros Hb Hlo Hhi He.
  assert (Ha : 0 <= a) by nia.
  pose proof (new_location_located a b Ha Hb) as Hloc.
  set (q := a / b) in *. set (l := new_location b (a mod b)) in *.
  assert (Hq : 2 ^ 52 <= q < 2 ^ 54).
  { unfold q. split; [apply Z.div_le_lower_bound; lia|apply Z.div_lt_upper_bound; lia]. }
  unfold binary_round_aux.
  destruct (Z_lt_le_dec q (2 ^ 53)) as [Hsmall|Hbig].
  - (* 53 bits: no first shift *)
    destruct q as [|qp|qp] eqn:Eq; [lia| |lia].
    assert (Hd : Z.pos (digits2_pos qp) = 53) by (apply digits_unique; lia).
    unfold shr_fexp at 1. cbn [Zdigits2]. rewrite Hd, fexp_normal by lia.
    replace (53 + e - 53 - e) with 0 by lia. cbn [shr].
    rewrite loc_of_shr_record_of_loc, shr_m_of_loc.
    pose proof (round_nearest_even_located a b (Z.pos qp) l Hb Hloc) as Hr.
    set (M := round_nearest_even (Z.pos qp) l) in *.
    assert (HM : 2 ^ 52 <= M <= 2 ^ 53).
    { unfold M. destruct l as [|[| |]]; cbn [round_nearest_even]; try lia.
      destruct (Z.even (Z.pos qp)); lia. }
    pose proof (renormalise M e HM ltac:(lia)) as Hn.
    destruct (shr_fexp prec emax M e loc_Exact) as [mrs e2].
    destruct Hn as (m & k & Hm & -> & Hk & Hval & Hrange & Hle).
    rewrite Hm, Hle. exists m, k. split; [reflexivity|]. split; [lia|]. split; [exact Hrange|].
    rewrite Hval. assert (1 <= 2 ^ k) by (pose proof (Z.pow_pos_nonneg 2 k ltac:(lia) ltac:(lia)); lia). nia.
  - (* 54 bits: one shift *)
    destruct q as [|qp|qp] eqn:Eq; [lia| |lia].
    assert (Hd : Z.pos (digits2_pos qp) = 54) by (apply digits_unique; lia).
    unfold shr_fexp at 1. cbn [Zdigits2]. rewrite Hd, fexp_normal by lia.
    replace (54 + e - 53 - e) with 1 by lia. cbn [shr iter_pos].
    destruct (shr_1_located a b (Z.pos qp) l Hb ltac:(lia) Hloc) as (Hm1 & Hloc1).
    set (mrs1 := shr_1 (shr_record_of_loc (Z.pos qp) l)) in *.
    rewrite Hm1.
    assert (Hh : 2 ^ 52 <= Z.pos qp / 2 < 2 ^ 53).
    { split; [apply Z.div_le_lower_bound; lia|apply Z.div_lt_upper_bound; lia]. }
    pose proof (round_nearest_even_located a (2 * b) (Z.pos qp / 2) _ ltac:(lia) Hloc1) as Hr.
    set (M := round_nearest_even (Z.pos qp / 2) (loc_of_shr_record mrs1)) in *.
    assert (HM : 2 ^ 52 <= M <= 2 ^ 53).
    { unfold M. destruct (loc_of_shr_record mrs1) as [|[| |]]; cbn [round_nearest_even]; try lia.
      destruct (Z.even (Z.pos qp / 2)); lia. }
    pose proof (renormalise M (e + 1) HM ltac:(lia)) as Hn.
    destruct (shr_fexp prec emax M (e + 1) loc_Exact) as [mrs e2].
    destruct Hn as (m & k & Hm & -> & Hk & Hval & Hrange & Hle).
    rewrite Hm, Hle. exists m, (1 + k). split; [f_equal; lia|]. split; [lia|].
    split; [exact Hrange|].
    rewrite Z.pow_add_r by lia. change (2 ^ 1) with 2.
    assert (1 <= 2 ^ k) by (pose proof (Z.pow_pos_nonneg 2 k ltac:(lia) ltac:(lia)); lia).
    replace (Z.pos m * (2 * 2 ^ k) * b) with (Z.pos m * 2 ^ k * (2 * b)) by ring.
    rewrite Hval. nia.
Qed.

End RoundFacts2.

Module DivFacts.
Import PyFloat FloatSpec RoundFacts RoundFacts2.

Lemma div_core_spec (m1 m2 : positive) (e1 e2 : Z) :
  0 < div_shift m1 m2 ->
  - 1021 <= Z.pos (digits2_pos m1) + e1 - (Z.pos (digits2_pos m2) + e2) ->
  let a := Z.pos m1 * 2 ^ div_shift m1 m2 in
  SFdiv_core_binary prec emax (Z.pos m1) e1 (Z.pos m2) e2
  = (a / Z.pos m2, e1 - e2 - div_shift m1 m2, new_location (Z.pos m2) (a mod Z.pos m2)) /\
  2 ^ 52 * Z.pos m2 <= a < 2 ^ 54 * Z.pos m2.
Proof.
  intros Hs Hn a. unfold div_shift in *.
  pose proof (digits_bounds m1) as [L1 U1]. pose proof (digits_bounds m2) as [L2 U2].
  set (d1 := Z.pos (digits2_pos m1)) in *. set (d2 := Z.pos (digits2_pos m2)) in *.
  assert (Hd1 : 0 < d1) by (unfold d1; lia). assert (Hd2 : 0 < d2) by (unfold d2; lia).
  split.
  - unfold SFdiv_core_binary. cbn [Zdigits2]. fold d1 d2.
    rewrite fexp_normal by lia.
    replace (Z.min (d1 + e1 - (d2 + e2) - 53) (e1 - e2)) with (e1 - e2 - (53 - d1 + d2)) by lia.
    replace (e1 - e2 - (e1 - e2 - (53 - d1 + d2))) with (53 - d1 + d2) by lia.
    destruct (53 - d1 + d2) as [|s|s] eqn:Es; [lia| |lia].
    rewrite Z.shiftl_mul_pow2 by lia. fold a.
    unfold Z.div, Z.modulo. destruct (Z.div_eucl a (Z.pos m2)) as [q r]. reflexivity.
  - unfold a.
    assert (E1 : 2 ^ (d1 - 1) * 2 ^ (53 - d1 + d2) = 2 ^ 52 * 2 ^ d2).
    { rewrite <- !Z.pow_add_r by lia. f_equal. lia. }
    assert (E2 : 2 ^ d1 * 2 ^ (53 - d1 + d2) = 2 ^ 54 * 2 ^ (d2 - 1)).
    { rewrite <- !Z.pow_add_r by lia. f_equal. lia. }
    assert (P : 0 < 2 ^ (53 - d1 + d2)) by (apply Z.pow_pos_nonneg; lia).
    split; nia.
Qed.

(** Division of two positive finite floats in the normal range. *)
Lemma SFdiv_spec (m1 m2 : positive) (e1 e2 : Z) :
  0 < div_shift m1 m2 ->
  - 1021 <= Z.pos (digits2_pos m1) + e1 - (Z.pos (digits2_pos m2) + e2) <= 1000 ->
  exists m k,
    SFdiv prec emax (S754_finite false m1 e1) (S754_finite false m2 e2)
    = S754_finite false m (e1 - e2 - div_shift m1 m2 + k) /\
    0 <= k <= 2 /\ 2 ^ 52 <= Z.pos m < 2 ^ 53 /\
    2 * Z.abs (Z.pos m * 2 ^ k * Z.pos m2 - Z.pos m1 * 2 ^ div_shift m1 m2)
    <= 2 ^ k * Z.pos m2.
Proof.
  intros Hs Hn.
  destruct (div_core_spec m1 m2 e1 e2 Hs ltac:(lia)) as (Hcore & Hlo & Hhi).
  unfold SFdiv. rewrite Hcore. cbn [xorb].
  apply binary_round_aux_quotient; try lia.
  unfold div_shift in *. lia.
Qed.

(** [a / b] on two positive integers. *)
Lemma int_truediv_spec (a b : positive) :
  0 < div_shift a b <= 1000 ->
  exists m k,
    int_truediv (Z.pos a) (Z.pos b)
    = Ok (S754_finite false m (- div_shift a b + k)) /\
    0 <= k <= 2 /\ 2 ^ 52 <= Z.pos m < 2 ^ 53 /\
    2 * Z.abs (Z.pos m * 2 ^ k * Z.pos b - Z.pos a * 2 ^ div_shift a b)
    <= 2 ^ k * Z.pos b.
Proof.
  intros Hs. unfold int_truediv.
  change (Z.pos b =? 0) with false. change (Z.pos a =? 0) with false.
  cbn [Z.abs]. cbn match.
  assert (Hn : - 1021 <= Z.pos (digits2_pos a) + 0 - (Z.pos (digits2_pos b) + 0)).
  { unfold div_shift in Hs. lia. }
  destruct (div_core_spec a b 0 0 ltac:(lia) Hn) as (Hcore & Hlo & Hhi).
  rewrite Hcore. change (Z.pos a <? 0) with false. change (Z.pos b <? 0) with false.
  cbn [xorb].
  destruct (binary_round_aux_quotient
              (Z.pos a * 2 ^ div_shift a b) (Z.pos b) (0 - 0 - div_shift a b))
    as (m & k & Hr & Hk & Hm & Hb); try lia.
  rewrite Hr. exists m, k. split; [f_equal; f_equal; lia|]. auto.
Qed.

Lemma iter_xO_pow2 (n s : positive) : Z.pos (Pos.iter xO n s) = Z.pos n * 2 ^ Z.pos s.
Proof.
  induction s as [|s IH] using Pos.peano_ind.
  - cbn [Pos.iter]. rewrite Pos2Z.inj_xO. change (2 ^ 1) with 2. lia.
  - rewrite Pos.iter_succ, Pos2Z.inj_xO, IH, Pos2Z.inj_succ, Z.pow_succ_r by lia. ring.
Qed.

Lemma binary_round_aux_exact (m : positive) (e : Z) :
  Z.pos (digits2_pos m) = 53 -> - 1074 <= e <= 969 ->
  binary_round_aux prec emax false (Z.pos m) e loc_Exact = S754_finite false m e.
Proof.
  intros Hd He. unfold binary_round_aux, shr_fexp. cbn [Zdigits2].
  rewrite Hd, fexp_normal by lia. replace (53 + e - 53 - e) with 0 by lia.
  cbn [shr shr_record_of_loc loc_of_shr_record shr_m round_nearest_even Zdigits2].
  rewrite Hd, fexp_normal by lia. replace (53 + e - 53 - e) with 0 by lia.
  cbn [shr shr_record_of_loc shr_m].
  replace (e <=? emax - prec) with true; [reflexivity|].
  symmetry. apply Z.leb_le. unfold emax, prec. lia.
Qed.

(** [float(n)] for [0 < n < 2 ^ 53] is exact. *)
Lemma of_int_spec (n : positive) :
  Z.pos n < 2 ^ 53 ->
  exists m,
    of_int (Z.pos n) = Ok (S754_finite false m (Z.pos (digits2_pos n) - 53)) /\
    Z.pos m = Z.pos n * 2 ^ (53 - Z.pos (digits2_pos n)) /\
    Z.pos (digits2_pos m) = 53.
Proof.
  intros Hn. pose proof (digits_bounds n) as [L U].
  set (d := Z.pos (digits2_pos n)) in *.
  assert (Hd : 0 < d <= 53).
  { split; [unfold d; lia|]. destruct (Z_le_gt_dec d 53) as [H|H]; [exact H|].
    exfalso. assert (2 ^ 53 <= 2 ^ (d - 1)) by (apply Z.pow_le_mono_r; lia). lia. }
  unfold of_int, binary_normalize, binary_round.
  fold d. rewrite fexp_normal by lia.
  unfold shl_align.
  destruct (d + 0 - 53 - (0)) as [|s|s] eqn:Es; [| lia |].
  - (* already 53 bits *)
    assert (Hd53 : d = 53) by lia.
    rewrite (binary_round_aux_exact n 0) by (fold d; lia).
    exists n. split; [do 2 f_equal; lia|]. split; [|fold d; lia].
    rewrite Hd53. change (2 ^ (53 - 53)) with 1. lia.
  - set (mz := Pos.iter xO n s).
    assert (Hmz : Z.pos mz = Z.pos n * 2 ^ Z.pos s) by apply iter_xO_pow2.
    assert (Hdz : Z.pos (digits2_pos mz) = 53).
    { apply digits_unique. rewrite Hmz.
      assert (E1 : 2 ^ (d - 1) * 2 ^ Z.pos s = 2 ^ 52) by (rewrite <- Z.pow_add_r by lia; f_equal; lia).
      assert (E2 : 2 ^ d * 2 ^ Z.pos s = 2 ^ 53) by (rewrite <- Z.pow_add_r by lia; f_equal; lia).
      assert (P : 0 < 2 ^ Z.pos s) by (apply Z.pow_pos_nonneg; lia).
      change (53 - 1) with 52. nia. }
    rewrite (binary_round_aux_exact mz (d + 0 - 53)) by lia.
    exists mz. split; [do 2 f_equal; lia|]. split; [|exact Hdz].
    rewrite Hmz. f_equal. f_equal. lia.
Qed.

End DivFacts.

Module QuotaFacts.
Import PyFloat FloatSpec RoundFacts RoundFacts2 DivFacts.

Lemma digits_le (n : positive) d : 0 <= d -> Z.pos n < 2 ^ d -> Z.pos (digits2_pos n) <= d.
Proof.
  intros Hd Hn. pose proof (digits_bounds n) as [L _].
  destruct (Z_le_gt_dec (Z.pos (digits2_pos n)) d) as [H|H]; [exact H|].
  exfalso. assert (2 ^ d <= 2 ^ (Z.pos (digits2_pos n) - 1)) by (apply Z.pow_le_mono_r; lia).
  lia.
Qed.

(** [int(x)] for a positive finite float, with the exponent split as a
    difference of two non-negative numbers. *)
Lemma to_int_quotient (m : positive) (e al be : Z) :
  0 <= al -> 0 <= be -> e = al - be ->
  to_int (S754_finite false m e) = Ok (Z.pos m * 2 ^ al / 2 ^ be).
Proof.
  intros Ha Hb ->. unfold to_int. f_equal.
  assert (Pa : 0 < 2 ^ al) by (apply Z.pow_pos_nonneg; lia).
  assert (Pb : 0 < 2 ^ be) by (apply Z.pow_pos_nonneg; lia).
  destruct (Z.leb_spec 0 (al - be)) as [H|H].
  - replace al with (al - be + be) at 2 by lia.
    rewrite Z.pow_add_r by lia. rewrite Z.mul_assoc, Z.div_mul by lia. reflexivity.
  - replace be with (- (al - be) + al) at 2 by lia.
    rewrite Z.pow_add_r by lia.
    rewrite Z.div_mul_cancel_r by lia. reflexivity.
Qed.

Lemma of_int_total (n : Z) : 0 <= n < 2 ^ 53 -> exists f, of_int n = Ok f.
Proof.
  intros Hn. destruct n as [|p|p]; [| |lia].
  - eexists. reflexivity.
  - destruct (of_int_spec p ltac:(lia)) as (m & H & _). eexists. exact H.
Qed.

End QuotaFacts.

Module SeatArith.

(** The two rounding errors, of the quota and of [votes / quota], leave
    [V * x] within one unit of [v * S]; every quantity is scaled to an
    integer. *)
Lemma scaled_error (S V v mq Kq mx Kx mv Tv P : Z) :
  0 < S -> 0 < V -> 0 < v -> S * v <= 2 ^ 51 ->
  1 <= Kq -> 1 <= Kx -> 1 <= Tv -> 0 < P ->
  2 ^ 52 <= mq -> 2 ^ 52 <= mx ->
  mv = v * Tv ->
  2 * Z.abs (mq * Kq * S - V * P) <= Kq * S ->
  2 * Z.abs (mx * Kx * mq - mv * 2 ^ 53) <= Kx * mq ->
  Z.abs (V * (mx * Kx * P) - v * S * (Kq * (2 ^ 53 * Tv))) < Kq * (2 ^ 53 * Tv).
Proof.
  intros HS HV Hv HSv HKq HKx HTv HP Hmq Hmx Hmv HQ HX.
  set (B := mx * Kx) in *.
  set (dq := V * P - mq * Kq * S).
  set (dx := B * mq - mv * 2 ^ 53).
  assert (Hdq : 2 * Z.abs dq <= Kq * S) by (unfold dq; lia).
  assert (Hdx : 2 * Z.abs dx <= Kx * mq) by (unfold dx; lia).
  assert (Hid : V * (B * P) - v * S * (Kq * (2 ^ 53 * Tv)) = Kq * S * dx + B * dq).
  { unfold dq, dx. rewrite Hmv. ring. }
  rewrite Hid.
  assert (HB : 2 ^ 52 * Kx <= B) by (unfold B; nia).
  assert (HBpos : 0 < B) by lia.
  assert (Hmqpos : 0 < mq) by lia.
  (* bounds on the two mantissa products *)
  assert (H1 : 2 * (B * mq) <= mv * 2 ^ 54 + Kx * mq).
  { unfold dx in Hdx. change (2 ^ 54) with (2 * 2 ^ 53). lia. }
  assert (H2 : 2 ^ 53 * (Kx * mq) <= 2 * (B * mq)).
  { replace (2 * (B * mq)) with ((2 * B) * mq) by ring.
    replace (2 ^ 53 * (Kx * mq)) with ((2 ^ 53 * Kx) * mq) by ring.
    apply Z.mul_le_mono_nonneg_r; lia. }
  assert (Hi : (2 ^ 53 - 1) * (Kx * mq) <= mv * 2 ^ 54) by lia.
  assert (H3 : 2 ^ 53 * B - 2 ^ 52 * Kx <= 2 * (B * mq) - Kx * mq).
  { replace (2 * (B * mq) - Kx * mq) with (Kx * (mq * (2 * mx - 1))) by (unfold B; ring).
    replace (2 ^ 53 * B - 2 ^ 52 * Kx) with (Kx * (2 ^ 52 * (2 * mx - 1))) by (unfold B; ring).
    apply Z.mul_le_mono_nonneg_l; [lia|].
    apply Z.mul_le_mono_nonneg_r; lia. }
  assert (Hii : (2 ^ 53 - 1) * B <= mv * 2 ^ 54) by lia.
  assert (Hsum : (2 ^ 53 - 1) * (Kx * mq + B) <= mv * 2 ^ 55).
  { change (2 ^ 55) with (2 * 2 ^ 54). lia. }
  (* the sum of the two error terms *)
  assert (Hlim : S * (Kx * mq + B) < 2 ^ 54 * Tv).
  { destruct (Z_lt_le_dec (S * (Kx * mq + B)) (2 ^ 54 * Tv)) as [Hok|Hbad]; [exact Hok|].
    exfalso.
    assert (Ha : (2 ^ 53 - 1) * (S * (Kx * mq + B)) <= S * (mv * 2 ^ 55)).
    { replace ((2 ^ 53 - 1) * (S * (Kx * mq + B))) with (S * ((2 ^ 53 - 1) * (Kx * mq + B))) by ring.
      apply Z.mul_le_mono_nonneg_l; lia. }
    assert (Hb : S * (mv * 2 ^ 55) <= 2 ^ 106 * Tv).
    { replace (S * (mv * 2 ^ 55)) with ((S * v) * (2 ^ 55 * Tv)) by (subst mv; ring).
      replace (2 ^ 106 * Tv) with (2 ^ 51 * (2 ^ 55 * Tv)) by ring.
      apply Z.mul_le_mono_nonneg_r; lia. }
    assert (Hc : (2 ^ 53 - 1) * (2 ^ 54 * Tv) <= (2 ^ 53 - 1) * (S * (Kx * mq + B))).
    { apply Z.mul_le_mono_nonneg_l; lia. }
    lia. }
  assert (Habs : 2 * Z.abs (Kq * S * dx + B * dq) <= Kq * S * (Kx * mq + B)).
  { assert (T1 : Z.abs (Kq * S * dx) = Kq * S * Z.abs dx).
    { rewrite Z.abs_mul. rewrite (Z.abs_eq (Kq * S)) by nia. reflexivity. }
    assert (T2 : Z.abs (B * dq) = B * Z.abs dq).
    { rewrite Z.abs_mul. rewrite (Z.abs_eq B) by lia. reflexivity. }
    pose proof (Z.abs_triangle (Kq * S * dx) (B * dq)) as Tr.
    rewrite T1, T2 in Tr.
    assert (U1 : 2 * (Kq * S * Z.abs dx) <= Kq * S * (Kx * mq)).
    { replace (2 * (Kq * S * Z.abs dx)) with (Kq * S * (2 * Z.abs dx)) by ring.
      apply Z.mul_le_mono_nonneg_l; [nia|lia]. }
    assert (U2 : 2 * (B * Z.abs dq) <= B * (Kq * S)).
    { replace (2 * (B * Z.abs dq)) with (B * (2 * Z.abs dq)) by ring.
      apply Z.mul_le_mono_nonneg_l; lia. }
    replace (Kq * S * (Kx * mq + B)) with (Kq * S * (Kx * mq) + B * (Kq * S)) by ring.
    lia. }
  assert (Hfin : Kq * S * (Kx * mq + B) < 2 * (Kq * (2 ^ 53 * Tv))).
  { replace (Kq * S * (Kx * mq + B)) with (Kq * (S * (Kx * mq + B))) by ring.
    replace (2 * (Kq * (2 ^ 53 * Tv))) with (Kq * (2 ^ 54 * Tv)) by (change (2 ^ 54) with (2 * 2 ^ 53); ring).
    apply Z.mul_lt_mono_pos_l; lia. }
  lia.
Qed.

(** The integer part of a quotient within one unit of [v * S / V]. *)
Lemma floor_within (V vS N W : Z) :
  0 < V -> 0 < W -> 0 <= N ->
  Z.abs (V * N - vS * W) < W ->
  vS - V <= (N / W) * V <= vS.
Proof.
  intros HV HW HN Hab.
  pose proof (Z.div_mod N W ltac:(lia)) as Hdm.
  pose proof (Z.mod_pos_bound N W HW) as Hr.
  set (s := N / W) in *. set (r := N mod W) in *.
  assert (Hlo : s * W <= N) by lia.
  assert (Hhi : N < (s + 1) * W) by lia.
  split.
  - (* (s + 1) * V * W > V * N > vS * W - W *)
    assert (H1 : vS * W - W < V * N) by lia.
    assert (H2 : V * N < V * ((s + 1) * W)) by (apply Z.mul_lt_mono_pos_l; lia).
    assert (H3 : (vS - 1) * W < ((s + 1) * V) * W) by lia.
    assert (H4 : vS - 1 < (s + 1) * V) by (apply (Z.mul_lt_mono_pos_r W); lia).
    lia.
  - assert (H1 : V * N < vS * W + W) by lia.
    assert (H2 : V * (s * W) <= V * N) by (apply Z.mul_le_mono_nonneg_l; lia).
    assert (H3 : (s * V) * W < (vS + 1) * W) by lia.
    assert (H4 : s * V < vS + 1) by (apply (Z.mul_lt_mono_pos_r W); lia).
    lia.
Qed.

End SeatArith.

Module PartyFacts.
Import PyFloat FloatSpec Tally RoundFacts RoundFacts2 DivFacts QuotaFacts SeatArith.

Lemma sub_int_total x n : 0 <= n < 2 ^ 53 -> exists r, sub_int x n = Ok r.
Proof.
  intros Hn. unfold sub_int. destruct (of_int_total n Hn) as [f ->]. cbn [bind].
  eexists. reflexivity.
Qed.

Lemma party_entry_bounds (Vp Sp : positive) (v : Z) (mq : positive) (kq : Z) :
  Z.pos Sp * Z.pos Vp <= 2 ^ 51 -> 0 <= v <= Z.pos Vp ->
  0 <= kq <= 2 -> 2 ^ 52 <= Z.pos mq < 2 ^ 53 ->
  2 * Z.abs (Z.pos mq * 2 ^ kq * Z.pos Sp - Z.pos Vp * 2 ^ div_shift Vp Sp)
  <= 2 ^ kq * Z.pos Sp ->
  exists seats r,
    party_entry (S754_finite false mq (- div_shift Vp Sp + kq)) v = Ok (seats, r) /\
    v * Z.pos Sp - Z.pos Vp <= seats * Z.pos Vp <= v * Z.pos Sp.
Proof.
  intros HSV Hv Hkq Hmq HQ.
  set (S := Z.pos Sp) in *. set (V := Z.pos Vp) in *.
  assert (HS : 0 < S) by (unfold S; lia). assert (HV : 0 < V) by (unfold V; lia).
  assert (HS51 : S <= 2 ^ 51) by nia. assert (HV51 : V <= 2 ^ 51) by nia.
  assert (HdS : 1 <= Z.pos (digits2_pos Sp) <= 52).
  { split; [lia|]. apply digits_le; [lia|]. fold S. lia. }
  assert (HdV : 1 <= Z.pos (digits2_pos Vp) <= 52).
  { split; [lia|]. apply digits_le; [lia|]. fold V. lia. }
  set (sq := div_shift Vp Sp) in *.
  assert (Hsq : 2 <= sq <= 104) by (unfold sq, div_shift; lia).
  unfold party_entry. cbn [PyFloat.ltb PyFloat.zero SFltb SFcompare].
  destruct v as [|vp|vp]; [| |lia].
  - (* no vote *)
    exists 0, (S754_zero false). split; [reflexivity|]. lia.
  - assert (Hvlt : Z.pos vp < 2 ^ 53) by lia.
    destruct (of_int_spec vp Hvlt) as (mv & Hof & Hmv & Hdmv).
    set (dv := Z.pos (digits2_pos vp)) in *.
    assert (Hdv : 1 <= dv <= 53).
    { split; [unfold dv; lia|]. apply digits_le; [lia|exact Hvlt]. }
    assert (Hdmq : Z.pos (digits2_pos mq) = 53) by (apply digits_unique; lia).
    assert (Hshift : div_shift mv mq = 53) by (unfold div_shift; lia).
    destruct (SFdiv_spec mv mq (dv - 53) (- sq + kq)) as (mx & kx & Hdiv & Hkx & Hmx & HX).
    { lia. }
    { lia. }
    rewrite Hshift in Hdiv, HX.
    unfold int_div_float. rewrite Hof. cbn [bind is_zero]. rewrite Hdiv.
    set (al := sq + kx). set (be := (53 - dv) + 53 + kq).
    rewrite (to_int_quotient mx _ al be) by (unfold al, be; lia).
    cbn [bind].
    set (N := Z.pos mx * 2 ^ al). set (W := 2 ^ be).
    assert (HW : W = 2 ^ kq * (2 ^ 53 * 2 ^ (53 - dv))).
    { unfold W, be. rewrite <- !Z.pow_add_r by lia. f_equal. lia. }
    assert (HN : N = Z.pos mx * 2 ^ kx * 2 ^ sq).
    { unfold N, al. rewrite Z.pow_add_r by lia. ring. }
    assert (PKq : 1 <= 2 ^ kq) by (pose proof (Z.pow_pos_nonneg 2 kq ltac:(lia) ltac:(lia)); lia).
    assert (PKx : 1 <= 2 ^ kx) by (pose proof (Z.pow_pos_nonneg 2 kx ltac:(lia) ltac:(lia)); lia).
    assert (PTv : 1 <= 2 ^ (53 - dv))
      by (pose proof (Z.pow_pos_nonneg 2 (53 - dv) ltac:(lia) ltac:(lia)); lia).
    assert (PP : 0 < 2 ^ sq) by (apply Z.pow_pos_nonneg; lia).
    assert (Herr : Z.abs (V * N - Z.pos vp * S * W) < W).
    { rewrite HW, HN.
      replace (Z.pos mx * 2 ^ kx * 2 ^ sq) with (Z.pos mx * 2 ^ kx * 2 ^ sq) by reflexivity.
      apply (scaled_error S V (Z.pos vp) (Z.pos mq) (2 ^ kq) (Z.pos mx) (2 ^ kx)
               (Z.pos mv) (2 ^ (53 - dv)) (2 ^ sq)); try lia.
      nia. }
    assert (HWpos : 0 < W) by (unfold W; apply Z.pow_pos_nonneg; lia).
    assert (HNnn : 0 <= N) by (unfold N; pose proof (Z.pow_pos_nonneg 2 al ltac:(lia)
                                 ltac:(unfold al; lia)); nia).
    pose proof (floor_within V (Z.pos vp * S) N W HV HWpos HNnn Herr) as Hfl.
    set (seats := N / W) in *.
    assert (Hseats : 0 <= seats < 2 ^ 53).
    { split; [unfold seats; apply Z.div_pos; lia|]. nia. }
    destruct (sub_int_total (S754_finite false mx (dv - 53 - (- sq + kq) - 53 + kx)) seats Hseats)
      as (r & Hr).
    rewrite Hr. cbn [bind]. exists seats, r. split; [reflexivity|exact Hfl].
Qed.

End PartyFacts.

Module TallyFacts.
Import Tally.

Lemma sum_values_from (d : dict Z) : forall a,
  fold_left (fun acc kv => acc + snd kv) d a = a + sum_values d.
Proof.
  unfold sum_values. induction d as [|x d IH]; intros a; cbn [fold_left]; [lia|].
  rewrite IH, (IH (0 + snd x)). lia.
Qed.

Lemma sum_values_cons x (d : dict Z) : sum_values (x :: d) = snd x + sum_values d.
Proof. unfold sum_values at 1. cbn [fold_left]. rewrite sum_values_from. lia. Qed.

Lemma increment_keys k d : map fst (increment k d) = map fst d.
Proof.
  induction d as [|[k' v] d IH]; cbn [increment map fst]; [reflexivity|].
  destruct (String.eqb k' k); cbn [map fst]; [reflexivity|]. rewrite IH. reflexivity.
Qed.

Lemma increment_sum k d :
  In k (map fst d) -> sum_values (increment k d) = sum_values d + 1.
Proof.
  induction d as [|[k' v] d IH]; cbn [increment map fst In]; intros H; [destruct H|].
  destruct (String.eqb_spec k' k) as [->|Hne].
  - rewrite !sum_values_cons. cbn [snd]. lia.
  - destruct H as [H|H]; [congruence|].
    rewrite !sum_values_cons, IH by exact H. cbn [snd]. lia.
Qed.

Lemma increments_sum {A : Type} (ks : list (string * A)) : forall d,
  incl (map fst ks) (map fst d) ->
  let d' := fold_left (fun alloc kv => increment (fst kv) alloc) ks d in
  map fst d' = map fst d /\ sum_values d' = sum_values d + Z.of_nat (List.length ks).
Proof.
  induction ks as [|x ks IH]; intros d Hincl; cbn [fold_left List.length].
  - split; [reflexivity|lia].
  - assert (Hx : In (fst x) (map fst d)) by (apply Hincl; left; reflexivity).
    destruct (IH (increment (fst x) d)) as (Hk & Hs).
    + rewrite increment_keys. intros y Hy. apply Hincl. right. exact Hy.
    + cbn zeta. rewrite Hk, Hs, increment_keys, increment_sum by exact Hx. split; [reflexivity|lia].
Qed.

Lemma insert_desc_perm x l : Permutation (insert_desc x l) (x :: l).
Proof.
  induction l as [|y l IH]; cbn [insert_desc]; [reflexivity|].
  destruct (PyFloat.ltb (snd y) (snd x)); [reflexivity|].
  rewrite IH. apply perm_swap.
Qed.

Lemma sorted_desc_fold l : forall acc,
  Permutation (fold_left (fun acc x => insert_desc x acc) l acc) (l ++ acc).
Proof.
  induction l as [|x l IH]; intros acc; cbn [fold_left app]; [reflexivity|].
  rewrite IH, insert_desc_perm. symmetry. apply Permutation_middle.
Qed.

Lemma sorted_desc_perm l : Permutation (sorted_desc l) l.
Proof. unfold sorted_desc. rewrite sorted_desc_fold, app_nil_r. reflexivity. Qed.

Lemma first_allocation_keys quota pv : forall first remainders,
  first_allocation quota pv = Ok (first, remainders) ->
  map fst first = map fst pv /\ map fst remainders = map fst pv.
Proof.
  induction pv as [|[k v] pv IH]; cbn [first_allocation]; intros first remainders H.
  - injection H as <- <-. split; reflexivity.
  - destruct (party_entry quota v) as [entry|e]; cbn [bind] in H; [|discriminate].
    destruct (first_allocation quota pv) as [[f r]|e]; cbn [bind] in H; [|discriminate].
    injection H as <- <-. destruct (IH f r eq_refl) as (H1 & H2).
    cbn [map fst snd]. rewrite H1, H2. split; reflexivity.
Qed.

Lemma slice_to_length {A : Type} (n : Z) (l : list A) :
  Z.of_nat (List.length (slice_to n l)) = n <-> 0 <= n <= Z.of_nat (List.length l).
Proof.
  unfold slice_to. destruct (Z.ltb_spec n 0); rewrite length_firstn; lia.
Qed.

Lemma in_firstn {A : Type} (k : nat) (l : list A) x : In x (firstn k l) -> In x l.
Proof.
  intros H. rewrite <- (firstn_skipn k l). apply in_or_app. left. exact H.
Qed.

Lemma slice_to_incl {A : Type} (n : Z) (l : list A) : incl (slice_to n l) l.
Proof.
  unfold slice_to. intros x Hx.
  destruct (n <? 0); eapply in_firstn; exact Hx.
Qed.

(** What [_allocate_pr_seats] returns when some vote was cast. *)
Lemma allocate_pr_seats_inv pv total_seats allocation :
  pv <> [] -> sum_values pv <> 0 ->
  _allocate_pr_seats pv total_seats = Ok allocation ->
  exists quota first remainders,
    PyFloat.int_truediv (sum_values pv) total_seats = Ok quota /\
    first_allocation quota pv = Ok (first, remainders) /\
    allocation = fold_left (fun alloc kv => increment (fst kv) alloc)
                   (slice_to (total_seats - sum_values first) (sorted_desc remainders)) first.
Proof.
  intros Hne Hv H. unfold _allocate_pr_seats in H.
  destruct pv as [|x pv]; [congruence|].
  destruct (Z.eqb_spec (sum_values (x :: pv)) 0) as [Hz|_]; [congruence|].
  destruct (PyFloat.int_truediv _ _) as [quota|e]; cbn [bind] in H; [|discriminate].
  destruct (first_allocation quota (x :: pv)) as [[first remainders]|e] eqn:Hf;
    cbn [bind] in H; [|discriminate].
  injection H as <-. exists quota, first, remainders. repeat split. exact Hf.
Qed.

(** The seats sum to [total_seats] exactly when the number left over by
    the first allocation is between 0 and the number of parties. *)
Lemma allocation_sum pv total_seats quota first remainders :
  first_allocation quota pv = Ok (first, remainders) ->
  let allocation :=
    fold_left (fun alloc kv => increment (fst kv) alloc)
      (slice_to (total_seats - sum_values first) (sorted_desc remainders)) first in
  map fst allocation = map fst pv /\
  (sum_values allocation = total_seats <->
   0 <= total_seats - sum_values first <= Z.of_nat (List.length pv)).
Proof.
  intros Hf allocation. unfold allocation.
  destruct (first_allocation_keys _ _ _ _ Hf) as (Hk1 & Hk2).
  set (picked := slice_to (total_seats - sum_values first) (sorted_desc remainders)).
  assert (Hincl : incl (map fst picked) (map fst first)).
  { rewrite Hk1, <- Hk2. intros k Hk. apply in_map_iff in Hk.
    destruct Hk as (kv & <- & Hin). apply in_map.
    apply (Permutation_in _ (sorted_desc_perm remainders)). apply (slice_to_incl _ _ _ Hin). }
  destruct (increments_sum picked first Hincl) as (Hkeys & Hsum). cbn zeta in Hkeys, Hsum.
  split; [rewrite Hkeys; exact Hk1|]. rewrite Hsum.
  assert (Hlen : List.length (sorted_desc remainders) = List.length pv).
  { rewrite (Permutation_length (sorted_desc_perm remainders)).
    rewrite <- (length_map fst remainders), Hk2, length_map. reflexivity. }
  rewrite <- Hlen. rewrite <- slice_to_length. fold picked. lia.
Qed.

Lemma votes_le_total (pv : dict Z) :
  (forall kv, In kv pv -> 0 <= snd kv) ->
  0 <= sum_values pv /\ forall kv, In kv pv -> snd kv <= sum_values pv.
Proof.
  induction pv as [|x pv IH]; intros Hnn.
  - split; [reflexivity|]. intros kv [].
  - destruct IH as (H0 & Hle); [intros kv Hkv; apply Hnn; right; exact Hkv|].
    pose proof (Hnn x (or_introl eq_refl)) as Hx.
    rewrite sum_values_cons. split; [lia|].
    intros kv [<-|Hkv]; [lia|]. specialize (Hle kv Hkv). lia.
Qed.

(** With the quota rounded from [V / S], the first allocation succeeds and
    leaves between 0 and one seat per party. *)
Lemma first_allocation_bounds (Vp Sp mq : positive) (kq : Z) (pv : dict Z) :
  Z.pos Sp * Z.pos Vp <= 2 ^ 51 ->
  0 <= kq <= 2 -> 2 ^ 52 <= Z.pos mq < 2 ^ 53 ->
  2 * Z.abs (Z.pos mq * 2 ^ kq * Z.pos Sp - Z.pos Vp * 2 ^ FloatSpec.div_shift Vp Sp)
  <= 2 ^ kq * Z.pos Sp ->
  (forall kv, In kv pv -> 0 <= snd kv <= Z.pos Vp) ->
  exists first remainders,
    first_allocation (SpecFloat.S754_finite false mq (- FloatSpec.div_shift Vp Sp + kq)) pv
    = Ok (first, remainders) /\
    sum_values pv * Z.pos Sp - Z.of_nat (List.length pv) * Z.pos Vp
    <= sum_values first * Z.pos Vp <= sum_values pv * Z.pos Sp.
Proof.
  intros HSV Hkq Hmq HQ. induction pv as [|[k v] pv IH]; intros Hv.
  - exists [], []. split; [reflexivity|]. cbn. lia.
  - destruct IH as (first & rem & Hf & Hb); [intros kv Hkv; apply Hv; right; exact Hkv|].
    destruct (PartyFacts.party_entry_bounds Vp Sp v mq kq HSV
                (Hv (k, v) (or_introl eq_refl)) Hkq Hmq HQ) as (seats & r & He & Hs).
    cbn [first_allocation]. rewrite He. cbn [bind]. rewrite Hf. cbn [bind fst snd].
    eexists _, _. split; [reflexivity|].
    rewrite !sum_values_cons. cbn [snd List.length]. rewrite Nat2Z.inj_succ. lia.
Qed.

End TallyFacts.

Module TallyThm.
Import Tally TallyFacts.

(** C7 (amended): on a map with distinct party ids and at least one party,
    when no vote was cast every party receives 0 seats; and when the vote
    counts are non-negative with a positive total, [total_seats >= 1] and
    [total_seats * total_votes <= 2 ^ 51], the call returns a map over the
    same parties whose seat counts sum exactly to [total_seats]. *)
Theorem pr_allocation_total (party_votes : dict Z) (total_seats : Z) :
  NoDup (map fst party_votes) -> party_votes <> [] ->
  (sum_values party_votes = 0 ->
   exists allocation,
     _allocate_pr_seats party_votes total_seats = Ok allocation /\
     map fst allocation = map fst party_votes /\
     Forall (fun kv => snd kv = 0) allocation) /\
  ((forall kv, In kv party_votes -> 0 <= snd kv) ->
   0 < sum_values party_votes -> 1 <= total_seats ->
   total_seats * sum_values party_votes <= 2 ^ 51 ->
   exists allocation,
     _allocate_pr_seats party_votes total_seats = Ok allocation /\
     map fst allocation = map fst party_votes /\
     sum_values allocation = total_seats).
Proof.
  intros _ Hne. split.
  - intros Hz. exists (map (fun kv => (fst kv, 0)) party_votes).
    unfold _allocate_pr_seats. destruct party_votes as [|x pv]; [congruence|].
    rewrite Hz. cbn [Z.eqb]. split; [reflexivity|]. split.
    + rewrite map_map. reflexivity.
    + apply Forall_forall. intros kv Hkv. apply in_map_iff in Hkv.
      destruct Hkv as (y & <- & _). reflexivity.
  - intros Hnn HV HS Hbound.
    destruct (votes_le_total party_votes Hnn) as (_ & Hle).
    destruct (sum_values party_votes) as [|Vp|Vp] eqn:EV; [lia| |lia].
    destruct total_seats as [|Sp|Sp]; [lia| |lia].
    assert (HdS : Z.pos (SpecFloat.digits2_pos Sp) <= 52)
      by (apply QuotaFacts.digits_le; [lia|nia]).
    assert (HdV : Z.pos (SpecFloat.digits2_pos Vp) <= 52)
      by (apply QuotaFacts.digits_le; [lia|nia]).
    destruct (DivFacts.int_truediv_spec Vp Sp) as (mq & kq & Hq & Hkq & Hmq & HQ).
    { unfold FloatSpec.div_shift. lia. }
    destruct (first_allocation_bounds Vp Sp mq kq party_votes Hbound Hkq Hmq HQ)
      as (first & rem & Hf & Hb).
    { intros kv Hkv. split; [apply Hnn; exact Hkv|apply Hle; exact Hkv]. }
    destruct (allocation_sum party_votes (Z.pos Sp) _ first rem Hf) as (Hkeys & Hiff).
    eexists. split; [|split; [exact Hkeys|]].
    + unfold _allocate_pr_seats. destruct party_votes as [|x pv]; [congruence|].
      rewrite EV. change (Z.pos Vp =? 0) with false. cbn match.
      rewrite Hq. cbn [bind]. rewrite Hf. cbn [bind]. reflexivity.
    + apply Hiff. rewrite EV in Hb. split.
      * assert (sum_values first <= Z.pos Sp) by nia. lia.
      * assert (Z.pos Sp - Z.of_nat (List.length party_votes) <= sum_values first) by nia.
        lia.
Qed.

End TallyThm.

Module TallyExamples.
Import Tally.

(** Scenario 6 of the specification. *)
Example hare_quota_scenario :
  _allocate_pr_seats [("A", 42); ("B", 31); ("C", 15); ("D", 12)] 10
  = Ok [("A", 4); ("B", 3); ("C", 2); ("D", 1)].
Proof. vm_compute. reflexivity. Qed.

Example big1 :
  _allocate_pr_seats [("A", 10); ("B", 21)] 8463394636855703
  = Ok [("A", 2730127302211518); ("B", 5733267334644187)].
Proof. vm_compute. reflexivity. Qed.

Example big2 :
  _allocate_pr_seats [("A", 1); ("B", 2); ("C", 4)] 100000000000000000
  = Ok [("A", 14285714285714287); ("B", 28571428571428572);  ("C", 57142857142857144)].
Proof. vm_compute. reflexivity. Qed.

Example big3 :
  _allocate_pr_seats [("A", 3); ("B", 7)] 9007199254740993
  = Ok [("A", 2702159776422299); ("B", 6305039478318696)].
Proof. vm_compute. reflexivity. Qed.

Example big4 :
  _allocate_pr_seats [("A", 1); ("B", 2)] 1152921504606846976
  = Ok [("A", 384307168202282305); ("B", 768614336404564609)].
Proof. vm_compute. reflexivity. Qed.
End TallyExamples.

Module StoreFacts.

Ltac break_let :=
  match goal with
  | |- context [let '(_, _) := ?x in _] => destruct x eqn:?
  | H : context [let '(_, _) := ?x in _] |- _ => destruct x eqn:?
  end.

Ltac break_if :=
  match goal with
  | |- context [if ?x then _ else _] => destruct x eqn:?
  | H : context [if ?x then _ else _] |- _ => destruct x eqn:?
  end.

Ltac break_match :=
  match goal with
  | |- context [match ?x with _ => _ end] => destruct x eqn:?
  | H : context [match ?x with _ => _ end] |- _ => destruct x eqn:?
  end.

Ltac inv H := inversion H; subst; clear H.

(** *** Frame properties of the token engine *)

Lemma mark_ballot_used_frame E tok bt w ok tok' w' :
  VotingToken.mark_ballot_used E tok bt w = (ok, tok', w') ->
  voters (db w') = voters (db w) /\ votes (db w') = votes (db w) /\
  elections (db w') = elections (db w) /\ audit_logs (db w') = audit_logs (db w).
Proof.
  unfold VotingToken.mark_ballot_used. intros H.
  repeat (break_if || break_let); inv H; cbn; auto.
  all: repeat match goal with H : (_, _) = (_, _) |- _ => inv H end; cbn; auto.
Qed.

Lemma use_token_for_ballot_frame E tid bt w r w' :
  TokenService.use_token_for_ballot E tid bt w = (r, w') ->
  voters (db w') = voters (db w) /\ votes (db w') = votes (db w) /\
  elections (db w') = elections (db w) /\ audit_logs (db w') = audit_logs (db w).
Proof.
  unfold TokenService.use_token_for_ballot. intros H.
  repeat (break_if || break_match); inv H; auto.
  all: match goal with
       | H : VotingToken.mark_ballot_used _ _ _ _ = _ |- _ =>
           apply mark_ballot_used_frame in H; exact H
       end.
Qed.

Lemma generate_receipt_db E eid ts w r w' :
  Vote.generate_receipt E eid ts w = (r, w') -> db w' = db w.
Proof. unfold Vote.generate_receipt. intros H. inv H. reflexivity. Qed.

Lemma receipt_or_new_db E eid ts rid rh tstr w r w' :
  Vote.receipt_or_new E eid ts rid rh tstr w = (r, w') -> db w' = db w.
Proof.
  unfold Vote.receipt_or_new, Vote.generate_receipt. intros H.
  repeat (break_if || break_match || break_let); inv H; cbn;
    repeat match goal with H : (_, _) = (_, _) |- _ => inv H end; reflexivity.
Qed.

Lemma save_new_spec E eid bt enc cons tok ts rid rh tstr w v w' :
  Vote.save_new E eid bt enc cons tok ts rid rh tstr w = (v, w') ->
  votes (db w') = (votes (db w) ++ [v])%list /\
  voters (db w') = voters (db w) /\
  VoteData.ballot_type v = bt /\ VoteData.election_id v = eid /\
  VoteData.receipt_id v = rid /\ VoteData.receipt_hash v = rh /\
  VoteData.timestamp_str v = tstr /\ VoteData.timestamp v = ts /\
  VoteData.encrypted_vote v = enc.
Proof.
  unfold Vote.save_new, VotingToken.generate_vote_token. intros H.
  repeat (break_if || break_let); inv H;
    repeat match goal with H : (_, _) = (_, _) |- _ => inv H end; cbn; repeat split.
Qed.

End StoreFacts.

Module CastFacts.
Import StoreFacts.

Lemma cast_fptp_vote_spec E eid cid cons pk tok rid rh ts tstr w r w' :
  Vote.cast_fptp_vote E eid cid cons pk tok rid rh ts tstr w = (r, w') ->
  voters (db w') = voters (db w) /\
  match r with
  | Ok v => votes (db w') = (votes (db w) ++ [v])%list /\ VoteData.ballot_type v = "fptp"
  | Raise _ => votes (db w') = votes (db w)
  end.
Proof.
  unfold Vote.cast_fptp_vote. intros H.
  destruct (encrypt_vote E _ _ _); [|inv H; cbn; auto].
  destruct (Vote.receipt_or_new _ _ _ _ _ _ _) as [[[[ts' rid'] rh'] tstr'] w1] eqn:Hr.
  destruct (Vote.save_new _ _ _ _ _ _ _ _ _ _ _) as [v w2] eqn:Hs.
  inv H. apply receipt_or_new_db in Hr. apply save_new_spec in Hs.
  destruct Hs as (Hv & Hvo & Hbt & _). rewrite Hv, Hvo, Hr. cbn. auto.
Qed.

Lemma cast_pr_vote_spec E eid pid pk tok rid rh ts tstr w r w' :
  Vote.cast_pr_vote E eid pid pk tok rid rh ts tstr w = (r, w') ->
  voters (db w') = voters (db w) /\
  match r with
  | Ok v => votes (db w') = (votes (db w) ++ [v])%list /\ VoteData.ballot_type v = "pr"
  | Raise _ => votes (db w') = votes (db w)
  end.
Proof.
  unfold Vote.cast_pr_vote. intros H.
  destruct (encrypt_vote E _ _ _); [|inv H; cbn; auto].
  destruct (Vote.receipt_or_new _ _ _ _ _ _ _) as [[[[ts' rid'] rh'] tstr'] w1] eqn:Hr.
  destruct (Vote.save_new _ _ _ _ _ _ _ _ _ _ _) as [v w2] eqn:Hs.
  inv H. apply receipt_or_new_db in Hr. apply save_new_spec in Hs.
  destruct Hs as (Hv & Hvo & Hbt & _). rewrite Hv, Hvo, Hr. cbn. auto.
Qed.

Lemma mark_voted_spec voter eid w voter' w' :
  Voter.mark_voted voter eid w = (voter', w') ->
  votes (db w') = votes (db w) /\
  In eid (VoterData.elections_voted voter').
Proof.
  unfold Voter.mark_voted. intros H. destruct (in_list eid _) eqn:Hin; inv H.
  - split; [reflexivity|]. unfold in_list in Hin. apply existsb_exists in Hin.
    destruct Hin as (x & Hx & Heq). apply String.eqb_eq in Heq. subst. exact Hx.
  - split; [reflexivity|]. cbn. apply in_or_app. right. left. reflexivity.
Qed.

End CastFacts.

Module PartialCast.
Import StoreFacts CastFacts.

Lemma validate_token_msg E tok eid w ok msg t :
  TokenService.validate_token E tok eid None w = (ok, msg, t) ->
  ok = false -> forall m, msg <> "PR ballot failed: " ++ m.
Proof.
  unfold TokenService.validate_token. intros H Hok m.
  repeat (break_if || break_match); inv H; try discriminate.
Qed.

Lemma validate_token_constituency_msg tid c w ok msg :
  TokenService.validate_token_constituency tid c w = (ok, msg) ->
  ok = false -> forall m, msg <> "PR ballot failed: " ++ m.
Proof.
  unfold TokenService.validate_token_constituency. intros H Hok m.
  repeat (break_if || break_match); inv H; try discriminate.
Qed.

(** C4 (amended): when the PR consumption fails after the FPTP ballot was
    stored, the call reports the failure and leaves the elector unmarked,
    with the FPTP ballot stored; no failing call marks the elector; a
    successful call stores both ballots and marks the elector. *)
Theorem partial_cast_policy E voter eid cid pid tok w ok msg rcpt voter' w' :
  VoteService.cast_dual_ballot_with_token E voter eid cid pid tok w
  = ((ok, msg, rcpt), voter', w') ->
  (forall m, msg = "PR ballot failed: " ++ m ->
     ok = false /\ voter' = voter /\ voters (db w') = voters (db w) /\
     exists v, votes (db w') = (votes (db w) ++ [v])%list /\
               VoteData.ballot_type v = "fptp") /\
  (ok = false -> voter' = voter /\ voters (db w') = voters (db w)) /\
  (ok = true ->
     In eid (VoterData.elections_voted voter') /\
     exists v1 v2, votes (db w') = (votes (db w) ++ [v1; v2])%list /\
                   VoteData.ballot_type v1 = "fptp" /\ VoteData.ballot_type v2 = "pr").
Proof.
  unfold VoteService.cast_dual_ballot_with_token. intros H.
  destruct (Election.find_by_election_id w eid) as [election|];
    [|inv H; repeat split; try discriminate; auto].
  unfold Election.is_ongoing, Election.has_ended in H.
  destruct (_ && _ && _) eqn:Hongoing; cbn [negb] in H.
  2:{ destruct (_ <? _); inv H; repeat split; try discriminate; auto. }
  destruct (Voter.has_voted_in voter eid); [inv H; repeat split; try discriminate; auto|].
  destruct (TokenService.validate_token _ _ _ _ _) as [[valid vmsg] vt] eqn:Hval.
  destruct valid; cbn [negb] in H.
  2:{ inv H. repeat split; try discriminate; auto.
      all: exfalso; eapply validate_token_msg; eauto. }
  destruct (TokenService.validate_token_constituency _ _ _) as [cvalid cmsg] eqn:Hcon.
  destruct cvalid; cbn [negb] in H.
  2:{ inv H. repeat split; try discriminate; auto.
      all: exfalso; eapply validate_token_constituency_msg; eauto. }
  destruct (Election.get_candidate election cid) as [candidate|];
    [|inv H; repeat split; try discriminate; auto].
  destruct (negb (opt_string_eqb _ _)); [inv H; repeat split; try discriminate; auto|].
  destruct (Election.get_party election pid) as [party|];
    [|inv H; repeat split; try discriminate; auto].
  destruct (negb (truthy _)); [inv H; repeat split; try discriminate; auto|].
  destruct (Vote.generate_receipt _ _ _ _) as [[[rid rhash] tstr] w2] eqn:Hrec.
  apply generate_receipt_db in Hrec. cbn [db bump] in Hrec.
  destruct (TokenService.use_token_for_ballot E _ "fptp" w2) as [[s1 m1] w3] eqn:Hu1.
  apply use_token_for_ballot_frame in Hu1. destruct Hu1 as (Hv3 & Hvo3 & _).
  destruct s1; cbn [negb] in H.
  2:{ inv H. rewrite Hv3, Hrec. repeat split; try discriminate; auto. }
  destruct (Vote.cast_fptp_vote _ _ _ _ _ _ _ _ _ _ _) as [r1 w4] eqn:Hc1.
  apply cast_fptp_vote_spec in Hc1. destruct Hc1 as (Hv4 & Hvo4).
  destruct r1 as [v1|e1].
  2:{ inv H. rewrite Hv4, Hv3, Hrec. repeat split; try discriminate; auto. }
  destruct Hvo4 as (Hvo4 & Hbt1).
  destruct (TokenService.use_token_for_ballot E _ "pr" w4) as [[s2 m2] w5] eqn:Hu2.
  apply use_token_for_ballot_frame in Hu2. destruct Hu2 as (Hv5 & Hvo5 & _).
  destruct s2; cbn [negb] in H.
  2:{ inv H. rewrite Hv5, Hv4, Hv3, Hvo5, Hvo4, Hvo3, Hrec.
      repeat split; try discriminate; auto. exists v1. auto. }
  destruct (Vote.cast_pr_vote _ _ _ _ _ _ _ _ _ _) as [r2 w6] eqn:Hc2.
  apply cast_pr_vote_spec in Hc2. destruct Hc2 as (Hv6 & Hvo6).
  destruct r2 as [v2|e2].
  2:{ inv H. rewrite Hv6, Hv5, Hv4, Hv3, Hrec. repeat split; try discriminate; auto. }
  destruct Hvo6 as (Hvo6 & Hbt2).
  destruct (Voter.mark_voted voter eid w6) as [voter1 w7] eqn:Hm.
  apply mark_voted_spec in Hm. destruct Hm as (Hvo7 & Hin).
  inv H. repeat split; try discriminate; auto.
  exists v1, v2. rewrite Hvo7, Hvo6, Hvo5, Hvo4, Hvo3, Hrec, <- app_assoc. auto.
Qed.

End PartialCast.

Module InactiveElection.
Import StoreFacts CastFacts.
Import VotingProps.

(** C10: for an election whose [is_active] flag is false, whatever its date
    window, [issue_token] and [cast_dual_ballot_with_token] both fail, leave
    the store unchanged, and report that the election has ended or has not
    started yet. *)
Theorem inactive_election_rejects E voter eid cid pid tok w election :
  Election.find_by_election_id w eid = Some election ->
  ElectionData.is_active election = false ->
  exists w',
    db w' = db w /\
    TokenService.issue_token E voter eid w
    = Some ((false, not_ongoing_message E election w, None), voter, w') /\
    VoteService.cast_dual_ballot_with_token E voter eid cid pid tok w
    = ((false, not_ongoing_message E election w, None), voter, w') /\
    (not_ongoing_message E election w = "This election has ended" \/
     not_ongoing_message E election w = "This election has not started yet").
Proof.
  intros Hfind Hinactive. exists (bump (bump w)).
  unfold TokenService.issue_token, VoteService.cast_dual_ballot_with_token,
    not_ongoing_message, Election.is_ongoing, Election.has_ended.
  rewrite Hfind, Hinactive. cbn [andb negb tick bump].
  destruct (_ <? _); auto.
Qed.

End InactiveElection.

Module ElectorSets.
Import StoreFacts CastFacts.
Import VotingProps.

Lemma in_list_In s l : in_list s l = true <-> In s l.
Proof.
  unfold in_list. rewrite existsb_exists. split.
  - intros (x & Hx & Heq). apply String.eqb_eq in Heq. subst. exact Hx.
  - intros H. exists s. split; [exact H|apply String.eqb_refl].
Qed.

Lemma update_one_Forall {A : Type} (P : A -> Prop) flt upd (l : list A) :
  Forall P l -> (forall a, In a l -> flt a = true -> P a -> P (upd a)) ->
  Forall P (fst (update_one flt upd l)).
Proof.
  induction l as [|a l IH]; intros Hl Hupd; cbn [update_one]; [constructor|].
  inversion Hl; subst. destruct (flt a) eqn:Hf; cbn [fst].
  - constructor; [apply Hupd; auto; left; reflexivity|assumption].
  - destruct (update_one flt upd l) as [l'' m] eqn:Hu. cbn [fst] in *.
    constructor; [assumption|]. apply IH; [assumption|].
    intros b Hb. apply Hupd. right. exact Hb.
Qed.

Lemma mark_token_issued_inv voter eid w voter' w' :
  Voter.mark_token_issued voter eid w = (voter', w') ->
  db_inv (db w) -> voted_subset_issued voter ->
  db_inv (db w') /\ voted_subset_issued voter'.
Proof.
  unfold Voter.mark_token_issued. intros H Hdb Hv.
  destruct (in_list eid _); inv H; [auto|]. split.
  - unfold db_inv. cbn. apply update_one_Forall; [exact Hdb|].
    intros a _ _ Ha. unfold Voter.add_to_set_token_issued_for.
    destruct (in_list eid _); [exact Ha|].
    intros e He. cbn in *. apply in_or_app. left. apply Ha. exact He.
  - intros e He. cbn in *. apply in_or_app. left. apply Hv. exact He.
Qed.

Lemma mark_voted_inv voter eid w voter' w' :
  Voter.mark_voted voter eid w = (voter', w') ->
  db_inv (db w) -> voted_subset_issued voter ->
  Voter.has_token_for voter eid = true -> token_recorded w voter eid ->
  db_inv (db w') /\ voted_subset_issued voter'.
Proof.
  unfold Voter.mark_voted. intros H Hdb Hv Htok Hrec.
  destruct (in_list eid _); inv H; [auto|]. split.
  - unfold db_inv. cbn. apply update_one_Forall; [exact Hdb|].
    intros a Hin Hid Ha e He. cbn in *. apply in_app_or in He.
    destruct He as [He|[<-|[]]]; [apply Ha; exact He|].
    apply Hrec; assumption.
  - intros e He. cbn in *. apply in_app_or in He.
    destruct He as [He|[<-|[]]]; [apply Hv; exact He|].
    apply in_list_In. exact Htok.
Qed.

End ElectorSets.

Module ReceiptFacts.
Import StoreFacts CastFacts.
Import VotingProps.

Lemma carries_receipt_consistent E eid rid v :
  carries_receipt E eid rid v -> receipt_consistent E v.
Proof.
  intros (He & Hr & Ht & Hh). unfold receipt_consistent, Vote.hash_input.
  rewrite Hh, Hr, Ht, He. cbn [Vote.str_or_none].
  destruct (truthy _); reflexivity.
Qed.

Lemma receipt_or_new_given E eid ts rid rh tstr w :
  Vote.receipt_or_new E eid (Some ts) (Some ("RCP-" ++ rid)) rh tstr w
  = ((ts, Some ("RCP-" ++ rid), rh, tstr), w).
Proof. reflexivity. Qed.

Lemma receipt_or_new_spec E eid tso rido rh tstr w ts' rid' rh' tstr' w' :
  Vote.receipt_or_new E eid tso rido rh tstr w = ((ts', rid', rh', tstr'), w') ->
  (truthy rido = true /\ rid' = rido /\ rh' = rh /\ tstr' = tstr /\
   (forall ts, tso = Some ts -> ts' = ts)) \/
  (truthy rido = false /\ exists rid,
      rid' = Some rid /\
      tstr' = Some (strftime E "%Y-%m-%d %H:%M:%S" ts') /\
      rh' = Some (sha256_hexdigest E
                    (rid ++ ":" ++ eid ++ ":" ++ strftime E "%Y-%m-%d %H:%M:%S" ts'))).
Proof.
  unfold Vote.receipt_or_new, Vote.generate_receipt. intros H.
  destruct tso as [ts|]; destruct (truthy rido) eqn:Ht; inv H;
    try (left; repeat split; auto; intros ? Heq; inv Heq; reflexivity);
    right; (split; [reflexivity|]); eexists; repeat split.
Qed.

Lemma cast_fptp_vote_fields E eid cid cons pk tok rido rh tso tstr w v w' :
  Vote.cast_fptp_vote E eid cid cons pk tok rido rh tso tstr w = (Ok v, w') ->
  VoteData.election_id v = eid /\
  (truthy rido = true ->
     VoteData.receipt_id v = rido /\ VoteData.receipt_hash v = rh /\
     VoteData.timestamp_str v = tstr /\
     (forall ts, tso = Some ts -> VoteData.timestamp v = ts)) /\
  (truthy rido = false -> exists rid, carries_receipt E eid rid v).
Proof.
  unfold Vote.cast_fptp_vote. intros H.
  destruct (encrypt_vote E _ _ _); [|inv H].
  destruct (Vote.receipt_or_new _ _ _ _ _ _ _) as [[[[ts' rid'] rh'] tstr'] w1] eqn:Hr.
  destruct (Vote.save_new _ _ _ _ _ _ _ _ _ _ _) as [v0 w2] eqn:Hs.
  inv H. apply save_new_spec in Hs.
  destruct Hs as (_ & _ & _ & He & Hrid & Hrh & Htstr & Hts & _).
  apply receipt_or_new_spec in Hr.
  split; [exact He|]. split; intros Ht.
  - destruct Hr as [(_ & -> & -> & -> & Hts')|(Hf & _)]; [|congruence].
    repeat split; auto. intros ts Heq. rewrite Hts. auto.
  - destruct Hr as [(Hf & _)|(_ & rid & -> & -> & ->)]; [congruence|].
    exists rid. unfold carries_receipt. rewrite He, Hrid, Hrh, Htstr, Hts. auto.
Qed.

Lemma cast_pr_vote_fields E eid pid pk tok rido rh tso tstr w v w' :
  Vote.cast_pr_vote E eid pid pk tok rido rh tso tstr w = (Ok v, w') ->
  VoteData.election_id v = eid /\
  (truthy rido = true ->
     VoteData.receipt_id v = rido /\ VoteData.receipt_hash v = rh /\
     VoteData.timestamp_str v = tstr /\
     (forall ts, tso = Some ts -> VoteData.timestamp v = ts)) /\
  (truthy rido = false -> exists rid, carries_receipt E eid rid v).
Proof.
  unfold Vote.cast_pr_vote. intros H.
  destruct (encrypt_vote E _ _ _); [|inv H].
  destruct (Vote.receipt_or_new _ _ _ _ _ _ _) as [[[[ts' rid'] rh'] tstr'] w1] eqn:Hr.
  destruct (Vote.save_new _ _ _ _ _ _ _ _ _ _) as [v0 w2] eqn:Hs.
  inv H. apply save_new_spec in Hs.
  destruct Hs as (_ & _ & _ & He & Hrid & Hrh & Htstr & Hts & _).
  apply receipt_or_new_spec in Hr.
  split; [exact He|]. split; intros Ht.
  - destruct Hr as [(_ & -> & -> & -> & Hts')|(Hf & _)]; [|congruence].
    repeat split; auto. intros ts Heq. rewrite Hts. auto.
  - destruct Hr as [(Hf & _)|(_ & rid & -> & -> & ->)]; [congruence|].
    exists rid. unfold carries_receipt. rewrite He, Hrid, Hrh, Htstr, Hts. auto.
Qed.

(** What a successful [cast_dual_ballot_with_token] did. *)
Lemma cast_with_token_success E voter eid cid pid tok w msg rcpt voter' w' :
  VoteService.cast_dual_ballot_with_token E voter eid cid pid tok w
  = ((true, msg, rcpt), voter', w') ->
  exists w6 v1 v2 r,
    rcpt = Some r /\
    voters (db w6) = voters (db w) /\
    votes (db w6) = (votes (db w) ++ [v1; v2])%list /\
    VoteData.ballot_type v1 = "fptp" /\ VoteData.ballot_type v2 = "pr" /\
    carries_receipt E eid (VoteService.receipt_id r) v1 /\
    carries_receipt E eid (VoteService.receipt_id r) v2 /\
    Voter.mark_voted voter eid w6 = (voter', w').
Proof.
  unfold VoteService.cast_dual_ballot_with_token. intros H.
  destruct (Election.find_by_election_id w eid) as [election|]; [|inv H].
  unfold Election.is_ongoing, Election.has_ended in H.
  destruct (_ && _ && _) eqn:Hongoing; cbn [negb] in H.
  2:{ destruct (_ <? _); inv H. }
  destruct (Voter.has_voted_in voter eid); [inv H|].
  destruct (TokenService.validate_token _ _ _ _ _) as [[valid vmsg] vt] eqn:Hval.
  destruct valid; cbn [negb] in H; [|inv H].
  destruct (TokenService.validate_token_constituency _ _ _) as [cvalid cmsg] eqn:Hcon.
  destruct cvalid; cbn [negb] in H; [|inv H].
  destruct (Election.get_candidate election cid) as [candidate|]; [|inv H].
  destruct (negb (opt_string_eqb _ _)); [inv H|].
  destruct (Election.get_party election pid) as [party|]; [|inv H].
  destruct (negb (truthy _)); [inv H|].
  unfold Vote.generate_receipt in H. cbn [bump tick db] in H.
  set (ts := utcnow E (S (S (tick w)))) in *.
  set (rid := "RCP-" ++ upper E (token_hex E 6 (S (S (S (tick w)))))) in *.
  destruct (TokenService.use_token_for_ballot E _ "fptp" _) as [[s1 m1] w3] eqn:Hu1.
  apply use_token_for_ballot_frame in Hu1. destruct Hu1 as (Hv3 & Hvo3 & _).
  cbn [db] in Hv3, Hvo3.
  destruct s1; cbn [negb] in H; [|inv H].
  destruct (Vote.cast_fptp_vote _ _ _ _ _ _ _ _ _ _ _) as [r1 w4] eqn:Hc1.
  pose proof (cast_fptp_vote_spec _ _ _ _ _ _ _ _ _ _ _ _ _ Hc1) as (Hv4 & Hvo4).
  destruct r1 as [v1|e1]; [|inv H].
  apply cast_fptp_vote_fields in Hc1. destruct Hc1 as (He1 & Hf1 & _).
  destruct (Hf1 eq_refl) as (Hr1 & Hh1 & Ht1 & Hts1).
  destruct Hvo4 as (Hvo4 & Hbt1).
  destruct (TokenService.use_token_for_ballot E _ "pr" w4) as [[s2 m2] w5] eqn:Hu2.
  apply use_token_for_ballot_frame in Hu2. destruct Hu2 as (Hv5 & Hvo5 & _).
  destruct s2; cbn [negb] in H; [|inv H].
  destruct (Vote.cast_pr_vote _ _ _ _ _ _ _ _ _ _) as [r2 w6] eqn:Hc2.
  pose proof (cast_pr_vote_spec _ _ _ _ _ _ _ _ _ _ _ _ Hc2) as (Hv6 & Hvo6).
  destruct r2 as [v2|e2]; [|inv H].
  apply cast_pr_vote_fields in Hc2. destruct Hc2 as (He2 & Hf2 & _).
  destruct (Hf2 eq_refl) as (Hr2 & Hh2 & Ht2 & Hts2).
  destruct Hvo6 as (Hvo6 & Hbt2).
  destruct (Voter.mark_voted voter eid w6) as [voter1 w7] eqn:Hm.
  inv H. eexists w6, v1, v2, _. split; [reflexivity|]. cbn [VoteService.receipt_id].
  repeat split; auto.
  - rewrite Hv6, Hv5, Hv4, Hv3. reflexivity.
  - rewrite Hvo6, Hvo5, Hvo4, Hvo3, <- app_assoc. reflexivity.
  - rewrite Ht1, (Hts1 _ eq_refl). reflexivity.
  - rewrite Hh1, (Hts1 _ eq_refl). reflexivity.
  - rewrite Ht2, (Hts2 _ eq_refl). reflexivity.
  - rewrite Hh2, (Hts2 _ eq_refl). reflexivity.
Qed.

End ReceiptFacts.

Module ElectorSetsThm.
Import StoreFacts CastFacts ElectorSets ReceiptFacts.
Import VotingProps.

Lemma unique_token_id_db E fuel : forall tid w tid' w',
  VotingToken.unique_token_id E fuel tid w = Some (tid', w') -> db w' = db w.
Proof.
  induction fuel as [|f IH]; intros tid w tid' w' H; cbn [VotingToken.unique_token_id] in H.
  - destruct (VotingToken.find_by_token_id w tid); inv H. reflexivity.
  - destruct (VotingToken.find_by_token_id w tid); [|inv H; reflexivity].
    unfold VotingToken.generate_vote_token in H. apply IH in H. exact H.
Qed.

Lemma create_frame E eid cons w tok w' :
  VotingToken.create E eid cons w = Some (tok, w') ->
  voters (db w') = voters (db w) /\ votes (db w') = votes (db w) /\
  audit_logs (db w') = audit_logs (db w) /\ elections (db w') = elections (db w) /\
  voting_tokens (db w') = (voting_tokens (db w) ++ [tok])%list.
Proof.
  unfold VotingToken.create, VotingToken.generate_vote_token. intros H.
  destruct (VotingToken.unique_token_id _ _ _ _) as [[tid w1]|] eqn:Hu; inv H.
  apply unique_token_id_db in Hu. cbn in *. rewrite Hu. auto.
Qed.

Lemma issue_token_inv E voter eid w r voter' w' :
  TokenService.issue_token E voter eid w = Some (r, voter', w') ->
  db_inv (db w) -> voted_subset_issued voter ->
  db_inv (db w') /\ voted_subset_issued voter'.
Proof.
  unfold TokenService.issue_token, Election.is_ongoing, Election.has_ended.
  intros H Hdb Hv.
  destruct (Election.find_by_election_id w eid) as [election|]; [|inv H; auto].
  destruct (_ && _ && _); cbn [negb] in H.
  2:{ destruct (_ <? _); inv H; auto. }
  destruct (Voter.has_voted_in voter eid); [inv H; auto|].
  destruct (Voter.has_token_for voter eid); [inv H; auto|].
  destruct (VotingToken.create _ _ _ _) as [[token w2]|] eqn:Hc; [|discriminate].
  destruct (Voter.mark_token_issued voter eid w2) as [v3 w3] eqn:Hm.
  inv H. apply create_frame in Hc. destruct Hc as (Hvo & _).
  eapply mark_token_issued_inv; eauto.
  unfold db_inv. rewrite Hvo. exact Hdb.
Qed.

Lemma cast_dual_ballot_cases E voter eid cid pid w ok msg voter' w' :
  VoteService.cast_dual_ballot E voter eid cid pid w = ((ok, msg), voter', w') ->
  (ok = false /\ voter' = voter /\ voters (db w') = voters (db w)) \/
  (ok = true /\ exists w3, voters (db w3) = voters (db w) /\
                           Voter.mark_voted voter eid w3 = (voter', w')).
Proof.
  unfold VoteService.cast_dual_ballot, Election.is_ongoing, Election.has_ended. intros H.
  destruct (Election.find_by_election_id w eid) as [election|]; [|inv H; auto].
  destruct (_ && _ && _); cbn [negb] in H.
  2:{ destruct (_ <? _); inv H; auto. }
  destruct (Voter.has_voted_in voter eid); [inv H; auto|].
  destruct (Election.get_candidate election cid) as [candidate|]; [|inv H; auto].
  destruct (negb (opt_string_eqb _ _)); [inv H; auto|].
  destruct (Election.get_party election pid) as [party|]; [|inv H; auto].
  destruct (negb (truthy _)); [inv H; auto|].
  destruct (Vote.cast_fptp_vote _ _ _ _ _ _ _ _ _ _ _) as [r1 w2] eqn:Hc1.
  apply cast_fptp_vote_spec in Hc1. destruct Hc1 as (Hv2 & _). cbn [db bump] in Hv2.
  destruct r1 as [v1|e1]; [|inv H; auto].
  destruct (Vote.cast_pr_vote _ _ _ _ _ _ _ _ _ _) as [r2 w3] eqn:Hc2.
  apply cast_pr_vote_spec in Hc2. destruct Hc2 as (Hv3 & _).
  destruct r2 as [v2|e2].
  2:{ inv H. left. repeat split; auto. congruence. }
  destruct (Voter.mark_voted voter eid w3) as [v4 w4] eqn:Hm.
  inv H. right. split; [reflexivity|]. exists w3. split; [congruence|exact Hm].
Qed.

(** A failing [cast_dual_ballot_with_token] leaves the voter as it was. *)
Lemma cast_with_token_failure E voter eid cid pid tok w msg rcpt voter' w' :
  VoteService.cast_dual_ballot_with_token E voter eid cid pid tok w
  = ((false, msg, rcpt), voter', w') ->
  voter' = voter /\ voters (db w') = voters (db w).
Proof.
  unfold VoteService.cast_dual_ballot_with_token. intros H.
  destruct (Election.find_by_election_id w eid) as [election|]; [|inv H; auto].
  unfold Election.is_ongoing, Election.has_ended in H.
  destruct (_ && _ && _); cbn [negb] in H.
  2:{ destruct (_ <? _); inv H; auto. }
  destruct (Voter.has_voted_in voter eid); [inv H; auto|].
  destruct (TokenService.validate_token _ _ _ _ _) as [[valid vmsg] vt].
  destruct valid; cbn [negb] in H; [|inv H; auto].
  destruct (TokenService.validate_token_constituency _ _ _) as [cvalid cmsg].
  destruct cvalid; cbn [negb] in H; [|inv H; auto].
  destruct (Election.get_candidate election cid) as [candidate|]; [|inv H; auto].
  destruct (negb (opt_string_eqb _ _)); [inv H; auto|].
  destruct (Election.get_party election pid) as [party|]; [|inv H; auto].
  destruct (negb (truthy _)); [inv H; auto|].
  destruct (Vote.generate_receipt _ _ _ _) as [[[rid rhash] tstr] w2] eqn:Hrec.
  apply generate_receipt_db in Hrec. cbn [db bump] in Hrec.
  destruct (TokenService.use_token_for_ballot E _ "fptp" w2) as [[s1 m1] w3] eqn:Hu1.
  apply use_token_for_ballot_frame in Hu1. destruct Hu1 as (Hv3 & _).
  destruct s1; cbn [negb] in H; [|inv H; split; [reflexivity|congruence]].
  destruct (Vote.cast_fptp_vote _ _ _ _ _ _ _ _ _ _ _) as [r1 w4] eqn:Hc1.
  apply cast_fptp_vote_spec in Hc1. destruct Hc1 as (Hv4 & _).
  destruct r1 as [v1|e1]; [|inv H; split; [reflexivity|congruence]].
  destruct (TokenService.use_token_for_ballot E _ "pr" w4) as [[s2 m2] w5] eqn:Hu2.
  apply use_token_for_ballot_frame in Hu2. destruct Hu2 as (Hv5 & _).
  destruct s2; cbn [negb] in H; [|inv H; split; [reflexivity|congruence]].
  destruct (Vote.cast_pr_vote _ _ _ _ _ _ _ _ _ _) as [r2 w6] eqn:Hc2.
  apply cast_pr_vote_spec in Hc2. destruct Hc2 as (Hv6 & _).
  destruct r2 as [v2|e2]; [|inv H; split; [reflexivity|congruence]].
  destruct (Voter.mark_voted voter eid w6) as [voter1 w7]. inv H.
Qed.

Lemma token_recorded_frame w w' voter eid :
  voters (db w') = voters (db w) -> token_recorded w voter eid -> token_recorded w' voter eid.
Proof. unfold token_recorded. intros ->. auto. Qed.

(** C9 (amended): [issue_token] preserves the inclusion of
    [elections_voted] in [token_issued_for], for the voter object and for
    every stored voter; [cast_dual_ballot] and
    [cast_dual_ballot_with_token] preserve it when the voter already holds
    a token for the election, which neither of them checks. *)
Theorem elector_sets_preserved E voter eid cid pid tok w :
  db_inv (db w) -> voted_subset_issued voter ->
  (forall r voter' w',
      TokenService.issue_token E voter eid w = Some (r, voter', w') ->
      db_inv (db w') /\ voted_subset_issued voter') /\
  (Voter.has_token_for voter eid = true -> token_recorded w voter eid ->
   (forall r voter' w',
       VoteService.cast_dual_ballot E voter eid cid pid w = (r, voter', w') ->
       db_inv (db w') /\ voted_subset_issued voter') /\
   (forall r voter' w',
       VoteService.cast_dual_ballot_with_token E voter eid cid pid tok w = (r, voter', w') ->
       db_inv (db w') /\ voted_subset_issued voter')).
Proof.
  intros Hdb Hv. split.
  - intros r voter' w' H. eapply issue_token_inv; eauto.
  - intros Htok Hrec. split.
    + intros [ok msg] voter' w' H. apply cast_dual_ballot_cases in H.
      destruct H as [(_ & -> & Hvo)|(_ & w3 & Hvo & Hm)].
      * split; [|exact Hv]. unfold db_inv. rewrite Hvo. exact Hdb.
      * eapply mark_voted_inv; eauto.
        -- unfold db_inv. rewrite Hvo. exact Hdb.
        -- eapply token_recorded_frame; eauto.
    + intros [[ok msg] rcpt] voter' w' H. destruct ok.
      * apply cast_with_token_success in H.
        destruct H as (w6 & v1 & v2 & r & _ & Hvo & _ & _ & _ & _ & _ & Hm).
        eapply mark_voted_inv; eauto.
        -- unfold db_inv. rewrite Hvo. exact Hdb.
        -- eapply token_recorded_frame; eauto.
      * apply cast_with_token_failure in H. destruct H as (-> & Hvo).
        split; [|exact Hv]. unfold db_inv. rewrite Hvo. exact Hdb.
Qed.

End ElectorSetsThm.

Module StringFacts.

Lemma append_cancel_l (p a b : string) : p ++ a = p ++ b -> a = b.
Proof. induction p as [|c p IH]; cbn; intros H; [exact H|]. inversion H. auto. Qed.

Lemma length_append (a b : string) :
  String.length (a ++ b) = (String.length a + String.length b)%nat.
Proof. induction a as [|c a IH]; cbn; [reflexivity|]. rewrite IH. reflexivity. Qed.

Lemma append_cancel_r (s : string) : forall a b, a ++ s = b ++ s -> a = b.
Proof.
  induction a as [|c a IH]; intros [|d b] H; cbn in H.
  - reflexivity.
  - apply (f_equal String.length) in H. cbn in H. rewrite length_append in H. lia.
  - apply (f_equal String.length) in H. cbn in H. rewrite length_append in H. lia.
  - inversion H. f_equal. auto.
Qed.

End StringFacts.

Module ReceiptIntegrity.
Import StoreFacts CastFacts ReceiptFacts StringFacts.
Import VotingProps.

Lemma opt_string_eqb_eq a b : opt_string_eqb a b = true <-> a = b.
Proof.
  destruct a as [x|], b as [y|]; cbn; split; intros H; try congruence.
  - apply String.eqb_eq in H. congruence.
  - inversion H. apply String.eqb_refl.
Qed.

Lemma verify_receipt_first E rid log w v rest :
  Vote.find_by_receipt_id w rid = v :: rest ->
  (receipt_consistent E v ->
     Vote.valid (fst (Vote.verify_receipt E rid log w)) = true) /\
  (VoteData.receipt_hash v <> Some (sha256_hexdigest E (Vote.hash_input E v)) ->
     Vote.verify_receipt E rid log w
     = (Vote.rejected "Receipt integrity check failed.", w)).
Proof.
  intros Hf. unfold Vote.verify_receipt. rewrite Hf. split; intros H.
  - unfold receipt_consistent in H. rewrite H.
    rewrite (proj2 (opt_string_eqb_eq _ _) eq_refl). reflexivity.
  - destruct (opt_string_eqb _ _) eqn:Heq; [|reflexivity].
    apply opt_string_eqb_eq in Heq. congruence.
Qed.

(** The first stored vote with receipt [rid]. *)
Lemma find_by_receipt_id_first w rid pre v post :
  votes (db w) = (pre ++ v :: post)%list ->
  (forall u, In u pre -> VoteData.receipt_id u <> Some rid) ->
  VoteData.receipt_id v = Some rid ->
  exists rest, Vote.find_by_receipt_id w rid = v :: rest.
Proof.
  intros Hv Hpre Hrid. unfold Vote.find_by_receipt_id. rewrite Hv, filter_app.
  replace (filter _ pre) with (@nil VoteData.t).
  - cbn [app filter]. rewrite Hrid. cbn [opt_string_eqb]. rewrite String.eqb_refl.
    eexists. reflexivity.
  - symmetry. clear Hv. induction pre as [|u pre IH]; [reflexivity|]. cbn.
    destruct (opt_string_eqb _ _) eqn:Heq.
    + apply opt_string_eqb_eq in Heq. exfalso. apply (Hpre u); [left; reflexivity|exact Heq].
    + apply IH. intros u' Hu'. apply Hpre. right. exact Hu'.
Qed.

Lemma mutated_hash_input E v v' rid rid' :
  VoteData.receipt_id v = Some rid -> VoteData.receipt_id v' = Some rid' ->
  truthy (VoteData.timestamp_str v) = true ->
  truthy (VoteData.timestamp_str v') = true ->
  one_field_mutated v v' ->
  Vote.hash_input E v' <> Vote.hash_input E v.
Proof.
  intros Hr Hr' Ht Ht' Hm. unfold Vote.hash_input.
  destruct Hm as [(Hrid & He & Hts)|[(Hrid & He & Hts)|(Hrid & He & Hts)]].
  - rewrite Hts, He, Ht, Hr, Hr'. cbn [Vote.str_or_none]. intros H.
    apply append_cancel_r in H. congruence.
  - rewrite Hts, Ht, Hrid. intros H. apply append_cancel_l, append_cancel_l in H.
    apply append_cancel_r in H. congruence.
  - rewrite Ht, Ht', Hrid, He. intros H. do 4 apply append_cancel_l in H.
    destruct (VoteData.timestamp_str v') as [a|], (VoteData.timestamp_str v) as [b|];
      cbn in Ht, Ht'; try discriminate. cbn in H. congruence.
Qed.

(** Without a stored [timestamp_str], the string hashed for a vote that
    carries its receipt is the one hashed when the receipt was minted. *)
Lemma blanked_hash_input E eid rid v v' :
  carries_receipt E eid rid v -> timestamp_str_blanked v v' ->
  VoteData.receipt_hash v' = Some (sha256_hexdigest E (Vote.hash_input E v')).
Proof.
  intros (He & Hr & _ & Hh) (Hf & Hr' & He' & Ht' & Hh').
  unfold Vote.hash_input. rewrite Hf, Hr', Hr, He', He, Ht', Hh', Hh. reflexivity.
Qed.

End ReceiptIntegrity.

Module ReceiptIntegrityThm.
Import StoreFacts CastFacts ReceiptFacts StringFacts ReceiptIntegrity.
Import VotingProps.

Lemma verify_receipt_valid E rid log w u :
  (forall v, In v (votes (db w)) -> VoteData.receipt_id v = Some rid ->
             receipt_consistent E v) ->
  In u (votes (db w)) -> VoteData.receipt_id u = Some rid ->
  Vote.valid (fst (Vote.verify_receipt E rid log w)) = true.
Proof.
  intros Hall Hu Hrid.
  destruct (Vote.find_by_receipt_id w rid) as [|v rest] eqn:Hf.
  - exfalso. unfold Vote.find_by_receipt_id in Hf.
    assert (Hin : In u (filter (fun v => opt_string_eqb (VoteData.receipt_id v) (Some rid))
                          (votes (db w)))).
    { apply filter_In. split; [exact Hu|]. apply opt_string_eqb_eq. exact Hrid. }
    rewrite Hf in Hin. exact Hin.
  - apply (verify_receipt_first E rid log w v rest Hf).
    unfold Vote.find_by_receipt_id in Hf.
    assert (Hin : In v (filter (fun v => opt_string_eqb (VoteData.receipt_id v) (Some rid))
                          (votes (db w)))) by (rewrite Hf; left; reflexivity).
    apply filter_In in Hin. destruct Hin as (Hin & Heq).
    apply Hall; [exact Hin|]. apply opt_string_eqb_eq. exact Heq.
Qed.

(** C6 (amended): [verify_receipt] hashes the first record found for the
    receipt id, and no other.  After a successful dual-ballot cast,
    [verify_receipt] of the returned receipt id reports valid, provided
    every earlier record that happens to carry the same id is consistent
    (none does when the id is fresh).  When the first record found for a
    receipt id is a consistent record with exactly one of [receipt_id],
    [election_id], [timestamp_str] changed, the stored hash kept and a
    non-empty [timestamp_str] before and after, [verify_receipt] of that id
    fails with the receipt-integrity message, provided the digest separates
    the two hash inputs.  When instead the [timestamp_str] of a record
    written by a cast is emptied or deleted, [verify_receipt] formats the
    stored timestamp anew, obtains the same string, and still reports
    valid. *)
Theorem receipt_integrity_first_record
        E voter eid cid pid tok w msg r voter' w' log :
  (forall u, In u (votes (db w)) ->
             VoteData.receipt_id u = Some (VoteService.receipt_id r) ->
             receipt_consistent E u) ->
  VoteService.cast_dual_ballot_with_token E voter eid cid pid tok w
  = ((true, msg, Some r), voter', w') ->
  Vote.valid (fst (Vote.verify_receipt E (VoteService.receipt_id r) log w')) = true /\
  (forall w2 rid rid' pre v v' post log2,
     votes (db w2) = (pre ++ v' :: post)%list ->
     (forall u, In u pre -> VoteData.receipt_id u <> Some rid') ->
     VoteData.receipt_id v' = Some rid' ->
     VoteData.receipt_id v = Some rid ->
     receipt_consistent E v ->
     truthy (VoteData.timestamp_str v) = true ->
     one_field_mutated v v' ->
     VoteData.receipt_hash v' = VoteData.receipt_hash v ->
     truthy (VoteData.timestamp_str v') = true ->
     (Vote.hash_input E v' <> Vote.hash_input E v ->
      sha256_hexdigest E (Vote.hash_input E v')
      <> sha256_hexdigest E (Vote.hash_input E v)) ->
     Vote.verify_receipt E rid' log2 w2
     = (Vote.rejected "Receipt integrity check failed.", w2)) /\
  (forall w2 eid0 rid pre v v' post log2,
     votes (db w2) = (pre ++ v' :: post)%list ->
     (forall u, In u pre -> VoteData.receipt_id u <> Some rid) ->
     carries_receipt E eid0 rid v ->
     timestamp_str_blanked v v' ->
     Vote.valid (fst (Vote.verify_receipt E rid log2 w2)) = true).
Proof.
  intros Hall Hcast. split; [|split].
  - apply cast_with_token_success in Hcast.
    destruct Hcast as (w6 & v1 & v2 & r0 & Hr & _ & Hvo & _ & _ & Hc1 & Hc2 & Hm).
    inv Hr. apply mark_voted_spec in Hm. destruct Hm as (Hvo' & _).
    apply (verify_receipt_valid E _ log w' v1).
    + intros u Hu Hrid. rewrite Hvo', Hvo in Hu. apply in_app_or in Hu.
      destruct Hu as [Hu|[<-|[<-|[]]]]; [apply Hall; assumption| |];
        eapply carries_receipt_consistent; eauto.
    + rewrite Hvo', Hvo. apply in_or_app. right. left. reflexivity.
    + apply Hc1.
  - intros w2 rid rid' pre v v' post log2 Hv2 Hpre Hrid' Hrid Hcons Htruthy Hmut Hhash
           Htruthy' Hnocoll.
    destruct (find_by_receipt_id_first w2 rid' pre v' post Hv2 Hpre Hrid') as [rest Hf].
    apply (verify_receipt_first E rid' log2 w2 v' rest Hf).
    rewrite Hhash, Hcons. intros Heq. inversion Heq as [Heq'].
    apply (Hnocoll (mutated_hash_input E v v' rid rid' Hrid Hrid' Htruthy Htruthy' Hmut)).
    symmetry. exact Heq'.
  - intros w2 eid0 rid pre v v' post log2 Hv2 Hpre Hcarries Hblank.
    assert (Hrid' : VoteData.receipt_id v' = Some rid).
    { destruct Hcarries as (_ & Hr & _). destruct Hblank as (_ & Hr' & _). congruence. }
    destruct (find_by_receipt_id_first w2 rid pre v' post Hv2 Hpre Hrid') as [rest Hf].
    apply (verify_receipt_first E rid log2 w2 v' rest Hf).
    exact (blanked_hash_input E eid0 rid v v' Hcarries Hblank).
Qed.

End ReceiptIntegrityThm.

Module Anonymity.
Import Schema StoreFacts.

Lemma document_keys_with_id i d :
  document_keys (with_id i d) = (document_keys d ++ id_keys i)%list.
Proof.
  unfold with_id, document_keys. destruct i; cbn [id_keys].
  - rewrite flat_map_app. reflexivity.
  - rewrite app_nil_r. reflexivity.
Qed.

Lemma value_keys_strs l : value_keys (VList (map VStr l)) = [].
Proof. cbn. induction l as [|s l IH]; cbn; [reflexivity|exact IH]. Qed.

Lemma value_keys_opt_str o : value_keys (VOpt VStr o) = [].
Proof. destruct o; reflexivity. Qed.

Lemma value_keys_opt_time o : value_keys (VOpt VTime o) = [].
Proof. destruct o; reflexivity. Qed.

Lemma voter_doc_keys v :
  document_keys (Voter.to_dict v)
  = (["voter_id"; "citizenship_number_hash"; "password_hash"; "full_name";
      "constituency"; "registered_at"; "elections_voted"; "token_issued_for"]
     ++ id_keys (VoterData._id v))%list.
Proof.
  unfold Voter.to_dict. rewrite document_keys_with_id. f_equal.
  unfold document_keys. cbn [flat_map fst snd app].
  rewrite !value_keys_strs. reflexivity.
Qed.

Lemma token_doc_keys t :
  document_keys (VotingToken.to_dict t)
  = (["token_id"; "election_id"; "constituency"; "ballots_allowed"; "ballots_used";
      "is_fully_used"; "created_at"; "used_at"]
     ++ id_keys (VotingTokenData._id t))%list.
Proof.
  unfold VotingToken.to_dict. rewrite document_keys_with_id. f_equal.
  unfold document_keys. cbn [flat_map fst snd app].
  rewrite !value_keys_strs, value_keys_opt_time. reflexivity.
Qed.

Lemma vote_dict_keys v :
  document_keys (Vote.to_dict v)
  = (["election_id"; "ballot_type"; "encrypted_vote"; "constituency"; "timestamp";
      "token_id"; "receipt_id"; "receipt_hash"; "timestamp_str"]
     ++ id_keys (VoteData._id v))%list.
Proof.
  unfold Vote.to_dict. rewrite document_keys_with_id. f_equal.
  unfold document_keys. cbn [flat_map fst snd app].
  rewrite !value_keys_opt_str. reflexivity.
Qed.

Lemma history_keys l k :
  In k (value_keys (VList (map Vote.verification_entry l))) ->
  In k ["verified_at"; "verified_at_formatted"].
Proof.
  cbn. induction l as [|e l IH]; cbn; [tauto|]. intros [H|[H|H]]; auto.
Qed.

Lemma vote_stored_keys v k :
  In k (document_keys (Vote.stored v)) -> In k vote_schema.
Proof.
  unfold Vote.stored, document_keys. rewrite flat_map_app.
  fold (document_keys (Vote.to_dict v)). rewrite vote_dict_keys.
  intros Hin. apply in_app_or in Hin. destruct Hin as [Hin|Hin].
  - apply in_app_or in Hin. destruct Hin as [Hin|Hin].
    + cbn in Hin. unfold vote_schema. cbn. tauto.
    + destruct (VoteData._id v); cbn in Hin; unfold vote_schema; cbn; tauto.
  - destruct (VoteData.verification_count v); [|destruct Hin].
    cbn [flat_map fst snd] in Hin. rewrite value_keys_opt_time in Hin.
    cbn [app] in Hin. destruct Hin as [Hin|Hin]; [unfold vote_schema; cbn; tauto|].
    apply in_app_or in Hin. destruct Hin as [Hin|Hin].
    + apply history_keys in Hin. cbn in Hin. unfold vote_schema. cbn. tauto.
    + cbn in Hin. unfold vote_schema. cbn. tauto.
Qed.

Lemma vote_stored_no_elector v : ~ mentions_elector (Vote.stored v).
Proof.
  unfold mentions_elector. intros [H|H]; apply vote_stored_keys in H;
    cbn in H; intuition discriminate.
Qed.

Lemma vote_stored_has_ballot v :
  In "token_id" (document_keys (Vote.stored v)) /\
  In "encrypted_vote" (document_keys (Vote.stored v)).
Proof.
  unfold Vote.stored, document_keys. rewrite flat_map_app.
  fold (document_keys (Vote.to_dict v)). rewrite vote_dict_keys.
  split; apply in_or_app; left; apply in_or_app; left; cbn; auto 10.
Qed.

Lemma token_no_elector t : ~ mentions_elector (VotingToken.to_dict t).
Proof.
  unfold mentions_elector. rewrite token_doc_keys.
  destruct (VotingTokenData._id t); cbn; intuition discriminate.
Qed.

Lemma voter_no_ballot v : ~ mentions_ballot (Voter.to_dict v).
Proof.
  unfold mentions_ballot. rewrite voter_doc_keys.
  destruct (VoterData._id v); cbn; intuition discriminate.
Qed.

Lemma voter_has_voter_id v : In "voter_id" (document_keys (Voter.to_dict v)).
Proof. rewrite voter_doc_keys. cbn. auto. Qed.

Lemma candidates_keys l k :
  In k (value_keys (VList (map candidate_dict l))) ->
  In k ["candidate_id"; "name"; "party"; "constituency"].
Proof.
  cbn [value_keys]. induction l as [|c l IH]; cbn [map flat_map]; [intros []|].
  intros H. apply in_app_or in H. destruct H as [H|H]; [|auto].
  unfold candidate_dict in H. cbn [value_keys flat_map fst snd app] in H.
  rewrite value_keys_opt_str in H. cbn in H. cbn. tauto.
Qed.

Lemma parties_keys l k :
  In k (value_keys (VList (map party_dict l))) -> In k ["party_id"; "name"; "symbol"].
Proof.
  cbn [value_keys]. induction l as [|p l IH]; cbn [map flat_map]; [intros []|].
  intros H. apply in_app_or in H. destruct H as [H|H]; [|auto].
  unfold party_dict in H. destruct (PartyData.symbol p); cbn in H; cbn; tauto.
Qed.

Ltac crunch H :=
  lazymatch type of H with
  | In _ (_ ++ _)%list => apply in_app_or in H; destruct H as [H|H]; crunch H
  | In _ (_ :: _) => destruct H as [H|H]; [|crunch H]
  | In _ [] => destruct H
  | In _ (value_keys (VList (map candidate_dict _))) => apply candidates_keys in H; crunch H
  | In _ (value_keys (VList (map party_dict _))) => apply parties_keys in H; crunch H
  | In _ (value_keys (VOpt VStr _)) => rewrite value_keys_opt_str in H; destruct H
  | In _ (value_keys (VOpt VTime _)) => rewrite value_keys_opt_time in H; destruct H
  | In _ (value_keys (VStr _)) => destruct H
  | In _ (value_keys (VInt _)) => destruct H
  | In _ (value_keys (VBool _)) => destruct H
  | In _ (value_keys (VTime _)) => destruct H
  | In _ (id_keys ?i) => destruct i; cbn [id_keys] in H; crunch H
  | _ => idtac
  end.

Lemma election_doc_keys e k :
  In k (document_keys (election_to_dict e)) -> In k election_schema.
Proof.
  unfold election_to_dict. rewrite document_keys_with_id.
  unfold document_keys. cbn [flat_map fst snd]. intros Hin.
  crunch Hin; subst; unfold election_schema; cbn; auto 30.
Qed.

Lemma election_no_elector e : ~ mentions_elector (election_to_dict e).
Proof.
  unfold mentions_elector. intros [H|H]; apply election_doc_keys in H;
    cbn in H; intuition discriminate.
Qed.

Lemma audit_doc_keys a :
  document_keys (AuditLog.to_dict a)
  = (["category"; "event_type"; "message"; "user_id"; "user_type"; "ip_address";
      "user_agent"; "details"]
     ++ value_keys (AuditLogData.details a)
     ++ ["timestamp"]
     ++ match AuditLogData.entry_hash a with Some _ => ["entry_hash"] | None => [] end
     ++ ["previous_hash"]
     ++ id_keys (AuditLogData._id a))%list.
Proof.
  unfold AuditLog.to_dict. rewrite document_keys_with_id.
  unfold document_keys. cbn [flat_map fst snd app]. rewrite !value_keys_opt_str.
  cbn [value_keys app]. rewrite flat_map_app.
  destruct (AuditLogData.entry_hash a) as [h|]; cbn [flat_map fst snd app];
    rewrite ?value_keys_opt_str; cbn [value_keys app]; rewrite <- !app_assoc;
    reflexivity.
Qed.

Lemma audit_anonymous_iff a : anonymous (AuditLog.to_dict a) <-> details_clean a.
Proof.
  unfold anonymous, mentions_elector, mentions_ballot, details_clean.
  rewrite !audit_doc_keys. rewrite !in_app_iff.
  assert (Hid : forall k, k = "token_id" \/ k = "encrypted_vote" ->
                          ~ In k (id_keys (AuditLogData._id a))).
  { intros k Hk. destruct (AuditLogData._id a); cbn; destruct Hk; subst;
      intuition discriminate. }
  pose proof (Hid "token_id" (or_introl eq_refl)) as Hid1.
  pose proof (Hid "encrypted_vote" (or_intror eq_refl)) as Hid2.
  assert (Heh : forall k, k = "token_id" \/ k = "encrypted_vote" ->
                          ~ In k match AuditLogData.entry_hash a with
                                 | Some _ => ["entry_hash"]
                                 | None => []
                                 end).
  { intros k Hk. destruct (AuditLogData.entry_hash a); cbn; destruct Hk; subst;
      intuition discriminate. }
  pose proof (Heh "token_id" (or_introl eq_refl)) as Heh1.
  pose proof (Heh "encrypted_vote" (or_intror eq_refl)) as Heh2.
  cbn [In]. split.
  - intros H. split; intros Hin; apply H; split; auto 20.
  - intros (H1 & H2) (_ & H). intuition discriminate.
Qed.

End Anonymity.

Module AnonymityThm.
Import Schema StoreFacts CastFacts Anonymity ElectorSetsThm.
Import VotingProps.

Lemma save_new_audit E eid bt enc cons tok ts rid rh tstr w v w' :
  Vote.save_new E eid bt enc cons tok ts rid rh tstr w = (v, w') ->
  audit_logs (db w') = audit_logs (db w).
Proof.
  unfold Vote.save_new, VotingToken.generate_vote_token. intros H.
  repeat (break_if || break_let); inv H;
    repeat match goal with H : (_, _) = (_, _) |- _ => inv H end; reflexivity.
Qed.

Lemma cast_fptp_vote_audit E eid cid cons pk tok rid rh ts tstr w r w' :
  Vote.cast_fptp_vote E eid cid cons pk tok rid rh ts tstr w = (r, w') ->
  audit_logs (db w') = audit_logs (db w).
Proof.
  unfold Vote.cast_fptp_vote. intros H.
  destruct (encrypt_vote E _ _ _); [|inv H; reflexivity].
  destruct (Vote.receipt_or_new _ _ _ _ _ _ _) as [[[[ts' rid'] rh'] tstr'] w1] eqn:Hr.
  destruct (Vote.save_new _ _ _ _ _ _ _ _ _ _ _) as [v w2] eqn:Hs.
  inv H. apply receipt_or_new_db in Hr. apply save_new_audit in Hs.
  rewrite Hs, Hr. reflexivity.
Qed.

Lemma cast_pr_vote_audit E eid pid pk tok rid rh ts tstr w r w' :
  Vote.cast_pr_vote E eid pid pk tok rid rh ts tstr w = (r, w') ->
  audit_logs (db w') = audit_logs (db w).
Proof.
  unfold Vote.cast_pr_vote. intros H.
  destruct (encrypt_vote E _ _ _); [|inv H; reflexivity].
  destruct (Vote.receipt_or_new _ _ _ _ _ _ _) as [[[[ts' rid'] rh'] tstr'] w1] eqn:Hr.
  destruct (Vote.save_new _ _ _ _ _ _ _ _ _ _) as [v w2] eqn:Hs.
  inv H. apply receipt_or_new_db in Hr. apply save_new_audit in Hs.
  rewrite Hs, Hr. reflexivity.
Qed.

Lemma mark_voted_audit voter eid w voter' w' :
  Voter.mark_voted voter eid w = (voter', w') -> audit_logs (db w') = audit_logs (db w).
Proof. unfold Voter.mark_voted. intros H. destruct (in_list _ _); inv H; reflexivity. Qed.

Lemma mark_token_issued_audit voter eid w voter' w' :
  Voter.mark_token_issued voter eid w = (voter', w') ->
  audit_logs (db w') = audit_logs (db w).
Proof.
  unfold Voter.mark_token_issued. intros H. destruct (in_list _ _); inv H; reflexivity.
Qed.

Lemma issue_token_audit E voter eid w r voter' w' :
  TokenService.issue_token E voter eid w = Some (r, voter', w') ->
  audit_logs (db w') = audit_logs (db w).
Proof.
  unfold TokenService.issue_token, Election.is_ongoing, Election.has_ended. intros H.
  destruct (Election.find_by_election_id w eid) as [election|]; [|inv H; auto].
  destruct (_ && _ && _); cbn [negb] in H.
  2:{ destruct (_ <? _); inv H; auto. }
  destruct (Voter.has_voted_in voter eid); [inv H; auto|].
  destruct (Voter.has_token_for voter eid); [inv H; auto|].
  destruct (VotingToken.create _ _ _ _) as [[token w2]|] eqn:Hc; [|discriminate].
  destruct (Voter.mark_token_issued voter eid w2) as [v3 w3] eqn:Hm.
  inv H. apply create_frame in Hc. destruct Hc as (_ & _ & Ha & _).
  apply mark_token_issued_audit in Hm. rewrite Hm. exact Ha.
Qed.

Lemma cast_dual_ballot_audit E voter eid cid pid w r voter' w' :
  VoteService.cast_dual_ballot E voter eid cid pid w = (r, voter', w') ->
  audit_logs (db w') = audit_logs (db w).
Proof.
  unfold VoteService.cast_dual_ballot, Election.is_ongoing, Election.has_ended. intros H.
  destruct (Election.find_by_election_id w eid) as [election|]; [|inv H; auto].
  destruct (_ && _ && _); cbn [negb] in H.
  2:{ destruct (_ <? _); inv H; auto. }
  destruct (Voter.has_voted_in voter eid); [inv H; auto|].
  destruct (Election.get_candidate election cid) as [candidate|]; [|inv H; auto].
  destruct (negb (opt_string_eqb _ _)); [inv H; auto|].
  destruct (Election.get_party election pid) as [party|]; [|inv H; auto].
  destruct (negb (truthy _)); [inv H; auto|].
  destruct (Vote.cast_fptp_vote _ _ _ _ _ _ _ _ _ _ _) as [r1 w2] eqn:Hc1.
  apply cast_fptp_vote_audit in Hc1. cbn [db bump] in Hc1.
  destruct r1 as [v1|e1]; [|inv H; auto].
  destruct (Vote.cast_pr_vote _ _ _ _ _ _ _ _ _ _) as [r2 w3] eqn:Hc2.
  apply cast_pr_vote_audit in Hc2.
  destruct r2 as [v2|e2]; [|inv H; congruence].
  destruct (Voter.mark_voted voter eid w3) as [v4 w4] eqn:Hm.
  apply mark_voted_audit in Hm. inv H. congruence.
Qed.

Lemma cast_with_token_audit E voter eid cid pid tok w r voter' w' :
  VoteService.cast_dual_ballot_with_token E voter eid cid pid tok w = (r, voter', w') ->
  audit_logs (db w') = audit_logs (db w).
Proof.
  unfold VoteService.cast_dual_ballot_with_token. intros H.
  destruct (Election.find_by_election_id w eid) as [election|]; [|inv H; auto].
  unfold Election.is_ongoing, Election.has_ended in H.
  destruct (_ && _ && _); cbn [negb] in H.
  2:{ destruct (_ <? _); inv H; auto. }
  destruct (Voter.has_voted_in voter eid); [inv H; auto|].
  destruct (TokenService.validate_token _ _ _ _ _) as [[valid vmsg] vt].
  destruct valid; cbn [negb] in H; [|inv H; auto].
  destruct (TokenService.validate_token_constituency _ _ _) as [cvalid cmsg].
  destruct cvalid; cbn [negb] in H; [|inv H; auto].
  destruct (Election.get_candidate election cid) as [candidate|]; [|inv H; auto].
  destruct (negb (opt_string_eqb _ _)); [inv H; auto|].
  destruct (Election.get_party election pid) as [party|]; [|inv H; auto].
  destruct (negb (truthy _)); [inv H; auto|].
  destruct (Vote.generate_receipt _ _ _ _) as [[[rid rhash] tstr] w2] eqn:Hrec.
  apply generate_receipt_db in Hrec. cbn [db bump] in Hrec.
  destruct (TokenService.use_token_for_ballot E _ "fptp" w2) as [[s1 m1] w3] eqn:Hu1.
  apply use_token_for_ballot_frame in Hu1. destruct Hu1 as (_ & _ & _ & Ha3).
  destruct s1; cbn [negb] in H; [|inv H; congruence].
  destruct (Vote.cast_fptp_vote _ _ _ _ _ _ _ _ _ _ _) as [r1 w4] eqn:Hc1.
  apply cast_fptp_vote_audit in Hc1.
  destruct r1 as [v1|e1]; [|inv H; congruence].
  destruct (TokenService.use_token_for_ballot E _ "pr" w4) as [[s2 m2] w5] eqn:Hu2.
  apply use_token_for_ballot_frame in Hu2. destruct Hu2 as (_ & _ & _ & Ha5).
  destruct s2; cbn [negb] in H; [|inv H; congruence].
  destruct (Vote.cast_pr_vote _ _ _ _ _ _ _ _ _ _) as [r2 w6] eqn:Hc2.
  apply cast_pr_vote_audit in Hc2.
  destruct r2 as [v2|e2]; [|inv H; congruence].
  destruct (Voter.mark_voted voter eid w6) as [voter1 w7] eqn:Hm.
  apply mark_voted_audit in Hm. inv H. congruence.
Qed.

Lemma verify_receipt_audit E rid log w r w' :
  Vote.verify_receipt E rid log w = (r, w') -> audit_logs (db w') = audit_logs (db w).
Proof.
  unfold Vote.verify_receipt. intros H.
  destruct (Vote.find_by_receipt_id w rid); [inv H; reflexivity|].
  destruct (negb _); [inv H; reflexivity|].
  destruct log; inv H; reflexivity.
Qed.

Lemma log_clean E cat ev msg uid ut ip ua details w :
  ~ In "token_id" (value_keys details) -> ~ In "encrypted_vote" (value_keys details) ->
  Forall details_clean (audit_logs (db w)) ->
  Forall details_clean (audit_logs (db (snd (AuditLog.log E cat ev msg uid ut ip ua details w)))).
Proof.
  intros H1 H2 Hall. unfold AuditLog.log, AuditLog.save.
  destruct (AuditLog._compute_hash _ _) as [h|e]; cbn [snd db bump]; [|exact Hall].
  cbn. apply Forall_app. split; [exact Hall|]. constructor; [|constructor].
  unfold details_clean. cbn. destruct (AuditLog.value_truthy details); cbn; tauto.
Qed.

Lemma reachable_audit_clean E w0 w :
  Forall details_clean (audit_logs (db w0)) -> reachable E w0 w ->
  Forall details_clean (audit_logs (db w)).
Proof.
  intros H0 Hr. induction Hr as
    [ | w voter eid r voter' w' _ IH Hop | w tid bt r w' _ IH Hop
      | w voter eid cid pid r voter' w' _ IH Hop
      | w voter eid cid pid tok r voter' w' _ IH Hop
      | w rid log r w' _ IH Hop
      | w enabled ip ua voter_id eid r w' _ IH Hop
      | w enabled ip ua voter_id eid bt r w' _ IH Hop ].
  - exact H0.
  - apply issue_token_audit in Hop. rewrite Hop. exact IH.
  - apply use_token_for_ballot_frame in Hop. destruct Hop as (_ & _ & _ & Hop).
    rewrite Hop. exact IH.
  - apply cast_dual_ballot_audit in Hop. rewrite Hop. exact IH.
  - apply cast_with_token_audit in Hop. rewrite Hop. exact IH.
  - apply verify_receipt_audit in Hop. rewrite Hop. exact IH.
  - unfold AuditService.log_token_issued in Hop.
    destruct enabled; cbn [negb] in Hop; [|inv Hop; exact IH].
    destruct (AuditLog.log _ _ _ _ _ _ _ _ _ _) as [r0 w1] eqn:Hlog. inv Hop.
    change w' with (snd (r0, w')). rewrite <- Hlog.
    apply log_clean; [cbn; intuition discriminate|cbn; intuition discriminate|exact IH].
  - unfold AuditService.log_vote_cast in Hop.
    destruct enabled; cbn [negb] in Hop; [|inv Hop; exact IH].
    destruct (AuditLog.log _ _ _ _ _ _ _ _ _ _) as [r0 w1] eqn:Hlog. inv Hop.
    change w' with (snd (r0, w')). rewrite <- Hlog.
    apply log_clean; [cbn; intuition discriminate|cbn; intuition discriminate|exact IH].
Qed.

(** C3: in every state reached from an anonymous initial store through
    token issuance, token use, ballot casting, receipt verification and the
    audit entries written for them, no stored document names both an
    elector and a token or ciphertext; vote documents have [token_id] and
    [encrypted_vote] but no elector key, token documents have no elector
    key, and voter documents have [voter_id] but no token or ballot key. *)
Theorem elector_anonymity E w0 w :
  (forall d, In d (stored_documents (db w0)) -> anonymous d) ->
  reachable E w0 w ->
  (forall d, In d (stored_documents (db w)) -> anonymous d) /\
  (forall v, In v (votes (db w)) ->
     In "token_id" (document_keys (Vote.stored v)) /\
     In "encrypted_vote" (document_keys (Vote.stored v)) /\
     ~ mentions_elector (Vote.stored v)) /\
  (forall t, In t (voting_tokens (db w)) -> ~ mentions_elector (VotingToken.to_dict t)) /\
  (forall v, In v (voters (db w)) ->
     In "voter_id" (document_keys (Voter.to_dict v)) /\
     ~ mentions_ballot (Voter.to_dict v)).
Proof.
  intros H0 Hr.
  assert (Haudit : Forall details_clean (audit_logs (db w))).
  { apply (reachable_audit_clean E w0 w); [|exact Hr].
    apply Forall_forall. intros a Ha. apply audit_anonymous_iff. apply H0.
    unfold stored_documents. rewrite !in_app_iff. do 4 right.
    apply in_map. exact Ha. }
  split; [|split; [|split]].
  - intros d Hd. unfold stored_documents in Hd. rewrite !in_app_iff in Hd.
    destruct Hd as [Hd|[Hd|[Hd|[Hd|Hd]]]]; apply in_map_iff in Hd;
      destruct Hd as (x & <- & Hx); unfold anonymous.
    + intros (He & _). exact (election_no_elector x He).
    + intros (_ & Hb). exact (voter_no_ballot x Hb).
    + intros (He & _). exact (token_no_elector x He).
    + intros (He & _). exact (vote_stored_no_elector x He).
    + apply audit_anonymous_iff. rewrite Forall_forall in Haudit. auto.
  - intros v _. pose proof (vote_stored_has_ballot v) as (H1 & H2).
    repeat split; auto. apply vote_stored_no_elector.
  - intros t _. apply token_no_elector.
  - intros v _. split; [apply voter_has_voter_id|apply voter_no_ballot].
Qed.

End AnonymityThm.

Module AuditChainFacts.
Import AuditLogData AuditChain StoreFacts.

Lemma sorted_app_lt (l1 l2 : list t) :
  chronological (l1 ++ l2) ->
  forall x y, In x l1 -> In y l2 -> timestamp x < timestamp y.
Proof.
  unfold chronological. induction l1 as [|a l1 IH]; cbn; intros H x y Hx Hy; [destruct Hx|].
  inversion H as [|? ? Hs Hf]; subst. destruct Hx as [<-|Hx].
  - rewrite Forall_forall in Hf. apply Hf. apply in_or_app. right. exact Hy.
  - apply IH; assumption.
Qed.

Lemma insert_asc_last d l :
  (forall x, In x l -> timestamp x < timestamp d) -> AuditLog.insert_asc d l = (l ++ [d])%list.
Proof.
  induction l as [|x l IH]; intros H; cbn; [reflexivity|].
  destruct (Z.ltb_spec (timestamp d) (timestamp x)) as [Hlt|_].
  - specialize (H x (or_introl eq_refl)). lia.
  - rewrite IH; [reflexivity|]. intros y Hy. apply H. right. exact Hy.
Qed.

Lemma sort_asc_fold l : forall acc,
  chronological (acc ++ l) ->
  fold_left (fun acc d => AuditLog.insert_asc d acc) l acc = (acc ++ l)%list.
Proof.
  induction l as [|d l IH]; intros acc H; cbn [fold_left]; [rewrite app_nil_r; reflexivity|].
  rewrite insert_asc_last.
  - rewrite IH; rewrite <- app_assoc; [reflexivity|exact H].
  - intros x Hx. apply (sorted_app_lt acc (d :: l) H); [exact Hx|left; reflexivity].
Qed.

Lemma sort_asc_chronological l : chronological l -> AuditLog.sort_asc l = l.
Proof. intros H. unfold AuditLog.sort_asc. rewrite sort_asc_fold; [reflexivity|exact H]. Qed.

Lemma sort_desc_fold l : forall acc,
  chronological (rev acc ++ l) ->
  fold_left (fun acc d => AuditLog.insert_desc d acc) l acc = (rev l ++ acc)%list.
Proof.
  induction l as [|d l IH]; intros acc H; cbn [fold_left]; [reflexivity|].
  assert (Hins : AuditLog.insert_desc d acc = d :: acc).
  { destruct acc as [|x acc]; [reflexivity|]. cbn [AuditLog.insert_desc].
    assert (timestamp x < timestamp d).
    { apply (sorted_app_lt (rev (x :: acc)) (d :: l) H); [|left; reflexivity].
      cbn. apply in_or_app. right. left. reflexivity. }
    destruct (Z.ltb_spec (timestamp x) (timestamp d)); [reflexivity|lia]. }
  rewrite Hins, IH.
  - cbn [rev]. rewrite <- app_assoc. reflexivity.
  - cbn [rev]. rewrite <- app_assoc. exact H.
Qed.

Lemma sort_desc_chronological l : chronological l -> AuditLog.sort_desc l = rev l.
Proof.
  intros H. unfold AuditLog.sort_desc. rewrite sort_desc_fold; [apply app_nil_r|exact H].
Qed.

Lemma filter_all {A : Type} (f : A -> bool) l :
  Forall (fun x => f x = true) l -> filter f l = l.
Proof.
  induction 1 as [|x l Hx _ IH]; cbn; [reflexivity|]. rewrite Hx, IH. reflexivity.
Qed.

Lemma chain_ok_app E l1 : forall prev l2,
  chain_ok E prev (l1 ++ l2) <-> chain_ok E prev l1 /\ chain_ok E (last_hash prev l1) l2.
Proof.
  induction l1 as [|e l1 IH]; intros prev l2; cbn [app chain_ok last_hash fold_left].
  - tauto.
  - rewrite IH. unfold last_hash. tauto.
Qed.

Lemma opt_string_eqb_refl a : opt_string_eqb a a = true.
Proof. destruct a; cbn; [apply String.eqb_refl|reflexivity]. Qed.

Lemma opt_string_eqb_neq a b : a <> b -> opt_string_eqb a b = false.
Proof.
  destruct a as [x|], b as [y|]; cbn; intros H; try reflexivity; try congruence.
  apply String.eqb_neq. congruence.
Qed.

Lemma get_entry_hash_stored e h :
  entry_hash e = Some (Some h) -> AuditLog.get_entry_hash e = Some h.
Proof. unfold AuditLog.get_entry_hash. intros ->. reflexivity. Qed.

Lemma check_entries_ok E l : forall n prev,
  chain_ok E prev l ->
  AuditLog.check_entries E l n prev
  = Ok {| AuditLog.valid := true; AuditLog.entries_checked := (n + List.length l)%nat;
          AuditLog.first_invalid_id := None; AuditLog.error := None |}.
Proof.
  induction l as [|e l IH]; intros n prev H; cbn [AuditLog.check_entries List.length].
  - rewrite Nat.add_0_r. reflexivity.
  - destruct H as (Hp & (h & Heh & Hh) & Hrest).
    rewrite Hp, opt_string_eqb_refl. cbn [negb]. rewrite Hh. cbn [bind].
    rewrite (get_entry_hash_stored e h Heh) in *. rewrite opt_string_eqb_refl. cbn [negb].
    rewrite (IH (S n) _ Hrest). do 2 f_equal. lia.
Qed.

(** The first entry that fails one of the two checks is the one reported. *)
Lemma check_entries_bad E pre : forall n prev e' post,
  chain_ok E prev pre ->
  (previous_hash e' <> last_hash prev pre \/
   exists h', AuditLog._compute_hash E (AuditLog.from_dict e') = Ok h' /\
              AuditLog.get_entry_hash e' <> Some h') ->
  exists r,
    AuditLog.check_entries E (pre ++ e' :: post) n prev = Ok r /\
    AuditLog.valid r = false /\ AuditLog.first_invalid_id r = _id e' /\
    AuditLog.entries_checked r = (n + S (List.length pre))%nat.
Proof.
  induction pre as [|e pre IH]; intros n prev e' post Hok Hbad;
    cbn [app AuditLog.check_entries List.length].
  - cbn [last_hash fold_left] in Hbad.
    destruct (opt_string_eqb (previous_hash e') prev) eqn:Hp; cbn [negb].
    + destruct Hbad as [Hbad|(h' & Hh' & Hne)].
      * exfalso. apply Hbad.
        destruct (previous_hash e') as [x|], prev as [y|]; cbn in Hp; try discriminate;
          [apply String.eqb_eq in Hp; congruence|reflexivity].
      * rewrite Hh'. cbn [bind].
        rewrite (opt_string_eqb_neq (Some h') (AuditLog.get_entry_hash e'))
          by congruence.
        cbn [negb]. eexists. split; [reflexivity|]. cbn. repeat split. lia.
    + eexists. split; [reflexivity|]. cbn. repeat split. lia.
  - destruct Hok as (Hp & (h & Heh & Hh) & Hrest).
    rewrite Hp, opt_string_eqb_refl. cbn [negb]. rewrite Hh. cbn [bind].
    rewrite (get_entry_hash_stored e h Heh) in *. rewrite opt_string_eqb_refl. cbn [negb].
    assert (Hl : last_hash prev (e :: pre) = last_hash (Some h) pre).
    { unfold last_hash. cbn [fold_left].
      rewrite (get_entry_hash_stored e h Heh). reflexivity. }
    rewrite Hl in Hbad.
    destruct (IH (S n) (Some h) e' post Hrest Hbad) as (r & Hr & H1 & H2 & H3).
    exists r. repeat split; auto. rewrite H3. lia.
Qed.

(** An entry whose hash cannot be computed makes the loop raise. *)
Lemma check_entries_raise E pre : forall n prev e' post x,
  chain_ok E prev pre ->
  previous_hash e' = last_hash prev pre ->
  AuditLog._compute_hash E (AuditLog.from_dict e') = Raise x ->
  AuditLog.check_entries E (pre ++ e' :: post) n prev = Raise x.
Proof.
  induction pre as [|e pre IH]; intros n prev e' post x Hok Hprev Hraise;
    cbn [app AuditLog.check_entries List.length].
  - cbn [last_hash fold_left] in Hprev. rewrite Hprev, opt_string_eqb_refl. cbn [negb].
    rewrite Hraise. reflexivity.
  - destruct Hok as (Hp & (h & Heh & Hh) & Hrest).
    rewrite Hp, opt_string_eqb_refl. cbn [negb]. rewrite Hh. cbn [bind].
    rewrite (get_entry_hash_stored e h Heh) in *. rewrite opt_string_eqb_refl. cbn [negb].
    apply IH; [exact Hrest| |exact Hraise].
    rewrite Hprev. unfold last_hash. cbn [fold_left].
    rewrite (get_entry_hash_stored e h Heh). reflexivity.
Qed.

End AuditChainFacts.

Module AuditChainThm.
Import AuditLogData AuditChain StoreFacts AuditChainFacts.

Lemma has_entry_hash_iff d : AuditLog.has_entry_hash d = true <-> entry_hash d <> None.
Proof.
  unfold AuditLog.has_entry_hash, AuditLog.to_dict.
  destruct (_id d), (entry_hash d); cbn; split; intros H; congruence.
Qed.

Lemma filter_all_chained l :
  Forall (fun e => entry_hash e <> None) l -> filter AuditLog.has_entry_hash l = l.
Proof.
  intros H. apply filter_all. eapply Forall_impl; [|exact H].
  intros e He. apply has_entry_hash_iff. exact He.
Qed.

Lemma chain_ok_chained E l : forall prev,
  chain_ok E prev l -> Forall (fun e => entry_hash e <> None) l.
Proof.
  induction l as [|e l IH]; intros prev H; constructor.
  - destruct H as (_ & (h & Heh & _) & _). congruence.
  - destruct H as (_ & _ & H). exact (IH _ H).
Qed.

Lemma filter_chain E prev l :
  chain_ok E prev l -> filter AuditLog.has_entry_hash l = l.
Proof. intros H. apply filter_all_chained. exact (chain_ok_chained E l prev H). Qed.

Lemma chronological_map l l' :
  map timestamp l = map timestamp l' -> chronological l -> chronological l'.
Proof.
  unfold chronological. revert l'. induction l as [|a l IH]; intros [|b l'] Hm H;
    cbn in Hm; try discriminate; [constructor|].
  injection Hm as Hab Hm. inversion H as [|? ? Hs Hf]; subst.
  constructor; [apply IH; assumption|].
  rewrite Forall_forall in *. intros y Hy.
  apply (in_map timestamp) in Hy. rewrite <- Hm in Hy. apply in_map_iff in Hy.
  destruct Hy as (x & Hx & Hin). rewrite <- Hab, <- Hx. apply Hf. exact Hin.
Qed.

Lemma chronological_app_l l1 l2 : chronological (l1 ++ l2) -> chronological l1.
Proof.
  unfold chronological. induction l1 as [|a l1 IH]; cbn; intros H; [constructor|].
  inversion H as [|? ? Hs Hf]; subst. constructor; [apply IH; exact Hs|].
  apply Forall_app in Hf. apply Hf.
Qed.

Lemma last_hash_app prev l e : last_hash prev (l ++ [e]) = AuditLog.get_entry_hash e.
Proof. unfold last_hash. rewrite fold_left_app. reflexivity. Qed.

Lemma serialisable_opt_str o : AuditLog.serialisable (VOpt VStr o) = true.
Proof. destruct o; reflexivity. Qed.

Lemma hashed_serialisable E e :
  AuditLog.serialisable (AuditLog.hashed_data E e) = AuditLog.serialisable (details e).
Proof.
  unfold AuditLog.hashed_data. cbn [AuditLog.serialisable forallb snd].
  rewrite !serialisable_opt_str. cbn [andb]. apply andb_true_r.
Qed.

Lemma compute_hash_ok E e :
  AuditLog.serialisable (details e) = true ->
  AuditLog._compute_hash E e
  = Ok (sha256_hexdigest E (json_dumps E (AuditLog.hashed_data E e))).
Proof.
  intros H. unfold AuditLog._compute_hash, AuditLog.dumps_sorted.
  rewrite hashed_serialisable, H. reflexivity.
Qed.

Lemma compute_hash_raise E e :
  AuditLog.serialisable (details e) = false ->
  AuditLog._compute_hash E e
  = Raise (TypeError "Object of type datetime is not JSON serializable").
Proof.
  intros H. unfold AuditLog._compute_hash, AuditLog.dumps_sorted.
  rewrite hashed_serialisable, H. reflexivity.
Qed.

Lemma compute_hash_inv E e h :
  AuditLog._compute_hash E e = Ok h ->
  AuditLog.serialisable (details e) = true /\
  h = sha256_hexdigest E (json_dumps E (AuditLog.hashed_data E e)).
Proof.
  intros H. destruct (AuditLog.serialisable (details e)) eqn:Hs.
  - rewrite (compute_hash_ok E e Hs) in H. inversion H. auto.
  - rewrite (compute_hash_raise E e Hs) in H. discriminate.
Qed.

(** What cannot be serialised is truthy, so [details or {}] keeps it. *)
Lemma unserialisable_truthy v :
  AuditLog.serialisable v = false -> AuditLog.value_truthy v = true.
Proof. destruct v as [| | | | |[|x l]|[|x d]]; cbn; intros H; congruence. Qed.

Lemma from_dict_details e :
  details (AuditLog.from_dict e)
  = if AuditLog.value_truthy (details e) then details e else VDict [].
Proof. reflexivity. Qed.

Lemma from_dict_serialisable e :
  AuditLog.serialisable (details (AuditLog.from_dict e)) = AuditLog.serialisable (details e).
Proof.
  rewrite from_dict_details. destruct (AuditLog.value_truthy (details e)) eqn:Ht;
    [reflexivity|].
  destruct (AuditLog.serialisable (details e)) eqn:Hs; [reflexivity|].
  apply unserialisable_truthy in Hs. congruence.
Qed.

Lemma get_latest_hash_spec E w :
  digest_nonempty E ->
  chronological (audit_logs (db w)) ->
  chain_ok E (Some AuditLog.GENESIS_HASH) (audit_logs (db w)) ->
  Some (AuditLog._get_latest_hash w) = last_hash (Some AuditLog.GENESIS_HASH) (audit_logs (db w)).
Proof.
  intros Hd Hc Hok. unfold AuditLog._get_latest_hash.
  rewrite (filter_chain E _ _ Hok), (sort_desc_chronological _ Hc).
  destruct (audit_logs (db w)) as [|a l] using rev_ind; [reflexivity|].
  rewrite rev_app_distr. cbn [rev app]. rewrite last_hash_app.
  apply chain_ok_app in Hok. destruct Hok as (_ & Hlast). cbn [chain_ok] in Hlast.
  destruct Hlast as (_ & (h & Heh & Hh) & _).
  rewrite (get_entry_hash_stored a h Heh). cbn [truthy].
  destruct (String.eqb_spec h "") as [He|_]; [|reflexivity].
  exfalso. apply compute_hash_inv in Hh. destruct Hh as (_ & Hh). subst h.
  exact (Hd _ He).
Qed.

Lemma save_spec E e w :
  previous_hash e = None -> constructed e -> AuditLog.serialisable (details e) = true ->
  exists s h,
    AuditLog.save E e w
    = (Ok s, set_db w (set_audit_logs (db w) (audit_logs (db w) ++ [s])%list
                         (S (next_id (db w))))) /\
    timestamp s = timestamp e /\
    previous_hash s = Some (AuditLog._get_latest_hash w) /\
    entry_hash s = Some (Some h) /\
    AuditLog._compute_hash E (AuditLog.from_dict s) = Ok h.
Proof.
  intros Hp Hc Hs. unfold AuditLog.save. rewrite Hp.
  set (self1 := AuditLog.with_hashes e (_id e) (AuditLog.get_entry_hash e)
                  (Some (AuditLog._get_latest_hash w))).
  assert (H1 : AuditLog._compute_hash E self1
               = Ok (sha256_hexdigest E (json_dumps E (AuditLog.hashed_data E self1))))
    by (apply compute_hash_ok; exact Hs).
  rewrite H1. eexists. eexists. split; [reflexivity|].
  split; [reflexivity|]. split; [reflexivity|]. split; [reflexivity|].
  rewrite <- H1. unfold AuditLog._compute_hash. f_equal. f_equal.
  unfold AuditLog.hashed_data, AuditLog.from_dict, AuditLog.init, self1.
  cbn [category event_type message user_id user_type ip_address user_agent details
       timestamp previous_hash entry_hash _id AuditLog.with_hashes].
  unfold constructed in Hc. rewrite <- Hc. reflexivity.
Qed.

Lemma save_all_app E l e : forall w,
  save_all E (l ++ [e]) w
  = match save_all E l w with
    | Ok w1 => match AuditLog.save E e w1 with
               | (Ok _, w2) => Ok w2
               | (Raise x, _) => Raise x
               end
    | Raise x => Raise x
    end.
Proof.
  induction l as [|a l IH]; intros w; cbn [app save_all].
  - destruct (AuditLog.save E e w) as [[s|x] w1]; reflexivity.
  - destruct (AuditLog.save E a w) as [[s|x] w1]; [apply IH|reflexivity].
Qed.

Lemma save_all_spec E w0 entries :
  audit_logs (db w0) = [] ->
  digest_nonempty E ->
  Forall (fun e => _id e = None /\ previous_hash e = None /\ constructed e /\
                   AuditLog.serialisable (details e) = true) entries ->
  chronological entries ->
  exists w,
    save_all E entries w0 = Ok w /\
    map timestamp (audit_logs (db w)) = map timestamp entries /\
    chain_ok E (Some AuditLog.GENESIS_HASH) (audit_logs (db w)).
Proof.
  intros H0 Hd. induction entries as [|e es IH] using rev_ind; intros Hf Hc.
  - exists w0. cbn. rewrite H0. repeat split.
  - apply Forall_app in Hf. destruct Hf as (Hes & He).
    inversion He as [|? ? (_ & Hp & Hk & Hser) _]; subst.
    destruct (IH Hes (chronological_app_l _ _ Hc)) as (w & Hw & Hts & Hok).
    rewrite save_all_app, Hw.
    destruct (save_spec E e w Hp Hk Hser) as (s & h & Hsave & Ht & Hprev & Heh & Hh).
    rewrite Hsave. eexists. split; [reflexivity|]. cbn [db set_db audit_logs set_audit_logs].
    split.
    + rewrite !map_app, Hts. cbn [map]. rewrite Ht. reflexivity.
    + apply chain_ok_app. split; [exact Hok|]. cbn [chain_ok].
      split; [|split; [exists h; split; assumption|exact I]].
      rewrite Hprev. apply (get_latest_hash_spec E); [exact Hd| |exact Hok].
      apply (chronological_map es); [symmetry; exact Hts|].
      exact (chronological_app_l _ _ Hc).
Qed.

Lemma VOpt_VStr_inj a b : VOpt VStr a = VOpt VStr b -> a = b.
Proof. destruct a, b; cbn; congruence. Qed.

(** What a stored entry holds under the eleven keys. *)
Lemma stored_fields e :
  map (stored_field e) field_names
  = [Some (VOpt VStr (category e)); Some (VOpt VStr (event_type e));
     Some (VOpt VStr (message e)); Some (VOpt VStr (user_id e));
     Some (VOpt VStr (user_type e)); Some (VOpt VStr (ip_address e));
     Some (VOpt VStr (user_agent e)); Some (details e); Some (VTime (timestamp e));
     Some (VOpt VStr (previous_hash e)); option_map (VOpt VStr) (entry_hash e)].
Proof.
  unfold stored_field, AuditLog.to_dict. destruct (_id e), (entry_hash e); reflexivity.
Qed.

Lemma differs_nth k e e' :
  differs_only_in k e e' ->
  forall j, (j < 11)%nat ->
    (nth j (map (stored_field e') field_names) None
     = nth j (map (stored_field e) field_names) None <-> j <> k).
Proof.
  intros H j Hj. specialize (H j Hj).
  do 11 (destruct j as [|j]; [exact H|]). lia.
Qed.

(** The fields that a change of key [k] leaves alone. *)
Lemma differs_kept k e e' :
  differs_only_in k e e' ->
  (k <> 0%nat -> category e' = category e) /\
  (k <> 1%nat -> event_type e' = event_type e) /\
  (k <> 2%nat -> message e' = message e) /\
  (k <> 3%nat -> user_id e' = user_id e) /\
  (k <> 4%nat -> user_type e' = user_type e) /\
  (k <> 5%nat -> ip_address e' = ip_address e) /\
  (k <> 6%nat -> user_agent e' = user_agent e) /\
  (k <> 7%nat -> details e' = details e) /\
  (k <> 8%nat -> timestamp e' = timestamp e) /\
  (k <> 9%nat -> previous_hash e' = previous_hash e) /\
  (k <> 10%nat -> entry_hash e' = entry_hash e).
Proof.
  intros Hd. pose proof (differs_nth k e e' Hd) as Hn. rewrite !stored_fields in Hn.
  repeat split; intros Hk.
  - pose proof (proj2 (Hn 0%nat ltac:(lia)) ltac:(congruence)) as H. cbn [nth] in H.
    injection H as H. apply VOpt_VStr_inj. exact H.
  - pose proof (proj2 (Hn 1%nat ltac:(lia)) ltac:(congruence)) as H. cbn [nth] in H.
    injection H as H. apply VOpt_VStr_inj. exact H.
  - pose proof (proj2 (Hn 2%nat ltac:(lia)) ltac:(congruence)) as H. cbn [nth] in H.
    injection H as H. apply VOpt_VStr_inj. exact H.
  - pose proof (proj2 (Hn 3%nat ltac:(lia)) ltac:(congruence)) as H. cbn [nth] in H.
    injection H as H. apply VOpt_VStr_inj. exact H.
  - pose proof (proj2 (Hn 4%nat ltac:(lia)) ltac:(congruence)) as H. cbn [nth] in H.
    injection H as H. apply VOpt_VStr_inj. exact H.
  - pose proof (proj2 (Hn 5%nat ltac:(lia)) ltac:(congruence)) as H. cbn [nth] in H.
    injection H as H. apply VOpt_VStr_inj. exact H.
  - pose proof (proj2 (Hn 6%nat ltac:(lia)) ltac:(congruence)) as H. cbn [nth] in H.
    injection H as H. apply VOpt_VStr_inj. exact H.
  - pose proof (proj2 (Hn 7%nat ltac:(lia)) ltac:(congruence)) as H. cbn [nth] in H.
    injection H as H. exact H.
  - pose proof (proj2 (Hn 8%nat ltac:(lia)) ltac:(congruence)) as H. cbn [nth] in H.
    injection H as H. exact H.
  - pose proof (proj2 (Hn 9%nat ltac:(lia)) ltac:(congruence)) as H. cbn [nth] in H.
    injection H as H. apply VOpt_VStr_inj. exact H.
  - pose proof (proj2 (Hn 10%nat ltac:(lia)) ltac:(congruence)) as H. cbn [nth] in H.
    destruct (entry_hash e') as [a|], (entry_hash e) as [b|]; cbn in H; try discriminate;
      [|reflexivity].
    injection H as H. apply VOpt_VStr_inj in H. congruence.
Qed.

(** The field that a change of key [k] alters. *)
Lemma differs_changed k e e' :
  (k < 11)%nat -> differs_only_in k e e' ->
  nth k (map (stored_field e') field_names) None
  <> nth k (map (stored_field e) field_names) None.
Proof.
  intros Hk Hd Heq. apply (proj1 (differs_nth k e e' Hd k Hk) Heq). reflexivity.
Qed.

(** A visible change of one of the eleven keys breaks one of the two
    checks of [verify_chain] at the changed entry. *)
Lemma tampered_entry_bad E k e e' prev h :
  (k < 11)%nat -> differs_only_in k e e' -> visible E k e e' ->
  previous_hash e = prev ->
  entry_hash e = Some (Some h) ->
  AuditLog._compute_hash E (AuditLog.from_dict e) = Ok h ->
  (AuditLog.hashed_data E (AuditLog.from_dict e')
   <> AuditLog.hashed_data E (AuditLog.from_dict e) ->
   sha256_hexdigest E (json_dumps E (AuditLog.hashed_data E (AuditLog.from_dict e')))
   <> sha256_hexdigest E (json_dumps E (AuditLog.hashed_data E (AuditLog.from_dict e)))) ->
  previous_hash e' <> prev \/
  exists h', AuditLog._compute_hash E (AuditLog.from_dict e') = Ok h' /\
             AuditLog.get_entry_hash e' <> Some h'.
Proof.
  intros Hk Hd (Hkey & Hdet & Hts) Hp Heh Hh Hinj.
  destruct (differs_kept k e e' Hd)
    as (K0 & K1 & K2 & K3 & K4 & K5 & K6 & K7 & K8 & K9 & K10).
  pose proof (differs_changed k e e' Hk Hd) as Hdiff. rewrite !stored_fields in Hdiff.
  apply compute_hash_inv in Hh. destruct Hh as (Hser & Hh).
  rewrite from_dict_serialisable in Hser.
  destruct (Nat.eq_dec k 9) as [->|Hk9].
  { left. rewrite <- Hp. intros Heq. apply Hdiff. cbn [nth]. rewrite Heq. reflexivity. }
  right. specialize (K9 Hk9).
  destruct (Nat.eq_dec k 10) as [->|Hk10].
  - assert (Hhd : AuditLog.hashed_data E (AuditLog.from_dict e')
                  = AuditLog.hashed_data E (AuditLog.from_dict e)).
    { unfold AuditLog.hashed_data, AuditLog.from_dict, AuditLog.init.
      cbn [category event_type message user_id user_type ip_address user_agent details
           timestamp previous_hash].
      rewrite K0, K1, K2, K3, K4, K5, K6, K7, K8, K9 by lia. reflexivity. }
    exists h. split.
    + rewrite compute_hash_ok by (rewrite from_dict_serialisable, K7 by lia; exact Hser).
      rewrite Hhd, <- Hh. reflexivity.
    + apply has_entry_hash_iff in Hkey. unfold AuditLog.get_entry_hash.
      destruct (entry_hash e') as [x|] eqn:Hx; [|congruence].
      intros Heq. apply Hdiff. cbn [nth]. rewrite Heh, Heq. reflexivity.
  - specialize (K10 Hk10).
    assert (Hser' : AuditLog.serialisable (details e') = true).
    { destruct (Nat.eq_dec k 7) as [->|Hk7]; [apply Hdet; reflexivity|].
      rewrite K7 by exact Hk7. exact Hser. }
    eexists. split.
    + apply compute_hash_ok. rewrite from_dict_serialisable. exact Hser'.
    + unfold AuditLog.get_entry_hash. rewrite K10, Heh, Hh.
      intros Heq. injection Heq as Heq. symmetry in Heq. revert Heq. apply Hinj.
      unfold AuditLog.hashed_data, AuditLog.from_dict, AuditLog.init.
      cbn [category event_type message user_id user_type ip_address user_agent details
           timestamp previous_hash].
      intros Heq. injection Heq as H0 H1 H2 H3 H4 H5 H6 H7 H8 _.
      apply VOpt_VStr_inj in H0, H1, H2, H3, H4, H5, H6.
      assert (Hlt : (k < 9)%nat) by lia.
      do 7 (destruct k as [|k]; [apply Hdiff; cbn [nth]; congruence|]).
      destruct k as [|k].
      * destruct (Hdet eq_refl) as (_ & Htruthy). apply Hdiff. cbn [nth]. f_equal.
        destruct (AuditLog.value_truthy (details e')) eqn:T',
                 (AuditLog.value_truthy (details e)) eqn:T;
          try exact H7; destruct Htruthy as [Ht|Ht]; try discriminate Ht.
        -- rewrite H7 in T'. discriminate T'.
        -- rewrite <- H7 in T. discriminate T.
      * destruct k as [|k]; [|lia]. exfalso. exact (Hts eq_refl H8).
Qed.

(** C5 (amended): on a log that starts empty, fresh entries built by the
    constructor with serialisable details and saved with strictly
    increasing timestamps are all appended, and form a chain that
    [verify_chain] accepts, counting every entry.  If one stored entry is
    then replaced by a copy that differs under exactly one of the eleven
    keys, keeps its [_id] and its chronological position, and the change
    is one that [verify_chain] reads ([visible]), then [verify_chain]
    reports the chain invalid with [first_invalid_id] the [_id] of that
    entry, provided the digest separates the two hashed dictionaries.
    Changed [details] that cannot be serialised make [verify_chain] raise
    [TypeError] instead. *)
Theorem audit_chain_integrity E w0 entries :
  audit_logs (db w0) = [] ->
  digest_nonempty E ->
  Forall (fun e => _id e = None /\ previous_hash e = None /\ constructed e /\
                   AuditLog.serialisable (details e) = true) entries ->
  chronological entries ->
  exists w,
    save_all E entries w0 = Ok w /\
    AuditLog.verify_chain E None w
    = Ok {| AuditLog.valid := true; AuditLog.entries_checked := List.length entries;
            AuditLog.first_invalid_id := None; AuditLog.error := None |} /\
    forall pre e post e' k w',
      audit_logs (db w) = (pre ++ e :: post)%list ->
      audit_logs (db w') = (pre ++ e' :: post)%list ->
      (k < 11)%nat -> differs_only_in k e e' ->
      _id e' = _id e ->
      chronological (pre ++ e' :: post) ->
      (visible E k e e' ->
       (AuditLog.hashed_data E (AuditLog.from_dict e')
        <> AuditLog.hashed_data E (AuditLog.from_dict e) ->
        sha256_hexdigest E (json_dumps E (AuditLog.hashed_data E (AuditLog.from_dict e')))
        <> sha256_hexdigest E (json_dumps E (AuditLog.hashed_data E (AuditLog.from_dict e)))) ->
       exists r,
         AuditLog.verify_chain E None w' = Ok r /\
         AuditLog.valid r = false /\ AuditLog.first_invalid_id r = _id e /\
         AuditLog.entries_checked r = S (List.length pre)) /\
      (k = 7%nat -> AuditLog.serialisable (details e') = false ->
       AuditLog.verify_chain E None w'
       = Raise (TypeError "Object of type datetime is not JSON serializable")).
Proof.
  intros H0 Hd Hf Hc.
  destruct (save_all_spec E w0 entries H0 Hd Hf Hc) as (w & Hw & Hts & Hok).
  exists w. split; [exact Hw|].
  assert (Hchr : chronological (audit_logs (db w)))
    by (apply (chronological_map entries); [symmetry; exact Hts|exact Hc]).
  split.
  - unfold AuditLog.verify_chain.
    rewrite (filter_chain E _ _ Hok), (sort_asc_chronological _ Hchr).
    rewrite (check_entries_ok E _ 0 _ Hok). cbn [Nat.add].
    rewrite <- (length_map timestamp), Hts, length_map. reflexivity.
  - intros pre e post e' k w' Hl Hl' Hk Hdiff Hid Hpos.
    rewrite Hl in Hok. apply chain_ok_app in Hok. destruct Hok as (Hpre & He).
    cbn [chain_ok] in He. destruct He as (Hp & (h & Heh & Hh) & Hpost).
    destruct (differs_kept k e e' Hdiff)
      as (_ & _ & _ & _ & _ & _ & _ & _ & _ & K9 & K10).
    assert (Hfilter : AuditLog.has_entry_hash e' = true ->
                      filter AuditLog.has_entry_hash (pre ++ e' :: post)
                      = (pre ++ e' :: post)%list).
    { intros Hkey. apply filter_all_chained. apply Forall_app. split.
      - exact (chain_ok_chained E pre _ Hpre).
      - constructor; [apply has_entry_hash_iff; exact Hkey|].
        exact (chain_ok_chained E post _ Hpost). }
    split.
    + intros Hvis Hinj. unfold AuditLog.verify_chain.
      rewrite Hl', (Hfilter (proj1 Hvis)), (sort_asc_chronological _ Hpos).
      rewrite <- Hid.
      apply (check_entries_bad E pre 0 (Some AuditLog.GENESIS_HASH) e' post Hpre).
      apply (tampered_entry_bad E k e e' _ h); assumption.
    + intros -> Hser. unfold AuditLog.verify_chain.
      assert (Hkey : AuditLog.has_entry_hash e' = true).
      { apply has_entry_hash_iff. rewrite K10 by lia. congruence. }
      rewrite Hl', (Hfilter Hkey), (sort_asc_chronological _ Hpos).
      apply (check_entries_raise E pre 0 (Some AuditLog.GENESIS_HASH) e' post _ Hpre).
      * rewrite K9 by lia. exact Hp.
      * apply compute_hash_raise. rewrite from_dict_serialisable. exact Hser.
Qed.

End AuditChainThm.

Module ShamirChecks.
Import ShamirSecretSharing ShamirExample ShamirRuns ShamirTheorems ShamirPrefix.

Lemma shamir_round_trip_scenario :
  exists shares,
    split_secret sss rnd secret = Ok shares /\
    List.length shares = Z.to_nat 5 /\
    forall subset,
      NoDup subset -> incl subset shares -> List.length subset = Z.to_nat 3 ->
      reconstruct_secret sss subset (List.length secret) = Some (Ok secret).
Proof.
  apply (shamir_round_trip 3 5 sss rnd secret);
    [lia | lia | reflexivity | vm_compute; reflexivity].
Defined.

Lemma four_shares_distinct : NoDup (firstn (Z.to_nat 3) four_shares).
Proof.
  vm_compute.
  repeat (constructor; [intros H; repeat (destruct H as [H|H]; [discriminate H|]); exact H|]).
  constructor.
Qed.

Lemma four_shares_incl : incl (firstn (Z.to_nat 3) four_shares) scenario_shares.
Proof.
  intros x Hx. vm_compute in Hx. destruct Hx as [<-|[<-|[<-|[]]]]; vm_compute; auto 6.
Qed.

Lemma reconstruct_uses_first_shares_scenario :
  reconstruct_secret sss four_shares (List.length secret)
  = reconstruct_secret sss (firstn (Z.to_nat 3) four_shares) (List.length secret) /\
  reconstruct_secret sss four_shares (List.length secret) = Some (Ok secret).
Proof.
  destruct (reconstruct_uses_first_shares 3 5 sss rnd secret scenario_shares four_shares)
    as [Hprefix Hsecret];
    [lia | lia | reflexivity | vm_compute; reflexivity | vm_compute; reflexivity
     | vm_compute; lia |].
  split; [exact Hprefix|].
  apply Hsecret; [exact four_shares_distinct | exact four_shares_incl].
Defined.

Lemma repeated_index_not_removed :
  split_secret sss small_rnd small_secret = Ok small_shares /\
  map fst repeated_shares = [1; 1; 2; 3] /\
  incl repeated_shares small_shares /\
  reconstruct_secret sss repeated_shares (List.length small_secret) = Some (Ok [x0f]) /\
  reconstruct_secret sss repeated_shares (List.length small_secret)
  <> Some (Ok small_secret).
Proof.
  split; [vm_compute; reflexivity|]. split; [vm_compute; reflexivity|]. split.
  - intros x Hx. vm_compute in Hx. destruct Hx as [<-|[<-|[<-|[<-|[]]]]]; vm_compute; auto 6.
  - split; [vm_compute; reflexivity|]. vm_compute. discriminate.
Qed.

End ShamirChecks.

Module CryptoChecks.
Import ElectionCrypto CryptoRuns HybridThm.

Lemma hybrid_requires_both_keys_toy :
  recovered_keys toy toy_package tt [] = Ok ([Byte.x6b], [Byte.x13]) /\
  decrypt_vote toy "package" tt (Some []) = Raise HybridMismatch.
Proof.
  split; [vm_compute; reflexivity|].
  destruct (hybrid_requires_both_keys toy "package" toy_package tt [] eq_refl eq_refl)
    as [Hmismatch _].
  apply (Hmismatch [Byte.x6b] [Byte.x13]); [vm_compute; reflexivity | discriminate].
Defined.

End CryptoChecks.

Module TallyChecks.
Import Tally TallyRuns TallyThm.

Lemma scenario_votes_distinct : NoDup (map fst scenario_votes).
Proof.
  unfold scenario_votes. cbn [map fst].
  repeat (constructor; [intros H; repeat (destruct H as [H|H]; [discriminate H|]); exact H|]).
  constructor.
Qed.

Lemma pr_allocation_total_scenario :
  _allocate_pr_seats scenario_votes 10 = Ok [("A", 4); ("B", 3); ("C", 2); ("D", 1)] /\
  exists allocation,
    _allocate_pr_seats scenario_votes 10 = Ok allocation /\
    map fst allocation = map fst scenario_votes /\
    sum_values allocation = 10.
Proof.
  split; [vm_compute; reflexivity|].
  destruct (pr_allocation_total scenario_votes 10 scenario_votes_distinct) as [_ Hsome];
    [discriminate|].
  apply Hsome.
  - intros kv Hkv. unfold scenario_votes in Hkv.
    repeat (destruct Hkv as [<-|Hkv]; [cbn [snd]; lia|]). destruct Hkv.
  - vm_compute. reflexivity.
  - lia.
  - vm_compute. discriminate.
Defined.

Lemma pr_allocation_overshoot :
  NoDup (map fst two_parties) /\ 0 < sum_values two_parties /\ 1 <= many_seats /\
  _allocate_pr_seats two_parties many_seats
  = Ok [("A", 2730127302211518); ("B", 5733267334644187)] /\
  sum_values [("A", 2730127302211518); ("B", 5733267334644187)] = many_seats + 2.
Proof.
  split.
  - unfold two_parties. cbn [map fst].
    repeat (constructor; [intros H; repeat (destruct H as [H|H]; [discriminate H|]); exact H|]).
    constructor.
  - repeat split; vm_compute; reflexivity || discriminate.
Qed.

End TallyChecks.

Module StoreChecks.
Import Scenario ScenarioRun Runs Schema.
Import VotingProps.

Lemma issue_run :
  exists r, TokenService.issue_token env voter eid world0 = Some (r, voter1, world1).
Proof. eexists. vm_compute. reflexivity. Qed.

Lemma cast_run :
  VoteService.cast_dual_ballot_with_token env voter1 eid cid pid token1 world1
  = ((true, "Your dual ballot has been cast successfully!",
      Some {| VoteService.receipt_id := "RCP-000000000005";
              VoteService.timestamp := "%B %d, %Y at %I:%M %p@1700000004" |}),
     voter2, world2).
Proof. vm_compute. reflexivity. Qed.

Lemma partial_run :
  VoteService.cast_dual_ballot_with_token env voter1 eid cid pid token1 world1_pr
  = ((false, "PR ballot failed: This voting token has already been fully used", None),
     voter1, snd partial_result).
Proof. vm_compute. reflexivity. Qed.

Lemma world2_reachable : reachable env world0 world2.
Proof.
  destruct issue_run as [r Hissue].
  eapply reach_cast_with_token; [|exact cast_run].
  eapply reach_issue_token; [apply reach_init|exact Hissue].
Qed.

Lemma world0_anonymous : forall d, In d (stored_documents (db world0)) -> anonymous d.
Proof.
  intros d Hd. unfold stored_documents in Hd. rewrite !in_app_iff in Hd.
  destruct Hd as [Hd|[Hd|[Hd|[Hd|Hd]]]]; apply in_map_iff in Hd;
    destruct Hd as (x & <- & Hx); try (destruct Hx; fail); unfold anonymous.
  - intros (He & _). exact (Anonymity.election_no_elector x He).
  - intros (_ & Hb). exact (Anonymity.voter_no_ballot x Hb).
Qed.

Lemma elector_anonymity_run :
  (forall d, In d (stored_documents (db world2)) -> anonymous d) /\
  (forall v, In v (votes (db world2)) ->
     In "token_id" (document_keys (Vote.stored v)) /\
     In "encrypted_vote" (document_keys (Vote.stored v)) /\
     ~ mentions_elector (Vote.stored v)) /\
  (forall t, In t (voting_tokens (db world2)) -> ~ mentions_elector (VotingToken.to_dict t)) /\
  (forall v, In v (voters (db world2)) ->
     In "voter_id" (document_keys (Voter.to_dict v)) /\
     ~ mentions_ballot (Voter.to_dict v)).
Proof.
  exact (AnonymityThm.elector_anonymity env world0 world2 world0_anonymous world2_reachable).
Defined.

Lemma partial_cast_policy_run :
  (forall m, "PR ballot failed: This voting token has already been fully used"
             = "PR ballot failed: " ++ m ->
     false = false /\ voter1 = voter1 /\
     voters (db (snd partial_result)) = voters (db world1_pr) /\
     exists v, votes (db (snd partial_result)) = (votes (db world1_pr) ++ [v])%list /\
               VoteData.ballot_type v = "fptp") /\
  (false = false ->
   voter1 = voter1 /\ voters (db (snd partial_result)) = voters (db world1_pr)) /\
  (false = true ->
     In eid (VoterData.elections_voted voter1) /\
     exists v1 v2, votes (db (snd partial_result)) = (votes (db world1_pr) ++ [v1; v2])%list /\
                   VoteData.ballot_type v1 = "fptp" /\ VoteData.ballot_type v2 = "pr").
Proof.
  exact (PartialCast.partial_cast_policy env voter1 eid cid pid token1 world1_pr
           false "PR ballot failed: This voting token has already been fully used" None
           voter1 (snd partial_result) partial_run).
Defined.

(** The FPTP ballot is consumed and stored, the PR consumption fails, and
    the elector is not marked as having voted. *)
Lemma partial_cast_leaves_elector_unmarked :
  map VotingTokenData.ballots_used (voting_tokens (db world1_pr)) = [["pr"]] /\
  fst (fst partial_result)
  = (false, "PR ballot failed: This voting token has already been fully used", None) /\
  map VotingTokenData.ballots_used (voting_tokens (db (snd partial_result)))
  = [["pr"; "fptp"]] /\
  map VoteData.ballot_type (votes (db (snd partial_result))) = ["fptp"] /\
  VoterData.elections_voted (snd (fst partial_result)) = [] /\
  map VoterData.elections_voted (voters (db (snd partial_result))) = [[]].
Proof. vm_compute. repeat split. Qed.

Lemma inactive_election_rejects_run :
  ElectionData.start_date election_off <= utcnow env 0
  <= ElectionData.end_date election_off /\
  exists w',
    db w' = db world_off /\
    TokenService.issue_token env voter eid world_off
    = Some ((false, VotingProps.not_ongoing_message env election_off world_off, None),
            voter, w') /\
    VoteService.cast_dual_ballot_with_token env voter eid cid pid token1 world_off
    = ((false, VotingProps.not_ongoing_message env election_off world_off, None),
       voter, w') /\
    (VotingProps.not_ongoing_message env election_off world_off
     = "This election has ended" \/
     VotingProps.not_ongoing_message env election_off world_off
     = "This election has not started yet").
Proof.
  split; [vm_compute; split; discriminate|].
  apply (InactiveElection.inactive_election_rejects env voter eid cid pid token1
           world_off election_off); reflexivity.
Defined.

End StoreChecks.

Module ChainChecks.
Import Scenario ScenarioRun Runs AuditChain AuditChainThm AuditLogData.
Import VotingProps.

Lemma env_digest_nonempty : digest_nonempty env.
Proof. intros s. cbn. discriminate. Qed.

Lemma entries_constructed :
  Forall (fun e => _id e = None /\ previous_hash e = None /\ constructed e /\
                   AuditLog.serialisable (details e) = true) entries.
Proof. repeat constructor. Qed.

Lemma entries_chronological : chronological entries.
Proof. repeat constructor. Qed.

Lemma entries_saved : save_all env entries world0 = Ok logged.
Proof. vm_compute. reflexivity. Qed.

Lemma user_change_differs :
  differs_only_in 3 stored_first (with_user_id stored_first (Some "VTR-TAMPERED")).
Proof.
  intros j Hj.
  do 11 (destruct j as [|j];
         [vm_compute; split;
          [intros H; try discriminate H; intros H'; discriminate H'
          |intros H; try reflexivity; exfalso; apply H; reflexivity]|]).
  lia.
Qed.

Lemma user_change_visible :
  visible env 3 stored_first (with_user_id stored_first (Some "VTR-TAMPERED")).
Proof. split; [reflexivity|]. split; intros H; discriminate H. Qed.

Lemma audit_chain_integrity_run :
  AuditLog.verify_chain env None logged
  = Ok {| AuditLog.valid := true; AuditLog.entries_checked := 2;
          AuditLog.first_invalid_id := None; AuditLog.error := None |} /\
  (exists r,
     AuditLog.verify_chain env None logged_user_changed = Ok r /\
     AuditLog.valid r = false /\ AuditLog.first_invalid_id r = _id stored_first /\
     AuditLog.entries_checked r = 1%nat).
Proof.
  destruct (audit_chain_integrity env world0 entries eq_refl env_digest_nonempty
              entries_constructed entries_chronological) as (w & Hw & Hvalid & Htamper).
  rewrite entries_saved in Hw. injection Hw as <-.
  split; [exact Hvalid|].
  apply (Htamper [] stored_first stored_rest
                 (with_user_id stored_first (Some "VTR-TAMPERED")) 3%nat logged_user_changed).
  - vm_compute. reflexivity.
  - vm_compute. reflexivity.
  - lia.
  - exact user_change_differs.
  - reflexivity.
  - vm_compute. repeat constructor.
  - exact user_change_visible.
  - intros _. vm_compute. discriminate.
Defined.

(** The stored timestamp of the first entry is changed: by a quarter of a
    second the chain still verifies; by five seconds the chain is reported
    broken at the other entry. *)
Lemma timestamp_change_not_localised :
  map timestamp (audit_logs (db logged)) = [1700000000000000; 1700000001000000] /\
  map _id (audit_logs (db logged)) = [Some 2%nat; Some 3%nat] /\
  map timestamp (audit_logs (db logged_time_changed))
  = [1700000000250000; 1700000001000000] /\
  AuditLog.verify_chain env None logged_time_changed
  = Ok {| AuditLog.valid := true; AuditLog.entries_checked := 2;
          AuditLog.first_invalid_id := None; AuditLog.error := None |} /\
  map timestamp (audit_logs (db logged_time_moved))
  = [1700000005000000; 1700000001000000] /\
  AuditLog.verify_chain env None logged_time_moved
  = Ok {| AuditLog.valid := false; AuditLog.entries_checked := 1;
          AuditLog.first_invalid_id := Some 3%nat;
          AuditLog.error := Some "Chain break: previous_hash mismatch at entry 3" |}.
Proof. vm_compute. repeat split. Qed.

(** The stored [{}] of an entry logged without details is replaced by
    [null]: [from_dict] reads it back as [{}] and the chain verifies. *)
Example falsy_details_not_detected :
  map details (audit_logs (db logged_bare)) = [VDict []; VDict []] /\
  map details (audit_logs (db logged_details_nulled)) = [VNone; VDict []] /\
  AuditLog.verify_chain env None logged_details_nulled
  = Ok {| AuditLog.valid := true; AuditLog.entries_checked := 2;
          AuditLog.first_invalid_id := None; AuditLog.error := None |}.
Proof. vm_compute. repeat split. Qed.

(** The key [entry_hash] is removed from the last entry: the query of
    [verify_chain] leaves the entry out and the chain verifies, one entry
    shorter. *)
Example dropped_hash_key_not_detected :
  map AuditLog.has_entry_hash (audit_logs (db logged)) = [true; true] /\
  map AuditLog.has_entry_hash (audit_logs (db logged_hash_dropped)) = [true; false] /\
  AuditLog.verify_chain env None logged_hash_dropped
  = Ok {| AuditLog.valid := true; AuditLog.entries_checked := 1;
          AuditLog.first_invalid_id := None; AuditLog.error := None |}.
Proof. vm_compute. repeat split. Qed.

(** A [datetime] put in the [details] of a stored entry makes
    [verify_chain] raise. *)
Example dated_details_raise :
  AuditLog.verify_chain env None logged_details_dated
  = Raise (TypeError "Object of type datetime is not JSON serializable").
Proof. vm_compute. reflexivity. Qed.

End ChainChecks.

Module ReceiptChecks.
Import Scenario ScenarioRun Runs ReceiptFacts ReceiptIntegrity StoreChecks.
Import VotingProps.

Lemma receipt_integrity_first_record_run :
  Vote.valid (fst (Vote.verify_receipt env "RCP-000000000005" false world2)) = true /\
  Vote.verify_receipt env "RCP-000000000005" false (tamper_vote 0 world2)
  = (Vote.rejected "Receipt integrity check failed.", tamper_vote 0 world2) /\
  Vote.valid (fst (Vote.verify_receipt env "RCP-000000000005" false
                     (blank_vote_time 0 world2))) = true.
Proof.
  destruct (ReceiptIntegrityThm.receipt_integrity_first_record
              env voter1 eid cid pid token1 world1
              "Your dual ballot has been cast successfully!"
              {| VoteService.receipt_id := "RCP-000000000005";
                 VoteService.timestamp := "%B %d, %Y at %I:%M %p@1700000004" |}
              voter2 world2 false)
    as (Hvalid & Hmutated & Hblanked).
  - intros u Hu. vm_compute in Hu. destruct Hu.
  - exact cast_run.
  - split; [exact Hvalid|]. split.
    + apply (Hmutated (tamper_vote 0 world2) "RCP-000000000005" "RCP-000000000005"
                      [] fptp_vote (with_election_id fptp_vote "ELC-OTHER") [pr_vote] false).
      * vm_compute. reflexivity.
      * intros u Hu. destruct Hu.
      * vm_compute. reflexivity.
      * vm_compute. reflexivity.
      * vm_compute. reflexivity.
      * vm_compute. reflexivity.
      * right. left. vm_compute. repeat split. discriminate.
      * vm_compute. reflexivity.
      * vm_compute. reflexivity.
      * intros _. vm_compute. discriminate.
    + apply (Hblanked (blank_vote_time 0 world2) eid "RCP-000000000005"
                      [] fptp_vote (without_timestamp_str fptp_vote) [pr_vote] false).
      * vm_compute. reflexivity.
      * intros u Hu. destruct Hu.
      * vm_compute. repeat split.
      * vm_compute. repeat split.
Defined.

(** The [election_id] of the second record of the receipt is overwritten
    and the receipt still verifies. *)
Lemma second_record_not_checked :
  map VoteData.receipt_id (votes (db world2))
  = [Some "RCP-000000000005"; Some "RCP-000000000005"] /\
  map VoteData.election_id (votes (db world2)) = [eid; eid] /\
  map VoteData.receipt_id (votes (db (tamper_vote 1 world2)))
  = [Some "RCP-000000000005"; Some "RCP-000000000005"] /\
  map VoteData.election_id (votes (db (tamper_vote 1 world2))) = [eid; "ELC-OTHER"] /\
  Vote.valid (fst (Vote.verify_receipt env "RCP-000000000005" false (tamper_vote 1 world2)))
  = true.
Proof. vm_compute. repeat split. Qed.

End ReceiptChecks.

Module ElectorSetChecks.
Import Scenario ScenarioRun Runs ElectorSets StoreChecks.
Import VotingProps.

Lemma world1_inv : db_inv (db world1).
Proof. constructor; [|constructor]. intros e He. vm_compute in He. destruct He. Qed.

Lemma voter1_inv : voted_subset_issued voter1.
Proof. intros e He. vm_compute in He. destruct He. Qed.

Lemma voter1_token_recorded : token_recorded world1 voter1 eid.
Proof.
  intros d Hd _. vm_compute in Hd. destruct Hd as [<-|[]]. vm_compute. left. reflexivity.
Qed.

Lemma elector_sets_preserved_run :
  (forall r voter' w',
      TokenService.issue_token env voter1 eid world1 = Some (r, voter', w') ->
      db_inv (db w') /\ voted_subset_issued voter') /\
  (forall r voter' w',
      VoteService.cast_dual_ballot env voter1 eid cid pid world1 = (r, voter', w') ->
      db_inv (db w') /\ voted_subset_issued voter') /\
  (forall r voter' w',
      VoteService.cast_dual_ballot_with_token env voter1 eid cid pid token1 world1
      = (r, voter', w') ->
      db_inv (db w') /\ voted_subset_issued voter').
Proof.
  destruct (ElectorSetsThm.elector_sets_preserved env voter1 eid cid pid token1 world1
              world1_inv voter1_inv) as [Hissue Hcast].
  split; [exact Hissue|]. apply Hcast; [reflexivity | exact voter1_token_recorded].
Defined.

(** The token-less path marks a voter who holds no token. *)
Lemma cast_without_token_breaks_inclusion :
  db_inv (db world0) /\ voted_subset_issued voter /\
  fst (fst legacy_result) = (true, "Your dual ballot has been cast successfully!") /\
  VoterData.elections_voted (snd (fst legacy_result)) = [eid] /\
  VoterData.token_issued_for (snd (fst legacy_result)) = [] /\
  ~ voted_subset_issued (snd (fst legacy_result)) /\
  ~ db_inv (db (snd legacy_result)).
Proof.
  split; [constructor; [|constructor]; intros e He; destruct He|].
  split; [intros e He; destruct He|].
  split; [vm_compute; reflexivity|]. split; [vm_compute; reflexivity|].
  split; [vm_compute; reflexivity|]. split.
  - intros H. specialize (H eid). vm_compute in H. apply H. left. reflexivity.
  - intros H. vm_compute in H. inversion H as [|x l Hx Hl]; subst.
    apply (Hx eid). left. reflexivity.
Qed.

End ElectorSetChecks.

(** ** Further properties of the Shamir engine *)

Module ShamirMore.
Import Py ShamirSecretSharing Fibonacci Poly ShamirSpec PolyFacts EnumFacts LagrangeFacts GcdFacts PyFacts ShamirFacts ShamirFacts2 ShamirTheorems ShareText.

Lemma fib_pair_succ n : fib_pair n = (fib n, fib (S n)).
Proof.
  unfold fib. cbn [fib_pair]. destruct (fib_pair n) as [x y]. reflexivity.
Qed.

(** Two consecutive Fibonacci numbers on which the recursion of
    [extended_gcd] nests deeper than the interpreter allows. *)
Lemma mod_inverse_recursion_error : _mod_inverse (fib 1100) (fib 1101) = None.
Proof. vm_compute. reflexivity. Qed.

(** X1: for a modulus [m] with [1 < m <= 2 ^ 521], which includes the
    prime of the scheme, [_mod_inverse] returns [x] in [0, m) with
    [a * x = gcd(a, m)] modulo [m], hence the inverse of [a] exactly when
    [a] and [m] are coprime; the recursion of [extended_gcd] nests at most
    752 calls, within the limit of 1000.  The bound on [m] matters: on
    larger arguments the recursion can exceed the limit, and the call
    ends in [RecursionError]. *)
Theorem mod_inverse_bezout a m :
  1 < m <= 2 ^ 521 ->
  (exists x, _mod_inverse a m = Some x /\ 0 <= x < m /\
             (a * x) mod m = Z.gcd a m mod m /\
             ((a * x) mod m = 1 <-> Z.gcd a m = 1)) /\
  (forall frames, (752 <= frames)%nat -> extended_gcd frames (a mod m) m <> None) /\
  (exists a' m', 1 < m' /\ _mod_inverse a' m' = None).
Proof.
  intros Hm.
  pose proof (Z.mod_pos_bound a m ltac:(lia)) as Hr.
  split; [|split].
  - unfold _mod_inverse.
    destruct (extended_gcd_returns recursion_limit (a mod m) m ltac:(lia) ltac:(lia)
                limit_suffices) as (g & x & y & He & Hbez & Hg).
    rewrite He. eexists. split; [reflexivity|].
    assert (Hgcd : g = Z.gcd a m).
    { rewrite Hg. rewrite Z.gcd_mod by lia. apply Z.gcd_comm. }
    assert (Hax : (a * ((x mod m + m) mod m)) mod m = g mod m).
    { rewrite <- Z.add_mod_idemp_r, Z.mod_same, Z.add_0_r, Z.mod_mod by lia.
      rewrite Z.mul_mod_idemp_r by lia.
      rewrite <- Z.mul_mod_idemp_l by lia.
      replace g with (a mod m * x + y * m) by lia.
      rewrite Z.mod_add by lia. reflexivity. }
    split; [apply Z.mod_pos_bound; lia|]. rewrite Hax, <- Hgcd.
    split; [reflexivity|].
    assert (Hgr : 0 < g <= m).
    { pose proof (Z.gcd_nonneg a m).
      assert (g <> 0) by (rewrite Hgcd; intros H0; apply Z.gcd_eq_0_r in H0; lia).
      assert ((g | m)) by (rewrite Hgcd; apply Z.gcd_divide_r).
      pose proof (Z.divide_pos_le g m ltac:(lia) H1). lia. }
    split; intros H.
    + destruct (Z.eq_dec g m) as [->|Hne].
      * rewrite Z.mod_same in H by lia. lia.
      * rewrite Z.mod_small in H by lia. exact H.
    + rewrite H. apply Z.mod_small. lia.
  - intros frames Hf.
    destruct (extended_gcd_returns frames (a mod m) m ltac:(lia) ltac:(lia) Hf)
      as (g & x & y & He & _).
    rewrite He. discriminate.
  - exists (fib 1100), (fib 1101). split; [|exact mod_inverse_recursion_error].
    pose proof (fib_mono 3 1101 ltac:(lia)) as H. change (fib 3) with 2 in H. lia.
Qed.

(** *** The shape of the shares *)

Lemma hex_digit_lower d : 0 <= d < 16 -> is_lower_hex (hex_digit d) = true.
Proof.
  intros Hd.
  assert (Hc : d = 0 \/ d = 1 \/ d = 2 \/ d = 3 \/ d = 4 \/ d = 5 \/ d = 6 \/ d = 7 \/
               d = 8 \/ d = 9 \/ d = 10 \/ d = 11 \/ d = 12 \/ d = 13 \/ d = 14 \/ d = 15) by lia.
  repeat (destruct Hc as [->|Hc]; [reflexivity|]). subst. reflexivity.
Qed.

Lemma hex_aux_chars fuel : forall n acc,
  0 <= n -> all_chars is_lower_hex acc = true ->
  all_chars is_lower_hex (hex_aux fuel n acc) = true.
Proof.
  induction fuel as [|f IH]; intros n acc Hn Hacc; cbn [hex_aux]; [exact Hacc|].
  destruct (Z.eqb_spec n 0); [exact Hacc|].
  apply IH.
  - apply Z.div_pos; lia.
  - cbn [all_chars]. rewrite hex_digit_lower, Hacc; [reflexivity|].
    apply Z.mod_pos_bound. lia.
Qed.

Lemma hex_aux_length fuel : forall n acc k,
  0 <= n < 16 ^ Z.of_nat k ->
  (String.length (hex_aux fuel n acc) <= k + String.length acc)%nat.
Proof.
  induction fuel as [|f IH]; intros n acc k Hn; cbn [hex_aux]; [lia|].
  destruct (Z.eqb_spec n 0); [lia|].
  destruct k as [|k]; [cbn in Hn; lia|].
  assert (Hq : 0 <= n / 16 < 16 ^ Z.of_nat k).
  { split; [apply Z.div_pos; lia|].
    apply Z.div_lt_upper_bound; [lia|].
    replace (Z.of_nat (S k)) with (Z.succ (Z.of_nat k)) in Hn by lia.
    rewrite Z.pow_succ_r in Hn by lia. lia. }
  specialize (IH (n / 16) (String (hex_digit (n mod 16)) acc) k Hq).
  cbn [String.length] in IH. lia.
Qed.

Lemma format_x_chars n : 0 <= n -> all_chars is_lower_hex (format_x n) = true.
Proof.
  intros Hn. unfold format_x. destruct (Z.eqb_spec n 0); [reflexivity|].
  apply hex_aux_chars; [lia|reflexivity].
Qed.

Lemma format_x_length n k :
  0 <= n < 16 ^ Z.of_nat k -> (1 <= k)%nat -> (String.length (format_x n) <= k)%nat.
Proof.
  intros Hn Hk. unfold format_x. destruct (Z.eqb_spec n 0); [cbn; lia|].
  pose proof (hex_aux_length (S (Z.to_nat (Z.log2 n))) n "" k Hn) as H.
  cbn [String.length] in H. lia.
Qed.

Lemma repeat_zero_chars k s :
  all_chars is_lower_hex s = true -> all_chars is_lower_hex (repeat_zero k s) = true.
Proof. intros Hs. induction k as [|k IH]; [exact Hs|]. cbn. exact IH. Qed.

Lemma repeat_zero_length k s :
  String.length (repeat_zero k s) = (k + String.length s)%nat.
Proof. induction k as [|k IH]; [reflexivity|]. cbn. rewrite IH. reflexivity. Qed.

Lemma share_width_value : share_width = 131%nat.
Proof. vm_compute. reflexivity. Qed.

Lemma PRIME_hex_bound : PRIME < 16 ^ Z.of_nat 131.
Proof. vm_compute. reflexivity. Qed.

Lemma encode_share_shape self c i :
  prime self = PRIME ->
  fst (encode_share self c i) = i /\
  String.length (snd (encode_share self c i)) = share_width /\
  all_chars is_lower_hex (snd (encode_share self c i)) = true /\
  exists y, 0 <= y < PRIME /\ Py.int16 (snd (encode_share self c i)) = Ok y.
Proof.
  intros Hp. unfold encode_share. cbn [fst snd].
  pose proof PRIME_gt_1 as H1.
  assert (Hy : 0 <= _evaluate_polynomial self c i < PRIME).
  { rewrite evaluate_polynomial_eval by (rewrite Hp; lia). rewrite Hp.
    apply Z.mod_pos_bound. lia. }
  split; [reflexivity|]. rewrite Hp. fold share_width. split; [|split].
  - unfold zfill. rewrite repeat_zero_length.
    pose proof (format_x_length (_evaluate_polynomial self c i) 131) as Hl.
    pose proof PRIME_hex_bound. rewrite share_width_value.
    specialize (Hl ltac:(lia) ltac:(lia)). lia.
  - unfold zfill. apply repeat_zero_chars. apply format_x_chars. lia.
  - eexists. split; [exact Hy|]. apply int16_zfill_format_x. lia.
Qed.

(** X2: [split_secret] on a secret below the prime returns
    [total_shares] shares whose indices are [1, 2, ..., total_shares] in
    this order, each value being a numeral of exactly 131 lower-case
    hexadecimal digits (the width of the prime) that reads back as a field
    element below the prime. *)
Theorem split_secret_shares t n self randbelow s :
  init t n = Ok self ->
  Py.int_from_bytes s < PRIME ->
  exists shares,
    split_secret self randbelow s = Ok shares /\
    map fst shares = range1 n /\
    Forall (fun sh =>
              String.length (snd sh) = 131%nat /\
              all_chars is_lower_hex (snd sh) = true /\
              exists y, 0 <= y < PRIME /\ Py.int16 (snd sh) = Ok y) shares.
Proof.
  intros Hinit Hs.
  destruct (init_ok _ _ _ Hinit) as (Hth & Htot & Hprime & _).
  eexists. split; [apply split_secret_ok; rewrite Hprime; exact Hs|]. split.
  - rewrite map_map, Htot. rewrite <- (map_id (range1 n)) at 2.
    apply map_ext. intros i. reflexivity.
  - apply Forall_forall. intros sh Hin. apply in_map_iff in Hin.
    destruct Hin as (i & <- & _).
    destruct (encode_share_shape self
                (_generate_coefficients self randbelow (Py.int_from_bytes s)) i Hprime)
      as (_ & Hl & Hc & Hy).
    rewrite share_width_value in Hl. auto.
Qed.

Lemma pow256_65 : 256 ^ 65 < PRIME.
Proof. vm_compute. reflexivity. Qed.

(** X3: [split_secret] accepts a secret exactly when its big-endian
    integer is below the prime and otherwise raises [ValueError]; every
    secret of at most 65 bytes is accepted, whatever its content. *)
Theorem split_secret_capacity t n self randbelow s :
  init t n = Ok self ->
  (PRIME <= Py.int_from_bytes s ->
   split_secret self randbelow s
   = Raise (ValueError "Secret too large for the prime field")) /\
  (Py.int_from_bytes s < PRIME ->
   exists shares, split_secret self randbelow s = Ok shares) /\
  ((List.length s <= 65)%nat -> exists shares, split_secret self randbelow s = Ok shares).
Proof.
  intros Hinit. destruct (init_ok _ _ _ Hinit) as (_ & _ & Hprime & _).
  assert (Hok : Py.int_from_bytes s < PRIME ->
                exists shares, split_secret self randbelow s = Ok shares).
  { intros Hs. eexists. apply split_secret_ok. rewrite Hprime. exact Hs. }
  split; [|split; [exact Hok|]].
  - intros Hs. unfold split_secret. rewrite Hprime.
    destruct (Z.leb_spec PRIME (Py.int_from_bytes s)); [reflexivity|lia].
  - intros Hl. apply Hok. pose proof (int_from_bytes_range s) as [_ Hr].
    pose proof pow256_65.
    assert (256 ^ Z.of_nat (List.length s) <= 256 ^ 65)
      by (apply Z.pow_le_mono_r; lia).
    lia.
Qed.

End ShamirMore.

(** ** Reconstruction with another length, and with a wrong share *)

Module ShamirEdge.
Import Py ShamirSecretSharing Poly ShamirSpec PolyFacts EnumFacts LagrangeFacts GcdFacts PyFacts ShamirFacts ShamirFacts2 ShamirTheorems ShareText.

Lemma byte_val_of_Z z : 0 <= z < 256 -> byte_val (byte_of_Z z) = z.
Proof.
  intros Hz. unfold byte_val, byte_of_Z.
  destruct (Byte.of_N (Z.to_N z)) as [b|] eqn:Hb.
  - apply Byte.to_of_N in Hb. rewrite Hb. lia.
  - apply Byte.of_N_None_iff in Hb. lia.
Qed.

Lemma be_digits_length L : forall n, List.length (be_digits L n) = L.
Proof.
  induction L as [|k IH]; intros n; cbn [be_digits]; [reflexivity|].
  rewrite length_app, IH. cbn. lia.
Qed.

Lemma int_from_be_digits L : forall n,
  0 <= n < 256 ^ Z.of_nat L -> int_from_bytes (be_digits L n) = n.
Proof.
  induction L as [|k IH]; intros n Hn; cbn [be_digits].
  - cbn in Hn. cbn. lia.
  - rewrite int_from_bytes_snoc.
    replace (Z.of_nat (S k)) with (Z.succ (Z.of_nat k)) in Hn by lia.
    rewrite Z.pow_succ_r in Hn by lia.
    rewrite IH.
    + rewrite byte_val_of_Z by (apply Z.mod_pos_bound; lia).
      pose proof (Z.div_mod n 256 ltac:(lia)). lia.
    + split; [apply Z.div_pos; lia|]. apply Z.div_lt_upper_bound; lia.
Qed.

Lemma int_to_bytes_value n L b :
  int_to_bytes n L = Ok b -> int_from_bytes b = n /\ List.length b = L.
Proof.
  unfold int_to_bytes. destruct (Z.ltb_spec n 0); [discriminate|].
  destruct (Z.leb_spec (256 ^ Z.of_nat L) n); [discriminate|].
  intros Hb. inversion Hb; subst. split.
  - apply int_from_be_digits. lia.
  - apply be_digits_length.
Qed.

(** The integer recovered from [t] distinct shares of a split, written
    with any length. *)
Lemma reconstruct_value t n self randbelow s (l : list (Z * string)) L :
  init t n = Ok self -> n <= 20 ->
  Py.int_from_bytes s < PRIME ->
  NoDup l ->
  (forall sh, In sh l ->
     In sh (map (encode_share self (_generate_coefficients self randbelow (Py.int_from_bytes s)))
                (range1 (total_shares self)))) ->
  List.length l = Z.to_nat t ->
  reconstruct_secret self l L = Some (Py.int_to_bytes (Py.int_from_bytes s) L).
Proof.
  intros Hinit Hn Hs Hnd Hin Hlen.
  destruct (init_ok _ _ _ Hinit) as (Ht & Htot & Hprime & Hrange).
  pose proof PRIME_gt_1 as Hp.
  set (c := _generate_coefficients self randbelow (Py.int_from_bytes s)) in *.
  assert (Hsh : forall sh, In sh l -> exists i, 1 <= i <= n /\ sh = encode_share self c i).
  { intros sh H. apply Hin in H. apply in_map_iff in H. destruct H as (i & <- & Hi).
    exists i. split; [|reflexivity]. apply in_range1 in Hi. lia. }
  unfold reconstruct_secret.
  destruct (Z.ltb_spec (Z.of_nat (List.length l)) (threshold self)); [lia|].
  rewrite firstn_all2 by lia.
  rewrite (decode_shares self c l).
  2:{ rewrite Hprime. lia. }
  2:{ intros sh H0. destruct (Hsh sh H0) as (i & _ & ->). exists i. reflexivity. }
  rewrite (interpolate_polynomial self c).
  - unfold c at 1. unfold _generate_coefficients. cbn [eval].
    rewrite Z.mul_0_l, Z.add_0_r.
    pose proof (int_from_bytes_range s).
    rewrite Z.mod_small by lia. reflexivity.
  - exact Hprime.
  - rewrite map_map. cbn [fst].
    apply NoDup_map_NoDup_ForallPairs; [|exact Hnd].
    intros a b Ha Hb Hab.
    destruct (Hsh a Ha) as (i & _ & ->). destruct (Hsh b Hb) as (j & _ & ->).
    cbn in Hab. subst. reflexivity.
  - intros x y Hxy. apply in_map_iff in Hxy. destruct Hxy as (sh & Heq & Hsh').
    inversion Heq; subst. destruct (Hsh sh Hsh') as (i & Hi & ->). cbn [fst encode_share].
    split; [lia|reflexivity].
  - rewrite length_map. unfold c. rewrite generate_coefficients_length by lia. lia.
Qed.

(** X4: [reconstruct_secret] with fewer shares than the threshold raises
    [ValueError] naming both numbers.  With [t] distinct shares of a split
    and any [secret_length], it returns the big-endian encoding of the
    secret's integer on [secret_length] bytes (leading zero bytes added or
    dropped), and raises [OverflowError] when that integer does not fit. *)
Theorem reconstruct_secret_length t n self randbelow s shares subset L :
  init t n = Ok self -> n <= 20 ->
  Py.int_from_bytes s < PRIME ->
  split_secret self randbelow s = Ok shares ->
  NoDup subset -> incl subset shares -> List.length subset = Z.to_nat t ->
  (256 ^ Z.of_nat L <= Py.int_from_bytes s ->
   reconstruct_secret self subset L
   = Some (Raise (OverflowError "int too big to convert"))) /\
  (Py.int_from_bytes s < 256 ^ Z.of_nat L ->
   exists b, reconstruct_secret self subset L = Some (Ok b) /\
             List.length b = L /\ Py.int_from_bytes b = Py.int_from_bytes s) /\
  (forall few, Z.of_nat (List.length few) < t ->
     reconstruct_secret self few L
     = Some (Raise (ValueError ("Need at least " ++ Py.str_int t ++ " shares, got "
                                ++ Py.str_int (Z.of_nat (List.length few)))))).
Proof.
  intros Hinit Hn Hs Hsplit Hnd Hincl Hlen.
  destruct (init_ok _ _ _ Hinit) as (Ht & Htot & Hprime & Hrange).
  rewrite split_secret_ok in Hsplit by (rewrite Hprime; exact Hs).
  inversion Hsplit as [Hshares].
  assert (Hval : reconstruct_secret self subset L
                 = Some (Py.int_to_bytes (Py.int_from_bytes s) L)).
  { apply (reconstruct_value t n self randbelow s subset L); auto.
    intros sh Hsh. rewrite Hshares. apply Hincl. exact Hsh. }
  pose proof (int_from_bytes_range s) as [H0 _].
  split; [|split].
  - intros Hbig. rewrite Hval. unfold int_to_bytes.
    destruct (Z.ltb_spec (int_from_bytes s) 0); [lia|].
    destruct (Z.leb_spec (256 ^ Z.of_nat L) (int_from_bytes s)); [reflexivity|lia].
  - intros Hfit. rewrite Hval. unfold int_to_bytes.
    destruct (Z.ltb_spec (int_from_bytes s) 0); [lia|].
    destruct (Z.leb_spec (256 ^ Z.of_nat L) (int_from_bytes s)); [lia|].
    eexists. split; [reflexivity|]. split.
    + apply be_digits_length.
    + apply int_from_be_digits. lia.
  - intros few Hfew. unfold reconstruct_secret. rewrite Ht.
    destruct (Z.ltb_spec (Z.of_nat (List.length few)) t); [reflexivity|lia].
Qed.

(** *** One wrong share *)

Lemma mapM_app {A B : Type} (f : A -> result B) (l1 l2 : list A) :
  mapM f (l1 ++ l2) = (x <- mapM f l1 ;; y <- mapM f l2 ;; Ok (x ++ y)%list).
Proof.
  induction l1 as [|a l1 IH]; cbn [mapM app].
  - cbn [bind]. destruct (mapM f l2); reflexivity.
  - destruct (f a) as [b|e]; cbn [bind]; [|reflexivity].
    rewrite IH. destruct (mapM f l1) as [x|e]; cbn [bind]; [|reflexivity].
    destruct (mapM f l2); reflexivity.
Qed.

Lemma zsum_replace (F : nat -> Z -> Z) (A B : list (Z * Z)) x y y' : forall k,
  zsum (map (fun '(i, (xi, yi)) => F i yi) (enum_from k (A ++ (x, y') :: B)))
  = zsum (map (fun '(i, (xi, yi)) => F i yi) (enum_from k (A ++ (x, y) :: B)))
    + (F (k + List.length A)%nat y' - F (k + List.length A)%nat y).
Proof.
  induction A as [|[a b] A IH]; intros k; cbn [app List.length].
  - rewrite !enum_from_cons. cbn [map zsum fold_right]. rewrite Nat.add_0_r. lia.
  - rewrite !enum_from_cons. cbn [map zsum fold_right]. fold zsum in *.
    change (fold_right Z.add 0) with zsum.
    rewrite (IH (S k)). replace (S k + List.length A)%nat with (k + S (List.length A))%nat by lia.
    lia.
Qed.

Lemma unit_20 x : 1 <= x <= 20 -> Z.gcd x PRIME = 1.
Proof.
  intros H. destruct (Z.eq_dec x 20) as [->|Hne]; [vm_compute; reflexivity|].
  apply small_unit. lia.
Qed.

Lemma numer_unit xs i :
  (forall x, In x xs -> 1 <= x <= 20) -> Z.gcd (numer xs i) PRIME = 1.
Proof.
  intros Hr. unfold numer. apply zprod_coprime.
  intros a Ha. apply in_map_iff in Ha. destruct Ha as (xj & <- & Hj).
  apply in_others_from in Hj. destruct Hj as (j & Hj & _).
  rewrite Z.gcd_opp_l. apply unit_20. apply Hr. eapply nth_error_In. exact Hj.
Qed.

(** X5: Shamir reconstruction has no redundancy, and a wrong share never
    yields the secret.  When one of the [t] distinct shares given to
    [reconstruct_secret] carries a value that is not the issued one modulo
    the prime, the interpolated integer [v] is not the secret's.  The call
    then raises [OverflowError] when [v] does not fit in the secret's
    length (the usual outcome for a 32-byte key, [v] being spread over the
    521 bits of the field), and otherwise returns bytes other than the
    secret. *)
Theorem wrong_share_never_yields_secret
        t n self randbelow s shares pre i y_hex post y_hex' y y' :
  init t n = Ok self -> n <= 20 ->
  Py.int_from_bytes s < PRIME ->
  split_secret self randbelow s = Ok shares ->
  NoDup (replaced pre (i, y_hex) post) ->
  incl (replaced pre (i, y_hex) post) shares ->
  List.length (replaced pre (i, y_hex) post) = Z.to_nat t ->
  Py.int16 y_hex = Ok y -> Py.int16 y_hex' = Ok y' ->
  y' mod PRIME <> y mod PRIME ->
  exists v,
    0 <= v < PRIME /\ v <> Py.int_from_bytes s /\
    (256 ^ Z.of_nat (List.length s) <= v ->
     reconstruct_secret self (replaced pre (i, y_hex') post) (List.length s)
     = Some (Raise (OverflowError "int too big to convert"))) /\
    (v < 256 ^ Z.of_nat (List.length s) ->
     exists b,
       reconstruct_secret self (replaced pre (i, y_hex') post) (List.length s)
       = Some (Ok b) /\
       Py.int_from_bytes b = v /\ b <> s).
Proof.
  unfold replaced.
  intros Hinit Hn Hs Hsplit Hnd Hincl Hlen Hy Hy' Hneq.
  destruct (init_ok _ _ _ Hinit) as (Ht & Htot & Hprime & Hrange).
  pose proof PRIME_gt_1 as Hp.
  rewrite split_secret_ok in Hsplit by (rewrite Hprime; exact Hs).
  inversion Hsplit as [Hshares]. clear Hsplit.
  set (c := _generate_coefficients self randbelow (Py.int_from_bytes s)) in *.
  assert (Hsh : forall sh, In sh (pre ++ (i, y_hex) :: post) ->
                           exists j, 1 <= j <= n /\ sh = encode_share self c j).
  { intros sh H. apply Hincl in H. rewrite <- Hshares in H. apply in_map_iff in H.
    destruct H as (j & <- & Hj). exists j. split; [|reflexivity].
    apply in_range1 in Hj. lia. }
  set (dec := fun sh : Z * string => (fst sh, _evaluate_polynomial self c (fst sh))).
  set (f := (fun '(x, y_hex) => y <- Py.int16 y_hex ;; Ok (x, y))
            : Z * string -> result (Z * Z)).
  assert (Hpre : mapM f pre = Ok (map dec pre)).
  { apply decode_shares; [rewrite Hprime; lia|].
    intros sh H. destruct (Hsh sh) as (j & _ & ->); [apply in_or_app; left; exact H|].
    exists j. reflexivity. }
  assert (Hpost : mapM f post = Ok (map dec post)).
  { apply decode_shares; [rewrite Hprime; lia|].
    intros sh H. destruct (Hsh sh) as (j & _ & ->);
      [apply in_or_app; right; right; exact H|].
    exists j. reflexivity. }
  assert (Hall : mapM f (pre ++ (i, y_hex) :: post)
                 = Ok (map dec (pre ++ (i, y_hex) :: post))).
  { apply decode_shares; [rewrite Hprime; lia|].
    intros sh H. destruct (Hsh sh H) as (j & _ & ->). exists j. reflexivity. }
  assert (Hyval : y = _evaluate_polynomial self c i).
  { rewrite mapM_app in Hall. rewrite Hpre in Hall. cbn [bind mapM] in Hall.
    unfold f at 1 in Hall. rewrite Hy in Hall. cbn [bind] in Hall.
    rewrite Hpost in Hall. cbn [bind] in Hall. rewrite map_app in Hall. cbn [map] in Hall.
    inversion Hall as [Heq]. apply app_inv_head in Heq. inversion Heq. reflexivity. }
  set (pts := (map dec pre ++ (i, y) :: map dec post)%list).
  set (pts' := (map dec pre ++ (i, y') :: map dec post)%list).
  assert (Hxs : map fst pts' = map fst pts).
  { unfold pts, pts'. rewrite !map_app. reflexivity. }
  assert (Hptseq : pts = map dec (pre ++ (i, y_hex) :: post)).
  { unfold pts. rewrite map_app. cbn [map]. unfold dec at 4. cbn [fst].
    rewrite Hyval. reflexivity. }
  assert (Hnd_xs : NoDup (map fst pts)).
  { rewrite Hptseq, map_map. cbn [fst dec].
    apply NoDup_map_NoDup_ForallPairs; [|exact Hnd].
    intros a b Ha Hb Hab.
    destruct (Hsh a Ha) as (j & _ & ->). destruct (Hsh b Hb) as (j' & _ & ->).
    cbn in Hab. subst. reflexivity. }
  assert (Hrange_xs : forall x, In x (map fst pts) -> 1 <= x <= 20).
  { intros x Hx. rewrite Hptseq, map_map in Hx. apply in_map_iff in Hx.
    destruct Hx as (sh & <- & Hin). destruct (Hsh sh Hin) as (j & Hj & ->). cbn. lia. }
  assert (Horig : interpolate self pts = Some (int_from_bytes s)).
  { rewrite (interpolate_polynomial self c).
    - unfold c at 1. unfold _generate_coefficients. cbn [eval].
      rewrite Z.mul_0_l, Z.add_0_r.
      pose proof (int_from_bytes_range s). rewrite Z.mod_small by lia. reflexivity.
    - exact Hprime.
    - exact Hnd_xs.
    - intros x0 y0 Hxy. rewrite Hptseq in Hxy. apply in_map_iff in Hxy.
      destruct Hxy as (sh & Heq & Hsh'). inversion Heq; subst.
      destruct (Hsh sh Hsh') as (j & Hj & ->). cbn [fst encode_share].
      split; [lia|reflexivity].
    - rewrite Hptseq, length_map. unfold c.
      rewrite generate_coefficients_length by lia. lia. }
  assert (Hlen' : List.length (pre ++ (i, y_hex') :: post) = Z.to_nat t).
  { rewrite <- Hlen, !length_app. reflexivity. }
  assert (Hint : exists v, interpolate self pts' = Some v /\ 0 <= v < PRIME /\
                           v <> int_from_bytes s).
  { rewrite interpolate_spec by (rewrite Hprime; first [exact Hp|exact PRIME_le]).
    rewrite interpolate_spec in Horig by (rewrite Hprime; first [exact Hp|exact PRIME_le]).
    rewrite Hxs, Hprime in *.
    set (xs := map fst pts) in *.
    set (F := fun (k : nat) (v : Z) => v * (numer xs k * inv_at PRIME xs k)).
    rewrite enumerate_enum_from in *.
    unfold pts'. unfold pts in Horig.
    pose proof (zsum_replace F (map dec pre) (map dec post) i y y' 0%nat) as Hrep.
    unfold F in Hrep. cbn [Nat.add] in Hrep.
    match goal with
    | |- context [zsum ?a] =>
        match type of Hrep with zsum ?b = _ => change (zsum a) with (zsum b) end
    end.
    rewrite Hrep. clear Hrep.
    match type of Horig with
    | Some (?S0 mod _) = _ => set (S := S0) in *
    end.
    set (k := List.length (map dec pre)).
    eexists. split; [reflexivity|]. split; [apply Z.mod_pos_bound; lia|].
    intros Hv. inversion Horig as [Horig'].
    rewrite <- Horig' in Hv.
    apply Hneq.
    assert (Hki : nth_error xs k = Some i).
    { unfold xs, pts, k. rewrite map_app. rewrite nth_error_app2 by (rewrite !length_map; lia).
      rewrite !length_map. rewrite Nat.sub_diag. reflexivity. }
    assert (Hd : ((y' - y) * numer xs k) mod PRIME = 0).
    { assert (H1 : ((y' * (numer xs k * inv_at PRIME xs k)
                     - y * (numer xs k * inv_at PRIME xs k)) mod PRIME) = 0).
      { set (d := y' * (numer xs k * inv_at PRIME xs k)
                  - y * (numer xs k * inv_at PRIME xs k)) in *.
        replace d with ((S + d) - S) by ring.
        rewrite Zminus_mod, Hv, Z.sub_diag. reflexivity. }
      pose proof (inv_at_ok xs k i Hnd_xs Hrange_xs Hki) as Hinv.
      replace ((y' - y) * numer xs k) with ((y' - y) * numer xs k * 1) by ring.
      rewrite <- Hinv. rewrite Z.mul_mod_idemp_r by lia.
      replace ((y' - y) * numer xs k * (denom xs k i * inv_at PRIME xs k))
        with ((y' * (numer xs k * inv_at PRIME xs k) - y * (numer xs k * inv_at PRIME xs k))
              * denom xs k i) by ring.
      rewrite <- Z.mul_mod_idemp_l by lia. rewrite H1. reflexivity. }
    apply Z.mod_divide in Hd; [|lia].
    rewrite Z.mul_comm in Hd.
    apply Z.gauss in Hd.
    - destruct Hd as [q Hq].
      replace y' with (y + q * PRIME) by lia. rewrite Z.mod_add by lia. reflexivity.
    - rewrite Z.gcd_comm. apply numer_unit. exact Hrange_xs. }
  destruct Hint as (v & Hint & Hv & Hne).
  assert (Hrec : reconstruct_secret self (pre ++ (i, y_hex') :: post) (List.length s)
                 = Some (int_to_bytes v (List.length s))).
  { unfold reconstruct_secret.
    destruct (Z.ltb_spec (Z.of_nat (List.length (pre ++ (i, y_hex') :: post)))
                         (threshold self)); [lia|].
    rewrite firstn_all2 by lia.
    fold f. rewrite mapM_app, Hpre. cbn [bind mapM]. unfold f at 1. rewrite Hy'. cbn [bind].
    rewrite Hpost. cbn [bind]. fold pts'. rewrite Hint. reflexivity. }
  exists v. split; [exact Hv|]. split; [exact Hne|]. rewrite Hrec. unfold int_to_bytes.
  destruct (Z.ltb_spec v 0); [lia|].
  destruct (Z.leb_spec (256 ^ Z.of_nat (List.length s)) v); split; intros Hcase;
    try lia; [reflexivity|].
  eexists. split; [reflexivity|].
  assert (Hb : int_from_bytes (be_digits (List.length s) v) = v)
    by (apply int_from_be_digits; lia).
  split; [exact Hb|]. intros Heq. apply Hne. rewrite <- Hb, Heq. reflexivity.
Qed.

End ShamirEdge.

(** ** Proportionality of the seat allocation *)

Module QuotaRule.
Import Tally TallyFacts.

(** Party by party: the first allocation leaves each party at most one
    seat below its exact share. *)
Lemma first_allocation_entries (Vp Sp mq : positive) (kq : Z) (pv : dict Z) :
  Z.pos Sp * Z.pos Vp <= 2 ^ 51 ->
  0 <= kq <= 2 -> 2 ^ 52 <= Z.pos mq < 2 ^ 53 ->
  2 * Z.abs (Z.pos mq * 2 ^ kq * Z.pos Sp - Z.pos Vp * 2 ^ FloatSpec.div_shift Vp Sp)
  <= 2 ^ kq * Z.pos Sp ->
  (forall kv, In kv pv -> 0 <= snd kv <= Z.pos Vp) ->
  exists first remainders,
    first_allocation (SpecFloat.S754_finite false mq (- FloatSpec.div_shift Vp Sp + kq)) pv
    = Ok (first, remainders) /\
    Forall2 (fun kv ka =>
               fst ka = fst kv /\
               snd kv * Z.pos Sp - Z.pos Vp <= snd ka * Z.pos Vp <= snd kv * Z.pos Sp)
            pv first.
Proof.
  intros HSV Hkq Hmq HQ. induction pv as [|[k v] pv IH]; intros Hv.
  - exists [], []. split; [reflexivity|constructor].
  - destruct IH as (first & rem & Hf & Hb); [intros kv Hkv; apply Hv; right; exact Hkv|].
    destruct (PartyFacts.party_entry_bounds Vp Sp v mq kq HSV
                (Hv (k, v) (or_introl eq_refl)) Hkq Hmq HQ) as (seats & r & He & Hs).
    cbn [first_allocation]. rewrite He. cbn [bind]. rewrite Hf. cbn [bind fst snd].
    eexists _, _. split; [reflexivity|].
    constructor; [|exact Hb]. cbn [fst snd]. split; [reflexivity|exact Hs].
Qed.

Lemma increment_entries k (d : dict Z) :
  Forall2 (fun x y => fst y = fst x /\
                      (snd y = snd x \/ (snd y = snd x + 1 /\ fst x = k)))
          d (increment k d).
Proof.
  induction d as [|[k' v] d IH]; cbn [increment]; [constructor|].
  destruct (String.eqb_spec k' k) as [->|Hne].
  - constructor; [cbn; auto|].
    clear IH. induction d as [|x d IHd]; constructor; auto.
  - constructor; [cbn; auto|exact IH].
Qed.

Lemma increments_entries {A : Type} (ks : list (string * A)) : forall (d : dict Z),
  NoDup (map fst ks) ->
  Forall2 (fun x y => fst y = fst x /\
                      (snd y = snd x \/ (snd y = snd x + 1 /\ In (fst x) (map fst ks))))
          d (fold_left (fun alloc kv => increment (fst kv) alloc) ks d).
Proof.
  induction ks as [|[k a] ks IH]; intros d Hnd; cbn [fold_left map fst].
  - induction d as [|x d IHd]; constructor; auto.
  - inversion Hnd as [|? ? Hnin Hnd']; subst.
    specialize (IH (increment k d) Hnd').
    pose proof (increment_entries k d) as H1.
    revert IH. generalize (fold_left (fun alloc kv => increment (fst kv) alloc) ks
                             (increment k d)).
    revert H1. generalize (increment k d).
    induction d as [|x d IHd]; intros d1 H1 d2 H2.
    + inversion H1; subst. inversion H2; subst. constructor.
    + inversion H1 as [|? y1 ? d1' Hx1 Hr1]; subst.
      inversion H2 as [|? y2 ? d2' Hx2 Hr2]; subst.
      constructor; [|apply (IHd d1' Hr1 d2' Hr2)].
      destruct Hx1 as (Hk1 & Hv1). destruct Hx2 as (Hk2 & Hv2).
      split; [congruence|].
      destruct Hv1 as [Hv1|(Hv1 & Hkx)]; destruct Hv2 as [Hv2|(Hv2 & Hin)].
      * left. congruence.
      * right. split; [congruence|]. right. rewrite <- Hk1. exact Hin.
      * right. split; [congruence|]. left. congruence.
      * exfalso. apply Hnin. rewrite <- Hkx, <- Hk1. exact Hin.
Qed.

Lemma NoDup_firstn {A : Type} (k : nat) (l : list A) : NoDup l -> NoDup (firstn k l).
Proof.
  intros H. rewrite <- (firstn_skipn k l) in H. apply NoDup_app_remove_r in H. exact H.
Qed.

Lemma slice_keys_NoDup (n : Z) (rem : dict PyFloat.float) :
  NoDup (map fst rem) -> NoDup (map fst (slice_to n (sorted_desc rem))).
Proof.
  intros H.
  assert (Hs : NoDup (map fst (sorted_desc rem))).
  { eapply Permutation_NoDup; [|exact H].
    apply Permutation_map. apply Permutation_sym. apply sorted_desc_perm. }
  unfold slice_to. destruct (n <? 0); rewrite <- firstn_map; apply NoDup_firstn; exact Hs.
Qed.

Lemma Forall2_trans3 {A : Type} (P Q R : A -> A -> Prop) :
  (forall a b c, P a b -> Q b c -> R a c) ->
  forall l1 l2 l3, Forall2 P l1 l2 -> Forall2 Q l2 l3 -> Forall2 R l1 l3.
Proof.
  intros H l1 l2 l3 H12. revert l3.
  induction H12 as [|a b l1 l2 Hab _ IH]; intros l3 H23; inversion H23; subst; constructor.
  - eapply H; eauto.
  - apply IH. assumption.
Qed.

(** X6: under the conditions of the seat-total theorem (distinct party
    ids, non-negative votes with a positive total [V], [S >= 1] seats
    and [S * V <= 2 ^ 51]) the allocation is proportional: the parties
    come out in their input order and each of them receives a number of
    seats within one of its exact share [votes * S / V]. *)
Theorem pr_allocation_quota_rule (party_votes : dict Z) (total_seats : Z) :
  NoDup (map fst party_votes) ->
  (forall kv, In kv party_votes -> 0 <= snd kv) ->
  0 < sum_values party_votes -> 1 <= total_seats ->
  total_seats * sum_values party_votes <= 2 ^ 51 ->
  exists allocation,
    _allocate_pr_seats party_votes total_seats = Ok allocation /\
    Forall2 (fun kv ka =>
               fst ka = fst kv /\
               snd kv * total_seats - sum_values party_votes
               <= snd ka * sum_values party_votes
               <= snd kv * total_seats + sum_values party_votes)
            party_votes allocation.
Proof.
  intros Hnd Hnn HV HS Hbound.
  destruct (votes_le_total party_votes Hnn) as (_ & Hle).
  destruct (sum_values party_votes) as [|Vp|Vp] eqn:EV; [lia| |lia].
  destruct total_seats as [|Sp|Sp]; [lia| |lia].
  assert (HdS : Z.pos (SpecFloat.digits2_pos Sp) <= 52)
    by (apply QuotaFacts.digits_le; [lia|nia]).
  assert (HdV : Z.pos (SpecFloat.digits2_pos Vp) <= 52)
    by (apply QuotaFacts.digits_le; [lia|nia]).
  destruct (DivFacts.int_truediv_spec Vp Sp) as (mq & kq & Hq & Hkq & Hmq & HQ).
  { unfold FloatSpec.div_shift. lia. }
  destruct (first_allocation_entries Vp Sp mq kq party_votes Hbound Hkq Hmq HQ)
    as (first & rem & Hf & Hb).
  { intros kv Hkv. split; [apply Hnn; exact Hkv|apply Hle; exact Hkv]. }
  destruct (first_allocation_keys _ _ _ _ Hf) as (_ & Hrk).
  eexists. split.
  - unfold _allocate_pr_seats. destruct party_votes as [|x pv]; [cbn in EV; lia|].
    rewrite EV. change (Z.pos Vp =? 0) with false. cbn match.
    rewrite Hq. cbn [bind]. rewrite Hf. cbn [bind]. reflexivity.
  - eapply Forall2_trans3; [|exact Hb|apply increments_entries].
    + cbn beta. intros a b c (Hk1 & Hb1) (Hk2 & Hv2). split; [congruence|].
      destruct Hv2 as [->|(-> & _)]; lia.
    + apply slice_keys_NoDup. rewrite Hrk. exact Hnd.
Qed.

End QuotaRule.

(** ** The winner of a constituency *)

Module FptpFacts.
Import FptpResults.

Lemma insert_by_votes_perm x l : Permutation (insert_desc x l) (x :: l).
Proof.
  induction l as [|y l IH]; cbn [insert_desc]; [reflexivity|].
  destruct (votes y <? votes x); [reflexivity|].
  rewrite IH. apply perm_swap.
Qed.

Lemma sort_fold_perm l : forall acc,
  Permutation (fold_left (fun acc x => insert_desc x acc) l acc) (l ++ acc).
Proof.
  induction l as [|x l IH]; intros acc; cbn [fold_left app]; [reflexivity|].
  rewrite IH. rewrite insert_by_votes_perm. apply Permutation_sym, Permutation_middle.
Qed.

Lemma sort_by_votes_perm l : Permutation (sort_by_votes l) l.
Proof. unfold sort_by_votes. rewrite sort_fold_perm, app_nil_r. reflexivity. Qed.

Local Abbreviation descending := (StronglySorted (fun a b => votes b <= votes a)).

Lemma insert_desc_sorted x l : descending l -> descending (insert_desc x l).
Proof.
  induction 1 as [|y l Hs IH Hall]; cbn [insert_desc].
  - constructor; constructor.
  - destruct (Z.ltb_spec (votes y) (votes x)).
    + constructor; [constructor; assumption|].
      constructor; [lia|]. rewrite Forall_forall in *. intros z Hz.
      specialize (Hall z Hz). lia.
    + constructor; [exact IH|].
      rewrite Forall_forall in *. intros z Hz.
      apply (Permutation_in _ (insert_by_votes_perm x l)) in Hz.
      destruct Hz as [<-|Hz]; [lia|apply Hall; exact Hz].
Qed.

Lemma sort_fold_sorted l : forall acc,
  descending acc -> descending (fold_left (fun acc x => insert_desc x acc) l acc).
Proof.
  induction l as [|x l IH]; intros acc Hacc; cbn [fold_left]; [exact Hacc|].
  apply IH. apply insert_desc_sorted. exact Hacc.
Qed.

Lemma sort_by_votes_sorted l : descending (sort_by_votes l).
Proof. apply sort_fold_sorted. constructor. Qed.

Lemma sort_by_votes_snoc l x :
  sort_by_votes (l ++ [x]) = insert_desc x (sort_by_votes l).
Proof. unfold sort_by_votes. rewrite fold_left_app. reflexivity. Qed.

(** The head of the sorted list is the first entry, in the original
    order, that carries the largest number of votes. *)
Lemma sort_by_votes_head l :
  l <> [] ->
  exists pre w post,
    l = (pre ++ w :: post)%list /\ hd_error (sort_by_votes l) = Some w /\
    (forall x, In x pre -> votes x < votes w) /\
    (forall x, In x post -> votes x <= votes w).
Proof.
  induction l as [|x l IH] using rev_ind; intros Hne; [congruence|].
  rewrite sort_by_votes_snoc.
  destruct l as [|y l'].
  - exists [], x, []. cbn. repeat split; intros ? [].
  - destruct IH as (pre & w & post & Hl & Hhd & Hpre & Hpost); [discriminate|].
    destruct (sort_by_votes (y :: l')) as [|h tl] eqn:Hs; [discriminate|].
    cbn in Hhd. inversion Hhd; subst h. cbn [insert_desc].
    destruct (Z.ltb_spec (votes w) (votes x)).
    + exists (y :: l'), x, []. cbn [hd_error]. split; [reflexivity|].
      split; [reflexivity|]. split; [|intros ? []].
      intros z Hz. rewrite Hl in Hz. apply in_app_or in Hz.
      destruct Hz as [Hz|[<-|Hz]].
      * specialize (Hpre z Hz). lia.
      * lia.
      * specialize (Hpost z Hz). lia.
    + exists pre, w, (post ++ [x])%list. cbn [hd_error].
      split; [rewrite Hl, <- app_assoc; reflexivity|].
      split; [reflexivity|]. split; [exact Hpre|].
      intros z Hz. apply in_app_or in Hz. destruct Hz as [Hz|[<-|[]]]; [auto|lia].
Qed.

Lemma sum_votes_from l : forall a,
  fold_left (fun acc c => acc + votes c) l a
  = a + fold_right (fun c acc => votes c + acc) 0 l.
Proof.
  induction l as [|x l IH]; intros a; cbn [fold_left fold_right]; [lia|].
  rewrite IH. lia.
Qed.

Lemma sum_votes_perm l l' :
  Permutation l l' ->
  fold_right (fun c acc => votes c + acc) 0 l = fold_right (fun c acc => votes c + acc) 0 l'.
Proof. induction 1; cbn [fold_right]; lia. Qed.

(** X7: [_build_fptp_results] reports the three constituencies in their
    fixed order.  In each, the candidates standing there are listed by
    descending votes, the total is the sum of their votes, and the winner
    is the first candidate in ballot order that holds the largest count:
    ties go to the candidate listed first in the election.  A constituency
    without candidates has no winner and a total of 0. *)
Theorem fptp_winner_has_most_votes election vote_counts :
  let r := _build_fptp_results election vote_counts in
  map fst (constituencies r) = Election.VALID_CONSTITUENCIES /\
  forall c cr, In (c, cr) (constituencies r) ->
    let l := entries election vote_counts c in
    Permutation (candidates cr) l /\
    StronglySorted (fun a b => votes b <= votes a) (candidates cr) /\
    total_votes cr = fold_right (fun x acc => votes x + acc) 0 l /\
    (l = [] -> winner cr = None /\ total_votes cr = 0) /\
    (l <> [] ->
     exists pre w post,
       l = (pre ++ w :: post)%list /\ winner cr = Some w /\
       (forall x, In x pre -> votes x < votes w) /\
       (forall x, In x post -> votes x <= votes w)).
Proof.
  cbn zeta. split.
  - unfold _build_fptp_results. cbn [constituencies]. rewrite map_map. cbn [fst].
    apply map_id.
  - intros c cr Hin. unfold _build_fptp_results in Hin. cbn [constituencies] in Hin.
    apply in_map_iff in Hin. destruct Hin as (c0 & Heq & _).
    inversion Heq; subst c0 cr. clear Heq. cbn [candidates winner total_votes].
    set (l := entries election vote_counts c).
    split; [apply sort_by_votes_perm|]. split; [apply sort_by_votes_sorted|].
    assert (Hsum : fold_left (fun acc x => acc + votes x) (sort_by_votes l) 0
                   = fold_right (fun x acc => votes x + acc) 0 l).
    { rewrite sum_votes_from, Z.add_0_l. apply sum_votes_perm. apply sort_by_votes_perm. }
    split; [exact Hsum|]. split.
    + intros Hl. rewrite Hsum, Hl. split; reflexivity.
    + intros Hl. destruct (sort_by_votes_head l Hl) as (pre & w & post & H1 & H2 & H3 & H4).
      exists pre, w, post. auto.
Qed.

End FptpFacts.

(** ** A token is used once *)

Module TokenUse.
Import StoreFacts CastFacts ElectorSets ElectorSetsThm TokenProps.
Import VotingTokenData.

Lemma used_more_refl t : used_more t t.
Proof. split; [auto|apply incl_refl]. Qed.

Lemma used_more_trans a b c : used_more a b -> used_more b c -> used_more a c.
Proof. intros (H1 & H2) (H3 & H4). split; [auto|eapply incl_tran; eauto]. Qed.

Lemma spent_more t t' : spent t -> used_more t t' -> spent t'.
Proof. intros [H|H] (H1 & H2); [left; auto|right; apply H2; exact H]. Qed.

Lemma tokens_grow_refl w : tokens_grow w w.
Proof. intros tid t H. exists t. split; [exact H|apply used_more_refl]. Qed.

Lemma tokens_grow_trans a b c : tokens_grow a b -> tokens_grow b c -> tokens_grow a c.
Proof.
  intros H1 H2 tid t H. destruct (H1 tid t H) as (t1 & Ht1 & Hm1).
  destruct (H2 tid t1 Ht1) as (t2 & Ht2 & Hm2). exists t2.
  split; [exact Ht2|eapply used_more_trans; eauto].
Qed.

Lemma tokens_grow_same w w' :
  voting_tokens (db w') = voting_tokens (db w) -> tokens_grow w w'.
Proof.
  intros Heq tid t H. exists t. split; [|apply used_more_refl].
  unfold VotingToken.find_by_token_id in *. rewrite Heq. exact H.
Qed.

Lemma find_app_l {A : Type} (f : A -> bool) l1 l2 a :
  find f l1 = Some a -> find f (l1 ++ l2) = Some a.
Proof.
  induction l1 as [|x l1 IH]; cbn [find app]; [discriminate|].
  destruct (f x); auto.
Qed.

Lemma tokens_grow_append w w' t0 :
  voting_tokens (db w') = (voting_tokens (db w) ++ [t0])%list -> tokens_grow w w'.
Proof.
  intros Heq tid t H. exists t. split; [|apply used_more_refl].
  unfold VotingToken.find_by_token_id in *. rewrite Heq. apply find_app_l. exact H.
Qed.

Lemma find_update_one {A : Type} (key flt : A -> bool) (upd : A -> A) :
  (forall a, key (upd a) = key a) ->
  forall l t, find key l = Some t ->
    find key (fst (update_one flt upd l)) = Some t \/
    (flt t = true /\ find key (fst (update_one flt upd l)) = Some (upd t)).
Proof.
  intros Hkey. induction l as [|a l IH]; intros t H; cbn [find update_one] in *;
    [discriminate|].
  destruct (flt a) eqn:Hf.
  - cbn [fst find]. rewrite Hkey. destruct (key a) eqn:Hk.
    + inversion H; subst. right. auto.
    + left. exact H.
  - destruct (update_one flt upd l) as [l' m] eqn:Hu. cbn [fst find] in *.
    destruct (key a); [left; exact H|]. apply IH. exact H.
Qed.

Lemma apply_use_more bt full t : used_more t (VotingToken.apply_use bt full t).
Proof.
  split; cbn.
  - intros H. destruct full; auto.
  - apply incl_appl, incl_refl.
Qed.

Lemma tokens_grow_update w w' flt bt full :
  voting_tokens (db w')
  = fst (update_one flt (VotingToken.apply_use bt full) (voting_tokens (db w))) ->
  tokens_grow w w'.
Proof.
  intros Heq tid t H. unfold VotingToken.find_by_token_id in *. rewrite Heq.
  destruct (find_update_one (fun d => String.eqb (token_id d) tid) flt
              (VotingToken.apply_use bt full) (fun a => eq_refl) _ _ H) as [H1|(_ & H1)].
  - exists t. split; [exact H1|apply used_more_refl].
  - eexists. split; [exact H1|apply apply_use_more].
Qed.

Lemma mark_ballot_used_grow E tok bt w ok tok' w' :
  VotingToken.mark_ballot_used E tok bt w = (ok, tok', w') -> tokens_grow w w'.
Proof.
  unfold VotingToken.mark_ballot_used. intros H.
  destruct (negb (in_list bt VotingToken.BALLOT_TYPES)); [inv H; apply tokens_grow_refl|].
  destruct (_ <=? _)%nat.
  - destruct (update_one _ _ _) as [tokens modified] eqn:Hu.
    eapply (tokens_grow_update w w' _ bt (Some (utcnow E (tick w)))).
    cbn [db bump] in Hu. rewrite Hu. destruct modified; inv H; reflexivity.
  - destruct (update_one _ _ _) as [tokens modified] eqn:Hu.
    eapply (tokens_grow_update w w' _ bt None).
    rewrite Hu. destruct modified; inv H; reflexivity.
Qed.

Lemma use_token_grow E tid bt w r w' :
  TokenService.use_token_for_ballot E tid bt w = (r, w') -> tokens_grow w w'.
Proof.
  unfold TokenService.use_token_for_ballot. intros H.
  repeat (break_if || break_match); inv H; try apply tokens_grow_refl.
  all: eapply mark_ballot_used_grow; eauto.
Qed.

(** A successful consumption leaves the ballot type recorded on the token
    found under this id. *)
Lemma use_token_recorded E tid bt w msg w' :
  TokenService.use_token_for_ballot E tid bt w = ((true, msg), w') ->
  exists t', VotingToken.find_by_token_id w' tid = Some t' /\ In bt (ballots_used t').
Proof.
  unfold TokenService.use_token_for_ballot. intros H.
  destruct (negb (in_list bt VotingToken.BALLOT_TYPES)) eqn:Hbt; [inv H|].
  destruct (VotingToken.find_by_token_id w tid) as [token|] eqn:Hfind; [|inv H].
  destruct (is_fully_used token) eqn:Hfull; [inv H|].
  destruct (negb (VotingToken.is_valid_for_ballot token bt)) eqn:Hvalid; [inv H|].
  destruct (VotingToken.mark_ballot_used E token bt w) as [[success tok'] w1] eqn:Hm.
  destruct success; cbn [negb] in H; [|inv H]. inv H.
  unfold VotingToken.find_by_token_id in Hfind.
  pose proof (find_some _ _ Hfind) as (_ & Hid). apply String.eqb_eq in Hid.
  unfold VotingToken.is_valid_for_ballot in Hvalid. rewrite Hfull in Hvalid.
  destruct (negb (in_list bt (ballots_allowed token))); [discriminate|].
  destruct (in_list bt (ballots_used token)) eqn:Hused; [discriminate|].
  unfold VotingToken.mark_ballot_used in Hm. rewrite Hbt in Hm.
  assert (Hgen : forall full l,
             find (fun d => String.eqb (token_id d) tid) l = Some token ->
             forall l' , update_one
               (fun d => String.eqb (token_id d) tid
                         && negb (in_list bt (ballots_used d)) && negb (is_fully_used d))
               (VotingToken.apply_use bt full) l = (l', true) ->
             exists t', find (fun d => String.eqb (token_id d) tid) l' = Some t' /\
                        In bt (ballots_used t')).
  { intros full. induction l as [|a l IH]; intros Hf l' Hu; cbn [find update_one] in *;
      [discriminate|].
    destruct (String.eqb (token_id a) tid) eqn:Hka.
    - inversion Hf; subst a. rewrite Hused, Hfull in Hu.
      cbn [andb negb] in Hu. inversion Hu. cbn [find].
      change (token_id (VotingToken.apply_use bt full token)) with (token_id token).
      rewrite Hid, String.eqb_refl. eexists. split; [reflexivity|].
      cbn. apply in_or_app. right. left. reflexivity.
    - cbn [andb] in Hu.
      destruct (update_one _ _ l) as [l'' m] eqn:Hu'.
      inversion Hu. subst l' m.
      cbn [find]. rewrite Hka. apply (IH Hf l'' eq_refl). }
  destruct (_ <=? _)%nat.
  - destruct (update_one _ _ _) as [tokens modified] eqn:Hu. cbn [db bump] in Hu.
    rewrite Hid in Hu. destruct modified; inv Hm.
    destruct (Hgen _ _ Hfind _ Hu) as (t' & Ht' & Hin).
    exists t'. split; [|exact Hin]. unfold VotingToken.find_by_token_id. cbn. exact Ht'.
  - destruct (update_one _ _ _) as [tokens modified] eqn:Hu.
    rewrite Hid in Hu. destruct modified; inv Hm.
    destruct (Hgen _ _ Hfind _ Hu) as (t' & Ht' & Hin).
    exists t'. split; [|exact Hin]. unfold VotingToken.find_by_token_id. cbn. exact Ht'.
Qed.

(** *** The other operations leave the tokens alone *)

Lemma save_new_tokens E eid bt enc cons tok ts rid rh tstr w v w' :
  Vote.save_new E eid bt enc cons tok ts rid rh tstr w = (v, w') ->
  voting_tokens (db w') = voting_tokens (db w).
Proof.
  unfold Vote.save_new, VotingToken.generate_vote_token. intros H.
  repeat (break_if || break_let); inv H;
    repeat match goal with H : (_, _) = (_, _) |- _ => inv H end; reflexivity.
Qed.

Lemma cast_fptp_vote_tokens E eid cid cons pk tok rid rh ts tstr w r w' :
  Vote.cast_fptp_vote E eid cid cons pk tok rid rh ts tstr w = (r, w') ->
  voting_tokens (db w') = voting_tokens (db w).
Proof.
  unfold Vote.cast_fptp_vote. intros H.
  destruct (encrypt_vote E _ _ _); [|inv H; reflexivity].
  destruct (Vote.receipt_or_new _ _ _ _ _ _ _) as [[[[ts' rid'] rh'] tstr'] w1] eqn:Hr.
  destruct (Vote.save_new _ _ _ _ _ _ _ _ _ _ _) as [v w2] eqn:Hs.
  inv H. apply receipt_or_new_db in Hr. apply save_new_tokens in Hs.
  rewrite Hs, Hr. reflexivity.
Qed.

Lemma cast_pr_vote_tokens E eid pid pk tok rid rh ts tstr w r w' :
  Vote.cast_pr_vote E eid pid pk tok rid rh ts tstr w = (r, w') ->
  voting_tokens (db w') = voting_tokens (db w).
Proof.
  unfold Vote.cast_pr_vote. intros H.
  destruct (encrypt_vote E _ _ _); [|inv H; reflexivity].
  destruct (Vote.receipt_or_new _ _ _ _ _ _ _) as [[[[ts' rid'] rh'] tstr'] w1] eqn:Hr.
  destruct (Vote.save_new _ _ _ _ _ _ _ _ _ _ _) as [v w2] eqn:Hs.
  inv H. apply receipt_or_new_db in Hr. apply save_new_tokens in Hs.
  rewrite Hs, Hr. reflexivity.
Qed.

Lemma mark_voted_tokens voter eid w voter' w' :
  Voter.mark_voted voter eid w = (voter', w') ->
  voting_tokens (db w') = voting_tokens (db w).
Proof. unfold Voter.mark_voted. intros H. destruct (in_list eid _); inv H; reflexivity. Qed.

Lemma mark_token_issued_tokens voter eid w voter' w' :
  Voter.mark_token_issued voter eid w = (voter', w') ->
  voting_tokens (db w') = voting_tokens (db w).
Proof.
  unfold Voter.mark_token_issued. intros H. destruct (in_list eid _); inv H; reflexivity.
Qed.

Lemma verify_receipt_tokens E rid log w r w' :
  Vote.verify_receipt E rid log w = (r, w') ->
  voting_tokens (db w') = voting_tokens (db w).
Proof.
  unfold Vote.verify_receipt. intros H.
  repeat (break_if || break_match); inv H; reflexivity.
Qed.

Lemma log_tokens E c e m u ut ip ua d w :
  voting_tokens (db (snd (AuditLog.log E c e m u ut ip ua d w))) = voting_tokens (db w).
Proof.
  unfold AuditLog.log, AuditLog.save.
  destruct (AuditLog._compute_hash _ _); reflexivity.
Qed.

Lemma issue_token_grow E voter eid w r voter' w' :
  TokenService.issue_token E voter eid w = Some (r, voter', w') -> tokens_grow w w'.
Proof.
  unfold TokenService.issue_token, Election.is_ongoing, Election.has_ended. intros H.
  destruct (Election.find_by_election_id w eid) as [election|];
    [|inv H; apply tokens_grow_refl].
  destruct (_ && _ && _); cbn [negb] in H.
  2:{ destruct (_ <? _); inv H; apply tokens_grow_same; reflexivity. }
  destruct (Voter.has_voted_in voter eid); [inv H; apply tokens_grow_same; reflexivity|].
  destruct (Voter.has_token_for voter eid); [inv H; apply tokens_grow_same; reflexivity|].
  destruct (VotingToken.create _ _ _ _) as [[token w2]|] eqn:Hc; [|discriminate].
  destruct (Voter.mark_token_issued voter eid w2) as [v3 w3] eqn:Hm.
  inv H. apply create_frame in Hc. destruct Hc as (_ & _ & _ & _ & Htok).
  apply mark_token_issued_tokens in Hm.
  eapply tokens_grow_trans; [eapply tokens_grow_append; cbn [db bump]; exact Htok|].
  apply tokens_grow_same. exact Hm.
Qed.

Lemma cast_dual_ballot_tokens E voter eid cid pid w r voter' w' :
  VoteService.cast_dual_ballot E voter eid cid pid w = (r, voter', w') ->
  voting_tokens (db w') = voting_tokens (db w).
Proof.
  unfold VoteService.cast_dual_ballot, Election.is_ongoing, Election.has_ended. intros H.
  destruct (Election.find_by_election_id w eid) as [election|]; [|inv H; auto].
  destruct (_ && _ && _); cbn [negb] in H.
  2:{ destruct (_ <? _); inv H; auto. }
  destruct (Voter.has_voted_in voter eid); [inv H; auto|].
  destruct (Election.get_candidate election cid) as [candidate|]; [|inv H; auto].
  destruct (negb (opt_string_eqb _ _)); [inv H; auto|].
  destruct (Election.get_party election pid) as [party|]; [|inv H; auto].
  destruct (negb (truthy _)); [inv H; auto|].
  destruct (Vote.cast_fptp_vote _ _ _ _ _ _ _ _ _ _ _) as [r1 w2] eqn:Hc1.
  apply cast_fptp_vote_tokens in Hc1. cbn [db bump] in Hc1.
  destruct r1 as [v1|e1]; [|inv H; auto].
  destruct (Vote.cast_pr_vote _ _ _ _ _ _ _ _ _ _) as [r2 w3] eqn:Hc2.
  apply cast_pr_vote_tokens in Hc2.
  destruct r2 as [v2|e2]; [|inv H; congruence].
  destruct (Voter.mark_voted voter eid w3) as [v4 w4] eqn:Hm.
  apply mark_voted_tokens in Hm. inv H. congruence.
Qed.

(** What [cast_dual_ballot_with_token] does to the tokens, whatever its
    outcome; on success the token found under the id is spent. *)
Lemma cast_with_token_tokens E voter eid cid pid tok w ok msg rcpt voter' w' :
  VoteService.cast_dual_ballot_with_token E voter eid cid pid tok w
  = ((ok, msg, rcpt), voter', w') ->
  tokens_grow w w' /\
  (ok = true ->
   exists tid t', tok = Some tid /\
                  VotingToken.find_by_token_id w' tid = Some t' /\ spent t').
Proof.
  unfold VoteService.cast_dual_ballot_with_token. intros H.
  destruct (Election.find_by_election_id w eid) as [election|];
    [|inv H; split; [apply tokens_grow_refl|discriminate]].
  unfold Election.is_ongoing, Election.has_ended in H.
  destruct (_ && _ && _); cbn [negb] in H.
  2:{ destruct (_ <? _); inv H; (split; [apply tokens_grow_same; reflexivity|discriminate]). }
  destruct (Voter.has_voted_in voter eid);
    [inv H; split; [apply tokens_grow_same; reflexivity|discriminate]|].
  destruct (TokenService.validate_token _ _ _ _ _) as [[valid vmsg] vt] eqn:Hval.
  destruct valid; cbn [negb] in H;
    [|inv H; split; [apply tokens_grow_same; reflexivity|discriminate]].
  destruct (TokenService.validate_token_constituency _ _ _) as [cvalid cmsg].
  destruct cvalid; cbn [negb] in H;
    [|inv H; split; [apply tokens_grow_same; reflexivity|discriminate]].
  destruct (Election.get_candidate election cid) as [candidate|];
    [|inv H; split; [apply tokens_grow_same; reflexivity|discriminate]].
  destruct (negb (opt_string_eqb _ _));
    [inv H; split; [apply tokens_grow_same; reflexivity|discriminate]|].
  destruct (Election.get_party election pid) as [party|];
    [|inv H; split; [apply tokens_grow_same; reflexivity|discriminate]].
  destruct (negb (truthy _));
    [inv H; split; [apply tokens_grow_same; reflexivity|discriminate]|].
  destruct (Vote.generate_receipt _ _ _ _) as [[[rid rhash] tstr] w2] eqn:Hrec.
  apply generate_receipt_db in Hrec. cbn [db bump] in Hrec.
  assert (G2 : tokens_grow w w2) by (apply tokens_grow_same; rewrite Hrec; reflexivity).
  destruct (TokenService.use_token_for_ballot E _ "fptp" w2) as [[s1 m1] w3] eqn:Hu1.
  pose proof (use_token_grow _ _ _ _ _ _ Hu1) as G3.
  destruct s1; cbn [negb] in H.
  2:{ inv H. split; [eapply tokens_grow_trans; eauto|discriminate]. }
  apply use_token_recorded in Hu1. destruct Hu1 as (t3 & Ht3 & Hin3).
  destruct (Vote.cast_fptp_vote _ _ _ _ _ _ _ _ _ _ _) as [r1 w4] eqn:Hc1.
  apply cast_fptp_vote_tokens in Hc1.
  assert (G4 : tokens_grow w3 w4) by (apply tokens_grow_same; exact Hc1).
  assert (Hvalid : exists tid, tok = Some tid).
  { unfold TokenService.validate_token in Hval. destruct tok as [tid|]; [eauto|].
    cbn in Hval. inv Hval. }
  destruct Hvalid as (tid & ->).
  assert (Hspent : forall wf, tokens_grow w4 wf ->
            exists t', VotingToken.find_by_token_id wf tid = Some t' /\ spent t').
  { intros wf Gf. destruct (G4 tid t3 Ht3) as (t4 & Ht4 & Hm4).
    destruct (Gf tid t4 Ht4) as (tf & Htf & Hmf). exists tf. split; [exact Htf|].
    eapply spent_more; [|exact Hmf]. eapply spent_more; [|exact Hm4].
    right. exact Hin3. }
  destruct r1 as [v1|e1].
  2:{ inv H. split; [|discriminate].
      eapply tokens_grow_trans; [exact G2|]. eapply tokens_grow_trans; eauto. }
  destruct (TokenService.use_token_for_ballot E _ "pr" w4) as [[s2 m2] w5] eqn:Hu2.
  pose proof (use_token_grow _ _ _ _ _ _ Hu2) as G5.
  destruct s2; cbn [negb] in H.
  2:{ inv H. split; [|discriminate].
      eapply tokens_grow_trans; [exact G2|]. eapply tokens_grow_trans; [exact G3|].
      eapply tokens_grow_trans; eauto. }
  destruct (Vote.cast_pr_vote _ _ _ _ _ _ _ _ _ _) as [r2 w6] eqn:Hc2.
  apply cast_pr_vote_tokens in Hc2.
  assert (G6 : tokens_grow w5 w6) by (apply tokens_grow_same; exact Hc2).
  destruct r2 as [v2|e2].
  2:{ inv H. split; [|discriminate].
      eapply tokens_grow_trans; [exact G2|]. eapply tokens_grow_trans; [exact G3|].
      eapply tokens_grow_trans; [exact G4|]. eapply tokens_grow_trans; eauto. }
  destruct (Voter.mark_voted voter eid w6) as [voter1 w7] eqn:Hm.
  apply mark_voted_tokens in Hm.
  assert (G7 : tokens_grow w6 w7) by (apply tokens_grow_same; exact Hm).
  inv H.
  assert (G47 : tokens_grow w4 w') by
    (eapply tokens_grow_trans; [exact G5|]; eapply tokens_grow_trans; eauto).
  split.
  - eapply tokens_grow_trans; [exact G2|]. eapply tokens_grow_trans; [exact G3|].
    eapply tokens_grow_trans; eauto.
  - intros _. destruct (Hspent w' G47) as (t' & Ht' & Hs'). exists tid, t'. auto.
Qed.

Lemma reachable_grow E w0 w : Schema.reachable E w0 w -> tokens_grow w0 w.
Proof.
  induction 1 as [|w voter eid r voter' w' _ IH H
                  |w tid bt r w' _ IH H
                  |w voter eid cid pid r voter' w' _ IH H
                  |w voter eid cid pid tok r voter' w' _ IH H
                  |w rid log r w' _ IH H
                  |w enabled ip ua vid eid r w' _ IH H
                  |w enabled ip ua vid eid bt r w' _ IH H].
  - apply tokens_grow_refl.
  - eapply tokens_grow_trans; [exact IH|]. eapply issue_token_grow; eauto.
  - eapply tokens_grow_trans; [exact IH|]. eapply use_token_grow; eauto.
  - eapply tokens_grow_trans; [exact IH|]. apply tokens_grow_same.
    eapply cast_dual_ballot_tokens; eauto.
  - eapply tokens_grow_trans; [exact IH|]. destruct r as [[ok msg] rcpt].
    eapply cast_with_token_tokens; eauto.
  - eapply tokens_grow_trans; [exact IH|]. apply tokens_grow_same.
    eapply verify_receipt_tokens; eauto.
  - eapply tokens_grow_trans; [exact IH|]. apply tokens_grow_same.
    unfold AuditService.log_token_issued in H.
    destruct (negb enabled); [inv H; reflexivity|].
    destruct (AuditLog.log _ _ _ _ _ _ _ _ _ _) as [r0 w1] eqn:Hlog. inv H.
    change w' with (snd (r0, w')). rewrite <- Hlog. apply log_tokens.
  - eapply tokens_grow_trans; [exact IH|]. apply tokens_grow_same.
    unfold AuditService.log_vote_cast in H.
    destruct (negb enabled); [inv H; reflexivity|].
    destruct (AuditLog.log _ _ _ _ _ _ _ _ _ _) as [r0 w1] eqn:Hlog. inv H.
    change w' with (snd (r0, w')). rewrite <- Hlog. apply log_tokens.
Qed.

Lemma use_token_spent E tid t w :
  VotingToken.find_by_token_id w tid = Some t -> spent t ->
  exists m, TokenService.use_token_for_ballot E tid "fptp" w = ((false, m), w).
Proof.
  intros Hfind Hspent. unfold TokenService.use_token_for_ballot.
  replace (negb (in_list "fptp" VotingToken.BALLOT_TYPES)) with false by reflexivity.
  rewrite Hfind. destruct (is_fully_used t) eqn:Hfull; [eauto|].
  destruct Hspent as [Hs|Hs]; [congruence|].
  unfold VotingToken.is_valid_for_ballot. rewrite Hfull.
  destruct (negb (in_list "fptp" (ballots_allowed t))); cbn [negb]; [eauto|].
  apply in_list_In in Hs. rewrite Hs. cbn [negb]. eauto.
Qed.

(** A cast with a spent token fails before anything is stored. *)
Lemma cast_with_spent_token E voter eid cid pid tid t w :
  VotingToken.find_by_token_id w tid = Some t -> spent t ->
  exists msg w',
    VoteService.cast_dual_ballot_with_token E voter eid cid pid (Some tid) w
    = ((false, msg, None), voter, w') /\ db w' = db w.
Proof.
  intros Hfind Hspent. unfold VoteService.cast_dual_ballot_with_token.
  destruct (Election.find_by_election_id w eid) as [election|]; [|eauto].
  unfold Election.is_ongoing, Election.has_ended.
  destruct (_ && _ && _); cbn [negb].
  2:{ destruct (_ <? _); eauto. }
  destruct (Voter.has_voted_in voter eid); [eauto|].
  destruct (TokenService.validate_token _ _ _ _ _) as [[valid vmsg] vt].
  destruct valid; cbn [negb]; [|eauto].
  destruct (TokenService.validate_token_constituency _ _ _) as [cvalid cmsg].
  destruct cvalid; cbn [negb]; [|eauto].
  destruct (Election.get_candidate election cid) as [candidate|]; [|eauto].
  destruct (negb (opt_string_eqb _ _)); [eauto|].
  destruct (Election.get_party election pid) as [party|]; [|eauto].
  destruct (negb (truthy _)); [eauto|].
  destruct (Vote.generate_receipt _ _ _ _) as [[[rid rhash] tstr] w2] eqn:Hrec.
  apply generate_receipt_db in Hrec. cbn [db bump] in Hrec.
  destruct (use_token_spent E tid t w2) as (m & Hu); [|exact Hspent|].
  { unfold VotingToken.find_by_token_id in *. rewrite Hrec. exact Hfind. }
  cbn [tick bump] in *. rewrite Hu. cbn [negb]. eauto.
Qed.

(** X8: a token serves once.  After [cast_dual_ballot_with_token] has
    succeeded with a token, in every state reached from there by the
    public operations, another call with the same token id, by any voter
    and for any election or choice, is refused and leaves the database
    as it was: no further ballot can be stored under that token. *)
Theorem token_single_use E voter eid cid pid tid w msg rcpt voter1 w1 :
  VoteService.cast_dual_ballot_with_token E voter eid cid pid (Some tid) w
  = ((true, msg, rcpt), voter1, w1) ->
  forall w2, Schema.reachable E w1 w2 ->
  forall voter' eid' cid' pid',
  exists msg' w3,
    VoteService.cast_dual_ballot_with_token E voter' eid' cid' pid' (Some tid) w2
    = ((false, msg', None), voter', w3) /\
    db w3 = db w2.
Proof.
  intros Hcast w2 Hreach voter' eid' cid' pid'.
  apply cast_with_token_tokens in Hcast. destruct Hcast as (_ & Hs).
  destruct (Hs eq_refl) as (tid0 & t1 & Heq & Hf1 & Hsp1). inversion Heq; subst tid0.
  destruct (reachable_grow E w1 w2 Hreach tid t1 Hf1) as (t2 & Hf2 & Hm2).
  eapply cast_with_spent_token; [exact Hf2|]. eapply spent_more; eauto.
Qed.

End TokenUse.

(** ** Issuing a token *)

Module TokenIssue.
Import StoreFacts CastFacts ElectorSets ElectorSetsThm TokenProps TokenUse.

Lemma unique_token_id_fresh E fuel : forall tid w tid' w',
  VotingToken.unique_token_id E fuel tid w = Some (tid', w') ->
  VotingToken.find_by_token_id w' tid' = None.
Proof.
  induction fuel as [|f IH]; intros tid w tid' w' H; cbn [VotingToken.unique_token_id] in H.
  - destruct (VotingToken.find_by_token_id w tid) eqn:Hf; inv H. exact Hf.
  - destruct (VotingToken.find_by_token_id w tid) eqn:Hf; [|inv H; exact Hf].
    unfold VotingToken.generate_vote_token in H. apply IH in H. exact H.
Qed.

Lemma create_spec E eid cons w tok w' :
  VotingToken.create E eid cons w = Some (tok, w') ->
  VotingToken.find_by_token_id w (VotingTokenData.token_id tok) = None /\
  VotingTokenData.election_id tok = eid /\
  VotingTokenData.constituency tok = cons /\
  VotingTokenData.ballots_allowed tok = ["fptp"; "pr"] /\
  VotingTokenData.ballots_used tok = [] /\
  VotingTokenData.is_fully_used tok = false.
Proof.
  unfold VotingToken.create, VotingToken.generate_vote_token. intros H.
  destruct (VotingToken.unique_token_id _ _ _ _) as [[tid w1]|] eqn:Hu; inv H.
  pose proof (unique_token_id_fresh _ _ _ _ _ _ Hu) as Hfresh.
  apply unique_token_id_db in Hu. cbn in *.
  unfold VotingToken.find_by_token_id in *. rewrite Hu in Hfresh. repeat split; auto.
Qed.

Lemma find_update_one_same {A : Type} (key : A -> bool) (upd : A -> A) :
  (forall a, key (upd a) = key a) ->
  forall l t, find key l = Some t ->
              find key (fst (update_one key upd l)) = Some (upd t).
Proof.
  intros Hkey. induction l as [|a l IH]; intros t H; cbn [find update_one] in *;
    [discriminate|].
  destruct (key a) eqn:Hk.
  - inversion H; subst. cbn [fst find]. rewrite Hkey, Hk. reflexivity.
  - destruct (update_one key upd l) as [l' m] eqn:Hu. cbn [fst find] in *.
    rewrite Hk. apply IH. exact H.
Qed.

Lemma issue_refused E voter eid w :
  Voter.has_token_for voter eid = true ->
  exists m w', TokenService.issue_token E voter eid w = Some ((false, m, None), voter, w') /\
               db w' = db w.
Proof.
  intros Hhas. unfold TokenService.issue_token, Election.is_ongoing, Election.has_ended.
  destruct (Election.find_by_election_id w eid) as [election|]; [|eauto].
  destruct (_ && _ && _); cbn [negb].
  2:{ destruct (_ <? _); eauto. }
  destruct (Voter.has_voted_in voter eid); [eauto|].
  rewrite Hhas. eauto.
Qed.

(** X9: a successful [issue_token] appends exactly one token, unused,
    for the election and the voter's constituency, under an id that no
    stored token had.  The voter object it returns, and the voter document
    re-read from the store, both record the issuance, so every later
    [issue_token] for this voter and election is refused and leaves the
    database as it was: one token per voter and election. *)
Theorem one_token_per_voter E voter eid w msg tid voter1 w1 :
  TokenService.issue_token E voter eid w = Some ((true, msg, tid), voter1, w1) ->
  (exists t,
      voting_tokens (db w1) = (voting_tokens (db w) ++ [t])%list /\
      tid = Some (VotingTokenData.token_id t) /\
      VotingToken.find_by_token_id w (VotingTokenData.token_id t) = None /\
      VotingTokenData.election_id t = eid /\
      VotingTokenData.constituency t = VoterData.constituency voter /\
      VotingTokenData.ballots_used t = [] /\
      VotingTokenData.is_fully_used t = false) /\
  votes (db w1) = votes (db w) /\
  (forall w2, exists m w3,
      TokenService.issue_token E voter1 eid w2 = Some ((false, m, None), voter1, w3) /\
      db w3 = db w2) /\
  (forall id d, VoterData._id voter = Some id -> Voter.find_by_id w id = Some d ->
     exists d', Voter.find_by_id w1 id = Some d' /\
                forall w2, exists m w3,
                  TokenService.issue_token E d' eid w2 = Some ((false, m, None), d', w3) /\
                  db w3 = db w2).
Proof.
  unfold TokenService.issue_token, Election.is_ongoing, Election.has_ended. intros H.
  destruct (Election.find_by_election_id w eid) as [election|]; [|inv H].
  destruct (_ && _ && _); cbn [negb] in H.
  2:{ destruct (_ <? _); inv H. }
  destruct (Voter.has_voted_in voter eid); [inv H|].
  destruct (Voter.has_token_for voter eid) eqn:Hhas; [inv H|].
  destruct (VotingToken.create _ _ _ _) as [[token w2]|] eqn:Hc; [|discriminate].
  destruct (Voter.mark_token_issued voter eid w2) as [v3 w3] eqn:Hm.
  inv H.
  pose proof (create_frame _ _ _ _ _ _ Hc) as (Hvoters & Hvotes & _ & _ & Htok).
  pose proof (create_spec _ _ _ _ _ _ Hc) as (Hfresh & He & Hcons & _ & Hused & Hfull).
  cbn [db bump] in *.
  unfold Voter.mark_token_issued in Hm. unfold Voter.has_token_for in Hhas.
  rewrite Hhas in Hm. injection Hm as <- <-. cbn [db set_db set_voters voting_tokens votes].
  split; [|split; [|split]].
  - exists token. repeat split; auto.
  - exact Hvotes.
  - intros w2'. apply issue_refused. unfold Voter.has_token_for. cbn.
    apply in_list_In. apply in_or_app. right. left. reflexivity.
  - intros id d Hid Hfind. unfold Voter.find_by_id in *. cbn [db set_db set_voters voters].
    rewrite Hvoters.
    assert (Hsame : Voter.same_id voter = fun d => opt_nat_eqb (VoterData._id d) (Some id)).
    { unfold Voter.same_id. rewrite Hid. reflexivity. }
    rewrite Hsame.
    erewrite find_update_one_same;
      [|intros a; unfold Voter.add_to_set_token_issued_for;
        destruct (in_list _ (VoterData.token_issued_for a)); reflexivity|exact Hfind].
    eexists. split; [reflexivity|].
    intros w2'. apply issue_refused. unfold Voter.has_token_for.
    unfold Voter.add_to_set_token_issued_for.
    destruct (in_list eid (VoterData.token_issued_for d)) eqn:Hin; [exact Hin|].
    cbn. apply in_list_In. apply in_or_app. right. left. reflexivity.
Qed.

End TokenIssue.

(** ** Terminating an election *)

Module Termination.
Import StoreFacts ElectionAdmin.

(** X10: [terminate_election] succeeds only on an election that has
    started and has not ended.  It then changes nothing but the
    [end_date] of that election; and, the clock being strictly increasing,
    from then on the election has ended, so that the results can be asked
    for, and [issue_token] and both casting operations answer that the
    election has ended and store nothing. *)
Theorem terminate_election_closes E eid w msg w1 :
  (forall i j, (i < j)%nat -> utcnow E i < utcnow E j) ->
  terminate_election E eid w = ((true, msg), w1) ->
  voters (db w1) = voters (db w) /\ votes (db w1) = votes (db w) /\
  voting_tokens (db w1) = voting_tokens (db w) /\
  audit_logs (db w1) = audit_logs (db w) /\
  (exists election,
      Election.find_by_election_id w eid = Some election /\
      ElectionData.start_date election <= utcnow E (tick w) /\
      utcnow E (S (tick w)) <= ElectionData.end_date election /\
      Election.find_by_election_id w1 eid
      = Some (with_end_date (utcnow E (S (S (tick w)))) election)) /\
  forall w2, (tick w1 <= tick w2)%nat -> elections (db w2) = elections (db w1) ->
    (exists stored,
        Election.find_by_election_id w2 eid = Some stored /\
        Election.has_ended E stored w2 = (true, bump w2)) /\
    forall voter cid pid tok,
      TokenService.issue_token E voter eid w2
      = Some ((false, "This election has ended", None), voter, bump (bump w2)) /\
      VoteService.cast_dual_ballot_with_token E voter eid cid pid tok w2
      = ((false, "This election has ended", None), voter, bump (bump w2)) /\
      VoteService.cast_dual_ballot E voter eid cid pid w2
      = ((false, "This election has ended"), voter, bump (bump w2)).
Proof.
  intros Hclock. unfold terminate_election. intros H.
  destruct (Election.find_by_election_id w eid) as [election|] eqn:Hfind; [|inv H].
  unfold Election.has_started, Election.has_ended in H.
  destruct (Z.leb_spec (ElectionData.start_date election) (utcnow E (tick w)));
    cbn [negb] in H; [|inv H].
  cbn [bump tick] in H.
  destruct (Z.ltb_spec (ElectionData.end_date election) (utcnow E (S (tick w))));
    [inv H|]. inv H.
  unfold terminate. cbn [db bump set_db set_elections voters votes voting_tokens audit_logs
                            tick elections].
  repeat (split; [reflexivity|]).
  assert (Hnew : Election.find_by_election_id
                   (set_db (bump (bump (bump w)))
                      (set_elections (db w)
                         (fst (update_one
                                 (fun e => String.eqb (ElectionData.election_id e) eid)
                                 (with_end_date (utcnow E (S (S (tick w)))))
                                 (elections (db w)))))) eid
                 = Some (with_end_date (utcnow E (S (S (tick w)))) election)).
  { unfold Election.find_by_election_id in *. cbn [db set_db set_elections elections].
    apply TokenIssue.find_update_one_same; [intros a; reflexivity|exact Hfind]. }
  split; [exists election; auto|].
  intros w2 Htick Hel.
  cbn [tick set_db bump] in Htick.
  assert (Hf2 : Election.find_by_election_id w2 eid
                = Some (with_end_date (utcnow E (S (S (tick w)))) election)).
  { unfold Election.find_by_election_id in *. rewrite Hel. exact Hnew. }
  pose proof (Hclock (S (S (tick w))) (tick w2) ltac:(lia)) as Hlt1.
  pose proof (Hclock (S (S (tick w))) (S (tick w2)) ltac:(lia)) as Hlt2.
  split.
  { eexists. split; [exact Hf2|]. unfold Election.has_ended.
    cbn [with_end_date ElectionData.end_date].
    destruct (Z.ltb_spec (utcnow E (S (S (tick w)))) (utcnow E (tick w2))); [reflexivity|lia]. }
  intros voter cid pid tok.
  unfold TokenService.issue_token, VoteService.cast_dual_ballot_with_token,
    VoteService.cast_dual_ballot, Election.is_ongoing, Election.has_ended.
  rewrite Hf2. cbn [with_end_date ElectionData.end_date ElectionData.is_active
                      ElectionData.start_date tick bump].
  destruct (Z.leb_spec (utcnow E (tick w2)) (utcnow E (S (S (tick w))))); [lia|].
  rewrite andb_false_r. cbn [negb].
  destruct (Z.ltb_spec (utcnow E (S (S (tick w)))) (utcnow E (S (tick w2)))); [|lia].
  auto.
Qed.

End Termination.

(** ** Counting votes without decrypting *)

Module Counting.
Import VoteQueries.

Lemma stored_no_choice v :
  lookup (Vote.stored v) "candidate_id" = None /\ lookup (Vote.stored v) "party_id" = None.
Proof.
  unfold Vote.stored, Vote.to_dict, with_id, lookup.
  destruct (VoteData._id v), (VoteData.verification_count v); cbn; auto.
Qed.

Lemma stored_election_ballot v :
  lookup (Vote.stored v) "election_id" = Some (VStr (VoteData.election_id v)) /\
  lookup (Vote.stored v) "ballot_type" = Some (VStr (VoteData.ballot_type v)).
Proof.
  unfold Vote.stored, Vote.to_dict, with_id, lookup.
  destruct (VoteData._id v), (VoteData.verification_count v); cbn; auto.
Qed.

Lemma filter_none {A : Type} (f : A -> bool) l :
  (forall a, In a l -> f a = false) -> filter f l = [].
Proof.
  induction l as [|a l IH]; intros H; cbn [filter]; [reflexivity|].
  rewrite (H a (or_introl eq_refl)). apply IH. intros b Hb. apply H. right. exact Hb.
Qed.

Lemma filter_map_length {A B : Type} (f : B -> bool) (g : A -> B) (h : A -> bool) l :
  (forall a, f (g a) = h a) ->
  List.length (filter f (map g l)) = List.length (filter h l).
Proof.
  intros H. induction l as [|a l IH]; [reflexivity|].
  cbn [map filter]. rewrite H. destruct (h a); cbn [List.length]; rewrite IH; reflexivity.
Qed.

(** X11: the stored vote documents never hold the choice in clear, so
    [count_by_candidate] and [count_by_party] return 0 on every store, for
    every election, candidate and party, whatever was cast; whereas
    [count_by_election] with a ballot type counts exactly the stored
    ballots of that election and type. *)
Theorem plaintext_counters_are_zero w election_id :
  (forall candidate_id, count_by_candidate election_id candidate_id w = 0%nat) /\
  (forall party_id, count_by_party election_id party_id w = 0%nat) /\
  (forall ballot_type, ballot_type <> "" ->
     count_by_election election_id (Some ballot_type) w
     = List.length
         (filter (fun v => String.eqb (VoteData.election_id v) election_id
                           && String.eqb (VoteData.ballot_type v) ballot_type)
                 (votes (db w)))).
Proof.
  split; [|split].
  - intros cid. unfold count_by_candidate, count_documents.
    rewrite filter_none; [reflexivity|].
    intros d Hd. apply in_map_iff in Hd. destruct Hd as (v & <- & _).
    cbn [forallb]. unfold clause_holds at 3. cbn [fst snd].
    rewrite (proj1 (stored_no_choice v)). rewrite !andb_false_r. reflexivity.
  - intros pid. unfold count_by_party, count_documents.
    rewrite filter_none; [reflexivity|].
    intros d Hd. apply in_map_iff in Hd. destruct Hd as (v & <- & _).
    cbn [forallb]. unfold clause_holds at 3. cbn [fst snd].
    rewrite (proj2 (stored_no_choice v)). rewrite !andb_false_r. reflexivity.
  - intros bt Hbt. unfold count_by_election, count_documents.
    assert (Ht : truthy (Some bt) = true).
    { cbn. destruct (String.eqb_spec bt ""); [contradiction|reflexivity]. }
    rewrite Ht. cbn [app].
    apply filter_map_length. intros v. cbn [forallb].
    unfold clause_holds. cbn [fst snd].
    rewrite (proj1 (stored_election_ballot v)), (proj2 (stored_election_ballot v)).
    rewrite andb_true_r. reflexivity.
Qed.

End Counting.

(** ** What a receipt verification writes *)

Module VerifyWrites.
Import StoreFacts.

Lemma to_dict_log_verified E ts v : Vote.to_dict (Vote.log_verified E ts v) = Vote.to_dict v.
Proof. reflexivity. Qed.

(** X12: [verify_receipt] never touches a ballot: whatever its outcome,
    every stored vote keeps the nine fields written when it was cast, in
    the same order, and the other collections are unchanged.  A refused
    or unlogged verification leaves the whole database as it was; a
    logged successful one adds a history entry to, and increments the
    counter of, exactly the votes carrying this receipt, and reports the
    counter of the first of them. *)
Theorem verify_receipt_writes E rid log w r w' :
  Vote.verify_receipt E rid log w = (r, w') ->
  map Vote.to_dict (votes (db w')) = map Vote.to_dict (votes (db w)) /\
  voters (db w') = voters (db w) /\ voting_tokens (db w') = voting_tokens (db w) /\
  elections (db w') = elections (db w) /\ audit_logs (db w') = audit_logs (db w) /\
  (Vote.valid r = false \/ log = false -> db w' = db w) /\
  (Vote.valid r = true -> log = true ->
   votes (db w')
   = map (fun v => if opt_string_eqb (VoteData.receipt_id v) (Some rid)
                   then Vote.log_verified E (utcnow E (tick w)) v else v)
         (votes (db w)) /\
   exists first,
     hd_error (Vote.find_by_receipt_id w rid) = Some first /\
     Vote.v_verification_count r
     = Some (match VoteData.verification_count first with
             | Some n => n + 1
             | None => 1
             end)).
Proof.
  unfold Vote.verify_receipt. intros H.
  destruct (Vote.find_by_receipt_id w rid) as [|primary rest] eqn:Hfind.
  { inv H. repeat split; auto; cbn in *; discriminate. }
  destruct (negb (opt_string_eqb _ _)).
  { inv H. repeat split; auto; cbn in *; discriminate. }
  destruct log.
  - inv H. cbn [db set_db bump set_votes votes voters voting_tokens elections audit_logs
                  Vote.valid Vote.v_verification_count tick].
    unfold update_many.
    split.
    { rewrite map_map. apply map_ext. intros v.
      destruct (opt_string_eqb _ _); reflexivity. }
    repeat (split; [reflexivity|]).
    split; [intros [Hv|Hv]; discriminate|].
    intros _ _. split; [reflexivity|].
    exists primary. split; [reflexivity|].
    unfold Vote.find_by_receipt_id in Hfind.
    assert (Hgen : forall l,
               filter (fun v => opt_string_eqb (VoteData.receipt_id v) (Some rid)) l
               = primary :: rest ->
               find (fun v => opt_string_eqb (VoteData.receipt_id v) (Some rid))
                    (map (fun a => if opt_string_eqb (VoteData.receipt_id a) (Some rid)
                                   then Vote.log_verified E (utcnow E (tick w)) a else a) l)
               = Some (Vote.log_verified E (utcnow E (tick w)) primary)).
    { induction l as [|a l IH]; cbn [filter map find]; [discriminate|].
      destruct (opt_string_eqb (VoteData.receipt_id a) (Some rid)) eqn:Ha.
      - intros Heq. inversion Heq; subst a.
        change (VoteData.receipt_id (Vote.log_verified E (utcnow E (tick w)) primary))
          with (VoteData.receipt_id primary).
        rewrite Ha. reflexivity.
      - rewrite Ha. exact IH. }
    rewrite (Hgen _ Hfind). cbn. destruct (VoteData.verification_count primary); reflexivity.
  - inv H. cbn [db bump]. repeat split; auto; discriminate.
Qed.

End VerifyWrites.

(** ** Appending to the audit log, and the status report *)

Module AuditMore.
Import AuditLogData AuditChain AuditChainFacts AuditChainThm AuditStatus.

Lemma init_constructed c e m u ut ip ua d ts eh ph i :
  constructed (AuditLog.init c e m u ut ip ua d ts eh ph i).
Proof.
  unfold constructed, AuditLog.init. cbn [details].
  destruct (AuditLog.value_truthy d) eqn:Hd; [rewrite Hd; reflexivity|reflexivity].
Qed.

Lemma chronological_snoc l s :
  chronological l -> (forall x, In x l -> timestamp x < timestamp s) ->
  chronological (l ++ [s]).
Proof.
  unfold chronological. induction 1 as [|a l Hs IH Hall]; intros Hlt; cbn [app].
  - constructor; constructor.
  - constructor.
    + apply IH. intros x Hx. apply Hlt. right. exact Hx.
    + apply Forall_app. split; [exact Hall|].
      constructor; [apply Hlt; left; reflexivity|constructor].
Qed.

Lemma normalised_serialisable v :
  AuditLog.serialisable (if AuditLog.value_truthy v then v else VDict [])
  = AuditLog.serialisable v.
Proof.
  destruct (AuditLog.value_truthy v) eqn:Ht; [reflexivity|].
  destruct (AuditLog.serialisable v) eqn:Hs; [reflexivity|].
  apply unserialisable_truthy in Hs. congruence.
Qed.

(** X13: [AuditLog.log] is append-only and keeps a valid chain valid.  On
    a log whose entries are in strictly increasing time order and verify,
    a call made at a clock reading later than every stored entry, with
    details that [json.dumps] can serialise, leaves the stored entries as
    they were, appends one entry linked to the latest hash, and
    [verify_chain] then accepts all entries, one more than before.  With
    details that cannot be serialised (a [datetime] in them) the call
    raises [TypeError] and stores nothing. *)
Theorem log_extends_chain E category event_type message user_id user_type
        ip_address user_agent details w :
  digest_nonempty E ->
  chronological (audit_logs (db w)) ->
  chain_ok E (Some AuditLog.GENESIS_HASH) (audit_logs (db w)) ->
  (forall x, In x (audit_logs (db w)) -> timestamp x < utcnow E (tick w)) ->
  (AuditLog.serialisable details = true ->
   exists s w',
     AuditLog.log E category event_type message user_id user_type
                  ip_address user_agent details w = (Ok s, w') /\
     audit_logs (db w') = (audit_logs (db w) ++ [s])%list /\
     timestamp s = utcnow E (tick w) /\
     previous_hash s = Some (AuditLog._get_latest_hash w) /\
     AuditLog.verify_chain E None w'
     = Ok {| AuditLog.valid := true;
             AuditLog.entries_checked := S (List.length (audit_logs (db w)));
             AuditLog.first_invalid_id := None; AuditLog.error := None |}) /\
  (AuditLog.serialisable details = false ->
   exists w',
     AuditLog.log E category event_type message user_id user_type
                  ip_address user_agent details w
     = (Raise (TypeError "Object of type datetime is not JSON serializable"), w') /\
     db w' = db w).
Proof.
  intros Hdig Hchron Hok Hlater. unfold AuditLog.log.
  set (e := AuditLog.init _ _ _ _ _ _ _ _ _ _ _ _).
  assert (Hde : AuditLog.serialisable (AuditLogData.details e)
                = AuditLog.serialisable details)
    by (apply normalised_serialisable).
  split; intros Hser.
  - destruct (save_spec E e (bump w)) as (s & h & Hsave & Hts & Hprev & Heh & Hhash);
      [reflexivity|apply init_constructed|rewrite Hde; exact Hser|].
    rewrite Hsave. eexists. eexists. split; [reflexivity|].
    cbn [db bump set_db audit_logs set_audit_logs].
    assert (Hlatest : AuditLog._get_latest_hash (bump w) = AuditLog._get_latest_hash w)
      by reflexivity.
    rewrite Hlatest in Hprev.
    split; [reflexivity|]. split; [rewrite Hts; reflexivity|]. split; [exact Hprev|].
    assert (Hok' : chain_ok E (Some AuditLog.GENESIS_HASH) (audit_logs (db w) ++ [s])).
    { apply chain_ok_app. split; [exact Hok|]. cbn [chain_ok].
      split; [|split; [exists h; split; assumption|exact I]].
      rewrite Hprev. apply (get_latest_hash_spec E); assumption. }
    unfold AuditLog.verify_chain. cbn [db set_db audit_logs set_audit_logs].
    rewrite (filter_chain E _ _ Hok').
    assert (Hchron' : chronological (audit_logs (db w) ++ [s])).
    { apply chronological_snoc; [exact Hchron|]. intros x Hx. rewrite Hts.
      apply Hlater. exact Hx. }
    rewrite sort_asc_chronological by exact Hchron'.
    rewrite (check_entries_ok E _ 0 (Some AuditLog.GENESIS_HASH)) by exact Hok'.
    rewrite length_app. cbn [List.length Nat.add]. rewrite Nat.add_1_r. reflexivity.
  - unfold AuditLog.save.
    rewrite compute_hash_raise; [eexists; split; reflexivity|].
    cbn [AuditLogData.details AuditLog.with_hashes]. rewrite Hde. exact Hser.
Qed.

Lemma verify_chain_limit E n w :
  AuditLog.verify_chain E (Some (S n)) w
  = AuditLog.check_entries E
      (firstn (S n) (AuditLog.sort_asc (filter AuditLog.has_entry_hash (audit_logs (db w)))))
      0 (Some AuditLog.GENESIS_HASH).
Proof. reflexivity. Qed.

Lemma sort_asc_length l : List.length (AuditLog.sort_asc l) = List.length l.
Proof.
  unfold AuditLog.sort_asc.
  assert (Hi : forall x acc, List.length (AuditLog.insert_asc x acc) = S (List.length acc)).
  { intros x acc. induction acc as [|y acc IH]; cbn [AuditLog.insert_asc]; [reflexivity|].
    destruct (_ <? _); cbn [List.length]; [reflexivity|]. rewrite IH. reflexivity. }
  assert (Hf : forall l acc,
             List.length (fold_left (fun acc d => AuditLog.insert_asc d acc) l acc)
             = (List.length l + List.length acc)%nat).
  { clear l. induction l as [|x l IH]; intros acc; cbn [fold_left List.length];
      [reflexivity|].
    rewrite IH, Hi. lia. }
  rewrite Hf. cbn. lia.
Qed.

Lemma filter_length {A : Type} (f : A -> bool) l :
  (List.length (filter f l) <= List.length l)%nat.
Proof. induction l as [|x l IH]; cbn; [lia|]. destruct (f x); cbn; lia. Qed.

Lemma chronological_filter f l : chronological l -> chronological (filter f l).
Proof.
  unfold chronological. induction 1 as [|a l Hs IH Hall]; cbn [filter]; [constructor|].
  destruct (f a); [|exact IH]. constructor; [exact IH|].
  rewrite Forall_forall in *. intros x Hx. apply filter_In in Hx. apply Hall, Hx.
Qed.

(** X14: [get_chain_status] verifies the 1000 oldest entries, not the
    latest ones.  On a log of at most 1000 entries its verdict is that of
    a full [verify_chain]; on a longer log in time order whose 1000 oldest
    entries verify, it reports the chain intact after checking 1000
    entries, whatever the later entries hold. *)
Theorem chain_status_checks_oldest E w :
  ((List.length (audit_logs (db w)) <= 1000)%nat ->
   match get_chain_status E w with
   | Ok status => AuditLog.verify_chain E None w = Ok (verification_details status)
   | Raise e => AuditLog.verify_chain E None w = Raise e
   end) /\
  (forall oldest later,
     audit_logs (db w) = (oldest ++ later)%list ->
     List.length oldest = 1000%nat ->
     chronological (oldest ++ later) ->
     chain_ok E (Some AuditLog.GENESIS_HASH) oldest ->
     exists status,
       get_chain_status E w = Ok status /\
       chain_intact status = true /\
       AuditLog.entries_checked (verification_details status) = 1000%nat).
Proof.
  split.
  - intros Hlen. unfold get_chain_status.
    rewrite (verify_chain_limit E 999 w : AuditLog.verify_chain E (Some 1000%nat) w = _).
    unfold AuditLog.verify_chain.
    rewrite firstn_all2.
    + destruct (AuditLog.check_entries _ _ _ _); reflexivity.
    + rewrite sort_asc_length.
      pose proof (filter_length AuditLog.has_entry_hash (audit_logs (db w))). lia.
  - intros oldest later Hlogs Hlen Hchron Hok.
    unfold get_chain_status.
    rewrite (verify_chain_limit E 999 w : AuditLog.verify_chain E (Some 1000%nat) w = _).
    assert (Hfil : filter AuditLog.has_entry_hash (audit_logs (db w))
                   = (oldest ++ filter AuditLog.has_entry_hash later)%list).
    { rewrite Hlogs, filter_app, (filter_chain E _ _ Hok). reflexivity. }
    rewrite Hfil.
    rewrite sort_asc_chronological.
    2:{ rewrite <- (filter_chain E _ _ Hok), <- filter_app.
        apply chronological_filter. exact Hchron. }
    rewrite firstn_app.
    replace (S 999 - List.length oldest)%nat with 0%nat by (rewrite Hlen; reflexivity).
    rewrite firstn_O, app_nil_r. rewrite firstn_all2 by (rewrite Hlen; apply Nat.le_refl).
    rewrite (check_entries_ok E _ 0 (Some AuditLog.GENESIS_HASH)) by exact Hok.
    cbn [bind]. eexists. split; [reflexivity|].
    cbn [chain_intact verification_details AuditLog.valid AuditLog.entries_checked Nat.add].
    rewrite Hlen. auto.
Qed.

End AuditMore.

(** ** Test points for the further properties *)

Module ShamirMoreChecks.
Import ShamirSecretSharing ShamirExample ShamirRuns MoreRuns ShareText ShamirMore ShamirEdge.

Lemma mod_inverse_bezout_seven :
  (exists x, _mod_inverse 3 7 = Some x /\ 0 <= x < 7 /\
             (3 * x) mod 7 = Z.gcd 3 7 mod 7 /\
             ((3 * x) mod 7 = 1 <-> Z.gcd 3 7 = 1)) /\
  (forall frames, (752 <= frames)%nat -> extended_gcd frames (3 mod 7) 7 <> None) /\
  (exists a' m', 1 < m' /\ _mod_inverse a' m' = None).
Proof.
  apply (mod_inverse_bezout 3 7). split; [lia|]. apply Z.leb_le. reflexivity.
Defined.

Lemma split_secret_shares_scenario :
  exists shares,
    split_secret sss rnd secret = Ok shares /\
    map fst shares = range1 5 /\
    Forall (fun sh =>
              String.length (snd sh) = 131%nat /\
              all_chars is_lower_hex (snd sh) = true /\
              exists y, 0 <= y < PRIME /\ Py.int16 (snd sh) = Ok y) shares.
Proof.
  apply (split_secret_shares 3 5 sss rnd secret); [reflexivity | vm_compute; reflexivity].
Defined.

Lemma split_secret_capacity_scenario :
  (PRIME <= Py.int_from_bytes secret ->
   split_secret sss rnd secret
   = Raise (ValueError "Secret too large for the prime field")) /\
  (Py.int_from_bytes secret < PRIME ->
   exists shares, split_secret sss rnd secret = Ok shares) /\
  ((List.length secret <= 65)%nat -> exists shares, split_secret sss rnd secret = Ok shares).
Proof. apply (split_secret_capacity 3 5 sss rnd secret). reflexivity. Defined.

Lemma three_shares_distinct : NoDup three_shares.
Proof.
  vm_compute.
  repeat (constructor; [intros H; repeat (destruct H as [H|H]; [discriminate H|]); exact H|]).
  constructor.
Qed.

Lemma three_shares_incl : incl three_shares scenario_shares.
Proof.
  intros x Hx. vm_compute in Hx. destruct Hx as [<-|[<-|[<-|[]]]]; vm_compute; auto 6.
Qed.

Lemma reconstruct_secret_length_scenario :
  (256 ^ Z.of_nat 40 <= Py.int_from_bytes secret ->
   reconstruct_secret sss three_shares 40
   = Some (Raise (OverflowError "int too big to convert"))) /\
  (Py.int_from_bytes secret < 256 ^ Z.of_nat 40 ->
   exists b, reconstruct_secret sss three_shares 40 = Some (Ok b) /\
             List.length b = 40%nat /\ Py.int_from_bytes b = Py.int_from_bytes secret) /\
  (forall few, Z.of_nat (List.length few) < 3 ->
     reconstruct_secret sss few 40
     = Some (Raise (ValueError ("Need at least " ++ Py.str_int 3 ++ " shares, got "
                                ++ Py.str_int (Z.of_nat (List.length few)))))).
Proof.
  apply (reconstruct_secret_length 3 5 sss rnd secret scenario_shares three_shares 40);
    [reflexivity | lia | vm_compute; reflexivity | vm_compute; reflexivity
     | exact three_shares_distinct | exact three_shares_incl | vm_compute; reflexivity].
Defined.

Lemma small_shares_split : split_secret sss small_rnd small_secret = Ok small_shares.
Proof. vm_compute. reflexivity. Qed.

Lemma small_replaced_distinct :
  NoDup (replaced small_first small_second small_third).
Proof.
  vm_compute.
  repeat (constructor; [intros H; repeat (destruct H as [H|H]; [discriminate H|]); exact H|]).
  constructor.
Qed.

Lemma small_replaced_incl : incl (replaced small_first small_second small_third) small_shares.
Proof.
  intros x Hx. vm_compute in Hx. destruct Hx as [<-|[<-|[<-|[]]]]; vm_compute; auto 6.
Qed.

Lemma wrong_share_never_yields_secret_small :
  exists v,
    0 <= v < PRIME /\ v <> Py.int_from_bytes small_secret /\
    (256 ^ Z.of_nat (List.length small_secret) <= v ->
     reconstruct_secret sss (replaced small_first (fst small_second, "0") small_third)
       (List.length small_secret)
     = Some (Raise (OverflowError "int too big to convert"))) /\
    (v < 256 ^ Z.of_nat (List.length small_secret) ->
     exists b,
       reconstruct_secret sss (replaced small_first (fst small_second, "0") small_third)
         (List.length small_secret)
       = Some (Ok b) /\
       Py.int_from_bytes b = v /\ b <> small_secret).
Proof.
  apply (wrong_share_never_yields_secret 3 5 sss small_rnd small_secret small_shares
           small_first (fst small_second) (snd small_second) small_third "0" 15 0);
    [reflexivity | lia | vm_compute; reflexivity | exact small_shares_split
     | exact small_replaced_distinct | exact small_replaced_incl | vm_compute; reflexivity
     | vm_compute; reflexivity | vm_compute; reflexivity | vm_compute; discriminate].
Defined.

End ShamirMoreChecks.

Module TallyMoreChecks.
Import Tally TallyRuns QuotaRule.

Lemma scenario_votes_keys : NoDup (map fst scenario_votes).
Proof.
  unfold scenario_votes. cbn [map fst].
  repeat (constructor; [intros H; repeat (destruct H as [H|H]; [discriminate H|]); exact H|]).
  constructor.
Qed.

Lemma scenario_votes_nonneg : forall kv, In kv scenario_votes -> 0 <= snd kv.
Proof. intros kv H. repeat (destruct H as [<-|H]; [cbn; lia|]). destruct H. Qed.

Lemma pr_allocation_quota_rule_scenario :
  exists allocation,
    _allocate_pr_seats scenario_votes 10 = Ok allocation /\
    Forall2 (fun kv ka =>
               fst ka = fst kv /\
               snd kv * 10 - sum_values scenario_votes
               <= snd ka * sum_values scenario_votes
               <= snd kv * 10 + sum_values scenario_votes)
            scenario_votes allocation.
Proof.
  apply (pr_allocation_quota_rule scenario_votes 10);
    [exact scenario_votes_keys | exact scenario_votes_nonneg
     | vm_compute; reflexivity | lia | vm_compute; discriminate].
Defined.

End TallyMoreChecks.

Module StoreMoreChecks.
Import Scenario ScenarioRun Runs MoreRuns Schema.
Import TokenUse TokenIssue Termination VerifyWrites.

Lemma cast_succeeds :
  VoteService.cast_dual_ballot_with_token env voter1 eid cid pid (Some token1_id) world1
  = ((true, cast_message, cast_receipt), voter2, world2).
Proof. vm_compute. reflexivity. Qed.

Lemma token_single_use_run :
  exists msg' w3,
    VoteService.cast_dual_ballot_with_token env voter eid cid pid (Some token1_id) world2
    = ((false, msg', None), voter, w3) /\
    db w3 = db world2.
Proof.
  apply (token_single_use env voter1 eid cid pid token1_id world1 cast_message cast_receipt
           voter2 world2 cast_succeeds world2 (reach_init env world2) voter eid cid pid).
Defined.

Lemma issue_succeeds :
  TokenService.issue_token env voter eid world0
  = Some ((true, issue_message, token1), voter1, world1).
Proof. vm_compute. reflexivity. Qed.

Lemma one_token_per_voter_run :
  (exists t,
      voting_tokens (db world1) = (voting_tokens (db world0) ++ [t])%list /\
      token1 = Some (VotingTokenData.token_id t) /\
      VotingToken.find_by_token_id world0 (VotingTokenData.token_id t) = None /\
      VotingTokenData.election_id t = eid /\
      VotingTokenData.constituency t = VoterData.constituency voter /\
      VotingTokenData.ballots_used t = [] /\
      VotingTokenData.is_fully_used t = false) /\
  votes (db world1) = votes (db world0) /\
  (forall w2, exists m w3,
      TokenService.issue_token env voter1 eid w2 = Some ((false, m, None), voter1, w3) /\
      db w3 = db w2) /\
  (forall id d, VoterData._id voter = Some id -> Voter.find_by_id world0 id = Some d ->
     exists d', Voter.find_by_id world1 id = Some d' /\
                forall w2, exists m w3,
                  TokenService.issue_token env d' eid w2 = Some ((false, m, None), d', w3) /\
                  db w3 = db w2).
Proof. apply (one_token_per_voter env voter eid world0 issue_message token1 voter1 world1 issue_succeeds). Defined.

Lemma env_clock_increases : forall i j, (i < j)%nat -> utcnow env i < utcnow env j.
Proof. intros i j H. unfold env. cbn [utcnow]. lia. Qed.

Lemma terminate_succeeds :
  ElectionAdmin.terminate_election env eid world0
  = ((true, "Election terminated successfully. Results can now be viewed."),
     ElectionAdmin.terminate env eid (bump (bump world0))).
Proof. vm_compute. reflexivity. Qed.

Lemma terminate_election_closes_run :
  let w1 := ElectionAdmin.terminate env eid (bump (bump world0)) in
  votes (db w1) = votes (db world0) /\
  TokenService.issue_token env voter eid w1
  = Some ((false, "This election has ended", None), voter, bump (bump w1)) /\
  VoteService.cast_dual_ballot_with_token env voter eid cid pid None w1
  = ((false, "This election has ended", None), voter, bump (bump w1)).
Proof.
  cbn zeta.
  destruct (terminate_election_closes env eid world0 _ _ env_clock_increases terminate_succeeds)
    as (_ & Hvotes & _ & _ & _ & Hlater).
  split; [exact Hvotes|].
  destruct (Hlater (ElectionAdmin.terminate env eid (bump (bump world0)))
              (Nat.le_refl _) eq_refl) as (_ & Hrefused).
  destruct (Hrefused voter cid pid None) as (Hissue & Hcast & _).
  split; [exact Hissue|exact Hcast].
Defined.

Lemma verify_runs :
  Vote.verify_receipt env cast_receipt_id true world2
  = (fst (Vote.verify_receipt env cast_receipt_id true world2),
     snd (Vote.verify_receipt env cast_receipt_id true world2)).
Proof. apply surjective_pairing. Qed.

Lemma verify_receipt_writes_run :
  let r := fst (Vote.verify_receipt env cast_receipt_id true world2) in
  let w' := snd (Vote.verify_receipt env cast_receipt_id true world2) in
  Vote.valid r = true /\
  Vote.v_verification_count r = Some 1 /\
  map Vote.to_dict (votes (db w')) = map Vote.to_dict (votes (db world2)) /\
  voting_tokens (db w') = voting_tokens (db world2).
Proof.
  cbn zeta.
  destruct (verify_receipt_writes env cast_receipt_id true world2 _ _ verify_runs)
    as (Hdict & _ & Htok & _ & _ & _ & _).
  split; [vm_compute; reflexivity|]. split; [vm_compute; reflexivity|].
  split; [exact Hdict|exact Htok].
Defined.

End StoreMoreChecks.

Module AuditMoreChecks.
Import AuditLogData AuditChain AuditChainThm Scenario ScenarioRun Runs MoreRuns AuditMore.

Lemma env_digest : digest_nonempty env.
Proof. intros s. cbn. discriminate. Qed.

Lemma logged_later_chronological : chronological (audit_logs (db logged_later)).
Proof. vm_compute. repeat constructor. Qed.

Lemma logged_later_chain :
  chain_ok env (Some AuditLog.GENESIS_HASH) (audit_logs (db logged_later)).
Proof.
  vm_compute. split; [reflexivity|]. split; [eexists; split; reflexivity|].
  split; [reflexivity|]. split; [eexists; split; reflexivity|]. exact I.
Qed.

Lemma logged_later_clock :
  forall x, In x (audit_logs (db logged_later)) -> timestamp x < utcnow env (tick logged_later).
Proof.
  intros x Hx. vm_compute in Hx. destruct Hx as [<-|[<-|[]]]; vm_compute; reflexivity.
Qed.

Lemma log_extends_chain_run :
  exists s w',
    AuditLog.log env "voting" "vote_cast" "PR ballot cast in election"
                 (Some "VTR-0000BEEF") (Some "voter") None None VNone logged_later
    = (Ok s, w') /\
    audit_logs (db w') = (audit_logs (db logged_later) ++ [s])%list /\
    timestamp s = utcnow env (tick logged_later) /\
    previous_hash s = Some (AuditLog._get_latest_hash logged_later) /\
    AuditLog.verify_chain env None w'
    = Ok {| AuditLog.valid := true; AuditLog.entries_checked := 3;
            AuditLog.first_invalid_id := None; AuditLog.error := None |}.
Proof.
  apply (log_extends_chain env "voting" "vote_cast" "PR ballot cast in election"
           (Some "VTR-0000BEEF") (Some "voter") None None VNone logged_later
           env_digest logged_later_chronological logged_later_chain logged_later_clock).
  reflexivity.
Defined.

End AuditMoreChecks.

(** ** The hybrid cipher and the escrow of its keys *)

Module XorFacts.
Import Py ElectionCrypto PyFacts ShamirEdge.

Lemma lxor_byte x y : 0 <= x < 256 -> 0 <= y < 256 -> 0 <= Z.lxor x y < 256.
Proof.
  intros Hx Hy. split; [apply Z.lxor_nonneg; lia|].
  destruct (Z.eq_dec (Z.lxor x y) 0) as [->|Hne]; [lia|].
  assert (Hpos : 0 < Z.lxor x y) by (assert (0 <= Z.lxor x y) by (apply Z.lxor_nonneg; lia); lia).
  change 256 with (2 ^ 8). apply Z.log2_lt_pow2; [exact Hpos|].
  pose proof (Z.log2_lxor x y ltac:(lia) ltac:(lia)) as Hl.
  assert (Z.log2 x < 8).
  { destruct (Z.eq_dec x 0) as [->|]; [cbn; lia|].
    apply Z.log2_lt_pow2; [lia|]. change (2 ^ 8) with 256. lia. }
  assert (Z.log2 y < 8).
  { destruct (Z.eq_dec y 0) as [->|]; [cbn; lia|].
    apply Z.log2_lt_pow2; [lia|]. change (2 ^ 8) with 256. lia. }
  lia.
Qed.

Lemma xor_byte_cancel a b :
  byte_of_Z (Z.lxor (byte_val (byte_of_Z (Z.lxor (byte_val a) (byte_val b)))) (byte_val b)) = a.
Proof.
  pose proof (byte_val_range a). pose proof (byte_val_range b).
  rewrite byte_val_of_Z by (apply lxor_byte; assumption).
  rewrite Z.lxor_assoc, Z.lxor_nilpotent, Z.lxor_0_r. apply byte_of_Z_val.
Qed.

(** XOR with the same mask twice gives the key back, provided the mask is
    at least as long as the key. *)
Lemma xor_bytes_cancel key mask :
  (List.length key <= List.length mask)%nat ->
  xor_bytes (xor_bytes key mask) mask = key.
Proof.
  revert mask. induction key as [|a key IH]; intros [|b mask] Hlen; cbn in Hlen |- *;
    try reflexivity; try lia.
  unfold xor_bytes in *. cbn [combine map fst snd].
  rewrite xor_byte_cancel. f_equal. apply IH. lia.
Qed.
End XorFacts.

Module HybridRoundTrip.
Import ElectionCrypto ElectionCryptoFacts ElectionKeys XorFacts.

(** What [encrypt_vote] did when it returned [ev]. *)
Lemma encrypt_vote_inv P (L : Library P) tick vote_data public_keys_json pk ev :
  rsa_public_key L public_keys_json = Ok pk ->
  encrypt_vote L tick vote_data public_keys_json = Ok ev ->
  exists kpk c secret kc nonce ct tag,
    kyber_public_key L public_keys_json = Ok kpk /\
    PKCS1_OAEP_encrypt L tick pk (get_random_bytes L tick AES_KEY_SIZE) = Ok c /\
    ML_KEM_768_encaps L tick kpk = Ok (secret, kc) /\
    AES_GCM_encrypt_and_digest L tick (get_random_bytes L tick AES_KEY_SIZE)
      (encode L (json_dumps L vote_data)) = Ok (nonce, ct, tag) /\
    ev = b64encode L (encode L (json_dumps L
           [("encrypted_key_rsa", b64encode L c);
            ("kyber_ciphertext", b64encode L kc);
            ("kyber_protected_key",
             b64encode L (xor_bytes (get_random_bytes L tick AES_KEY_SIZE)
                                    (firstn AES_KEY_SIZE secret)));
            ("nonce", b64encode L nonce);
            ("tag", b64encode L tag);
            ("ciphertext", b64encode L ct);
            ("algorithm", ALGORITHM)])).
Proof.
  unfold rsa_public_key, kyber_public_key, encrypt_vote. intros Hpk H.
  destruct (json_loads_str L public_keys_json) as [pks|] eqn:Epks; cbn [bind] in *;
    [|discriminate].
  destruct (getitem pks "rsa") as [pem|] eqn:Epem; cbn [bind] in *; [|discriminate].
  destruct (getitem pks "kyber") as [kb|] eqn:Ekb; cbn [bind] in *; [|discriminate].
  destruct (b64decode P kb) as [kpk|] eqn:Ekpk; cbn [bind] in *; [|discriminate].
  rewrite Hpk in H. cbn [bind] in H.
  destruct (PKCS1_OAEP_encrypt L tick pk _) as [c|] eqn:Ec; cbn [bind] in H; [|discriminate].
  destruct (ML_KEM_768_encaps L tick kpk) as [[secret kc]|] eqn:Ek; cbn [bind] in H;
    [|discriminate].
  destruct (AES_GCM_encrypt_and_digest L tick _ _) as [[[nonce ct] tag]|] eqn:Ea;
    cbn [bind] in H; [|discriminate].
  injection H as <-.
  exists kpk, c, secret, kc, nonce, ct, tag. repeat split; auto.
Qed.

Lemma package_keys_distinct (a b c d e f g : string) :
  NoDup (map fst
    [("encrypted_key_rsa", a); ("kyber_ciphertext", b); ("kyber_protected_key", c);
     ("nonce", d); ("tag", e); ("ciphertext", f); ("algorithm", g)]).
Proof.
  cbn [map fst].
  repeat (constructor;
          [intros H; repeat (destruct H as [H|H]; [discriminate H|]); exact H|]).
  constructor.
Qed.

(** The package [encrypt_vote] builds opens under the matching keys. *)
Lemma hybrid_package_opens
      (P : Primitives) (L : Library P) (tick : nat) (vote_data : package)
      (pk sk : RsaKey P) (kpk ksk : list byte) c secret kc nonce ct tag :
  codecs_invert L -> aes_gcm_opens L ->
  (forall t n, List.length (get_random_bytes L t n) = n) ->
  rsa_key_pair L pk sk -> kyber_key_pair L kpk ksk ->
  NoDup (map fst vote_data) ->
  PKCS1_OAEP_encrypt L tick pk (get_random_bytes L tick AES_KEY_SIZE) = Ok c ->
  ML_KEM_768_encaps L tick kpk = Ok (secret, kc) ->
  AES_GCM_encrypt_and_digest L tick (get_random_bytes L tick AES_KEY_SIZE)
    (encode L (json_dumps L vote_data)) = Ok (nonce, ct, tag) ->
  decrypt_vote P
    (b64encode L (encode L (json_dumps L
       [("encrypted_key_rsa", b64encode L c);
        ("kyber_ciphertext", b64encode L kc);
        ("kyber_protected_key",
         b64encode L (xor_bytes (get_random_bytes L tick AES_KEY_SIZE)
                                (firstn AES_KEY_SIZE secret)));
        ("nonce", b64encode L nonce);
        ("tag", b64encode L tag);
        ("ciphertext", b64encode L ct);
        ("algorithm", ALGORITHM)])))
    sk (Some ksk) = Ok vote_data.
Proof.
  intros (Hb64 & _ & Hjson) Haes Hrand Hrsa Hkyber Hnd Hc Hk Ha.
  destruct (Hkyber tick secret kc Hk) as [Hdecaps Hlen].
  unfold decrypt_vote. rewrite Hb64. cbn [bind].
  rewrite Hjson by apply package_keys_distinct. cbn [bind].
  cbn [contains existsb fst String.eqb Ascii.eqb Bool.eqb orb].
  unfold _decrypt_vote_hybrid, getitem.
  cbn [find fst snd String.eqb Ascii.eqb Bool.eqb bind].
  rewrite !Hb64. cbn [bind].
  rewrite (Hrsa tick _ _ Hc). cbn [bind]. rewrite Hdecaps. cbn [bind].
  rewrite xor_bytes_cancel by (rewrite Hrand, length_firstn; lia).
  assert (Heq : bytes_eqb (get_random_bytes L tick AES_KEY_SIZE)
                          (get_random_bytes L tick AES_KEY_SIZE) = true)
    by (apply bytes_eqb_eq; reflexivity).
  rewrite Heq. cbn [negb].
  rewrite (Haes _ _ _ _ _ _ Ha). cbn [bind]. apply Hjson. exact Hnd.
Qed.

(** X15: a ballot sealed by [encrypt_vote] under the public keys of an
    election is opened by [decrypt_vote] with the two matching private
    keys, and the vote data come back unchanged.  The libraries are asked
    for what they document: decoding undoes encoding, AES-GCM opens what
    it sealed, the random key has the requested length, RSA-OAEP and
    ML-KEM-768 decrypt under the matching private key. *)
Theorem encrypt_decrypt_round_trip
        (P : Primitives) (L : Library P) (tick : nat) (vote_data : package)
        (public_keys_json : string) (pk sk : RsaKey P) (kpk ksk : list byte)
        (ev : string) :
  codecs_invert L -> aes_gcm_opens L ->
  (forall t n, List.length (get_random_bytes L t n) = n) ->
  rsa_public_key L public_keys_json = Ok pk -> rsa_key_pair L pk sk ->
  kyber_public_key L public_keys_json = Ok kpk -> kyber_key_pair L kpk ksk ->
  NoDup (map fst vote_data) ->
  encrypt_vote L tick vote_data public_keys_json = Ok ev ->
  decrypt_vote P ev sk (Some ksk) = Ok vote_data.
Proof.
  intros Hcodecs Haes Hrand Hpk Hrsa Hkpk Hkyber Hnd Henc.
  destruct (encrypt_vote_inv P L tick vote_data public_keys_json pk ev Hpk Henc)
    as (kpk' & c & secret & kc & nonce & ct & tag & Hkpk' & Hc & Hk & Ha & ->).
  rewrite Hkpk in Hkpk'. injection Hkpk' as <-.
  apply (hybrid_package_opens P L tick vote_data pk sk kpk ksk c secret kc nonce ct tag);
    assumption.
Qed.

(** X16: [decrypt_vote] called without the Kyber private key takes the
    legacy path, which reads [encrypted_key_rsa]: a ballot sealed by
    [encrypt_vote] is then opened with the RSA private key alone, whatever
    the ML-KEM-768 part of the package holds. *)
Theorem rsa_key_alone_opens_ballot
        (P : Primitives) (L : Library P) (tick : nat) (vote_data : package)
        (public_keys_json : string) (pk sk : RsaKey P) (ev : string) :
  codecs_invert L -> aes_gcm_opens L ->
  rsa_public_key L public_keys_json = Ok pk -> rsa_key_pair L pk sk ->
  NoDup (map fst vote_data) ->
  encrypt_vote L tick vote_data public_keys_json = Ok ev ->
  decrypt_vote P ev sk None = Ok vote_data.
Proof.
  intros (Hb64 & _ & Hjson) Haes Hpk Hrsa Hnd Henc.
  destruct (encrypt_vote_inv P L tick vote_data public_keys_json pk ev Hpk Henc)
    as (kpk' & c & secret & kc & nonce & ct & tag & Hkpk' & Hc & Hk & Ha & ->).
  unfold decrypt_vote. rewrite Hb64. cbn [bind].
  rewrite Hjson by apply package_keys_distinct. cbn [bind].
  unfold _decrypt_vote_legacy, getitem.
  cbn [find fst snd String.eqb Ascii.eqb Bool.eqb bind].
  rewrite !Hb64. cbn [bind].
  rewrite (Hrsa tick _ _ Hc). cbn [bind].
  rewrite (Haes _ _ _ _ _ _ Ha). cbn [bind]. apply Hjson. exact Hnd.
Qed.

End HybridRoundTrip.

Module ShareFormat.
Import ShareText ElectionKeys.

Lemma remove_dashes_app a b :
  remove_dashes (a ++ b) = remove_dashes a ++ remove_dashes b.
Proof.
  induction a as [|c a IH]; cbn [append remove_dashes]; [reflexivity|].
  destruct (Ascii.eqb c "-"); cbn [append]; rewrite IH; reflexivity.
Qed.

Lemma lower_hex_not_dash c : is_lower_hex c = true -> Ascii.eqb c "-" = false.
Proof.
  intros H. destruct (Ascii.eqb_spec c "-") as [->|]; [|reflexivity].
  vm_compute in H. discriminate H.
Qed.

Lemma remove_dashes_hex s : all_chars is_lower_hex s = true -> remove_dashes s = s.
Proof.
  induction s as [|c s IH]; cbn [all_chars remove_dashes]; [reflexivity|].
  intros H. apply andb_true_iff in H. destruct H as [Hc Hs].
  rewrite (lower_hex_not_dash c Hc), IH by exact Hs. reflexivity.
Qed.

Lemma all_chars_substring f i n s :
  all_chars f s = true -> all_chars f (substring i n s) = true.
Proof.
  revert i n. induction s as [|c s IH]; intros i n H.
  - destruct i, n; reflexivity.
  - cbn [all_chars] in H. apply andb_true_iff in H. destruct H as [Hc Hs].
    destruct i as [|i].
    + destruct n as [|n]; [reflexivity|]. cbn [substring all_chars].
      rewrite Hc, (IH 0%nat n Hs). reflexivity.
    + cbn [substring]. apply IH. exact Hs.
Qed.

Lemma concat_empty_cons x l : String.concat "" (x :: l) = x ++ String.concat "" l.
Proof.
  destruct l as [|y l]; cbn [String.concat append]; [|reflexivity].
  induction x as [|c x IH]; cbn [append]; [reflexivity|]. rewrite <- IH. reflexivity.
Qed.

Lemma append_assoc (a b c : string) : (a ++ b) ++ c = a ++ (b ++ c).
Proof. induction a as [|x a IH]; cbn [append]; [reflexivity|]. rewrite IH. reflexivity. Qed.

Lemma append_empty_r (a : string) : a ++ "" = a.
Proof. induction a as [|x a IH]; cbn [append]; [reflexivity|]. rewrite IH. reflexivity. Qed.

Lemma concat_empty_app l1 l2 :
  String.concat "" (l1 ++ l2) = String.concat "" l1 ++ String.concat "" l2.
Proof.
  induction l1 as [|x l1 IH]; [reflexivity|].
  rewrite <- app_comm_cons, !concat_empty_cons, IH, append_assoc. reflexivity.
Qed.

Lemma remove_dashes_concat l :
  Forall (fun s => all_chars is_lower_hex s = true) l ->
  remove_dashes (String.concat "-" l) = String.concat "" l.
Proof.
  induction 1 as [|x l Hx Hl IH]; [reflexivity|].
  rewrite concat_empty_cons. destruct l as [|y l].
  - cbn [String.concat]. rewrite append_empty_r. apply remove_dashes_hex, Hx.
  - change (String.concat "-" (x :: y :: l)) with (x ++ "-" ++ String.concat "-" (y :: l)).
    rewrite !remove_dashes_app, IH, (remove_dashes_hex x Hx). reflexivity.
Qed.

Lemma substring_app a b s :
  substring 0 a s ++ substring a b s = substring 0 (a + b) s.
Proof.
  revert s. induction a as [|a IH]; intros s.
  - cbn [Nat.add]. destruct b, s; reflexivity.
  - destruct s as [|c s]; [destruct b; reflexivity|].
    cbn [Nat.add substring append]. rewrite IH. reflexivity.
Qed.

Lemma substring_all n s : (String.length s <= n)%nat -> substring 0 n s = s.
Proof.
  revert n. induction s as [|c s IH]; intros n H.
  - destruct n; reflexivity.
  - cbn [String.length] in H. destruct n as [|n]; [lia|].
    cbn [substring]. rewrite IH by lia. reflexivity.
Qed.

Lemma concat_chunks k s :
  String.concat "" (map (fun i => substring i 8 s) (map (fun j => (8 * j)%nat) (seq 0 k)))
  = substring 0 (8 * k) s.
Proof.
  induction k as [|k IH].
  - destruct s; reflexivity.
  - rewrite seq_S, !map_app, concat_empty_app, IH. cbn [map Nat.add].
    rewrite concat_empty_cons. cbn [String.concat]. rewrite append_empty_r.
    rewrite substring_app. f_equal. lia.
Qed.

(** Removing the dashes of a formatted share value gives the hexadecimal
    numeral back. *)
Lemma remove_dashes_format_value s :
  all_chars is_lower_hex s = true -> remove_dashes (format_value s) = s.
Proof.
  intros H. unfold format_value, range_step8.
  rewrite remove_dashes_concat.
  - rewrite concat_chunks. apply substring_all.
    pose proof (Nat.div_mod_eq (String.length s + 7) 8) as Hd.
    pose proof (Nat.mod_upper_bound (String.length s + 7) 8 ltac:(lia)). lia.
  - apply Forall_forall. intros x Hx. apply in_map_iff in Hx.
    destruct Hx as (i & <- & _). apply all_chars_substring, H.
Qed.
End ShareFormat.

Module KeyEscrow.
Import Py ShamirSecretSharing ShamirSpec PyFacts ShamirTheorems ShareText ShamirMore.
Import ElectionCrypto ElectionKeys ShareFormat.

Lemma init_shamir t n self :
  init t n = Ok self ->
  ShamirSecretSharing.init t n = Ok (shamir self) /\ threshold self = t.
Proof.
  unfold init. destruct (ShamirSecretSharing.init t n) as [s|e]; cbn [bind]; [|discriminate].
  intros H. injection H as <-. auto.
Qed.

Lemma key_below_prime (key : list byte) :
  List.length key = AES_KEY_SIZE -> int_from_bytes key < PRIME.
Proof.
  intros Hlen. pose proof (int_from_bytes_range key) as Hr. rewrite Hlen in Hr.
  assert (256 ^ Z.of_nat AES_KEY_SIZE < PRIME) by (vm_compute; reflexivity). lia.
Qed.

Lemma bundle_keys_distinct (a b c d : string) :
  NoDup (map fst [("nonce", a); ("tag", b); ("ciphertext", c); ("algorithm", d)]).
Proof.
  cbn [map fst].
  repeat (constructor;
          [intros H; repeat (destruct H as [H|H]; [discriminate H|]); exact H|]).
  constructor.
Qed.

Lemma private_keys_distinct (a b : string) :
  NoDup (map fst [("rsa", a); ("kyber", b)]).
Proof.
  cbn [map fst].
  repeat (constructor;
          [intros H; repeat (destruct H as [H|H]; [discriminate H|]); exact H|]).
  constructor.
Qed.

(** A formatted share read back as [(index, value)] with its dashes
    removed is the raw share. *)
Lemma parse_format_share self c i :
  prime self = PRIME ->
  (index (format_share (encode_share self c i)),
   remove_dashes (value (format_share (encode_share self c i))))
  = encode_share self c i.
Proof.
  intros Hp. destruct (encode_share_shape self c i Hp) as (_ & _ & Hhex & _).
  unfold format_share. cbn [index value].
  rewrite remove_dashes_format_value by exact Hhex.
  destruct (encode_share self c i); reflexivity.
Qed.

(** X17: the shares handed out by [generate_election_keys] recover the
    private keys.  The shares carry the indices 1, ..., [total_shares];
    [reconstruct_private_keys], given any [threshold] distinct ones of
    them as [(index, value)] pairs in their displayed form (groups of
    eight digits joined by dashes), returns the RSA and ML-KEM-768 private
    keys that were generated; given fewer than [threshold] pairs it raises
    the [ValueError] of [reconstruct_secret], whatever the bundle. *)
Theorem shares_recover_private_keys
        (P : Primitives) (L : Library P) (t n : Z) (self : ElectionKeys.t) (tick : nat)
        (public_keys_json : string) (shares : list share) (key_bundle_json : string) :
  codecs_invert L -> aes_gcm_opens L ->
  (forall t n, List.length (get_random_bytes L t n) = n) ->
  (forall k, RSA_import_key L (export_key L k) = Ok k) ->
  init t n = Ok self -> n <= 20 ->
  generate_election_keys L self tick = Ok (public_keys_json, shares, key_bundle_json) ->
  map index shares = range1 n /\
  (forall chosen,
      NoDup chosen -> incl chosen shares -> List.length chosen = Z.to_nat t ->
      reconstruct_private_keys L self (map (fun s => (index s, value s)) chosen)
                               key_bundle_json
      = Some (Ok (RSA_generate L tick RSA_KEY_SIZE, snd (ML_KEM_768_keygen L tick)))) /\
  (forall few bundle,
      Z.of_nat (List.length few) < t ->
      reconstruct_private_keys L self few bundle
      = Some (Raise (ValueError ("Need at least " ++ str_int t ++ " shares, got "
                                 ++ str_int (Z.of_nat (List.length few)))))).
Proof.
  intros (Hb64 & Hjs & Hjb) Haes Hrand Himport Hinit Hn Hgen.
  destruct (init_shamir t n self Hinit) as [Hsh Hth].
  destruct (init_ok _ _ _ Hsh) as (Ht & Htot & Hprime & Hrange).
  set (aes_key := get_random_bytes L tick AES_KEY_SIZE) in *.
  assert (Hlen : List.length aes_key = AES_KEY_SIZE) by apply Hrand.
  assert (Hkey : int_from_bytes aes_key < PRIME) by (apply key_below_prime, Hlen).
  set (c := _generate_coefficients (shamir self) (randbelow L tick) (int_from_bytes aes_key)).
  unfold generate_election_keys in Hgen. fold aes_key in Hgen.
  destruct (decode L _) as [pem|] eqn:Epem; cbn [bind] in Hgen; [|discriminate].
  destruct (ML_KEM_768_keygen L tick) as [kpk ksk] eqn:Ekg.
  destruct (AES_GCM_encrypt_and_digest L tick aes_key _) as [[[nonce ct] tag]|] eqn:Ea;
    cbn [bind] in Hgen; [|discriminate].
  rewrite split_secret_ok in Hgen by (rewrite Hprime; exact Hkey).
  cbn [bind] in Hgen. fold c in Hgen. injection Hgen as _ <- <-.
  split; [|split].
  - rewrite !map_map. rewrite Htot.
    rewrite <- (map_id (range1 n)) at 2. apply map_ext. reflexivity.
  - intros chosen Hnd Hincl Hcount. unfold reconstruct_private_keys.
    set (parsed := map _ (map _ chosen)).
    assert (Hin : forall sh, In sh parsed ->
                  In sh (map (encode_share (shamir self) c) (range1 (ShamirSecretSharing.total_shares (shamir self))))).
    { intros sh H. unfold parsed in H. rewrite map_map in H. apply in_map_iff in H.
      destruct H as (s & <- & Hs). apply Hincl in Hs. apply in_map_iff in Hs.
      destruct Hs as (raw & <- & Hraw). apply in_map_iff in Hraw.
      destruct Hraw as (i & <- & Hi). cbn [fst snd].
      rewrite parse_format_share by exact Hprime.
      apply in_map. exact Hi. }
    assert (Hnd' : NoDup parsed).
    { unfold parsed. rewrite map_map.
      apply NoDup_map_NoDup_ForallPairs; [|exact Hnd].
      intros x y Hx Hy Hxy. cbn [fst snd] in Hxy.
      apply Hincl in Hx, Hy. apply in_map_iff in Hx, Hy.
      destruct Hx as (rx & <- & Hrx). destruct Hy as (ry & <- & Hry).
      apply in_map_iff in Hrx, Hry.
      destruct Hrx as (i & <- & _). destruct Hry as (j & <- & _).
      rewrite !parse_format_share in Hxy by exact Hprime. rewrite Hxy. reflexivity. }
    assert (Hrec : reconstruct_secret (shamir self) parsed AES_KEY_SIZE = Some (Ok aes_key)).
    { rewrite <- Hlen.
      apply (reconstruct_distinct_shares t n (shamir self) (randbelow L tick) aes_key);
        auto.
      unfold parsed. rewrite !length_map. exact Hcount. }
    rewrite Hrec. cbn [bind]. f_equal.
    rewrite Hjs by apply bundle_keys_distinct. cbn [bind].
    unfold getitem. cbn [find fst snd String.eqb Ascii.eqb Bool.eqb bind].
    rewrite !Hb64. cbn [bind].
    rewrite (Haes _ _ _ _ _ _ Ea). cbn [bind].
    rewrite Hjb by apply private_keys_distinct. cbn [bind].
    cbn [find fst snd String.eqb Ascii.eqb Bool.eqb bind].
    rewrite !Hb64. cbn [bind]. rewrite Himport. cbn [bind]. reflexivity.
  - intros few bundle Hfew. unfold reconstruct_private_keys, reconstruct_secret.
    rewrite length_map, Ht.
    destruct (Z.ltb_spec (Z.of_nat (List.length few)) t); [|lia].
    cbn [bind]. reflexivity.
Qed.

End KeyEscrow.

(** ** The tally *)

(** Values of [round(x, 2)] and of the percentages, as Python prints them:
    [round(0.125, 2) == 0.12], [round(0.375, 2) == 0.38],
    [round(2.675, 2) == 2.67], [round(0.001, 2) == 0.0],
    [round(1 / 3 * 100, 2) == 33.33], [round(2 / 3 * 100, 2) == 66.67]. *)
Module PrExamples.
Import PyMore PrResults.

Example round_tie_to_even_down :
  round2 (S754_finite false 4503599627370496 (-55))
  = Ok (S754_finite false 8646911284551352 (-56)).
Proof. vm_compute. reflexivity. Qed.

Example round_tie_to_even_up :
  round2 (S754_finite false 6755399441055744 (-54))
  = Ok (S754_finite false 6845471433603154 (-54)).
Proof. vm_compute. reflexivity. Qed.

Example round_binary_value_below_tie :
  round2 (S754_finite false 6023564501608038 (-51))
  = Ok (S754_finite false 6012305502539612 (-51)).
Proof. vm_compute. reflexivity. Qed.

Example round_small_to_zero :
  round2 (S754_finite false 4611686018427388 (-62)) = Ok (S754_zero false).
Proof. vm_compute. reflexivity. Qed.

Example percentage_one_third :
  rounded_percentage 1 3 = Ok (Float (S754_finite false 4690780486883082 (-47))).
Proof. vm_compute. reflexivity. Qed.

Example percentage_two_thirds :
  rounded_percentage 2 3 = Ok (Float (S754_finite false 4691484174324859 (-46))).
Proof. vm_compute. reflexivity. Qed.

Example percentage_all :
  rounded_percentage 5 5 = Ok (Float (S754_finite false 7036874417766400 (-46))).
Proof. vm_compute. reflexivity. Qed.

Example percentage_without_votes : rounded_percentage 0 0 = Ok (Int 0).
Proof. reflexivity. Qed.

Example seats_with_unnamed_party :
  _allocate_pr_seats [(Some "A", 2); (None, 1)] 110 = Ok [(Some "A", 73); (None, 37)].
Proof. vm_compute. reflexivity. Qed.
End PrExamples.

(** The allocation on decrypted counts is [_allocate_pr_seats] itself: on
    counts whose keys are all party ids it returns what the allocation on
    these ids returns. *)
Module KeyedAllocation.
Import PrResults.

Lemma sum_values_named d a :
  fold_left (fun acc kv => acc + snd kv) (map named d) a
  = fold_left (fun acc (kv : string * Z) => acc + snd kv) d a.
Proof. revert a. induction d as [|kv d IH]; intros a; cbn; [reflexivity|apply IH]. Qed.

Lemma increment_named k d :
  increment (Some k) (map named d) = map named (Tally.increment k d).
Proof.
  induction d as [|[k' v] d IH]; [reflexivity|].
  cbn [map named fst snd increment Tally.increment opt_string_eqb].
  destruct (String.eqb k' k); cbn [map named fst snd]; [reflexivity|].
  f_equal. exact IH.
Qed.

Lemma first_allocation_named quota d :
  first_allocation quota (map named d)
  = (ar <- Tally.first_allocation quota d ;; Ok (map named (fst ar), map named (snd ar))).
Proof.
  induction d as [|[k v] d IH]; [reflexivity|].
  cbn [map named fst snd first_allocation Tally.first_allocation].
  destruct (Tally.party_entry quota v) as [entry|]; cbn [bind]; [|reflexivity].
  rewrite IH. destruct (Tally.first_allocation quota d) as [tl|]; reflexivity.
Qed.

Lemma insert_desc_named x l :
  insert_desc (named x) (map named l) = map named (Tally.insert_desc x l).
Proof.
  induction l as [|y l IH]; [reflexivity|].
  cbn [map insert_desc Tally.insert_desc]. unfold named at 1 2. cbn [snd].
  destruct (PyFloat.ltb (snd y) (snd x)); cbn [map]; [reflexivity|].
  f_equal. exact IH.
Qed.

Lemma sorted_desc_named d : sorted_desc (map named d) = map named (Tally.sorted_desc d).
Proof.
  unfold sorted_desc, Tally.sorted_desc.
  change (@nil (option string * PyFloat.float)) with (map (@named PyFloat.float) []).
  generalize (@nil (string * PyFloat.float)) as acc.
  induction d as [|x d IH]; intros acc; cbn [map fold_left]; [reflexivity|].
  rewrite insert_desc_named. apply IH.
Qed.

Lemma slice_to_named {A : Type} n (l : list (string * A)) :
  Tally.slice_to n (map named l) = map named (Tally.slice_to n l).
Proof.
  unfold Tally.slice_to. rewrite length_map. destruct (n <? 0); apply firstn_map.
Qed.

Lemma increments_named (l : list (string * PyFloat.float)) alloc :
  fold_left (fun a kv => increment (fst kv) a) (map named l) (map named alloc)
  = map named (fold_left (fun a kv => Tally.increment (fst kv) a) l alloc).
Proof.
  revert alloc. induction l as [|x l IH]; intros alloc; cbn [map fold_left]; [reflexivity|].
  unfold named at 2. cbn [fst]. rewrite increment_named. apply IH.
Qed.

Lemma allocation_named d total_seats :
  _allocate_pr_seats (map named d) total_seats
  = (allocation <- Tally._allocate_pr_seats d total_seats ;; Ok (map named allocation)).
Proof.
  unfold _allocate_pr_seats, Tally._allocate_pr_seats, sum_values, Tally.sum_values.
  destruct d as [|kv d]; [reflexivity|].
  change (map named (kv :: d)) with (named kv :: map named d).
  cbv iota. change (named kv :: map named d) with (map named (kv :: d)).
  rewrite sum_values_named.
  destruct (_ =? 0).
  - cbn [bind]. rewrite !map_map. reflexivity.
  - destruct (PyFloat.int_truediv _ total_seats) as [quota|]; cbn [bind]; [|reflexivity].
    rewrite first_allocation_named.
    destruct (Tally.first_allocation quota (kv :: d)) as [[allocation remainders]|];
      cbn [bind fst snd]; [|reflexivity].
    rewrite sum_values_named, sorted_desc_named, slice_to_named, increments_named.
    reflexivity.
Qed.
End KeyedAllocation.

Module DictFacts.
Import FptpResults Results ReceiptIntegrity AuditChainFacts.

Lemma opt_string_eqb_spec a b : reflect (a = b) (opt_string_eqb a b).
Proof.
  destruct (opt_string_eqb a b) eqn:E; constructor.
  - apply opt_string_eqb_eq. exact E.
  - intros H. apply opt_string_eqb_eq in H. congruence.
Qed.

Ltac keys :=
  repeat match goal with
         | |- context [opt_string_eqb ?a ?b] =>
             destruct (opt_string_eqb_spec a b); subst; try congruence
         | H : context [opt_string_eqb ?a ?b] |- _ =>
             destruct (opt_string_eqb_spec a b); subst; try congruence
         end.

Lemma get_setitem {A : Type} (d : list (option string * A)) k v k' (default : A) :
  get (setitem d k v) k' default
  = if opt_string_eqb k k' then v else get d k' default.
Proof.
  unfold get. induction d as [|[k0 v0] d IH]; cbn [setitem find fst snd].
  - destruct (opt_string_eqb_spec k k'); reflexivity.
  - destruct (opt_string_eqb_spec k0 k) as [->|Hk0]; cbn [find fst snd].
    + destruct (opt_string_eqb_spec k k'); reflexivity.
    + destruct (opt_string_eqb_spec k0 k') as [->|Hk1]; [|exact IH].
      destruct (opt_string_eqb_spec k k'); [congruence|reflexivity].
Qed.

Lemma get_absent {A : Type} (d : list (option string * A)) k (default : A) :
  has_key d k = false -> get d k default = default.
Proof.
  unfold get, has_key. induction d as [|[k0 v0] d IH]; cbn [existsb find fst snd];
    [reflexivity|].
  intros H. apply orb_false_iff in H. destruct H as [H0 H1]. rewrite H0. auto.
Qed.

(** [d[k] = v] moves the sum of the values by [v - d.get(k, 0)]. *)
Lemma sum_from (d : PrResults.pr_counts) a :
  fold_left (fun acc kv => acc + snd kv) d a = a + PrResults.sum_values d.
Proof.
  unfold PrResults.sum_values. revert a.
  induction d as [|kv d IH]; intros a; cbn [fold_left]; [lia|].
  rewrite IH, (IH (0 + snd kv)). lia.
Qed.

Lemma pr_sum_values_cons kv (d : PrResults.pr_counts) :
  PrResults.sum_values (kv :: d) = snd kv + PrResults.sum_values d.
Proof. unfold PrResults.sum_values at 1. cbn [fold_left]. rewrite sum_from. lia. Qed.

Lemma sum_values_setitem (d : PrResults.pr_counts) k v :
  PrResults.sum_values (setitem d k v) = PrResults.sum_values d - get d k 0 + v.
Proof.
  induction d as [|[k0 v0] d IH]; cbn [setitem].
  - rewrite pr_sum_values_cons. cbn. lia.
  - unfold get. cbn [find fst snd].
    destruct (opt_string_eqb_spec k0 k) as [->|Hk0].
    + rewrite !pr_sum_values_cons. cbn [snd]. lia.
    + rewrite !pr_sum_values_cons, IH. cbn [snd]. unfold get. lia.
Qed.
End DictFacts.

Module CountFacts.
Import ElectionCrypto FptpResults Results TallySpec DictFacts.

Lemma count_cons {A : Type} (f : A -> bool) x l :
  count f (x :: l) = (if f x then 1 else 0) + count f l.
Proof.
  unfold count. cbn [filter]. destruct (f x); cbn [List.length]; lia.
Qed.

(** One ballot moves the count of its own candidate by one, and no other. *)
Lemma count_ballot_fptp d acc c cid :
  get (get (fst (count_ballot d acc)) c []) cid 0
  = get (get (fst acc) c []) cid 0 + (if is_fptp_for c cid d then 1 else 0).
Proof.
  destruct acc as [fc pc]. unfold count_ballot, is_fptp_for. cbn [fst].
  destruct (opt_string_eqb_spec (field d "ballot_type") (Some "fptp")) as [Ht|Ht];
    cbn [andb].
  - cbn [fst]. rewrite get_setitem.
    destruct (opt_string_eqb_spec (field d "constituency") c) as [<-|Hc]; cbn [andb].
    + rewrite get_setitem.
      destruct (opt_string_eqb_spec (field d "candidate_id") cid) as [<-|Hcid].
      * destruct (has_key fc (field d "constituency")) eqn:Hk1.
        -- destruct (has_key (get fc (field d "constituency") []) (field d "candidate_id"))
             eqn:Hk2; [reflexivity|].
           rewrite get_setitem.
           destruct (opt_string_eqb_spec (field d "candidate_id") (field d "candidate_id"));
             [|congruence].
           rewrite (get_absent _ _ 0 Hk2). lia.
        -- rewrite get_setitem.
           destruct (opt_string_eqb_spec (field d "constituency") (field d "constituency"));
             [|congruence].
           cbn [has_key existsb]. rewrite get_setitem.
           destruct (opt_string_eqb_spec (field d "candidate_id") (field d "candidate_id"));
             [|congruence].
           rewrite (get_absent fc _ [] Hk1). cbn. lia.
      * destruct (has_key fc (field d "constituency")) eqn:Hk1.
        -- destruct (has_key (get fc (field d "constituency") []) (field d "candidate_id"))
             eqn:Hk2; [lia|].
           rewrite get_setitem.
           destruct (opt_string_eqb_spec (field d "candidate_id") cid); [congruence|lia].
        -- rewrite get_setitem.
           destruct (opt_string_eqb_spec (field d "constituency") (field d "constituency"));
             [|congruence].
           cbn [has_key existsb]. rewrite get_setitem.
           destruct (opt_string_eqb_spec (field d "candidate_id") cid); [congruence|].
           rewrite (get_absent fc _ [] Hk1). cbn. lia.
    + destruct (has_key fc (field d "constituency")) eqn:Hk1; [lia|].
      rewrite get_setitem.
      destruct (opt_string_eqb_spec (field d "constituency") c); [congruence|lia].
  - destruct (opt_string_eqb (field d "ballot_type") (Some "pr")); cbn [fst]; lia.
Qed.

Lemma count_ballot_pr d acc pid :
  get (snd (count_ballot d acc)) pid 0
  = get (snd acc) pid 0 + (if is_pr_for pid d then 1 else 0).
Proof.
  destruct acc as [fc pc]. unfold count_ballot, is_pr_for, is_pr. cbn [snd].
  destruct (opt_string_eqb_spec (field d "ballot_type") (Some "fptp")) as [Ht|Ht].
  - rewrite Ht. cbn [snd opt_string_eqb String.eqb Ascii.eqb Bool.eqb andb]. lia.
  - destruct (opt_string_eqb_spec (field d "ballot_type") (Some "pr")) as [Hp|Hp];
      cbn [snd andb]; [|lia].
    rewrite get_setitem.
    destruct (opt_string_eqb_spec (field d "party_id") pid) as [<-|Hpid].
    + destruct (has_key pc (field d "party_id")) eqn:Hk; [reflexivity|].
      rewrite get_setitem.
      destruct (opt_string_eqb_spec (field d "party_id") (field d "party_id")); [|congruence].
      rewrite (get_absent pc _ 0 Hk). lia.
    + destruct (has_key pc (field d "party_id")) eqn:Hk; [lia|].
      rewrite get_setitem.
      destruct (opt_string_eqb_spec (field d "party_id") pid); [congruence|lia].
Qed.

Lemma count_ballot_sum d acc :
  PrResults.sum_values (snd (count_ballot d acc))
  = PrResults.sum_values (snd acc) + (if is_pr d then 1 else 0).
Proof.
  destruct acc as [fc pc]. unfold count_ballot, is_pr. cbn [snd].
  destruct (opt_string_eqb_spec (field d "ballot_type") (Some "fptp")) as [Ht|Ht].
  - rewrite Ht. cbn [snd opt_string_eqb String.eqb Ascii.eqb Bool.eqb]. lia.
  - destruct (opt_string_eqb_spec (field d "ballot_type") (Some "pr")) as [Hp|Hp];
      cbn [snd]; [|lia].
    rewrite sum_values_setitem.
    destruct (has_key pc (field d "party_id")) eqn:Hk; [lia|].
    rewrite sum_values_setitem, get_setitem.
    destruct (opt_string_eqb_spec (field d "party_id") (field d "party_id")); [|congruence].
    rewrite (get_absent pc _ 0 Hk). lia.
Qed.

Lemma counted_fptp ds acc c cid :
  get (get (fst (counted ds acc)) c []) cid 0
  = get (get (fst acc) c []) cid 0 + count (is_fptp_for c cid) ds.
Proof.
  unfold counted. revert acc. induction ds as [|d ds IH]; intros acc; cbn [fold_left].
  - unfold count. cbn. lia.
  - rewrite IH, count_ballot_fptp, count_cons. lia.
Qed.

Lemma counted_pr ds acc pid :
  get (snd (counted ds acc)) pid 0 = get (snd acc) pid 0 + count (is_pr_for pid) ds.
Proof.
  unfold counted. revert acc. induction ds as [|d ds IH]; intros acc; cbn [fold_left].
  - unfold count. cbn. lia.
  - rewrite IH, count_ballot_pr, count_cons. lia.
Qed.

Lemma counted_sum ds acc :
  PrResults.sum_values (snd (counted ds acc))
  = PrResults.sum_values (snd acc) + count is_pr ds.
Proof.
  unfold counted. revert acc. induction ds as [|d ds IH]; intros acc; cbn [fold_left].
  - unfold count. cbn. lia.
  - rewrite IH, count_ballot_sum, count_cons. lia.
Qed.

(** The loop decrypts the ballots in order and stops at the first that
    fails. *)
Lemma count_votes_mapM P sk ksk l acc :
  count_votes P sk ksk l acc
  = (ds <- mapM (fun ev => decrypt_vote P ev sk (Some ksk)) (texts l) ;;
     Ok (counted ds acc)).
Proof.
  revert acc. induction l as [|v l IH]; intros acc; [reflexivity|].
  cbn [count_votes]. unfold texts. cbn [flat_map]. fold (texts l).
  destruct (VoteData.encrypted_vote v) as [[|c s]|]; cbn [app]; try apply IH.
  cbn [mapM]. destruct (decrypt_vote P (String c s) sk (Some ksk)) as [d|e]; cbn [bind];
    [|reflexivity].
  rewrite IH. destruct (mapM _ (texts l)); reflexivity.
Qed.
End CountFacts.

Module ReconstructTotal.
Import ShamirSecretSharing GcdFacts ElectionCrypto ElectionKeys.

Lemma interpolate_total self points :
  1 < prime self -> prime self <= 2 ^ 521 ->
  exists v, interpolate self points = Some v.
Proof.
  intros Hp Hq. unfold interpolate.
  assert (H : forall l acc, exists v,
             fold_left
               (fun acc '(i, (xi, yi)) =>
                  match acc with
                  | None => None
                  | Some secret_int =>
                      let '(numerator, denominator) := lagrange_terms self points i xi in
                      match _mod_inverse denominator (prime self) with
                      | None => None
                      | Some inv =>
                          let lagrange_coef := (numerator * inv) mod prime self in
                          Some ((secret_int + yi * lagrange_coef) mod prime self)
                      end
                  end) l (Some acc) = Some v).
  { induction l as [|[i [xi yi]] l IH]; intros acc; cbn [fold_left]; [eauto|].
    destruct (lagrange_terms self points i xi) as [numerator denominator].
    destruct (mod_inverse_total denominator (prime self) Hp Hq) as (inv & -> & _).
    apply IH. }
  apply H.
Qed.

Lemma reconstruct_secret_total self l len :
  1 < prime self -> prime self <= 2 ^ 521 ->
  exists r, reconstruct_secret self l len = Some r.
Proof.
  intros Hp Hq. unfold reconstruct_secret.
  destruct (_ <? _); [eauto|].
  destruct (mapM _ _) as [points|e]; [|eauto].
  destruct (interpolate_total self points Hp Hq) as (v & ->). eauto.
Qed.

Lemma reconstruct_private_keys_total P (L : Library P) self l bundle :
  1 < prime (shamir self) -> prime (shamir self) <= 2 ^ 521 ->
  exists r, reconstruct_private_keys L self l bundle = Some r.
Proof.
  intros Hp Hq. unfold reconstruct_private_keys.
  destruct (reconstruct_secret_total (shamir self)
              (map (fun s => (fst s, remove_dashes (snd s))) l) AES_KEY_SIZE Hp Hq) as (r & ->).
  eauto.
Qed.
End ReconstructTotal.

Module TallyThms.
Import ElectionCrypto ElectionKeys FptpResults Results TallySpec DictFacts CountFacts.
Import ReconstructTotal.

Lemma init_default : ElectionKeys.init 3 5 = Ok default_crypto.
Proof. reflexivity. Qed.

(** X18: the tally counts every ballot once, for the choice it holds.  For
    an election that has ended and whose key bundle opens under the given
    shares, [decrypt_and_get_results] decrypts the stored ballots of the
    election in order.  If one of them fails to decrypt, the call reports
    that failure and no result.  Otherwise the results are built from
    counts in which every constituency and candidate has the number of
    decrypted FPTP ballots naming them, every party the number of
    decrypted PR ballots naming it, and the PR total is the number of PR
    ballots; the call fails only if the PR results cannot be built.  The
    database is not written. *)
Theorem tally_counts_every_ballot
        (P : Primitives) (E : Env) (L : Library P) (election_id : string)
        (shares : list (Z * string)) (w : World) (election : ElectionData.t)
        (bundle : string) (sk : RsaKey P) (ksk : list byte) :
  Election.find_by_election_id w election_id = Some election ->
  ElectionData.end_date election < utcnow E (tick w) ->
  ElectionData.encrypted_key_bundle election = Some bundle -> bundle <> "" ->
  reconstruct_private_keys L default_crypto shares bundle = Some (Ok (sk, ksk)) ->
  (forall e,
      mapM (fun ev => decrypt_vote P ev sk (Some ksk)) (ballots election_id w) = Raise e ->
      decrypt_and_get_results E L election_id shares w
      = Some ((false, "Failed to decrypt results: " ++ exn_str e, None), bump w)) /\
  (forall ds,
      mapM (fun ev => decrypt_vote P ev sk (Some ksk)) (ballots election_id w) = Ok ds ->
      exists fptp_counts pr_counts,
        (forall constituency candidate_id,
            get (get fptp_counts constituency []) candidate_id 0
            = count (is_fptp_for constituency candidate_id) ds) /\
        (forall party_id,
            get pr_counts party_id 0 = count (is_pr_for party_id) ds) /\
        PrResults.sum_values pr_counts = count is_pr ds /\
        decrypt_and_get_results E L election_id shares w
        = Some (match PrResults._build_pr_results election pr_counts with
                | Ok pr_results =>
                    (true, "Results decrypted successfully",
                     Some {| fptp := _build_fptp_results election fptp_counts;
                             pr := pr_results;
                             election := election |})
                | Raise e =>
                    (false, "Failed to decrypt results: " ++ exn_str e, None)
                end, bump w)).
Proof.
  intros Hfind Hend Hbundle Hne Hkeys.
  assert (Hrun : decrypt_and_get_results E L election_id shares w
                 = match decrypt_results L election_id election bundle shares (bump w) with
                   | None => None
                   | Some (Ok r) =>
                       Some ((true, "Results decrypted successfully", Some r), bump w)
                   | Some (Raise e) =>
                       Some ((false, "Failed to decrypt results: " ++ exn_str e,
                              None), bump w)
                   end).
  { unfold decrypt_and_get_results. rewrite Hfind. unfold Election.has_ended.
    destruct (Z.ltb_spec (ElectionData.end_date election) (utcnow E (tick w))); [|lia].
    cbn [negb]. rewrite Hbundle. destruct bundle; [congruence|reflexivity]. }
  assert (Hbody : decrypt_results L election_id election bundle shares (bump w)
                  = Some (cs <- (ds <- mapM (fun ev => decrypt_vote P ev sk (Some ksk))
                                             (ballots election_id w) ;;
                                 Ok (counted ds ([], []))) ;;
                          pr_results <- PrResults._build_pr_results election (snd cs) ;;
                          Ok {| fptp := _build_fptp_results election (fst cs);
                                pr := pr_results; election := election |})).
  { unfold decrypt_results. rewrite init_default, Hkeys, count_votes_mapM. reflexivity. }
  rewrite Hrun, Hbody. split.
  - intros e He. rewrite He. reflexivity.
  - intros ds Hds. rewrite Hds. cbn [bind].
    exists (fst (counted ds ([], []))), (snd (counted ds ([], []))).
    split; [|split; [|split]].
    + intros c cid. rewrite counted_fptp. cbn. lia.
    + intros pid. rewrite counted_pr. cbn. lia.
    + rewrite counted_sum. cbn. lia.
    + destruct (PrResults._build_pr_results election _); reflexivity.
Qed.

(** X19: no tally without an ended election, the keys and every ballot.
    [decrypt_and_get_results] always returns, never writes to the
    database, and returns no result with a failure.  It succeeds only if
    the election exists and has ended, the shares open its key bundle, and
    every stored ballot of the election decrypts under the reconstructed
    keys. *)
Theorem tally_needs_end_keys_and_all_ballots
        (P : Primitives) (E : Env) (L : Library P) (election_id : string)
        (shares : list (Z * string)) (w : World) :
  exists success message results w',
    decrypt_and_get_results E L election_id shares w
    = Some ((success, message, results), w') /\
    db w' = db w /\
    (success = false -> results = None) /\
    (success = true ->
     exists election bundle sk ksk ds,
       Election.find_by_election_id w election_id = Some election /\
       ElectionData.end_date election < utcnow E (tick w) /\
       ElectionData.encrypted_key_bundle election = Some bundle /\
       reconstruct_private_keys L default_crypto shares bundle = Some (Ok (sk, ksk)) /\
       mapM (fun ev => decrypt_vote P ev sk (Some ksk)) (ballots election_id w) = Ok ds).
Proof.
  unfold decrypt_and_get_results.
  destruct (Election.find_by_election_id w election_id) as [election|] eqn:Hfind.
  2:{ do 4 eexists. split; [reflexivity|]. repeat split; auto. discriminate. }
  unfold Election.has_ended.
  destruct (Z.ltb_spec (ElectionData.end_date election) (utcnow E (tick w))) as [Hend|Hend];
    cbn [negb].
  2:{ do 4 eexists. split; [reflexivity|]. repeat split; auto. discriminate. }
  destruct (ElectionData.encrypted_key_bundle election) as [[|c s]|] eqn:Hbundle.
  1,3: do 4 eexists; (split; [reflexivity|]); repeat split; auto; discriminate.
  unfold decrypt_results. rewrite init_default.
  destruct (reconstruct_private_keys_total P L default_crypto shares (String c s))
    as (r & Hr); [vm_compute; reflexivity|apply Z.leb_le; vm_compute; reflexivity|].
  rewrite Hr. destruct r as [[sk ksk]|e].
  2:{ do 4 eexists. split; [reflexivity|]. repeat split; auto. discriminate. }
  rewrite count_votes_mapM. fold (ballots election_id (bump w)).
  change (ballots election_id (bump w)) with (ballots election_id w).
  destruct (mapM _ (ballots election_id w)) as [ds|e] eqn:Hds; cbn [bind].
  2:{ do 4 eexists. split; [reflexivity|]. repeat split; auto. discriminate. }
  destruct (PrResults._build_pr_results election _) as [prr|e]; cbn [bind].
  2:{ do 4 eexists. split; [reflexivity|]. repeat split; auto. discriminate. }
  do 4 eexists. split; [reflexivity|]. split; [reflexivity|]. split; [discriminate|].
  intros _. exists election, (String c s), sk, ksk, ds. auto.
Qed.

End TallyThms.

(** ** From casting to the tally *)

Module CastTallyThm.
Import StoreFacts CastFacts ReceiptFacts.
Import ElectionCrypto Results TallySpec CastTally DictFacts CountFacts.

Lemma cast_fptp_vote_ballot E eid cid cons pk tok rid rh ts tstr w v w' :
  Vote.cast_fptp_vote E eid cid cons pk tok rid rh ts tstr w = (Ok v, w') ->
  VoteData.election_id v = eid /\
  exists ev,
    encrypt_vote E (tick w)
      [("ballot_type", VStr "fptp"); ("candidate_id", VStr cid); ("constituency", VStr cons)]
      pk = Ok ev /\
    VoteData.encrypted_vote v = Some ev.
Proof.
  unfold Vote.cast_fptp_vote. intros H.
  destruct (encrypt_vote E _ _ _) as [ev|] eqn:Hev; [|inv H].
  destruct (Vote.receipt_or_new _ _ _ _ _ _ _) as [[[[ts' rid'] rh'] tstr'] w1] eqn:Hr.
  destruct (Vote.save_new _ _ _ _ _ _ _ _ _ _ _) as [v0 w2] eqn:Hs.
  inv H. apply save_new_spec in Hs.
  destruct Hs as (_ & _ & _ & He & _ & _ & _ & _ & Henc).
  split; [exact He|]. exists ev. auto.
Qed.

Lemma cast_pr_vote_ballot E eid pid pk tok rid rh ts tstr w v w' :
  Vote.cast_pr_vote E eid pid pk tok rid rh ts tstr w = (Ok v, w') ->
  VoteData.election_id v = eid /\
  exists ev,
    encrypt_vote E (tick w) [("ballot_type", VStr "pr"); ("party_id", VStr pid)] pk = Ok ev /\
    VoteData.encrypted_vote v = Some ev.
Proof.
  unfold Vote.cast_pr_vote. intros H.
  destruct (encrypt_vote E _ _ _) as [ev|] eqn:Hev; [|inv H].
  destruct (Vote.receipt_or_new _ _ _ _ _ _ _) as [[[[ts' rid'] rh'] tstr'] w1] eqn:Hr.
  destruct (Vote.save_new _ _ _ _ _ _ _ _ _ _ _) as [v0 w2] eqn:Hs.
  inv H. apply save_new_spec in Hs.
  destruct Hs as (_ & _ & _ & He & _ & _ & _ & _ & Henc).
  split; [exact He|]. exists ev. auto.
Qed.

(** The two records a successful [cast_dual_ballot_with_token] stored. *)
Lemma cast_with_token_ballots E voter eid cid pid tok w msg rcpt voter' w' :
  VoteService.cast_dual_ballot_with_token E voter eid cid pid tok w
  = ((true, msg, rcpt), voter', w') ->
  exists election pk v1 v2 t1 t2 ev1 ev2,
    Election.find_by_election_id w eid = Some election /\
    ElectionData.public_key election = Some pk /\
    votes (db w') = (votes (db w) ++ [v1; v2])%list /\
    VoteData.election_id v1 = eid /\ VoteData.election_id v2 = eid /\
    VoteData.encrypted_vote v1 = Some ev1 /\ VoteData.encrypted_vote v2 = Some ev2 /\
    encrypt_vote E t1
      [("ballot_type", VStr "fptp"); ("candidate_id", VStr cid);
       ("constituency", VStr (VoterData.constituency voter))] pk = Ok ev1 /\
    encrypt_vote E t2 [("ballot_type", VStr "pr"); ("party_id", VStr pid)] pk = Ok ev2.
Proof.
  unfold VoteService.cast_dual_ballot_with_token. intros H.
  destruct (Election.find_by_election_id w eid) as [election|]; [|inv H].
  unfold Election.is_ongoing, Election.has_ended in H.
  destruct (_ && _ && _) eqn:Hongoing; cbn [negb] in H.
  2:{ destruct (_ <? _); inv H. }
  destruct (Voter.has_voted_in voter eid); [inv H|].
  destruct (TokenService.validate_token _ _ _ _ _) as [[valid vmsg] vt] eqn:Hval.
  destruct valid; cbn [negb] in H; [|inv H].
  destruct (TokenService.validate_token_constituency _ _ _) as [cvalid cmsg] eqn:Hcon.
  destruct cvalid; cbn [negb] in H; [|inv H].
  destruct (Election.get_candidate election cid) as [candidate|]; [|inv H].
  destruct (negb (opt_string_eqb _ _)); [inv H|].
  destruct (Election.get_party election pid) as [party|]; [|inv H].
  destruct (truthy (ElectionData.public_key election)) eqn:Htr; cbn [negb] in H; [|inv H].
  destruct (ElectionData.public_key election) as [pk|] eqn:Hpk; [|discriminate Htr].
  unfold Vote.generate_receipt in H. cbn [bump tick db] in H.
  destruct (TokenService.use_token_for_ballot E _ "fptp" _) as [[s1 m1] w3] eqn:Hu1.
  apply use_token_for_ballot_frame in Hu1. destruct Hu1 as (_ & Hvo3 & _).
  cbn [db] in Hvo3.
  destruct s1; cbn [negb] in H; [|inv H].
  destruct (Vote.cast_fptp_vote _ _ _ _ _ _ _ _ _ _ _) as [r1 w4] eqn:Hc1.
  pose proof (cast_fptp_vote_spec _ _ _ _ _ _ _ _ _ _ _ _ _ Hc1) as (_ & Hvo4).
  destruct r1 as [v1|e1]; [|inv H].
  apply cast_fptp_vote_ballot in Hc1. destruct Hc1 as (He1 & ev1 & Hev1 & Henc1).
  destruct Hvo4 as (Hvo4 & _).
  destruct (TokenService.use_token_for_ballot E _ "pr" w4) as [[s2 m2] w5] eqn:Hu2.
  apply use_token_for_ballot_frame in Hu2. destruct Hu2 as (_ & Hvo5 & _).
  destruct s2; cbn [negb] in H; [|inv H].
  destruct (Vote.cast_pr_vote _ _ _ _ _ _ _ _ _ _) as [r2 w6] eqn:Hc2.
  pose proof (cast_pr_vote_spec _ _ _ _ _ _ _ _ _ _ _ _ Hc2) as (_ & Hvo6).
  destruct r2 as [v2|e2]; [|inv H].
  apply cast_pr_vote_ballot in Hc2. destruct Hc2 as (He2 & ev2 & Hev2 & Henc2).
  destruct Hvo6 as (Hvo6 & _).
  destruct (Voter.mark_voted voter eid w6) as [voter1 w7] eqn:Hm.
  apply mark_voted_spec in Hm. destruct Hm as (Hvo7 & _).
  inv H. exists election, pk, v1, v2, (tick w3), (tick w5), ev1, ev2.
  repeat split; auto.
  rewrite Hvo7, Hvo6, Hvo5, Hvo4, Hvo3, <- app_assoc. reflexivity.
Qed.

Lemma mapM_app_ok {A B : Type} (f : A -> result B) l1 l2 r1 r2 :
  mapM f l1 = Ok r1 -> mapM f l2 = Ok r2 -> mapM f (l1 ++ l2) = Ok (r1 ++ r2)%list.
Proof.
  revert r1. induction l1 as [|a l1 IH]; intros r1 H1 H2; cbn [mapM app] in *.
  - injection H1 as <-. exact H2.
  - destruct (f a) as [b|]; cbn [bind] in *; [|discriminate].
    destruct (mapM f l1) as [bs|]; cbn [bind] in *; [|discriminate].
    injection H1 as <-. rewrite (IH bs eq_refl H2). reflexivity.
Qed.

Lemma texts_app l1 l2 : texts (l1 ++ l2) = (texts l1 ++ texts l2)%list.
Proof. unfold texts. apply flat_map_app. Qed.

Lemma count_app {A : Type} (f : A -> bool) l1 l2 :
  count f (l1 ++ l2) = count f l1 + count f l2.
Proof. unfold count. rewrite filter_app, length_app. lia. Qed.

(** A ballot sealed by the cipher of the environment: not empty, and
    opened by the matching keys. *)
Lemma sealed_ballot P (E : Env) (L : ElectionKeys.Library P) tick d keys_json pk sk kpk ksk ev :
  hybrid_cipher E L -> ElectionKeys.codecs_invert L -> ElectionKeys.aes_gcm_opens L ->
  (forall t n, List.length (ElectionKeys.get_random_bytes L t n) = n) ->
  sealed_nonempty L ->
  ElectionKeys.rsa_public_key L keys_json = Ok pk -> ElectionKeys.rsa_key_pair L pk sk ->
  ElectionKeys.kyber_public_key L keys_json = Ok kpk ->
  ElectionKeys.kyber_key_pair L kpk ksk ->
  NoDup (map fst (str_items d)) ->
  encrypt_vote E tick d keys_json = Ok ev ->
  ev <> EmptyString /\ decrypt_vote P ev sk (Some ksk) = Ok (str_items d).
Proof.
  intros Hcipher Hcodecs Haes Hrand Hne Hpk Hrsa Hkpk Hkyber Hnd Hev.
  rewrite Hcipher in Hev.
  destruct (HybridRoundTrip.encrypt_vote_inv P L tick (str_items d) keys_json pk ev Hpk Hev)
    as (kpk' & c & secret & kc & nonce & ct & tag & Hkpk' & Hc & Hk & Ha & ->).
  rewrite Hkpk in Hkpk'. injection Hkpk' as <-.
  split; [apply Hne|].
  apply (HybridRoundTrip.hybrid_package_opens
           P L tick (str_items d) pk sk kpk ksk c secret kc nonce ct tag); assumption.
Qed.

Lemma fptp_ballot_is_fptp c x cid cons :
  is_fptp_for c x (fptp_ballot cid cons)
  = opt_string_eqb (Some cons) c && opt_string_eqb (Some cid) x.
Proof. reflexivity. Qed.

Lemma pr_ballot_is_fptp c x pid : is_fptp_for c x (pr_ballot pid) = false.
Proof. reflexivity. Qed.

Lemma fptp_ballot_is_pr p cid cons : is_pr_for p (fptp_ballot cid cons) = false.
Proof. reflexivity. Qed.

Lemma pr_ballot_is_pr p pid : is_pr_for p (pr_ballot pid) = opt_string_eqb (Some pid) p.
Proof. reflexivity. Qed.

Lemma NoDup3 (a b c : string) : a <> b -> a <> c -> b <> c -> NoDup [a; b; c].
Proof.
  intros Hab Hac Hbc. repeat constructor; cbn; intuition congruence.
Qed.

(** X20: a cast ballot is counted, once, for the choice made.  Under the
    hybrid cipher, after a successful [cast_dual_ballot_with_token] the
    ballots the tally reads for this election are those it read before,
    followed by two more, which decrypt under the election keys to the
    FPTP choice (the candidate, in the constituency of the voter) and the
    PR choice (the party): the count of that candidate and of that party
    grow by one, and no other count changes. *)
Theorem cast_ballot_is_counted
        (P : Primitives) (E : Env) (L : ElectionKeys.Library P)
        (voter : VoterData.t) (eid cid pid tid : string) (w : World)
        (msg : string) (rcpt : option VoteService.receipt_info)
        (voter1 : VoterData.t) (w1 : World)
        (election : ElectionData.t) (keys_json : string)
        (pk sk : RsaKey P) (kpk ksk : list byte) (ds : list package) :
  hybrid_cipher E L -> ElectionKeys.codecs_invert L -> ElectionKeys.aes_gcm_opens L ->
  (forall t n, List.length (ElectionKeys.get_random_bytes L t n) = n) ->
  sealed_nonempty L ->
  Election.find_by_election_id w eid = Some election ->
  ElectionData.public_key election = Some keys_json ->
  ElectionKeys.rsa_public_key L keys_json = Ok pk -> ElectionKeys.rsa_key_pair L pk sk ->
  ElectionKeys.kyber_public_key L keys_json = Ok kpk ->
  ElectionKeys.kyber_key_pair L kpk ksk ->
  VoteService.cast_dual_ballot_with_token E voter eid cid pid (Some tid) w
  = ((true, msg, rcpt), voter1, w1) ->
  mapM (fun ev => decrypt_vote P ev sk (Some ksk)) (ballots eid w) = Ok ds ->
  let ds1 := (ds ++ [fptp_ballot cid (VoterData.constituency voter); pr_ballot pid])%list in
  mapM (fun ev => decrypt_vote P ev sk (Some ksk)) (ballots eid w1) = Ok ds1 /\
  (forall constituency candidate_id,
      count (is_fptp_for constituency candidate_id) ds1
      = count (is_fptp_for constituency candidate_id) ds
        + (if opt_string_eqb (Some (VoterData.constituency voter)) constituency
              && opt_string_eqb (Some cid) candidate_id then 1 else 0)) /\
  (forall party_id,
      count (is_pr_for party_id) ds1
      = count (is_pr_for party_id) ds
        + (if opt_string_eqb (Some pid) party_id then 1 else 0)).
Proof.
  intros Hcipher Hcodecs Haes Hrand Hne Hfind Hkeys Hpk Hrsa Hkpk Hkyber Hcast Hds ds1.
  destruct (cast_with_token_ballots _ _ _ _ _ _ _ _ _ _ _ Hcast)
    as (election' & pk' & v1 & v2 & t1 & t2 & ev1 & ev2 & Hfind' & Hkeys' & Hvotes
        & He1 & He2 & Henc1 & Henc2 & Hev1 & Hev2).
  rewrite Hfind in Hfind'. injection Hfind' as <-.
  rewrite Hkeys in Hkeys'. injection Hkeys' as <-.
  pose proof (fun Hnd => sealed_ballot P E L t1 _ keys_json pk sk kpk ksk ev1
                Hcipher Hcodecs Haes Hrand Hne Hpk Hrsa Hkpk Hkyber Hnd Hev1) as H1.
  destruct H1 as [Hn1 Hd1]; [apply NoDup3; discriminate|].
  pose proof (fun Hnd => sealed_ballot P E L t2 _ keys_json pk sk kpk ksk ev2
                Hcipher Hcodecs Haes Hrand Hne Hpk Hrsa Hkpk Hkyber Hnd Hev2) as H2.
  destruct H2 as [Hn2 Hd2]; [repeat constructor; cbn; intuition congruence|].
  split; [|split].
  - unfold ballots. rewrite Hvotes, filter_app, texts_app.
    apply mapM_app_ok; [exact Hds|].
    cbn [filter]. rewrite He1, He2, String.eqb_refl.
    unfold texts. cbn [flat_map]. rewrite Henc1, Henc2.
    destruct ev1 as [|c1 s1]; [congruence|]. destruct ev2 as [|c2 s2]; [congruence|].
    cbn [app mapM]. rewrite Hd1, Hd2. reflexivity.
  - intros c x. unfold ds1.
    rewrite count_app, !count_cons, fptp_ballot_is_fptp, pr_ballot_is_fptp.
    unfold count. cbn [filter List.length]. lia.
  - intros p. unfold ds1.
    rewrite count_app, !count_cons, fptp_ballot_is_pr, pr_ballot_is_pr.
    unfold count. cbn [filter List.length]. lia.
Qed.

End CastTallyThm.

(** ** One dual ballot per voter *)

Module VoteOnce.
Import StoreFacts CastFacts ElectorSets TokenIssue.

Lemma cast_refused_after_vote E v eid cid pid w :
  Voter.has_voted_in v eid = true ->
  exists m w', VoteService.cast_dual_ballot E v eid cid pid w = ((false, m), v, w') /\
               db w' = db w.
Proof.
  intros Hv. unfold VoteService.cast_dual_ballot, Election.is_ongoing, Election.has_ended.
  destruct (Election.find_by_election_id w eid) as [election|]; [|eauto].
  destruct (_ && _ && _); cbn [negb].
  2:{ destruct (_ <? _); eauto. }
  rewrite Hv. eauto.
Qed.

Lemma cast_with_token_refused_after_vote E v eid cid pid tok w :
  Voter.has_voted_in v eid = true ->
  exists m w',
    VoteService.cast_dual_ballot_with_token E v eid cid pid tok w = ((false, m, None), v, w') /\
    db w' = db w.
Proof.
  intros Hv.
  unfold VoteService.cast_dual_ballot_with_token, Election.is_ongoing, Election.has_ended.
  destruct (Election.find_by_election_id w eid) as [election|]; [|eauto].
  destruct (_ && _ && _); cbn [negb].
  2:{ destruct (_ <? _); eauto. }
  rewrite Hv. eauto.
Qed.

Lemma issue_refused_after_vote E v eid w :
  Voter.has_voted_in v eid = true ->
  exists m w', TokenService.issue_token E v eid w = Some ((false, m, None), v, w') /\
               db w' = db w.
Proof.
  intros Hv. unfold TokenService.issue_token, Election.is_ongoing, Election.has_ended.
  destruct (Election.find_by_election_id w eid) as [election|]; [|eauto].
  destruct (_ && _ && _); cbn [negb].
  2:{ destruct (_ <? _); eauto. }
  rewrite Hv. eauto.
Qed.

(** A successful cast on the token-less path ends with [mark_voted] on a
    voter who had not voted, the voter documents untouched until then. *)
Lemma cast_dual_ballot_marks E voter eid cid pid w msg voter1 w1 :
  VoteService.cast_dual_ballot E voter eid cid pid w = ((true, msg), voter1, w1) ->
  Voter.has_voted_in voter eid = false /\
  exists w3, voters (db w3) = voters (db w) /\
             Voter.mark_voted voter eid w3 = (voter1, w1).
Proof.
  unfold VoteService.cast_dual_ballot, Election.is_ongoing, Election.has_ended. intros H.
  destruct (Election.find_by_election_id w eid) as [election|]; [|inv H].
  destruct (_ && _ && _); cbn [negb] in H.
  2:{ destruct (_ <? _); inv H. }
  destruct (Voter.has_voted_in voter eid) eqn:Hv; [inv H|].
  destruct (Election.get_candidate election cid) as [candidate|]; [|inv H].
  destruct (negb (opt_string_eqb _ _)); [inv H|].
  destruct (Election.get_party election pid) as [party|]; [|inv H].
  destruct (negb (truthy _)); [inv H|].
  destruct (Vote.cast_fptp_vote _ _ _ _ _ _ _ _ _ _ _) as [r1 w2] eqn:Hc1.
  pose proof (cast_fptp_vote_spec _ _ _ _ _ _ _ _ _ _ _ _ _ Hc1) as (Hv2 & _).
  destruct r1 as [v1|e1]; [|inv H].
  destruct (Vote.cast_pr_vote _ _ _ _ _ _ _ _ _ _) as [r2 w3] eqn:Hc2.
  pose proof (cast_pr_vote_spec _ _ _ _ _ _ _ _ _ _ _ _ Hc2) as (Hv3 & _).
  destruct r2 as [v2|e2]; [|inv H].
  destruct (Voter.mark_voted voter eid w3) as [voter' w4] eqn:Hm.
  inv H. split; [reflexivity|]. exists w3. split; [|exact Hm].
  rewrite Hv3, Hv2. reflexivity.
Qed.

Lemma cast_with_token_not_voted E voter eid cid pid tok w msg rcpt voter1 w1 :
  VoteService.cast_dual_ballot_with_token E voter eid cid pid tok w
  = ((true, msg, rcpt), voter1, w1) ->
  Voter.has_voted_in voter eid = false.
Proof.
  unfold VoteService.cast_dual_ballot_with_token, Election.is_ongoing, Election.has_ended.
  intros H.
  destruct (Election.find_by_election_id w eid) as [election|]; [|inv H].
  destruct (_ && _ && _); cbn [negb] in H.
  2:{ destruct (_ <? _); inv H. }
  destruct (Voter.has_voted_in voter eid) eqn:Hv; [inv H|]. reflexivity.
Qed.

(** What [mark_voted] leaves behind for a voter who had not voted. *)
Lemma mark_voted_recorded voter eid w3 voter1 w1 :
  Voter.has_voted_in voter eid = false ->
  Voter.mark_voted voter eid w3 = (voter1, w1) ->
  Voter.has_voted_in voter1 eid = true /\
  forall id d, VoterData._id voter = Some id -> Voter.find_by_id w3 id = Some d ->
    exists d', Voter.find_by_id w1 id = Some d' /\ Voter.has_voted_in d' eid = true.
Proof.
  unfold Voter.mark_voted, Voter.has_voted_in. intros Hv Hm. rewrite Hv in Hm.
  injection Hm as <- <-. split.
  - cbn. apply in_list_In. apply in_or_app. right. left. reflexivity.
  - intros id d Hid Hfind. unfold Voter.find_by_id in *.
    cbn [db set_db set_voters voters].
    assert (Hsame : Voter.same_id voter = fun d => opt_nat_eqb (VoterData._id d) (Some id)).
    { unfold Voter.same_id. rewrite Hid. reflexivity. }
    rewrite Hsame.
    erewrite find_update_one_same; [|intros a; reflexivity|exact Hfind].
    eexists. split; [reflexivity|].
    cbn. apply in_list_In. apply in_or_app. right. left. reflexivity.
Qed.

(** X21: one dual ballot per voter.  After a successful cast, on either
    path, the voter object returned and the voter document re-read from
    the store both record the election; and for every voter object that
    records it, every later cast on either path, and every token request,
    for this election is refused and leaves the database as it was. *)
Theorem one_ballot_per_voter E voter eid cid pid w voter1 w1 :
  (exists msg, VoteService.cast_dual_ballot E voter eid cid pid w = ((true, msg), voter1, w1)) \/
  (exists tok msg rcpt,
      VoteService.cast_dual_ballot_with_token E voter eid cid pid tok w
      = ((true, msg, rcpt), voter1, w1)) ->
  Voter.has_voted_in voter1 eid = true /\
  (forall id d, VoterData._id voter = Some id -> Voter.find_by_id w id = Some d ->
     exists d', Voter.find_by_id w1 id = Some d' /\ Voter.has_voted_in d' eid = true) /\
  (forall v, Voter.has_voted_in v eid = true ->
     forall w2 cid' pid' tok',
       (exists m w3, VoteService.cast_dual_ballot E v eid cid' pid' w2 = ((false, m), v, w3) /\
                     db w3 = db w2) /\
       (exists m w3, VoteService.cast_dual_ballot_with_token E v eid cid' pid' tok' w2
                     = ((false, m, None), v, w3) /\ db w3 = db w2) /\
       (exists m w3, TokenService.issue_token E v eid w2 = Some ((false, m, None), v, w3) /\
                     db w3 = db w2)).
Proof.
  intros H.
  assert (Hmark : Voter.has_voted_in voter eid = false /\
                  exists w3, voters (db w3) = voters (db w) /\
                             Voter.mark_voted voter eid w3 = (voter1, w1)).
  { destruct H as [(msg & H)|(tok & msg & rcpt & H)].
    - apply cast_dual_ballot_marks in H. exact H.
    - split; [eapply cast_with_token_not_voted; exact H|].
      apply ReceiptFacts.cast_with_token_success in H.
      destruct H as (w6 & v1 & v2 & r & _ & Hvoters & _ & _ & _ & _ & _ & Hm).
      exists w6. auto. }
  destruct Hmark as (Hnot & w3 & Hvoters & Hm).
  destruct (mark_voted_recorded voter eid w3 voter1 w1 Hnot Hm) as [Hrec Hdoc].
  split; [exact Hrec|]. split.
  - intros id d Hid Hfind. apply (Hdoc id d Hid).
    unfold Voter.find_by_id in *. rewrite Hvoters. exact Hfind.
  - intros v Hv w2 cid' pid' tok'. split; [|split].
    + apply cast_refused_after_vote, Hv.
    + apply cast_with_token_refused_after_vote, Hv.
    + apply issue_refused_after_vote, Hv.
Qed.

End VoteOnce.

(** ** Test points for the cipher and the tally *)

Module CipherChecks.
Import ElectionCrypto ElectionCryptoFacts ElectionKeys Results TallySpec CipherRuns.

Lemma read_write_str s rest : read_str (write_str s ++ rest) = Some (s, rest).
Proof.
  induction s as [|c s IH]; cbn [write_str append read_str]; [reflexivity|].
  rewrite IH. reflexivity.
Qed.

Lemma read_write_pairs d fuel :
  (String.length (write_pairs d) <= fuel)%nat -> read_pairs fuel (write_pairs d) = Ok d.
Proof.
  revert fuel. induction d as [|[k v] d IH]; intros fuel Hlen.
  - cbn [write_pairs String.length] in Hlen. destruct fuel; [lia|]. reflexivity.
  - cbn [write_pairs String.length] in Hlen. destruct fuel as [|f]; [lia|].
    cbn [write_pairs read_pairs]. rewrite read_write_str, read_write_str.
    rewrite !StringFacts.length_append in Hlen.
    rewrite IH by lia. reflexivity.
Qed.

Lemma loads_dumps d : loads (write_pairs d) = Ok d.
Proof. apply read_write_pairs. lia. Qed.

Lemma plain_codecs : codecs_invert plain_library.
Proof.
  split; [|split].
  - intros b. change (Ok (list_byte_of_string (string_of_list_byte b)) = Ok b).
    rewrite list_byte_of_string_of_list_byte. reflexivity.
  - intros d _. apply loads_dumps.
  - intros d _.
    change (loads (string_of_list_byte (list_byte_of_string (write_pairs d))) = Ok d).
    rewrite string_of_list_byte_of_string. apply loads_dumps.
Qed.

Lemma bytes_eqb_refl x : bytes_eqb x x = true.
Proof. apply bytes_eqb_eq. reflexivity. Qed.

Lemma plain_aes : aes_gcm_opens plain_library.
Proof.
  intros tick key plaintext nonce ciphertext tag H.
  change (Ok ([x00], plaintext, key) = Ok (nonce, ciphertext, tag)) in H.
  injection H as <- <- <-.
  change ((if bytes_eqb key key then Ok plaintext
           else Raise (ValueError "MAC check failed")) = Ok plaintext).
  rewrite bytes_eqb_refl. reflexivity.
Qed.

Lemma strip_app key m : strip key (key ++ m) = Ok m.
Proof.
  unfold strip.
  rewrite firstn_app, Nat.sub_diag, firstn_all, firstn_O, app_nil_r, bytes_eqb_refl.
  rewrite skipn_app, Nat.sub_diag, skipn_all, skipn_O. reflexivity.
Qed.

Lemma plain_rsa k : rsa_key_pair plain_library k k.
Proof.
  intros tick m c H. change (Ok (k ++ m)%list = Ok c) in H.
  injection H as <-. apply strip_app.
Qed.

Lemma plain_kyber k : kyber_key_pair plain_library k k.
Proof.
  intros tick secret c H.
  change (Ok (repeat x2a 32, (k ++ repeat x2a 32)%list) = Ok (secret, c)) in H.
  injection H as <- <-. split.
  - apply strip_app.
  - apply Nat.leb_le. vm_compute. reflexivity.
Qed.

Lemma plain_random t n : List.length (get_random_bytes plain_library t n) = n.
Proof. apply repeat_length. Qed.

Lemma fptp_choice_keys : NoDup (map fst fptp_choice).
Proof.
  unfold fptp_choice. cbn [map fst].
  repeat (constructor;
          [intros H; repeat (destruct H as [H|H]; [discriminate H|]); exact H|]).
  constructor.
Qed.

Lemma encrypt_decrypt_round_trip_plain :
  encrypt_vote plain_library 1 fptp_choice keys_json = Ok (sealed 1 fptp_choice) /\
  decrypt_vote plain (sealed 1 fptp_choice) rsa_key (Some (snd kyber_keys)) = Ok fptp_choice.
Proof.
  split; [vm_compute; reflexivity|].
  apply (HybridRoundTrip.encrypt_decrypt_round_trip
           plain plain_library 1%nat fptp_choice keys_json rsa_key rsa_key
           (fst kyber_keys) (snd kyber_keys) (sealed 1 fptp_choice)).
  - exact plain_codecs.
  - exact plain_aes.
  - exact plain_random.
  - vm_compute. reflexivity.
  - apply plain_rsa.
  - vm_compute. reflexivity.
  - apply plain_kyber.
  - exact fptp_choice_keys.
  - vm_compute. reflexivity.
Defined.

Lemma rsa_key_alone_opens_ballot_plain :
  encrypt_vote plain_library 1 fptp_choice keys_json = Ok (sealed 1 fptp_choice) /\
  decrypt_vote plain (sealed 1 fptp_choice) rsa_key None = Ok fptp_choice.
Proof.
  split; [vm_compute; reflexivity|].
  apply (HybridRoundTrip.rsa_key_alone_opens_ballot
           plain plain_library 1%nat fptp_choice keys_json rsa_key rsa_key
           (sealed 1 fptp_choice)).
  - exact plain_codecs.
  - exact plain_aes.
  - vm_compute. reflexivity.
  - apply plain_rsa.
  - exact fptp_choice_keys.
  - vm_compute. reflexivity.
Defined.

Lemma typed_shares_distinct : NoDup typed_shares.
Proof.
  apply (NoDup_map_inv index).
  replace (map index typed_shares) with [2; 4; 5] by (vm_compute; reflexivity).
  repeat (constructor;
          [intros H; repeat (destruct H as [H|H]; [discriminate H|]); exact H|]).
  constructor.
Qed.

Lemma typed_shares_incl : incl typed_shares key_shares.
Proof.
  intros x Hx. unfold typed_shares in Hx. apply in_flat_map in Hx.
  destruct Hx as (k & _ & Hk).
  destruct (nth_error key_shares k) as [s|] eqn:Hs; [|destruct Hk].
  destruct Hk as [<-|[]]. eapply nth_error_In. exact Hs.
Qed.

Lemma shares_recover_private_keys_plain :
  generate_election_keys plain_library default_crypto 7 = Ok (keys_json, key_shares, key_bundle) /\
  reconstruct_private_keys plain_library default_crypto typed_pairs key_bundle
  = Some (Ok (rsa_key, snd kyber_keys)).
Proof.
  split; [vm_compute; reflexivity|].
  destruct (KeyEscrow.shares_recover_private_keys
              plain plain_library 3 5 default_crypto 7%nat keys_json key_shares key_bundle)
    as (_ & Hrecover & _).
  - exact plain_codecs.
  - exact plain_aes.
  - exact plain_random.
  - intros k. reflexivity.
  - reflexivity.
  - lia.
  - vm_compute. reflexivity.
  - apply (Hrecover typed_shares typed_shares_distinct typed_shares_incl).
    vm_compute. reflexivity.
Defined.

Lemma tally_counts_every_ballot_plain :
  mapM (fun ev => decrypt_vote plain ev rsa_key (Some (snd kyber_keys)))
       (ballots Runs.eid tally_world)
  = Ok [fptp_choice; pr_choice; fptp_choice] /\
  count (is_fptp_for (Some "Kathmandu") (Some "CND-AAAAAA"))
        [fptp_choice; pr_choice; fptp_choice] = 2 /\
  exists fptp_counts pr_counts,
    (forall constituency candidate_id,
        FptpResults.get (FptpResults.get fptp_counts constituency []) candidate_id 0
        = count (is_fptp_for constituency candidate_id)
                [fptp_choice; pr_choice; fptp_choice]) /\
    (forall party_id,
        FptpResults.get pr_counts party_id 0
        = count (is_pr_for party_id) [fptp_choice; pr_choice; fptp_choice]) /\
    PrResults.sum_values pr_counts = count is_pr [fptp_choice; pr_choice; fptp_choice] /\
    decrypt_and_get_results Scenario.env plain_library Runs.eid typed_pairs tally_world
    = Some (match PrResults._build_pr_results ended_election pr_counts with
            | Ok pr_results =>
                (true, "Results decrypted successfully",
                 Some {| fptp := FptpResults._build_fptp_results ended_election fptp_counts;
                         pr := pr_results;
                         election := ended_election |})
            | Raise e =>
                (false, "Failed to decrypt results: " ++ exn_str e, None)
            end, bump tally_world).
Proof.
  assert (Hds : mapM (fun ev => decrypt_vote plain ev rsa_key (Some (snd kyber_keys)))
                     (ballots Runs.eid tally_world)
                = Ok [fptp_choice; pr_choice; fptp_choice])
    by (vm_compute; reflexivity).
  split; [exact Hds|]. split; [vm_compute; reflexivity|].
  destruct (TallyThms.tally_counts_every_ballot
              plain Scenario.env plain_library Runs.eid typed_pairs tally_world
              ended_election key_bundle rsa_key (snd kyber_keys))
    as [_ Hok].
  - reflexivity.
  - vm_compute. reflexivity.
  - reflexivity.
  - vm_compute. discriminate.
  - vm_compute. reflexivity.
  - exact (Hok _ Hds).
Defined.

Lemma plain_cipher : CastTally.hybrid_cipher cipher_env plain_library.
Proof. intros tick vote_data public_key. reflexivity. Qed.

Lemma plain_sealed_nonempty : CastTally.sealed_nonempty plain_library.
Proof.
  intros d.
  change (string_of_list_byte (list_byte_of_string (write_pairs d)) <> EmptyString).
  rewrite string_of_list_byte_of_string. destruct d as [|[k v] d]; discriminate.
Qed.

Lemma open_cast_succeeds :
  VoteService.cast_dual_ballot_with_token cipher_env (snd (fst open_issue)) Runs.eid
    Runs.cid Runs.pid (Some open_token) (snd open_issue)
  = ((true, open_cast_message, open_cast_receipt), snd (fst open_cast), snd open_cast).
Proof. vm_compute. reflexivity. Qed.

Lemma cast_ballot_is_counted_plain :
  mapM (fun ev => decrypt_vote plain ev rsa_key (Some (snd kyber_keys)))
       (ballots Runs.eid (snd open_cast))
  = Ok [CastTally.fptp_ballot Runs.cid "Kathmandu"; CastTally.pr_ballot Runs.pid] /\
  (forall constituency candidate_id,
      count (is_fptp_for constituency candidate_id)
            [CastTally.fptp_ballot Runs.cid "Kathmandu"; CastTally.pr_ballot Runs.pid]
      = count (is_fptp_for constituency candidate_id) []
        + (if opt_string_eqb (Some "Kathmandu") constituency
              && opt_string_eqb (Some Runs.cid) candidate_id then 1 else 0)) /\
  (forall party_id,
      count (is_pr_for party_id)
            [CastTally.fptp_ballot Runs.cid "Kathmandu"; CastTally.pr_ballot Runs.pid]
      = count (is_pr_for party_id) []
        + (if opt_string_eqb (Some Runs.pid) party_id then 1 else 0)).
Proof.
  apply (CastTallyThm.cast_ballot_is_counted
           plain cipher_env plain_library (snd (fst open_issue)) Runs.eid Runs.cid Runs.pid
           open_token (snd open_issue) open_cast_message open_cast_receipt
           (snd (fst open_cast)) (snd open_cast) open_election keys_json
           rsa_key rsa_key (fst kyber_keys) (snd kyber_keys) []).
  - exact plain_cipher.
  - exact plain_codecs.
  - exact plain_aes.
  - exact plain_random.
  - exact plain_sealed_nonempty.
  - vm_compute. reflexivity.
  - reflexivity.
  - vm_compute. reflexivity.
  - apply plain_rsa.
  - vm_compute. reflexivity.
  - apply plain_kyber.
  - exact open_cast_succeeds.
  - vm_compute. reflexivity.
Defined.

End CipherChecks.

Module VoteOnceChecks.
Import Scenario ScenarioRun Runs MoreRuns.

Lemma one_ballot_per_voter_run :
  Voter.has_voted_in voter2 eid = true /\
  (forall id d, VoterData._id voter1 = Some id -> Voter.find_by_id world1 id = Some d ->
     exists d', Voter.find_by_id world2 id = Some d' /\ Voter.has_voted_in d' eid = true) /\
  (forall v, Voter.has_voted_in v eid = true ->
     forall w2 cid' pid' tok',
       (exists m w3, VoteService.cast_dual_ballot env v eid cid' pid' w2 = ((false, m), v, w3) /\
                     db w3 = db w2) /\
       (exists m w3, VoteService.cast_dual_ballot_with_token env v eid cid' pid' tok' w2
                     = ((false, m, None), v, w3) /\ db w3 = db w2) /\
       (exists m w3, TokenService.issue_token env v eid w2 = Some ((false, m, None), v, w3) /\
                     db w3 = db w2)).
Proof.
  apply (VoteOnce.one_ballot_per_voter env voter1 eid cid pid world1 voter2 world2).
  right. exists (Some token1_id), cast_message, cast_receipt.
  exact StoreMoreChecks.cast_succeeds.
Defined.

End VoteOnceChecks.
